(** * The fair scheduling class of kernel/sched/qhmp_fair.c

    A shallow embedding of the parts of the CFS/HMP scheduler that the
    specification makes claims about, followed by the theorems that settle
    them.  The embedding follows the 64-bit SMP build of the file
    (CONFIG_64BIT, CONFIG_SMP, CONFIG_SCHED_HMP, CONFIG_FAIR_GROUP_SCHED,
    CONFIG_CFS_BANDWIDTH): [unsigned long] and [u64] are 64 bits wide,
    [unsigned int] and [u32] are 32 bits wide.

    Machine integers are values of [Z]; every operation that can wrap in C is
    followed by an explicit reduction.  Pointers to scheduling entities and to
    run queues are addresses ([ptr]); the structures they point to live in a
    store ([mem]), so that aliasing between [cfs_rq->curr], the buddies and
    the tree nodes is the aliasing of the C code. *)

From Stdlib Require Import ZArith List Bool Lia.
Import ListNotations.
Local Open Scope Z_scope.

(** ** Fixed-width integers *)

Module Int.

Definition u64 (x : Z) : Z := x mod 2 ^ 64.
Definition u32 (x : Z) : Z := x mod 2 ^ 32.

(** The cast [(s64)x] of an unsigned 64-bit value. *)
Definition s64 (x : Z) : Z :=
  let y := x mod 2 ^ 64 in if y <? 2 ^ 63 then y else y - 2 ^ 64.

(** The cast [(int)x] of an unsigned 32-bit value. *)
Definition s32 (x : Z) : Z :=
  let y := x mod 2 ^ 32 in if y <? 2 ^ 31 then y else y - 2 ^ 32.

Definition is_u64 (x : Z) : Prop := 0 <= x < 2 ^ 64.
Definition is_u32 (x : Z) : Prop := 0 <= x < 2 ^ 32.

(** Modelled from the spec: [mul_u64_u32_shr] lives in linux/math64.h, which
    is not part of the file; it is the "fixed-point multiply-shift" of the
    virtual-time engine: the full 96-bit product shifted right, truncated to
    64 bits. *)
Definition mul_u64_u32_shr (a mul shift : Z) : Z :=
  u64 (Z.shiftr (a * mul) shift).

End Int.

(** ** Load weights and the scaled division [__calc_delta] *)

Module Weight.
Import Int.

(** [struct load_weight]: the weight and the cached 32-bit inverse. *)
Record load_weight := mk_lw { weight : Z; inv_weight : Z }.

(** Modelled from the spec: [scale_load_down], [NICE_0_LOAD] come from
    kernel/sched/sched.h, which is not part of the file.  The build keeps
    SCHED_LOAD_RESOLUTION at 0, so that loads are not rescaled and the
    reference weight is 1024. *)
Definition scale_load_down (w : Z) : Z := w.
Definition NICE_0_LOAD : Z := 1024.

Definition WMULT_CONST : Z := 2 ^ 32 - 1.
Definition WMULT_SHIFT : Z := 32.

Definition update_load_add (lw : load_weight) (inc : Z) : load_weight :=
  mk_lw (u64 (weight lw + inc)) 0.

Definition update_load_sub (lw : load_weight) (dec : Z) : load_weight :=
  mk_lw (u64 (weight lw - dec)) 0.

Definition update_load_set (lw : load_weight) (w : Z) : load_weight :=
  mk_lw w 0.

Definition __update_inv_weight (lw : load_weight) : load_weight :=
  if negb (inv_weight lw =? 0) then lw
  else
    let w := scale_load_down (weight lw) in
    if WMULT_CONST <=? w then mk_lw (weight lw) 1
    else if w =? 0 then mk_lw (weight lw) WMULT_CONST
    else mk_lw (weight lw) (WMULT_CONST / w).

(** [while (fact >> 32) { fact >>= 1; shift--; }]; a 64-bit [fact] leaves the
    loop after at most 32 rounds. *)
Fixpoint shift_down (fuel : nat) (fact shift : Z) : Z * Z :=
  match fuel with
  | O => (fact, shift)
  | S fuel' =>
      if Z.shiftr fact 32 =? 0 then (fact, shift)
      else shift_down fuel' (Z.shiftr fact 1) (shift - 1)
  end.

(** [__calc_delta]: [delta_exec * weight / lw.weight], computed as
    [(delta_exec * (weight * lw->inv_weight)) >> WMULT_SHIFT].  The result
    comes with the load weight whose inverse has been filled in. *)
Definition __calc_delta (delta_exec weight : Z) (lw : load_weight)
  : Z * load_weight :=
  let fact := u64 (scale_load_down weight) in
  let shift := WMULT_SHIFT in
  let lw' := __update_inv_weight lw in
  let '(fact, shift) := shift_down 64 fact shift in
  let fact := u64 (u32 fact * inv_weight lw') in
  let '(fact, shift) := shift_down 64 fact shift in
  (mul_u64_u32_shr delta_exec fact shift, lw').

End Weight.

(** ** Tunables and scheduler features *)

Module Tunables.
Import Int.

(** The sysctl variables at the head of the file.  [sched_nr_latency] is
    "kept at sysctl_sched_latency / sysctl_sched_min_granularity". *)
Record sysctl := mk_sysctl {
  sysctl_sched_latency : Z;
  sysctl_sched_min_granularity : Z;
  sched_nr_latency : Z;
  sysctl_sched_wakeup_granularity : Z;
  sysctl_sched_cfs_bandwidth_slice : Z
}.

(** The initial values of the file (one CPU: scaling factor 1). *)
Definition default_sysctl : sysctl :=
  mk_sysctl 6000000 750000 8 1000000 5000.

(** The [sched_feat] bits that the modelled functions consult.  Their
    defaults are set in kernel/sched/features.h, outside the file, so the
    model takes them as inputs. *)
Record features := mk_features {
  START_DEBIT : bool;
  GENTLE_FAIR_SLEEPERS : bool;
  STRICT_SKIP_BUDDY : bool
}.

(** [__sched_period]: [p = (nr <= nl) ? l : l*nr/nl]. *)
Definition __sched_period (sc : sysctl) (nr_running : Z) : Z :=
  if sched_nr_latency sc <? nr_running
  then u64 (nr_running * sysctl_sched_min_granularity sc)
  else sysctl_sched_latency sc.

(** The tunables are [unsigned int] variables. *)
Definition sysctl_ok (sc : sysctl) : Prop :=
  is_u32 (sysctl_sched_latency sc) /\
  is_u32 (sysctl_sched_min_granularity sc) /\
  is_u32 (sched_nr_latency sc) /\
  is_u32 (sysctl_sched_wakeup_granularity sc) /\
  is_u32 (sysctl_sched_cfs_bandwidth_slice sc).

End Tunables.

(** ** Scheduling entities, run queues and the store *)

Module Cfs.
Import Int Weight Tunables.

(** Addresses of [struct sched_entity] and [struct cfs_rq] objects; the null
    pointer is [None] at type [option ptr]. *)
Definition ptr := nat.

Definition ptr_eqb (a b : option ptr) : bool :=
  match a, b with
  | None, None => true
  | Some x, Some y => Nat.eqb x y
  | _, _ => false
  end.

(** The fields of [struct sched_entity] that the modelled functions touch.
    [cfs_rq_of] is the field [se->cfs_rq] ("runqueue on which this entity is
    (to be) queued"). *)
Record sched_entity := mk_se {
  load : load_weight;
  vruntime : Z;
  sum_exec_runtime : Z;
  prev_sum_exec_runtime : Z;
  exec_start : Z;
  on_rq : bool;
  depth : nat;
  parent : option ptr;
  cfs_rq_of : ptr
}.

(** [tasks_timeline]: the binary search tree of queued entities.  Node
    colours are left out: they are read and written by lib/rbtree.c only. *)
Inductive rb_tree : Type :=
| rb_nil : rb_tree
| rb_node : rb_tree -> ptr -> rb_tree -> rb_tree.

(** The fields of [struct cfs_rq] that the modelled functions touch.
    [clock_task] stands for [rq_clock_task(rq_of(cfs_rq))] and [need_resched]
    for the request that [resched_curr(rq_of(cfs_rq))] raises. *)
Record cfs_rq := mk_rq {
  rq_load : load_weight;
  nr_running : Z;
  min_vruntime_of : Z;
  tasks_timeline : rb_tree;
  rb_leftmost : option ptr;
  curr : option ptr;
  next : option ptr;
  last : option ptr;
  skip : option ptr;
  clock_task : Z;
  need_resched : bool
}.

Record mem := mk_mem {
  se_at : ptr -> sched_entity;
  rq_at : ptr -> cfs_rq
}.

Definition upd_se (m : mem) (p : ptr) (f : sched_entity -> sched_entity) : mem :=
  mk_mem (fun a => if Nat.eqb a p then f (se_at m p) else se_at m a) (rq_at m).

Definition upd_rq (m : mem) (q : ptr) (f : cfs_rq -> cfs_rq) : mem :=
  mk_mem (se_at m) (fun a => if Nat.eqb a q then f (rq_at m q) else rq_at m a).

Definition set_load (lw : load_weight) (e : sched_entity) : sched_entity :=
  mk_se lw (vruntime e) (sum_exec_runtime e) (prev_sum_exec_runtime e)
        (exec_start e) (on_rq e) (depth e) (parent e) (cfs_rq_of e).
Definition set_vruntime (v : Z) (e : sched_entity) : sched_entity :=
  mk_se (load e) v (sum_exec_runtime e) (prev_sum_exec_runtime e)
        (exec_start e) (on_rq e) (depth e) (parent e) (cfs_rq_of e).
Definition set_sum_exec_runtime (v : Z) (e : sched_entity) : sched_entity :=
  mk_se (load e) (vruntime e) v (prev_sum_exec_runtime e)
        (exec_start e) (on_rq e) (depth e) (parent e) (cfs_rq_of e).
Definition set_exec_start (v : Z) (e : sched_entity) : sched_entity :=
  mk_se (load e) (vruntime e) (sum_exec_runtime e) (prev_sum_exec_runtime e)
        v (on_rq e) (depth e) (parent e) (cfs_rq_of e).
Definition set_on_rq (b : bool) (e : sched_entity) : sched_entity :=
  mk_se (load e) (vruntime e) (sum_exec_runtime e) (prev_sum_exec_runtime e)
        (exec_start e) b (depth e) (parent e) (cfs_rq_of e).
Definition set_depth (d : nat) (e : sched_entity) : sched_entity :=
  mk_se (load e) (vruntime e) (sum_exec_runtime e) (prev_sum_exec_runtime e)
        (exec_start e) (on_rq e) d (parent e) (cfs_rq_of e).

Definition set_rq_load (lw : load_weight) (r : cfs_rq) : cfs_rq :=
  mk_rq lw (nr_running r) (min_vruntime_of r) (tasks_timeline r)
        (rb_leftmost r) (curr r) (next r) (last r) (skip r) (clock_task r)
        (need_resched r).
Definition set_nr_running (n : Z) (r : cfs_rq) : cfs_rq :=
  mk_rq (rq_load r) n (min_vruntime_of r) (tasks_timeline r)
        (rb_leftmost r) (curr r) (next r) (last r) (skip r) (clock_task r)
        (need_resched r).
Definition set_min_vruntime (v : Z) (r : cfs_rq) : cfs_rq :=
  mk_rq (rq_load r) (nr_running r) v (tasks_timeline r)
        (rb_leftmost r) (curr r) (next r) (last r) (skip r) (clock_task r)
        (need_resched r).
Definition set_timeline (t : rb_tree) (lm : option ptr) (r : cfs_rq) : cfs_rq :=
  mk_rq (rq_load r) (nr_running r) (min_vruntime_of r) t
        lm (curr r) (next r) (last r) (skip r) (clock_task r)
        (need_resched r).
Definition set_next (p : option ptr) (r : cfs_rq) : cfs_rq :=
  mk_rq (rq_load r) (nr_running r) (min_vruntime_of r) (tasks_timeline r)
        (rb_leftmost r) (curr r) p (last r) (skip r) (clock_task r)
        (need_resched r).
Definition set_last (p : option ptr) (r : cfs_rq) : cfs_rq :=
  mk_rq (rq_load r) (nr_running r) (min_vruntime_of r) (tasks_timeline r)
        (rb_leftmost r) (curr r) (next r) p (skip r) (clock_task r)
        (need_resched r).
Definition set_skip (p : option ptr) (r : cfs_rq) : cfs_rq :=
  mk_rq (rq_load r) (nr_running r) (min_vruntime_of r) (tasks_timeline r)
        (rb_leftmost r) (curr r) (next r) (last r) p (clock_task r)
        (need_resched r).
Definition set_clock_task (c : Z) (r : cfs_rq) : cfs_rq :=
  mk_rq (rq_load r) (nr_running r) (min_vruntime_of r) (tasks_timeline r)
        (rb_leftmost r) (curr r) (next r) (last r) (skip r) c
        (need_resched r).

(** [resched_curr(rq_of(cfs_rq))] *)
Definition resched_curr (r : cfs_rq) : cfs_rq :=
  mk_rq (rq_load r) (nr_running r) (min_vruntime_of r) (tasks_timeline r)
        (rb_leftmost r) (curr r) (next r) (last r) (skip r) (clock_task r)
        true.

(** *** Virtual-runtime comparisons *)

Definition max_vruntime (max_vruntime vruntime : Z) : Z :=
  let delta := s64 (vruntime - max_vruntime) in
  if 0 <? delta then vruntime else max_vruntime.

Definition min_vruntime (min_vruntime vruntime : Z) : Z :=
  let delta := s64 (vruntime - min_vruntime) in
  if delta <? 0 then vruntime else min_vruntime.

Definition entity_before (a b : sched_entity) : bool :=
  s64 (vruntime a - vruntime b) <? 0.

(** [update_min_vruntime] *)
Definition update_min_vruntime (m : mem) (q : ptr) : mem :=
  let r := rq_at m q in
  let vruntime0 := min_vruntime_of r in
  let vruntime1 :=
    match curr r with
    | Some c => vruntime (se_at m c)
    | None => vruntime0
    end in
  let vruntime2 :=
    match rb_leftmost r with
    | Some l =>
        match curr r with
        | None => vruntime (se_at m l)
        | Some _ => min_vruntime vruntime1 (vruntime (se_at m l))
        end
    | None => vruntime1
    end in
  upd_rq m q (set_min_vruntime (max_vruntime (min_vruntime_of r) vruntime2)).

(** *** The timeline tree *)

Fixpoint inorder (t : rb_tree) : list ptr :=
  match t with
  | rb_nil => []
  | rb_node l e r => inorder l ++ e :: inorder r
  end.

(** The descent of [__enqueue_entity] followed by [rb_link_node]: the new
    node is hung at the empty link the loop stops at.  The second component
    is the [leftmost] flag of the loop. *)
Fixpoint rb_link (m : mem) (t : rb_tree) (se : ptr) : rb_tree * bool :=
  match t with
  | rb_nil => (rb_node rb_nil se rb_nil, true)
  | rb_node l e r =>
      if entity_before (se_at m se) (se_at m e)
      then let '(l', leftmost) := rb_link m l se in (rb_node l' e r, leftmost)
      else let '(r', _) := rb_link m r se in (rb_node l e r', false)
  end.

(** Modelled from the spec: [rb_insert_color], [rb_erase] and [rb_next] are
    functions of lib/rbtree.c, which is not part of the file.  The queue is
    "a self-balancing tree" ordered by virtual runtime: rebalancing recolours
    and rotates, which leaves the left-to-right sequence of the nodes as it
    is, erasing takes one node out of that sequence, and [rb_next] is the
    successor in it.  The model keeps the shape that linking produces. *)
Definition rb_insert_color (t : rb_tree) : rb_tree := t.

Fixpoint rb_join (l r : rb_tree) : rb_tree :=
  match l with
  | rb_nil => r
  | rb_node ll e lr => rb_node ll e (rb_join lr r)
  end.

Fixpoint rb_erase (t : rb_tree) (se : ptr) : rb_tree :=
  match t with
  | rb_nil => rb_nil
  | rb_node l e r =>
      if Nat.eqb e se then rb_join l r
      else rb_node (rb_erase l se) e (rb_erase r se)
  end.

Fixpoint successor (l : list ptr) (se : ptr) : option ptr :=
  match l with
  | [] => None
  | e :: rest => if Nat.eqb e se then hd_error rest else successor rest se
  end.

Definition rb_next (t : rb_tree) (se : ptr) : option ptr :=
  successor (inorder t) se.

(** [__enqueue_entity] *)
Definition __enqueue_entity (m : mem) (q : ptr) (se : ptr) : mem :=
  let r := rq_at m q in
  let '(t, leftmost) := rb_link m (tasks_timeline r) se in
  let lm := if leftmost then Some se else rb_leftmost r in
  upd_rq m q (set_timeline (rb_insert_color t) lm).

(** [__dequeue_entity] *)
Definition __dequeue_entity (m : mem) (q : ptr) (se : ptr) : mem :=
  let r := rq_at m q in
  let lm := if ptr_eqb (rb_leftmost r) (Some se)
            then rb_next (tasks_timeline r) se
            else rb_leftmost r in
  upd_rq m q (set_timeline (rb_erase (tasks_timeline r) se) lm).

Definition __pick_first_entity (m : mem) (q : ptr) : option ptr :=
  rb_leftmost (rq_at m q).

Definition __pick_next_entity (m : mem) (q : ptr) (se : ptr) : option ptr :=
  rb_next (tasks_timeline (rq_at m q)) se.

(** *** Slices *)

(** The body of the [for_each_sched_entity] loop of [sched_slice].  The walk
    up the parents is total in C because the group hierarchy is a tree; the
    model bounds it by [fuel] and answers [None] when the chain is longer. *)
Fixpoint sched_slice_walk (fuel : nat) (m : mem) (se : option ptr) (slice : Z)
  : option (Z * mem) :=
  match se with
  | None => Some (slice, m)
  | Some p =>
      match fuel with
      | O => None
      | S fuel' =>
          let e := se_at m p in
          let q := cfs_rq_of e in
          if on_rq e then
            let '(s, lw) :=
              __calc_delta slice (weight (load e)) (rq_load (rq_at m q)) in
            sched_slice_walk fuel' (upd_rq m q (set_rq_load lw)) (parent e) s
          else
            let lw := update_load_add (rq_load (rq_at m q)) (weight (load e)) in
            let '(s, _) := __calc_delta slice (weight (load e)) lw in
            sched_slice_walk fuel' m (parent e) s
      end
  end.

(** [sched_slice]: [s = p*P[w/rw]].  [se->depth] is the length of the parent
    chain above [se], so [depth + 1] rounds visit all of it. *)
Definition sched_slice (sc : sysctl) (m : mem) (q : ptr) (se : ptr)
  : option (Z * mem) :=
  let e := se_at m se in
  let slice :=
    __sched_period sc
      (u32 (nr_running (rq_at m q) + (if on_rq e then 0 else 1))) in
  sched_slice_walk (S (depth e)) m (Some se) slice.

(** [calc_delta_fair]: [delta /= w] *)
Definition calc_delta_fair (m : mem) (delta : Z) (se : ptr) : Z * mem :=
  let e := se_at m se in
  if negb (weight (load e) =? NICE_0_LOAD) then
    let '(d, lw) := __calc_delta delta NICE_0_LOAD (load e) in
    (d, upd_se m se (set_load lw))
  else (delta, m).

(** [sched_vslice]: [vs = s/w] *)
Definition sched_vslice (sc : sysctl) (m : mem) (q : ptr) (se : ptr)
  : option (Z * mem) :=
  match sched_slice sc m q se with
  | Some (s, m') => Some (calc_delta_fair m' s se)
  | None => None
  end.

(** *** Run-time accounting and placement *)

(** [update_curr].  The queue is one without a bandwidth limit
    ([runtime_enabled] is 0, its initial value), so that
    [account_cfs_rq_runtime] returns at once; the statistics and the
    per-task accounting calls write no field of the model. *)
Definition update_curr (m : mem) (q : ptr) : mem :=
  match curr (rq_at m q) with
  | None => m
  | Some c =>
      let now := clock_task (rq_at m q) in
      let delta_exec := u64 (now - exec_start (se_at m c)) in
      if s64 delta_exec <=? 0 then m
      else
        let m := upd_se m c (set_exec_start now) in
        let m := upd_se m c (fun e =>
                   set_sum_exec_runtime (u64 (sum_exec_runtime e + delta_exec)) e) in
        let '(d, m) := calc_delta_fair m delta_exec c in
        let m := upd_se m c (fun e => set_vruntime (u64 (vruntime e + d)) e) in
        update_min_vruntime m q
  end.

(** [place_entity] *)
Definition place_entity (sc : sysctl) (ft : features) (m : mem) (q : ptr)
  (se : ptr) (initial : bool) : option mem :=
  let vruntime0 := min_vruntime_of (rq_at m q) in
  match (if initial && START_DEBIT ft then
           match sched_vslice sc m q se with
           | Some (vs, m') => Some (u64 (vruntime0 + vs), m')
           | None => None
           end
         else Some (vruntime0, m)) with
  | None => None
  | Some (vruntime1, m) =>
      let vruntime2 :=
        if negb initial then
          let thresh := sysctl_sched_latency sc in
          let thresh := if GENTLE_FAIR_SLEEPERS ft
                        then Z.shiftr thresh 1 else thresh in
          u64 (vruntime1 - thresh)
        else vruntime1 in
      Some (upd_se m se (fun e =>
              set_vruntime (max_vruntime (vruntime e) vruntime2) e))
  end.

(** [account_entity_enqueue] and [account_entity_dequeue]; the copy of the
    weight kept in [rq_of(cfs_rq)->load] and the task list are outside the
    model. *)
Definition account_entity_enqueue (m : mem) (q : ptr) (se : ptr) : mem :=
  let w := weight (load (se_at m se)) in
  let m := upd_rq m q (fun r => set_rq_load (update_load_add (rq_load r) w) r) in
  upd_rq m q (fun r => set_nr_running (u32 (nr_running r + 1)) r).

Definition account_entity_dequeue (m : mem) (q : ptr) (se : ptr) : mem :=
  let w := weight (load (se_at m se)) in
  let m := upd_rq m q (fun r => set_rq_load (update_load_sub (rq_load r) w) r) in
  upd_rq m q (fun r => set_nr_running (u32 (nr_running r - 1)) r).

(** *** Buddies *)

Fixpoint __clear_buddies_last (fuel : nat) (m : mem) (se : option ptr)
  : option mem :=
  match se with
  | None => Some m
  | Some p =>
      match fuel with
      | O => None
      | S fuel' =>
          let q := cfs_rq_of (se_at m p) in
          if negb (ptr_eqb (last (rq_at m q)) (Some p)) then Some m
          else __clear_buddies_last fuel' (upd_rq m q (set_last None))
                 (parent (se_at m p))
      end
  end.

Fixpoint __clear_buddies_next (fuel : nat) (m : mem) (se : option ptr)
  : option mem :=
  match se with
  | None => Some m
  | Some p =>
      match fuel with
      | O => None
      | S fuel' =>
          let q := cfs_rq_of (se_at m p) in
          if negb (ptr_eqb (next (rq_at m q)) (Some p)) then Some m
          else __clear_buddies_next fuel' (upd_rq m q (set_next None))
                 (parent (se_at m p))
      end
  end.

Fixpoint __clear_buddies_skip (fuel : nat) (m : mem) (se : option ptr)
  : option mem :=
  match se with
  | None => Some m
  | Some p =>
      match fuel with
      | O => None
      | S fuel' =>
          let q := cfs_rq_of (se_at m p) in
          if negb (ptr_eqb (skip (rq_at m q)) (Some p)) then Some m
          else __clear_buddies_skip fuel' (upd_rq m q (set_skip None))
                 (parent (se_at m p))
      end
  end.

Definition chain_fuel (m : mem) (se : option ptr) : nat :=
  match se with
  | Some p => S (depth (se_at m p))
  | None => O
  end.

Definition clear_buddies (m : mem) (q : ptr) (se : option ptr) : option mem :=
  let fuel := chain_fuel m se in
  match (if ptr_eqb (last (rq_at m q)) se
         then __clear_buddies_last fuel m se else Some m) with
  | None => None
  | Some m =>
      match (if ptr_eqb (next (rq_at m q)) se
             then __clear_buddies_next fuel m se else Some m) with
      | None => None
      | Some m =>
          if ptr_eqb (skip (rq_at m q)) se
          then __clear_buddies_skip fuel m se else Some m
      end
  end.

(** *** Enqueue and dequeue *)

(** The bits of the [flags] argument that [enqueue_entity] and
    [dequeue_entity] read (their numeric values are set in sched.h). *)
Record enqueue_flags := mk_enq_flags {
  ENQUEUE_WAKEUP : bool;
  ENQUEUE_WAKING : bool;
  ENQUEUE_MIGRATING : bool
}.

Record dequeue_flags := mk_deq_flags {
  DEQUEUE_SLEEP : bool;
  DEQUEUE_MIGRATING : bool
}.

(** [enqueue_entity], for a queue of the root task group without a bandwidth
    limit: [update_cfs_shares] finds no owning group entity and returns,
    [check_enqueue_throttle] returns because bandwidth control is unused, and
    the load-average and statistics calls write no field of the model. *)
Definition enqueue_entity (sc : sysctl) (ft : features) (m : mem) (q : ptr)
  (se : ptr) (flags : enqueue_flags) : option mem :=
  let m :=
    if negb (ENQUEUE_WAKEUP flags) || ENQUEUE_WAKING flags then
      upd_se m se (fun e =>
        set_vruntime (u64 (vruntime e + min_vruntime_of (rq_at m q))) e)
    else m in
  let m := update_curr m q in
  let m := account_entity_enqueue m q se in
  match (if ENQUEUE_WAKEUP flags
         then place_entity sc ft m q se false else Some m) with
  | None => None
  | Some m =>
      let d := match parent (se_at m se) with
               | Some pp => S (depth (se_at m pp))
               | None => O
               end in
      let m := upd_se m se (set_depth d) in
      let m := if negb (ptr_eqb (Some se) (curr (rq_at m q)))
               then __enqueue_entity m q se else m in
      Some (upd_se m se (set_on_rq true))
  end.

(** [dequeue_entity], for the same kind of queue: [return_cfs_rq_runtime]
    and [update_cfs_shares] return at once. *)
Definition dequeue_entity (m : mem) (q : ptr) (se : ptr)
  (flags : dequeue_flags) : option mem :=
  let m := update_curr m q in
  match clear_buddies m q (Some se) with
  | None => None
  | Some m =>
      let m := if negb (ptr_eqb (Some se) (curr (rq_at m q)))
               then __dequeue_entity m q se else m in
      let m := upd_se m se (set_on_rq false) in
      let m := account_entity_dequeue m q se in
      let m :=
        if negb (DEQUEUE_SLEEP flags) then
          upd_se m se (fun e =>
            set_vruntime (u64 (vruntime e - min_vruntime_of (rq_at m q))) e)
        else m in
      Some (update_min_vruntime m q)
  end.

(** *** Tick preemption *)

(** [check_preempt_tick].  [None] also stands for the dereference of a null
    [__pick_first_entity] result (the caller, [entity_tick], only comes here
    when more than one entity is runnable). *)
Definition check_preempt_tick (sc : sysctl) (m : mem) (q : ptr) (curr : ptr)
  : option mem :=
  match sched_slice sc m q curr with
  | None => None
  | Some (ideal_runtime, m) =>
      let c := se_at m curr in
      let delta_exec :=
        u64 (sum_exec_runtime c - prev_sum_exec_runtime c) in
      if ideal_runtime <? delta_exec then
        clear_buddies (upd_rq m q resched_curr) q (Some curr)
      else if delta_exec <? sysctl_sched_min_granularity sc then Some m
      else
        match __pick_first_entity m q with
        | None => None
        | Some se =>
            let delta := s64 (vruntime c - vruntime (se_at m se)) in
            if delta <? 0 then Some m
            else if ideal_runtime <? u64 delta
                 then Some (upd_rq m q resched_curr)
                 else Some m
        end
  end.

(** *** Picking the next entity *)

Definition wakeup_gran (sc : sysctl) (m : mem) (curr se : ptr) : Z * mem :=
  let gran := sysctl_sched_wakeup_granularity sc in
  calc_delta_fair m gran se.

(** [wakeup_preempt_entity]: should [se] preempt [curr]. *)
Definition wakeup_preempt_entity (sc : sysctl) (m : mem) (curr se : ptr)
  : Z * mem :=
  let vdiff := s64 (vruntime (se_at m curr) - vruntime (se_at m se)) in
  if vdiff <=? 0 then (-1, m)
  else
    let '(g, m) := wakeup_gran sc m curr se in
    let gran := s64 g in
    if gran <? vdiff then (1, m) else (0, m).

(** The guard [buddy && wakeup_preempt_entity(buddy, left) < 1] of
    [pick_next_entity]; [left] is dereferenced only when [buddy] is set. *)
Definition buddy_ok (sc : sysctl) (m : mem) (buddy left : option ptr)
  : option (bool * mem) :=
  match buddy with
  | None => Some (false, m)
  | Some b =>
      match left with
      | None => None
      | Some l =>
          let '(w, m) := wakeup_preempt_entity sc m b l in
          Some (w <? 1, m)
      end
  end.

(** [left]: the leftmost node, or [curr] when the tree is empty or [curr]
    is before the leftmost node. *)
Definition leftmost_candidate (m : mem) (q : ptr) (curr : option ptr)
  : option ptr :=
  match __pick_first_entity m q with
  | None => curr
  | Some l =>
      match curr with
      | Some c =>
          if entity_before (se_at m c) (se_at m l) then curr else Some l
      | None => Some l
      end
  end.

(** [second]: the entity that would run in place of a skipped [se]. *)
Definition second_candidate (m : mem) (q : ptr) (curr se : option ptr)
  : option ptr :=
  if ptr_eqb se curr then __pick_first_entity m q
  else
    match se with
    | None => None
    | Some s =>
        match __pick_next_entity m q s with
        | None => curr
        | Some n =>
            match curr with
            | Some c =>
                if entity_before (se_at m c) (se_at m n)
                then curr else Some n
            | None => Some n
            end
        end
    end.

(** [pick_next_entity] *)
Definition pick_next_entity (sc : sysctl) (ft : features) (m : mem)
  (q : ptr) (curr : option ptr) : option (option ptr * mem) :=
  let left := leftmost_candidate m q curr in
  let se := left in
  match
    (if ptr_eqb (skip (rq_at m q)) se then
       let second := second_candidate m q curr se in
       match second with
       | None => Some (se, m)
       | Some _ =>
           if STRICT_SKIP_BUDDY ft then Some (second, m)
           else
             match buddy_ok sc m second left with
             | None => None
             | Some (ok, m) => Some (if ok then second else se, m)
             end
       end
     else Some (se, m))
  with
  | None => None
  | Some (se, m) =>
      match buddy_ok sc m (last (rq_at m q)) left with
      | None => None
      | Some (ok_last, m) =>
          let se := if ok_last then last (rq_at m q) else se in
          match buddy_ok sc m (next (rq_at m q)) left with
          | None => None
          | Some (ok_next, m) =>
              let se := if ok_next then next (rq_at m q) else se in
              match clear_buddies m q se with
              | None => None
              | Some m => Some (se, m)
              end
          end
      end
  end.

(** *** Switching the running entity, ticks and group weights *)

Definition set_curr (p : option ptr) (r : cfs_rq) : cfs_rq :=
  mk_rq (rq_load r) (nr_running r) (min_vruntime_of r) (tasks_timeline r)
        (rb_leftmost r) p (next r) (last r) (skip r) (clock_task r)
        (need_resched r).

Definition set_prev_sum_exec_runtime (v : Z) (e : sched_entity)
  : sched_entity :=
  mk_se (load e) (vruntime e) (sum_exec_runtime e) v
        (exec_start e) (on_rq e) (depth e) (parent e) (cfs_rq_of e).

(** [set_next_entity]: "'current' is not kept within the tree".  The wait
    statistics, the slice statistics and the load-average update write no
    field of the model; [update_stats_curr_start] sets [exec_start]. *)
Definition set_next_entity (m : mem) (q se : ptr) : mem :=
  let m := if on_rq (se_at m se) then __dequeue_entity m q se else m in
  let m := upd_se m se (set_exec_start (clock_task (rq_at m q))) in
  let m := upd_rq m q (set_curr (Some se)) in
  upd_se m se (fun e => set_prev_sum_exec_runtime (sum_exec_runtime e) e).

(** [put_prev_entity], for a queue without a bandwidth limit
    ([check_cfs_rq_runtime] answers false at once); [check_spread] and the
    wait statistics write no field of the model. *)
Definition put_prev_entity (m : mem) (q prev : ptr) : mem :=
  let m := if on_rq (se_at m prev) then update_curr m q else m in
  let m := if on_rq (se_at m prev) then __enqueue_entity m q prev else m in
  upd_rq m q (set_curr None).

(** What [entity_tick] needs to know of the high-resolution tick: whether
    it is compiled in (CONFIG_SCHED_HRTICK), the DOUBLE_TICK feature and
    whether the queue's hrtick timer is active. *)
Record hrtick_state := mk_hrtick {
  hrtick_enabled : bool;
  DOUBLE_TICK : bool;
  hrtick_timer_active : bool
}.

(** [entity_tick], for a queue of the root task group ([update_cfs_shares]
    returns at once; the load-average update writes no field of the
    model). *)
Definition entity_tick (sc : sysctl) (hr : hrtick_state) (m : mem) (q : ptr)
  (curr : ptr) (queued : bool) : option mem :=
  let m := update_curr m q in
  if hrtick_enabled hr && queued then Some (upd_rq m q resched_curr)
  else if hrtick_enabled hr && negb (DOUBLE_TICK hr)
          && hrtick_timer_active hr then Some m
  else if 1 <? nr_running (rq_at m q) then check_preempt_tick sc m q curr
  else Some m.

(** [reweight_entity] *)
Definition reweight_entity (m : mem) (q se : ptr) (weight : Z) : mem :=
  let m :=
    if on_rq (se_at m se) then
      let m := if ptr_eqb (curr (rq_at m q)) (Some se)
               then update_curr m q else m in
      account_entity_dequeue m q se
    else m in
  let m := upd_se m se (fun e => set_load (update_load_set (load e) weight) e) in
  if on_rq (se_at m se) then account_entity_enqueue m q se else m.

(** [calc_cfs_shares] (CONFIG_SMP), as a function of what it reads:
    [cfs_rq->load.weight], [tg->load_avg], [cfs_rq->tg_load_avg_contrib]
    and [tg->shares].  [MIN_SHARES] is an [unsigned long] constant of
    kernel/sched/sched.h and is taken as an input; the local variables are
    [long], and the two clamps compare as [unsigned long]. *)
Definition calc_cfs_shares (MIN_SHARES : Z)
  (load_weight tg_load_avg tg_load_avg_contrib tg_shares : Z) : Z :=
  let load := s64 (scale_load_down load_weight) in
  let tg_weight := s64 tg_load_avg in
  let tg_weight := s64 (tg_weight - tg_load_avg_contrib) in
  let tg_weight := s64 (tg_weight + load) in
  let shares := s64 (tg_shares * load) in
  let shares :=
    if tg_weight =? 0 then shares else s64 (Z.quot shares tg_weight) in
  let shares := if u64 shares <? MIN_SHARES then s64 MIN_SHARES else shares in
  if tg_shares <? u64 shares then s64 tg_shares else shares.

(** *** Sequences of queue operations *)

Inductive queue_op : Type :=
| OpClock (now : Z)
| OpUpdateCurr
| OpEnqueue (se : ptr) (flags : enqueue_flags)
| OpDequeue (se : ptr) (flags : dequeue_flags).

Definition run_op (sc : sysctl) (ft : features) (q : ptr) (m : mem)
  (op : queue_op) : option mem :=
  match op with
  | OpClock now => Some (upd_rq m q (set_clock_task (u64 now)))
  | OpUpdateCurr => Some (update_curr m q)
  | OpEnqueue se flags => enqueue_entity sc ft m q se flags
  | OpDequeue se flags => dequeue_entity m q se flags
  end.

(** The values that are written to [min_vruntime] of queue [q] by one
    operation, in the order of the writes: [update_curr] and
    [enqueue_entity] update it once, [dequeue_entity] twice (in its call of
    [update_curr] and at its end). *)
Definition op_watermarks (sc : sysctl) (ft : features) (q : ptr) (m : mem)
  (op : queue_op) : list Z :=
  match op with
  | OpClock _ => []
  | OpUpdateCurr => [min_vruntime_of (rq_at (update_curr m q) q)]
  | OpEnqueue se flags =>
      match enqueue_entity sc ft m q se flags with
      | Some m' => [min_vruntime_of (rq_at m' q)]
      | None => []
      end
  | OpDequeue se flags =>
      min_vruntime_of (rq_at (update_curr m q) q) ::
      match dequeue_entity m q se flags with
      | Some m' => [min_vruntime_of (rq_at m' q)]
      | None => []
      end
  end.

(** The successive values of [min_vruntime] of queue [q] along a run; the
    run stops at the first operation that fails. *)
Fixpoint watermarks (sc : sysctl) (ft : features) (q : ptr) (m : mem)
  (ops : list queue_op) : list Z :=
  match ops with
  | [] => []
  | op :: rest =>
      op_watermarks sc ft q m op ++
      match run_op sc ft q m op with
      | Some m' => watermarks sc ft q m' rest
      | None => []
      end
  end.

(** *** Notions used in the statements about ordering *)

(** The sequence [l] of entities is in the order of the keys [V]. *)
Fixpoint ordered_by (V : ptr -> Z) (l : list ptr) : Prop :=
  match l with
  | [] => True
  | e :: rest => (forall x, In x rest -> V e <= V x) /\ ordered_by V rest
  end.

(** Each value of the list is at or after its predecessor in the order of
    signed 64-bit differences. *)
Fixpoint nondecreasing_mod64 (l : list Z) : Prop :=
  match l with
  | [] => True
  | a :: rest =>
      match rest with
      | [] => True
      | b :: _ => 0 <= s64 (b - a) /\ nondecreasing_mod64 rest
      end
  end.

(** The value that [update_min_vruntime] compares the old watermark with:
    the smaller of the virtual runtimes of the running entity and of the
    leftmost queued one, as far as they exist. *)
Definition min_candidate (m : mem) (q : ptr) : Z :=
  let r := rq_at m q in
  match curr r, rb_leftmost r with
  | Some c, Some l => min_vruntime (vruntime (se_at m c)) (vruntime (se_at m l))
  | Some c, None => vruntime (se_at m c)
  | None, Some l => vruntime (se_at m l)
  | None, None => min_vruntime_of r
  end.

(** The [depth] field of [se] is the length of the parent chain above it. *)
Fixpoint chain_len (m : mem) (k : nat) (se : ptr) : Prop :=
  match k with
  | O => parent (se_at m se) = None
  | S k' =>
      exists pp, parent (se_at m se) = Some pp /\ chain_len m k' pp
  end.

Definition chain_ok (m : mem) (se : ptr) : Prop :=
  chain_len m (depth (se_at m se)) se.

(** *** Notions used in the statements about the watermark *)

Definition watermark (m : mem) (q : ptr) : Z := min_vruntime_of (rq_at m q).

(** [new] is at or after [old] in the order of signed 64-bit differences. *)
Definition not_before (old new : Z) : Prop := 0 <= s64 (new - old).

(** [m'] differs from [m] in buddy pointers only. *)
Definition buddies_only (m m' : mem) : Prop :=
  (forall a, se_at m' a = se_at m a) /\
  (forall q, exists n l s,
     rq_at m' q = set_next n (set_last l (set_skip s (rq_at m q)))).

(** The store at the point where [enqueue_entity] calls [place_entity]:
    after the renormalisation of [se->vruntime], [update_curr] and
    [account_entity_enqueue]. *)
Definition before_placement (m : mem) (q se : ptr) (flags : enqueue_flags)
  : mem :=
  let m :=
    if negb (ENQUEUE_WAKEUP flags) || ENQUEUE_WAKING flags then
      upd_se m se (fun e =>
        set_vruntime (u64 (vruntime e + min_vruntime_of (rq_at m q))) e)
    else m in
  account_entity_enqueue (update_curr m q) q se.

(** The sleeper credit of [place_entity]: one scheduling latency, halved by
    GENTLE_FAIR_SLEEPERS. *)
Definition sleep_bonus (sc : sysctl) (ft : features) : Z :=
  if GENTLE_FAIR_SLEEPERS ft
  then Z.shiftr (sysctl_sched_latency sc) 1
  else sysctl_sched_latency sc.

(** *** The stages of [pick_next_entity]

    The selection of [pick_next_entity] put together from its own helpers,
    as a step between the function and the choice in the words of its
    specification below. *)

(** The wakeup granularity in the virtual time of [left], as [wakeup_gran]
    computes it. *)
Definition wakeup_gran_of (sc : sysctl) (m : mem) (left : ptr) : Z :=
  s64 (fst (wakeup_gran sc m left left)).

(** The fairness guard: the virtual runtime of [buddy] does not exceed that
    of [left] by more than one wakeup granularity. *)
Definition within_gran (sc : sysctl) (m : mem) (buddy left : ptr) : bool :=
  let vdiff := s64 (vruntime (se_at m buddy) - vruntime (se_at m left)) in
  (vdiff <=? 0) || (vdiff <=? wakeup_gran_of sc m left).

Definition honoured (sc : sysctl) (m : mem) (buddy left : option ptr) : bool :=
  match buddy, left with
  | Some b, Some l => within_gran sc m b l
  | _, _ => false
  end.

(** The candidate after the skip buddy has been taken into account. *)
Definition skip_adjusted (sc : sysctl) (ft : features) (m : mem) (q : ptr)
  (curr : option ptr) : option ptr :=
  let left := leftmost_candidate m q curr in
  if ptr_eqb (skip (rq_at m q)) left then
    match second_candidate m q curr left with
    | None => left
    | Some s =>
        if STRICT_SKIP_BUDDY ft || honoured sc m (Some s) left
        then Some s else left
    end
  else left.

(** The three stages in the order of their precedence: the next buddy if
    it is set and within the guard, else the last buddy if it is set and
    within the guard, else the leftmost candidate (possibly replaced on
    account of the skip buddy). *)
Definition pick_spec (sc : sysctl) (ft : features) (m : mem) (q : ptr)
  (curr : option ptr) : option ptr :=
  let left := leftmost_candidate m q curr in
  if honoured sc m (next (rq_at m q)) left then next (rq_at m q)
  else if honoured sc m (last (rq_at m q)) left then last (rq_at m q)
  else skip_adjusted sc ft m q curr.

(** *** The choice of [pick_next_entity] in the words of its specification *)

(** [a] is before [b] in virtual time: the signed 64-bit difference of
    their virtual runtimes is negative. *)
Definition runs_earlier (m : mem) (a b : ptr) : bool :=
  s64 (vruntime (se_at m a) - vruntime (se_at m b)) <? 0.

(** The node that follows [se] in a sequence of nodes. *)
Fixpoint node_after (se : ptr) (nodes : list ptr) : option ptr :=
  match nodes with
  | [] => None
  | a :: rest => if Nat.eqb a se then hd_error rest else node_after se rest
  end.

(** The leftmost entity: the first node of the timeline, or the running
    entity when the timeline is empty or the running entity is before its
    first node. *)
Definition leftmost_entity (m : mem) (q : ptr) (curr : option ptr)
  : option ptr :=
  match hd_error (inorder (tasks_timeline (rq_at m q))), curr with
  | Some f, Some c => if runs_earlier m c f then Some c else Some f
  | Some f, None => Some f
  | None, _ => curr
  end.

(** The entity that runs when the leftmost entity [left] is passed over:
    the first node of the timeline when [left] is the running entity; else
    the node after [left], or the running entity when there is no such
    node or the running entity is before it. *)
Definition entity_after (m : mem) (q : ptr) (curr : option ptr) (left : ptr)
  : option ptr :=
  let nodes := inorder (tasks_timeline (rq_at m q)) in
  match curr with
  | Some c =>
      if Nat.eqb left c then hd_error nodes
      else
        match node_after left nodes with
        | Some n => if runs_earlier m c n then Some c else Some n
        | None => Some c
        end
  | None => node_after left nodes
  end.

(** One wakeup granularity in the virtual time of an entity with the load
    weight [lw] (between 1 and [WMULT_CONST - 1]): the granularity itself
    for the nice-0 weight; else the granularity times 1024 times the
    32-bit inverse of the weight (the cached one, or [WMULT_CONST / weight])
    over [2^32], where the product of 1024 and the inverse is cut back to
    32 bits first. *)
Definition virtual_gran (sc : sysctl) (lw : load_weight) : Z :=
  let gran := sysctl_sched_wakeup_granularity sc in
  if weight lw =? NICE_0_LOAD then gran
  else
    let inv := if inv_weight lw =? 0 then WMULT_CONST / weight lw
               else inv_weight lw in
    let k := Z.max 0 (Z.log2 (NICE_0_LOAD * inv) - 31) in
    (gran * (NICE_0_LOAD * inv / 2 ^ k)) / 2 ^ (32 - k).

(** The fairness guard: the virtual runtime of [buddy] does not exceed that
    of [left] by more than one wakeup granularity, in the virtual time of
    [left]. *)
Definition fair_to_run (sc : sysctl) (m : mem) (buddy left : ptr) : bool :=
  s64 (vruntime (se_at m buddy) - vruntime (se_at m left))
  <=? Z.max 0 (virtual_gran sc (load (se_at m left))).

(** The choice: the next buddy if it is set and within the guard; else the
    last buddy if it is set and within the guard; else the leftmost entity,
    or, when that is the skip buddy, the entity after it if there is one
    and it is within the guard (or STRICT_SKIP_BUDDY is on). *)
Definition choice (sc : sysctl) (ft : features) (m : mem) (q : ptr)
  (curr : option ptr) : option ptr :=
  match leftmost_entity m q curr with
  | None => None
  | Some l =>
      let guard (b : option ptr) :=
        match b with
        | Some b => fair_to_run sc m b l
        | None => false
        end in
      let r := rq_at m q in
      if guard (next r) then next r
      else if guard (last r) then last r
      else
        match skip r with
        | Some sk =>
            if Nat.eqb sk l then
              match entity_after m q curr l with
              | Some second =>
                  if STRICT_SKIP_BUDDY ft || fair_to_run sc m second l
                  then Some second else Some l
              | None => Some l
              end
            else Some l
        | None => Some l
        end
  end.

(** [m'] differs from [m] in cached inverse weights of entities only, and
    these are the ones [__update_inv_weight] computes. *)
Definition inverses_only (m m' : mem) : Prop :=
  rq_at m' = rq_at m /\
  forall a, exists lw,
    se_at m' a = set_load lw (se_at m a) /\
    __update_inv_weight lw = __update_inv_weight (load (se_at m a)).

(** [m'] differs from [m] only in buddy pointers that have been reset to
    null. *)
Definition buddies_reset (m m' : mem) : Prop :=
  (forall a, se_at m' a = se_at m a) /\
  forall q, exists n l s,
    rq_at m' q = set_next n (set_last l (set_skip s (rq_at m q))) /\
    (n = next (rq_at m q) \/ n = None) /\
    (l = last (rq_at m q) \/ l = None) /\
    (s = skip (rq_at m q) \/ s = None).

(** [m'] has the hierarchy of [m] (parents, queues, depths and weights of
    the entities) and the accounts of its queues (running counts and
    loads). *)
Definition same_accounts (m m' : mem) : Prop :=
  (forall a,
     parent (se_at m' a) = parent (se_at m a) /\
     cfs_rq_of (se_at m' a) = cfs_rq_of (se_at m a) /\
     depth (se_at m' a) = depth (se_at m a) /\
     weight (load (se_at m' a)) = weight (load (se_at m a))) /\
  (forall q,
     nr_running (rq_at m' q) = nr_running (rq_at m q) /\
     rq_load (rq_at m' q) = rq_load (rq_at m q)).

(** *** Scenarios used in the statements *)

(** [se] is one of [n] queued entities of weight [w] on the flat queue [q]:
    it has no parent, and the queue's load is the sum of the weights, with
    its inverse either not yet computed or the one [__update_inv_weight]
    computes. *)
Definition equal_weight_queue (m : mem) (q se : ptr) (n w : Z) : Prop :=
  let e := se_at m se in
  let r := rq_at m q in
  parent e = None /\ on_rq e = true /\ cfs_rq_of e = q /\
  weight (load e) = w /\ nr_running r = n /\ weight (rq_load r) = n * w /\
  (inv_weight (rq_load r) = 0 \/
   inv_weight (rq_load r) = WMULT_CONST / (n * w)).

(** A store in which every entity address holds a queued nice-0 task of
    queue 0 and every queue address holds a queue of [n] such tasks. *)
Definition nice0_tasks (n : Z) : mem :=
  mk_mem
    (fun _ => mk_se (mk_lw NICE_0_LOAD 0) 0 0 0 0 true O None O)
    (fun _ => mk_rq (mk_lw (n * NICE_0_LOAD) 0) n 0 rb_nil None None None
                    None None 0 false).

(** A queue (address 0) under the initial tunables with a running nice-19
    task (address 0, weight 15) that has run for 100 us of its slice, and a
    queued nice-0 task (every other address) as its leftmost node. *)
Definition light_task_running : mem :=
  mk_mem
    (fun p => if Nat.eqb p 0
              then mk_se (mk_lw 15 0) 0 100000 0 0 true O None O
              else mk_se (mk_lw NICE_0_LOAD 0) 0 0 0 0 true O None O)
    (fun _ => mk_rq (mk_lw (15 + NICE_0_LOAD) 0) 2 0
                (rb_node rb_nil 1%nat rb_nil) (Some 1%nat) (Some 0%nat)
                None None None 0 false).

(** A queue (address 0) of three nice-0 tasks and no running entity: task 1
    is leftmost, task 2, half a millisecond behind it, is the next buddy,
    and task 3, four milliseconds behind, is the last buddy. *)
Definition buddy_queue : mem :=
  mk_mem
    (fun p => mk_se (mk_lw NICE_0_LOAD 0)
                (match p with
                 | 1%nat => 1000000
                 | 2%nat => 1500000
                 | _ => 5000000
                 end) 0 0 0 true O None O)
    (fun _ => mk_rq (mk_lw (3 * NICE_0_LOAD) 0) 3 1000000
                (rb_node rb_nil 1%nat
                   (rb_node rb_nil 2%nat (rb_node rb_nil 3%nat rb_nil)))
                (Some 1%nat) None (Some 2%nat) (Some 3%nat) None 0 false).

(** A queue (address 0) of three tasks and no running entity.  Task 1, of
    weight 2048, is leftmost and is the skip buddy; task 2 (nice 0) is
    0.4 ms behind it; task 3 (nice 0), 0.6 ms behind it, is the next buddy.
    One wakeup granularity (1 ms) is 499999 ns in the virtual time of
    task 1. *)
Definition skipped_heavy_queue : mem :=
  mk_mem
    (fun p => match p with
              | 1%nat => mk_se (mk_lw 2048 0) 1000000 0 0 0 true O None O
              | 2%nat => mk_se (mk_lw NICE_0_LOAD 0) 1400000 0 0 0 true O None O
              | _ => mk_se (mk_lw NICE_0_LOAD 0) 1600000 0 0 0 true O None O
              end)
    (fun _ => mk_rq (mk_lw (2048 + 2 * NICE_0_LOAD) 0) 3 1000000
                (rb_node rb_nil 1%nat
                   (rb_node rb_nil 2%nat (rb_node rb_nil 3%nat rb_nil)))
                (Some 1%nat) None (Some 3%nat) None (Some 1%nat) 0 false).

End Cfs.

(** ** The running-average load tracker *)

Module Pelt.
Import Int.

Definition LOAD_AVG_PERIOD : Z := 32.
Definition LOAD_AVG_MAX : Z := 47742.
Definition LOAD_AVG_MAX_N : Z := 345.

(** "Precomputed fixed inverse multiplies for multiplication by y^n" *)
Definition runnable_avg_yN_inv : list Z :=
  [ 0xffffffff; 0xfa83b2da; 0xf5257d14; 0xefe4b99a; 0xeac0c6e6; 0xe5b906e6;
    0xe0ccdeeb; 0xdbfbb796; 0xd744fcc9; 0xd2a81d91; 0xce248c14; 0xc9b9bd85;
    0xc5672a10; 0xc12c4cc9; 0xbd08a39e; 0xb8fbaf46; 0xb504f333; 0xb123f581;
    0xad583ee9; 0xa9a15ab4; 0xa5fed6a9; 0xa2704302; 0x9ef5325f; 0x9b8d39b9;
    0x9837f050; 0x94f4efa8; 0x91c3d373; 0x8ea4398a; 0x8b95c1e3; 0x88980e80;
    0x85aac367; 0x82cd8698 ].

(** "Precomputed \Sum y^k { 1<=k<=n }" *)
Definition runnable_avg_yN_sum : list Z :=
  [     0;  1002;  1982;  2941;  3880;  4798;  5697;  6576;  7437;  8279;
     9103;  9909; 10698; 11470; 12226; 12966; 13690; 14398; 15091; 15769;
    16433; 17082; 17718; 18340; 18949; 19545; 20128; 20698; 21256; 21802;
    22336; 22859; 23371 ].

Definition table (t : list Z) (i : Z) : Z := nth (Z.to_nat i) t 0.

(** [decay_load]: "val * y^n, where y^32 ~= 0.5" *)
Definition decay_load (val n : Z) : Z :=
  if n =? 0 then val
  else if LOAD_AVG_PERIOD * 63 <? n then 0
  else
    let local_n := u32 n in
    let '(val, local_n) :=
      if LOAD_AVG_PERIOD <=? local_n
      then (Z.shiftr val (local_n / LOAD_AVG_PERIOD),
            local_n mod LOAD_AVG_PERIOD)
      else (val, local_n) in
    mul_u64_u32_shr val (table runnable_avg_yN_inv local_n) 32.

(** The [do ... while (n > LOAD_AVG_PERIOD)] loop of
    [__compute_runnable_contrib]; [n] loses 32 in every round. *)
Fixpoint contrib_loop (fuel : nat) (contrib n : Z) : Z * Z :=
  match fuel with
  | O => (contrib, n)
  | S fuel' =>
      let contrib := contrib / 2 in
      let contrib :=
        u32 (contrib + table runnable_avg_yN_sum LOAD_AVG_PERIOD) in
      let n := n - LOAD_AVG_PERIOD in
      if LOAD_AVG_PERIOD <? n then contrib_loop fuel' contrib n
      else (contrib, n)
  end.

(** [__compute_runnable_contrib]: "\Sum 1024*y^n" over [n] full periods *)
Definition __compute_runnable_contrib (n : Z) : Z :=
  if n <=? LOAD_AVG_PERIOD then table runnable_avg_yN_sum n
  else if LOAD_AVG_MAX_N <=? n then LOAD_AVG_MAX
  else
    let '(contrib, n) := contrib_loop (Z.to_nat n) 0 n in
    let contrib := u32 (decay_load contrib n) in
    u32 (contrib + table runnable_avg_yN_sum n).

(** The fields of [struct sched_avg] that [__update_load_avg] maintains for
    an entity. *)
Record sched_avg := mk_avg {
  last_update_time : Z;
  load_sum : Z;
  util_sum : Z;
  period_contrib : Z;
  load_avg : Z;
  util_avg : Z
}.

(** [cap_scale(v, s)] is [(v)*(s) >> SCHED_CAPACITY_SHIFT], with a shift
    of 10 (the file refuses to compile otherwise); [s] is an
    [unsigned long], so the product is taken in 64 bits. *)
Definition cap_scale (v s : Z) : Z := Z.shiftr (u64 (v * s)) 10.

(** [init_entity_runnable_average]: a new entity starts as if it had always
    been runnable. *)
Definition init_entity_runnable_average (weight : Z) : sched_avg :=
  let load_avg := Weight.scale_load_down weight in
  let util_avg := Weight.scale_load_down 1024 in
  mk_avg 0 (u64 (load_avg * LOAD_AVG_MAX)) (u32 (util_avg * LOAD_AVG_MAX))
         1023 load_avg util_avg.

(** [__update_load_avg] for the average of an entity ([cfs_rq] is NULL).
    [scale_freq] and [scale_cpu] are the values of
    [arch_scale_freq_capacity] and [arch_scale_cpu_capacity] for the CPU;
    the HMP window statistics that the function also feeds are outside the
    model.  The result is the new average and the [decayed] flag. *)
Definition __update_load_avg (scale_freq scale_cpu : Z) (now : Z)
  (sa : sched_avg) (weight : Z) (running : bool) : sched_avg * bool :=
  let delta := u64 (now - last_update_time sa) in
  if s64 delta <? 0 then
    (mk_avg now (load_sum sa) (util_sum sa) (period_contrib sa)
            (load_avg sa) (util_avg sa), false)
  else
    let delta := Z.shiftr delta 10 in
    if delta =? 0 then (sa, false)
    else
      let delta_w := period_contrib sa in
      let crossing := 1024 <=? u64 (delta + delta_w) in
      let '(ls, us, pc, delta) :=
        if crossing then
          let delta_w := u32 (1024 - delta_w) in
          let scaled_delta_w := u32 (cap_scale delta_w scale_freq) in
          let ls := if weight =? 0 then load_sum sa
                    else u64 (load_sum sa + u64 (weight * scaled_delta_w)) in
          let us := if running
                    then u32 (util_sum sa + scaled_delta_w * scale_cpu)
                    else util_sum sa in
          let delta := u64 (delta - delta_w) in
          let periods := delta / 1024 in
          let delta := delta mod 1024 in
          let ls := decay_load ls (u64 (periods + 1)) in
          let us := u32 (decay_load us (u64 (periods + 1))) in
          let contrib := __compute_runnable_contrib periods in
          let contrib := u32 (cap_scale contrib scale_freq) in
          let ls := if weight =? 0 then ls
                    else u64 (ls + u64 (weight * contrib)) in
          let us := if running then u32 (us + contrib * scale_cpu) else us in
          (ls, us, 0, delta)
        else (load_sum sa, util_sum sa, period_contrib sa, delta) in
      let scaled_delta := u64 (cap_scale delta scale_freq) in
      let ls := if weight =? 0 then ls
                else u64 (ls + u64 (weight * scaled_delta)) in
      let us := if running then u32 (us + scaled_delta * scale_cpu) else us in
      let pc := u32 (pc + delta) in
      if crossing
      then (mk_avg now ls us pc (ls / LOAD_AVG_MAX) (us / LOAD_AVG_MAX), true)
      else (mk_avg now ls us pc (load_avg sa) (util_avg sa), false).

End Pelt.

(** ** Bandwidth control: drawing runtime from the group pool *)

Module Bandwidth.
Import Int Tunables.

(** Modelled from the spec: [RUNTIME_INF] and [NSEC_PER_USEC] are defined
    in headers outside the file; "no quota" is the all-ones 64-bit value,
    and the slice tunable is in microseconds. *)
Definition RUNTIME_INF : Z := 2 ^ 64 - 1.
Definition NSEC_PER_USEC : Z := 1000.

(** "default period for cfs group bandwidth. default: 0.1s, units:
    nanoseconds" *)
Definition default_cfs_period : Z := 100000000.

Definition sched_cfs_bandwidth_slice (sc : sysctl) : Z :=
  u64 (sysctl_sched_cfs_bandwidth_slice sc * NSEC_PER_USEC).

(** The fields of [struct cfs_bandwidth] (the group's pool) that
    [assign_cfs_rq_runtime] reads and writes; [period] is in nanoseconds. *)
Record cfs_bandwidth := mk_cfs_b {
  quota : Z;
  runtime : Z;
  period : Z;
  runtime_expires : Z;
  timer_active : bool;
  idle : bool
}.

(** The bandwidth fields of [struct cfs_rq]: the local balance (an [s64])
    and its expiry time. *)
Record cfs_rq_runtime := mk_rq_runtime {
  runtime_remaining : Z;
  rq_runtime_expires : Z
}.

(** [__refill_cfs_bandwidth_runtime]; [now] is
    [sched_clock_cpu(smp_processor_id())]. *)
Definition __refill_cfs_bandwidth_runtime (now : Z) (b : cfs_bandwidth)
  : cfs_bandwidth :=
  if quota b =? RUNTIME_INF then b
  else mk_cfs_b (quota b) (quota b) (period b) (u64 (now + period b))
                (timer_active b) (idle b).

(** [__start_cfs_bandwidth(cfs_b, false)], as far as the pool is concerned:
    whether this call programs the period timer or finds that another CPU
    has restarted it, [timer_active] is set when it returns.  The timer
    itself, and what other CPUs do while the lock is bounced, are outside
    the model. *)
Definition __start_cfs_bandwidth (b : cfs_bandwidth) : cfs_bandwidth :=
  mk_cfs_b (quota b) (runtime b) (period b) (runtime_expires b) true (idle b).

(** [assign_cfs_rq_runtime]: "returns 0 on failure to allocate runtime". *)
Definition assign_cfs_rq_runtime (sc : sysctl) (now : Z)
  (rq : cfs_rq_runtime) (b : cfs_bandwidth)
  : bool * cfs_rq_runtime * cfs_bandwidth :=
  let min_amount := u64 (sched_cfs_bandwidth_slice sc - runtime_remaining rq) in
  let '(amount, b) :=
    if quota b =? RUNTIME_INF then (min_amount, b)
    else
      let b := if negb (timer_active b)
               then __start_cfs_bandwidth (__refill_cfs_bandwidth_runtime now b)
               else b in
      if 0 <? runtime b then
        let amount := Z.min (runtime b) min_amount in
        (amount,
         mk_cfs_b (quota b) (u64 (runtime b - amount)) (period b)
                  (runtime_expires b) (timer_active b) false)
      else (0, b) in
  let expires := runtime_expires b in
  let remaining := s64 (runtime_remaining rq + amount) in
  let rq_expires :=
    if 0 <? s64 (expires - rq_runtime_expires rq)
    then expires else rq_runtime_expires rq in
  (0 <? remaining, mk_rq_runtime remaining rq_expires, b).

(** [expire_cfs_rq_runtime]; [rq_clock] is [rq_clock(rq_of(cfs_rq))].
    [TICK_NSEC], the length of a tick, is a constant of linux/jiffies.h
    and is taken as an input. *)
Definition expire_cfs_rq_runtime (TICK_NSEC rq_clock : Z)
  (rq : cfs_rq_runtime) (b : cfs_bandwidth) : cfs_rq_runtime :=
  if s64 (rq_clock - rq_runtime_expires rq) <? 0 then rq
  else if runtime_remaining rq <? 0 then rq
  else if negb (rq_runtime_expires rq =? runtime_expires b) then
    mk_rq_runtime (runtime_remaining rq)
                  (u64 (rq_runtime_expires rq + TICK_NSEC))
  else mk_rq_runtime 0 (rq_runtime_expires rq).

(** [__account_cfs_rq_runtime].  [has_curr] is [cfs_rq->curr != NULL]; the
    last component of the result tells whether [resched_curr] was
    called. *)
Definition __account_cfs_rq_runtime (sc : sysctl) (TICK_NSEC rq_clock now : Z)
  (has_curr : bool) (rq : cfs_rq_runtime) (b : cfs_bandwidth)
  (delta_exec : Z) : cfs_rq_runtime * cfs_bandwidth * bool :=
  let rq := mk_rq_runtime (s64 (runtime_remaining rq - delta_exec))
                          (rq_runtime_expires rq) in
  let rq := expire_cfs_rq_runtime TICK_NSEC rq_clock rq b in
  if 0 <? runtime_remaining rq then (rq, b, false)
  else
    let '(ok, rq, b) := assign_cfs_rq_runtime sc now rq b in
    (rq, b, negb ok && has_curr).

(** Modelled from the spec: [NSEC_PER_MSEC] is defined in a header outside
    the file; the constants below are "1 * NSEC_PER_MSEC" and so on, in
    nanoseconds. *)
Definition NSEC_PER_MSEC : Z := 1000000.

(** "a cfs_rq won't donate quota below this amount" *)
Definition min_cfs_rq_runtime : Z := 1 * NSEC_PER_MSEC.
(** "minimum remaining period time to redistribute slack quota" *)
Definition min_bandwidth_expiration : Z := 2 * NSEC_PER_MSEC.
(** "how long we wait to gather additional slack before distributing" *)
Definition cfs_bandwidth_slack_period : Z := 5 * NSEC_PER_MSEC.

(** The state of the period timer that [runtime_refresh_within] reads:
    [hrtimer_callback_running] and, in nanoseconds,
    [hrtimer_expires_remaining]. *)
Record period_timer := mk_period_timer {
  callback_running : bool;
  expires_remaining : Z
}.

(** [runtime_refresh_within]: "are we near the end of the current quota
    period?" *)
Definition runtime_refresh_within (t : period_timer) (min_expire : Z) : bool :=
  if callback_running t then true
  else s64 (expires_remaining t) <? s64 min_expire.

(** [start_cfs_slack_bandwidth]: whether the slack timer is started. *)
Definition start_cfs_slack_bandwidth (t : period_timer) : bool :=
  let min_left := u64 (cfs_bandwidth_slack_period + min_bandwidth_expiration) in
  negb (runtime_refresh_within t min_left).

(** [__return_cfs_rq_runtime].  [throttled] is
    [!list_empty(&cfs_b->throttled_cfs_rq)]; the last component of the
    result tells whether the slack timer has been started. *)
Definition __return_cfs_rq_runtime (sc : sysctl) (t : period_timer)
  (throttled : bool) (rq : cfs_rq_runtime) (b : cfs_bandwidth)
  : cfs_rq_runtime * cfs_bandwidth * bool :=
  let slack_runtime := s64 (runtime_remaining rq - min_cfs_rq_runtime) in
  if slack_runtime <=? 0 then (rq, b, false)
  else
    let '(b, started) :=
      if negb (quota b =? RUNTIME_INF)
         && (rq_runtime_expires rq =? runtime_expires b) then
        let b := mk_cfs_b (quota b) (u64 (runtime b + slack_runtime))
                   (period b) (runtime_expires b) (timer_active b) (idle b) in
        (b, (sched_cfs_bandwidth_slice sc <? runtime b) && throttled
            && start_cfs_slack_bandwidth t)
      else (b, false) in
    (mk_rq_runtime (s64 (runtime_remaining rq - slack_runtime))
                   (rq_runtime_expires rq), b, started).

(** A queue on the list [cfs_b->throttled_cfs_rq], as
    [distribute_cfs_runtime] sees it: its [throttled] flag and its
    bandwidth fields.  [unthrottle_cfs_rq] clears the flag and takes the
    queue off the list (and puts its entities back on their queues, which
    is outside this part of the model); the walk goes on from the place of
    the queue it took off. *)
Record listed_rq := mk_listed {
  throttled : bool;
  balance : cfs_rq_runtime
}.

(** The body of the loop of [distribute_cfs_runtime] for one queue. *)
Definition distribute_one (c : listed_rq) (remaining expires : Z)
  : listed_rq * Z :=
  if negb (throttled c) then (c, remaining)
  else
    let runtime := u64 (- runtime_remaining (balance c) + 1) in
    let runtime := if remaining <? runtime then remaining else runtime in
    let remaining := u64 (remaining - runtime) in
    let left := s64 (runtime_remaining (balance c) + runtime) in
    (mk_listed (negb (0 <? left)) (mk_rq_runtime left expires), remaining).

(** The walk over the list, which ends after the queue that leaves nothing
    to distribute. *)
Fixpoint distribute_walk (l : list listed_rq) (remaining expires : Z)
  : list listed_rq * Z :=
  match l with
  | [] => ([], remaining)
  | c :: rest =>
      let '(c', remaining) := distribute_one c remaining expires in
      if remaining =? 0 then (c' :: rest, remaining)
      else
        let '(rest', remaining) := distribute_walk rest remaining expires in
        (c' :: rest', remaining)
  end.

(** [distribute_cfs_runtime]: the queues afterwards and the runtime
    handed out. *)
Definition distribute_cfs_runtime (l : list listed_rq) (remaining expires : Z)
  : list listed_rq * Z :=
  let starting_runtime := remaining in
  let '(l', remaining) := distribute_walk l remaining expires in
  (l', u64 (starting_runtime - remaining)).

(** The sum of the local balances of the listed queues. *)
Definition total_balance (l : list listed_rq) : Z :=
  fold_right (fun c acc => runtime_remaining (balance c) + acc) 0 l.

(** The pool as the draw finds it: refilled to the quota first when the
    period timer was not active. *)
Definition pool_before_draw (b : cfs_bandwidth) : Z :=
  if timer_active b then runtime b else quota b.

(** A pool with a quota of 100 ms that is full, with its timer running. *)
Definition full_pool : cfs_bandwidth :=
  mk_cfs_b 100000000 100000000 default_cfs_period 100000000 true false.

End Bandwidth.

(** ** The HMP tunables and their write handler *)

Module HmpTunables.
Import Int.

(** The [*data] pointers that [sched_hmp_proc_update_handler] tells apart,
    and the other percentage tunables of the file. *)
Inductive tunable : Type :=
| upmigrate_pct
| downmigrate_pct
| small_task_pct
| spill_load_pct
| init_task_load_pct
| heavy_task_pct
| grp_upmigrate_pct
| grp_downmigrate_pct
| upmigrate_min_nice
| min_runtime
| grp_task_active_windows.

Definition tunable_eqb (a b : tunable) : bool :=
  match a, b with
  | upmigrate_pct, upmigrate_pct
  | downmigrate_pct, downmigrate_pct
  | small_task_pct, small_task_pct
  | spill_load_pct, spill_load_pct
  | init_task_load_pct, init_task_load_pct
  | heavy_task_pct, heavy_task_pct
  | grp_upmigrate_pct, grp_upmigrate_pct
  | grp_downmigrate_pct, grp_downmigrate_pct
  | upmigrate_min_nice, upmigrate_min_nice
  | min_runtime, min_runtime
  | grp_task_active_windows, grp_task_active_windows => true
  | _, _ => false
  end.

(** The [sysctl_*] variables behind the pointers.  All are
    [unsigned int] but [sysctl_sched_upmigrate_min_nice], an [int]. *)
Record sysctls := mk_sysctls {
  sysctl_sched_upmigrate_pct : Z;
  sysctl_sched_downmigrate_pct : Z;
  sysctl_sched_small_task_pct : Z;
  sysctl_sched_spill_load_pct : Z;
  sysctl_sched_init_task_load_pct : Z;
  sysctl_sched_heavy_task_pct : Z;
  sysctl_sched_grp_upmigrate_pct : Z;
  sysctl_sched_grp_downmigrate_pct : Z;
  sysctl_sched_upmigrate_min_nice : Z;
  sysctl_sched_min_runtime : Z;
  sysctl_sched_grp_task_active_windows : Z
}.

(** The values the scheduler works with, derived from the tunables by
    [set_hmp_defaults] and the handler ([sched_min_runtime] is a [u64],
    [sched_upmigrate_min_nice] an [int], the others [unsigned int]). *)
Record derived := mk_derived {
  sched_upmigrate : Z;
  sched_downmigrate : Z;
  sched_small_task : Z;
  sched_spill_load : Z;
  sched_heavy_task : Z;
  sched_init_task_load_pelt : Z;
  sched_init_task_load_windows : Z;
  sched_upmigrate_min_nice : Z;
  sched_grp_upmigrate : Z;
  sched_grp_downmigrate : Z;
  sched_grp_task_active_period : Z;
  sched_grp_min_task_load_delta : Z;
  sched_grp_min_cluster_update_delta : Z;
  sched_min_runtime : Z
}.

(** The state the handler works on.  [task_count_updates] counts the runs
    of [pre_big_small_task_count_change] /
    [post_big_small_task_count_change], which reclassify the tasks of all
    run queues (the run queues themselves are outside this part of the
    model). *)
Record hmp_state := mk_hmp {
  sched_enable_hmp : bool;
  sched_use_pelt : bool;
  sched_ravg_window : Z;
  up_down_migrate_scale_factor : Z;
  tunables : sysctls;
  values : derived;
  task_count_updates : nat
}.

Definition get (t : tunable) (s : sysctls) : Z :=
  match t with
  | upmigrate_pct => sysctl_sched_upmigrate_pct s
  | downmigrate_pct => sysctl_sched_downmigrate_pct s
  | small_task_pct => sysctl_sched_small_task_pct s
  | spill_load_pct => sysctl_sched_spill_load_pct s
  | init_task_load_pct => sysctl_sched_init_task_load_pct s
  | heavy_task_pct => sysctl_sched_heavy_task_pct s
  | grp_upmigrate_pct => sysctl_sched_grp_upmigrate_pct s
  | grp_downmigrate_pct => sysctl_sched_grp_downmigrate_pct s
  | upmigrate_min_nice => sysctl_sched_upmigrate_min_nice s
  | min_runtime => sysctl_sched_min_runtime s
  | grp_task_active_windows => sysctl_sched_grp_task_active_windows s
  end.

Definition set (t : tunable) (v : Z) (s : sysctls) : sysctls :=
  mk_sysctls
    (if tunable_eqb t upmigrate_pct then v else sysctl_sched_upmigrate_pct s)
    (if tunable_eqb t downmigrate_pct then v
     else sysctl_sched_downmigrate_pct s)
    (if tunable_eqb t small_task_pct then v
     else sysctl_sched_small_task_pct s)
    (if tunable_eqb t spill_load_pct then v
     else sysctl_sched_spill_load_pct s)
    (if tunable_eqb t init_task_load_pct then v
     else sysctl_sched_init_task_load_pct s)
    (if tunable_eqb t heavy_task_pct then v
     else sysctl_sched_heavy_task_pct s)
    (if tunable_eqb t grp_upmigrate_pct then v
     else sysctl_sched_grp_upmigrate_pct s)
    (if tunable_eqb t grp_downmigrate_pct then v
     else sysctl_sched_grp_downmigrate_pct s)
    (if tunable_eqb t upmigrate_min_nice then v
     else sysctl_sched_upmigrate_min_nice s)
    (if tunable_eqb t min_runtime then v else sysctl_sched_min_runtime s)
    (if tunable_eqb t grp_task_active_windows then v
     else sysctl_sched_grp_task_active_windows s).

(** An [int] written through the pointer, as the variable behind it holds
    it: the same 32 bits, read as signed for the nice value and as unsigned
    for all others. *)
Definition as_stored (t : tunable) (v : Z) : Z :=
  if tunable_eqb t upmigrate_min_nice then s32 v else u32 v.

(** The [unsigned int old_val = *data] of the handler. *)
Definition as_unsigned (v : Z) : Z := u32 v.

Definition max_task_load (st : hmp_state) : Z :=
  if sched_use_pelt st then Pelt.LOAD_AVG_MAX else sched_ravg_window st.

(** Modelled from the spec: [pct_to_real] is a macro of
    kernel/sched/qhmp_sched.h, which is not part of the file; the handler
    is to "convert percentage value into absolute form", that is into the
    percentage of the maximal task load. *)
Definition pct_to_real (st : hmp_state) (pct : Z) : Z :=
  u64 (pct * max_task_load st) / 100.

(** [update_up_down_migrate]; the result is the pair
    ([sched_upmigrate], [sched_downmigrate]). *)
Definition update_up_down_migrate (st : hmp_state) : Z * Z :=
  let up_migrate :=
    u32 (pct_to_real st (sysctl_sched_upmigrate_pct (tunables st))) in
  let down_migrate :=
    u32 (pct_to_real st (sysctl_sched_downmigrate_pct (tunables st))) in
  if up_down_migrate_scale_factor st =? 1024 then (up_migrate, down_migrate)
  else
    let delta := u32 (up_migrate - down_migrate) in
    let up_migrate := up_migrate / 1000 in
    let up_migrate := u32 (up_migrate * up_down_migrate_scale_factor st) in
    let up_migrate := Z.shiftr up_migrate 10 in
    let up_migrate := u32 (up_migrate * 1000) in
    let up_migrate := Z.min up_migrate (sched_ravg_window st) in
    let down_migrate := down_migrate / 1000 in
    let down_migrate := u32 (down_migrate * up_down_migrate_scale_factor st) in
    let down_migrate := Z.shiftr down_migrate 10 in
    let down_migrate := u32 (down_migrate * 1000) in
    let down_migrate := Z.min down_migrate (u32 (up_migrate - delta)) in
    (up_migrate, down_migrate).

(** [set_hmp_defaults] *)
Definition set_hmp_defaults (st : hmp_state) : hmp_state :=
  let t := tunables st in
  let '(up, down) := update_up_down_migrate st in
  mk_hmp (sched_enable_hmp st) (sched_use_pelt st) (sched_ravg_window st)
    (up_down_migrate_scale_factor st) t
    (mk_derived
       up down
       (u32 (pct_to_real st (sysctl_sched_small_task_pct t)))
       (u32 (pct_to_real st (sysctl_sched_spill_load_pct t)))
       (u32 (pct_to_real st (sysctl_sched_heavy_task_pct t)))
       (u32 (u64 (sysctl_sched_init_task_load_pct t * Pelt.LOAD_AVG_MAX) / 100))
       (u32 (u64 (sysctl_sched_init_task_load_pct t * sched_ravg_window st)
             / 100))
       (sysctl_sched_upmigrate_min_nice t)
       (u32 (pct_to_real st (sysctl_sched_grp_upmigrate_pct t)))
       (u32 (pct_to_real st (sysctl_sched_grp_downmigrate_pct t)))
       (u32 (sched_ravg_window st * sysctl_sched_grp_task_active_windows t))
       (sched_ravg_window st / 4)
       (sched_ravg_window st / 10)
       (sched_min_runtime (values st)))
    (task_count_updates st).

Definition set_tunables (s : sysctls) (st : hmp_state) : hmp_state :=
  mk_hmp (sched_enable_hmp st) (sched_use_pelt st) (sched_ravg_window st)
    (up_down_migrate_scale_factor st) s (values st) (task_count_updates st).

Definition set_values (d : derived) (st : hmp_state) : hmp_state :=
  mk_hmp (sched_enable_hmp st) (sched_use_pelt st) (sched_ravg_window st)
    (up_down_migrate_scale_factor st) (tunables st) d (task_count_updates st).

Definition count_tasks_again (st : hmp_state) : hmp_state :=
  mk_hmp (sched_enable_hmp st) (sched_use_pelt st) (sched_ravg_window st)
    (up_down_migrate_scale_factor st) (tunables st) (values st)
    (S (task_count_updates st)).

Definition EINVAL : Z := 22.

(** Modelled from the spec: [proc_dointvec_minmax] is a function of
    kernel/sysctl.c.  For the handler it either fails with an error code
    and leaves [*data] alone, or returns 0, having stored the integer of a
    write through [data] (a read stores nothing). *)
Inductive proc_outcome : Type :=
| ProcError (ret : Z)
| ProcDone (written : option Z).

(** [sched_hmp_proc_update_handler]: the return value and the new state.
    [data] is [table->data]. *)
Definition sched_hmp_proc_update_handler (st : hmp_state) (data : tunable)
  (write : bool) (proc : proc_outcome) : Z * hmp_state :=
  if negb (sched_enable_hmp st) then (0, st)
  else
    let update_task_count :=
      write && (tunable_eqb data upmigrate_pct
                || tunable_eqb data small_task_pct
                || tunable_eqb data upmigrate_min_nice) in
    let old_val := as_unsigned (get data (tunables st)) in
    match proc with
    | ProcError ret => (ret, st)
    | ProcDone written =>
        let st1 :=
          match written with
          | Some v =>
              if write
              then set_tunables (set data (as_stored data v) (tunables st)) st
              else st
          | None => st
          end in
        let t1 := tunables st1 in
        let restored :=
          set_tunables (set data (as_stored data old_val) t1) st1 in
        if negb write then (0, st1)
        else if old_val =? as_unsigned (get data t1) then (0, st1)
        else if tunable_eqb data min_runtime then
          (0, set_values
                (mk_derived
                   (sched_upmigrate (values st1))
                   (sched_downmigrate (values st1))
                   (sched_small_task (values st1))
                   (sched_spill_load (values st1))
                   (sched_heavy_task (values st1))
                   (sched_init_task_load_pelt (values st1))
                   (sched_init_task_load_windows (values st1))
                   (sched_upmigrate_min_nice (values st1))
                   (sched_grp_upmigrate (values st1))
                   (sched_grp_downmigrate (values st1))
                   (sched_grp_task_active_period (values st1))
                   (sched_grp_min_task_load_delta (values st1))
                   (sched_grp_min_cluster_update_delta (values st1))
                   (u64 (sysctl_sched_min_runtime t1 * 1000)))
                st1)
        else if tunable_eqb data grp_task_active_windows then
          (0, set_values
                (mk_derived
                   (sched_upmigrate (values st1))
                   (sched_downmigrate (values st1))
                   (sched_small_task (values st1))
                   (sched_spill_load (values st1))
                   (sched_heavy_task (values st1))
                   (sched_init_task_load_pelt (values st1))
                   (sched_init_task_load_windows (values st1))
                   (sched_upmigrate_min_nice (values st1))
                   (sched_grp_upmigrate (values st1))
                   (sched_grp_downmigrate (values st1))
                   (u32 (sched_ravg_window st1
                         * sysctl_sched_grp_task_active_windows t1))
                   (sched_grp_min_task_load_delta (values st1))
                   (sched_grp_min_cluster_update_delta (values st1))
                   (sched_min_runtime (values st1)))
                st1)
        else if tunable_eqb data grp_upmigrate_pct
                || tunable_eqb data grp_downmigrate_pct then
          if sysctl_sched_grp_upmigrate_pct t1
             <? sysctl_sched_grp_downmigrate_pct t1
          then (- EINVAL, restored)
          else (0, set_hmp_defaults st1)
        else if (if tunable_eqb data upmigrate_min_nice
                 then (s32 (get data t1) <? -20) || (19 <? s32 (get data t1))
                 else (sysctl_sched_upmigrate_pct t1
                       <? sysctl_sched_downmigrate_pct t1)
                      || (100 <? as_unsigned (get data t1)))
        then (- EINVAL, restored)
        else
          let st2 := if update_task_count then count_tasks_again st1 else st1 in
          (0, set_hmp_defaults st2)
    end.

(** The initial values of the file, with HMP placement switched on, a
    10 ms window, and the derived values [set_hmp_defaults] gives them. *)
Definition boot_tunables : sysctls :=
  mk_sysctls 80 60 10 100 15 0 120 100 15 0 1.

Definition boot_state : hmp_state :=
  set_hmp_defaults
    (mk_hmp true false 10000000 1024 boot_tunables
       (mk_derived 0 0 0 0 0 0 0 15 0 0 0 0 0 0) O).


(** Every variable holds a value of its C type. *)
Definition well_typed (t : sysctls) : Prop :=
  forall data, as_stored data (get data t) = get data t.

(** What the handler enforces on the tunables it accepts: the task and the
    group thresholds are not inverted, the nice value is a nice value, and
    the task percentages are percentages. *)
Definition tunables_valid (t : sysctls) : Prop :=
  well_typed t /\
  sysctl_sched_downmigrate_pct t <= sysctl_sched_upmigrate_pct t /\
  sysctl_sched_grp_downmigrate_pct t <= sysctl_sched_grp_upmigrate_pct t /\
  -20 <= sysctl_sched_upmigrate_min_nice t <= 19 /\
  sysctl_sched_upmigrate_pct t <= 100 /\
  sysctl_sched_downmigrate_pct t <= 100 /\
  sysctl_sched_small_task_pct t <= 100 /\
  sysctl_sched_spill_load_pct t <= 100 /\
  sysctl_sched_init_task_load_pct t <= 100 /\
  sysctl_sched_heavy_task_pct t <= 100.

(** [sched_set_boost] on the globals it reads and writes: the return value,
    the new [boost_refcount] (an [int]) and whether [boost_kick_cpus] was
    called. *)
Definition sched_set_boost (sched_enable_hmp : bool) (boost_refcount : Z)
  (enable : Z) : Z * Z * bool :=
  if negb sched_enable_hmp then (- EINVAL, boost_refcount, false)
  else
    let old_refcount := boost_refcount in
    let '(ret, boost_refcount) :=
      if enable =? 1 then (0, s32 (boost_refcount + 1))
      else if enable =? 0 then
        if 1 <=? boost_refcount then (0, s32 (boost_refcount - 1))
        else (- EINVAL, boost_refcount)
      else (- EINVAL, boost_refcount) in
    (ret, boost_refcount,
     (old_refcount =? 0) && negb (boost_refcount =? 0)).

(** A run of calls of [sched_set_boost] with HMP enabled: the count at the
    end. *)
Fixpoint boost_calls (boost_refcount : Z) (calls : list Z) : Z :=
  match calls with
  | [] => boost_refcount
  | enable :: rest =>
      boost_calls (snd (fst (sched_set_boost true boost_refcount enable))) rest
  end.

(** The number of calls of a run that succeed with the given argument. *)
Fixpoint boost_successes (boost_refcount : Z) (calls : list Z) (arg : Z) : Z :=
  match calls with
  | [] => 0
  | enable :: rest =>
      let r := sched_set_boost true boost_refcount enable in
      (if (fst (fst r) =? 0) && (enable =? arg) then 1 else 0)
      + boost_successes (snd (fst r)) rest arg
  end.

End HmpTunables.

(** ** HMP task placement *)

Module Hmp.
Import Int.

(** A [cpumask_t] is a bitmap over CPU numbers. *)
Definition cpumask := Z.

Definition CPU_MASK_NONE : cpumask := 0.
Definition cpumask_test_cpu (cpu : Z) (m : cpumask) : bool := Z.testbit m cpu.
Definition cpumask_and (a b : cpumask) : cpumask := Z.land a b.
Definition cpumask_andnot (a b : cpumask) : cpumask := Z.ldiff a b.
Definition cpumask_clear_cpu (cpu : Z) (m : cpumask) : cpumask :=
  Z.clearbit m cpu.
Definition cpumask_empty (m : cpumask) : bool := m =? 0.
Definition cpumask_equal (a b : cpumask) : bool := a =? b.

(** The lowest CPU of the mask among the first [nr] CPUs counted from [i],
    or the number after them. *)
Fixpoint first_from (nr : nat) (i : Z) (m : cpumask) : Z :=
  match nr with
  | O => i
  | S nr' => if Z.testbit m i then i else first_from nr' (i + 1) m
  end.

(** The per-CPU data ([struct rq] and what hangs off it) that placement
    reads.  [idle], [high_irqload] and [reserved] are the answers of
    [idle_cpu], [sched_cpu_high_irqload] and [is_reserved] for the CPU;
    [ptable] is the CPU's power table up to its terminating entry, as
    pairs of frequency and power, when power data is available. *)
Record rq := mk_rq_hmp {
  nr_running : Z;
  cumulative_runnable_avg : Z;
  curr_demand : Z;
  mostly_idle_load : Z;
  mostly_idle_nr_run : Z;
  mostly_idle_freq : Z;
  cstate : Z;
  dstate : Z;
  static_cpu_pwr_cost : Z;
  static_cluster_pwr_cost : Z;
  freq_domain_cpumask : cpumask;
  cluster : Z;
  prefer_idle : Z;
  capacity : Z;
  max_possible_capacity_of : Z;
  load_scale_factor : Z;
  cur_freq : Z;
  max_freq : Z;
  max_possible_freq : Z;
  idle : bool;
  high_irqload : bool;
  reserved : bool;
  ptable : option (list (Z * Z))
}.

(** The placement tunables and system-wide values. *)
Record system := mk_system {
  nr_cpu_ids : nat;
  cpu_rq : Z -> rq;
  cpu_active_mask : cpumask;
  cpu_possible_mask : cpumask;
  mpc_mask : cpumask;
  max_possible_capacity : Z;
  min_capacity : Z;
  max_capacity : Z;
  max_load_scale_factor : Z;
  min_max_freq : Z;
  max_task_load : Z;
  smp_processor_id : Z;
  current_wake_up_idle : bool;
  boost_refcount : Z;
  sched_small_task : Z;
  sched_spill_load : Z;
  sched_upmigrate : Z;
  sched_downmigrate : Z;
  sched_upmigrate_min_nice : Z;
  sysctl_sched_spill_nr_run : Z;
  sysctl_sched_restrict_tasks_spread : bool;
  sysctl_sched_enable_power_aware : bool;
  sysctl_sched_powerband_limit_pct : Z;
  sysctl_sched_enable_colocation : bool
}.

(** A related-thread group with a preferred cluster: the cluster and its
    capacity. *)
Record related_thread_group := mk_grp {
  preferred_cluster : option (Z * Z)
}.

(** What placement reads of the task: [task_load(p)], [task_cpu(p)],
    [tsk_cpus_allowed(p)], its nice value, its PF_WAKE_UP_IDLE flag, its
    group and whether its task group discourages up-migration. *)
Record task := mk_task {
  task_load : Z;
  task_cpu : Z;
  cpus_allowed : cpumask;
  task_nice : Z;
  wake_up_idle : bool;
  grp : option related_thread_group;
  upmigrate_discouraged : bool
}.

Definition INT_MAX : Z := 2 ^ 31 - 1.
Definition ULLONG_MAX : Z := 2 ^ 64 - 1.

Definition cpumask_first (s : system) (m : cpumask) : Z :=
  first_from (nr_cpu_ids s) 0 m.

(** Modelled from the spec: [scale_load_to_cpu] is an inline function of
    kernel/sched/qhmp_sched.h, which is not part of the file; it gives the
    "capacity-normalized" load, the load times the CPU's load scale factor
    over 1024. *)
Definition scale_load_to_cpu (s : system) (load cpu : Z) : Z :=
  let f := load_scale_factor (cpu_rq s cpu) in
  if f =? 1024 then load else u64 (load * f) / 1024.

Definition cpu_capacity (s : system) (cpu : Z) : Z := capacity (cpu_rq s cpu).
Definition cpu_max_possible_capacity (s : system) (cpu : Z) : Z :=
  max_possible_capacity_of (cpu_rq s cpu).
Definition cpu_mostly_idle_freq (s : system) (cpu : Z) : Z :=
  mostly_idle_freq (cpu_rq s cpu).
Definition sched_cpu_high_irqload (s : system) (cpu : Z) : bool :=
  high_irqload (cpu_rq s cpu).
Definition idle_cpu (s : system) (cpu : Z) : bool := idle (cpu_rq s cpu).

(** [is_small_task]: "small" on the minimum capacity CPU. *)
Definition is_small_task (s : system) (p : task) : bool :=
  let load := u64 (task_load p * max_load_scale_factor s) in
  let load := load / 1024 in
  load <? sched_small_task s.

Definition sched_boost (s : system) : bool := 0 <? boost_refcount s.

(** [wake_to_idle]: the flag of the current task or of [p]. *)
Definition wake_to_idle (s : system) (p : task) : bool :=
  current_wake_up_idle s || wake_up_idle p.

Definition cpu_load_sync (s : system) (cpu : Z) (sync : bool) : Z :=
  let r := cpu_rq s cpu in
  let load := cumulative_runnable_avg r in
  let load :=
    if sync && (cpu =? smp_processor_id s) then
      if curr_demand r <? load then u64 (load - curr_demand r) else 0
    else load in
  scale_load_to_cpu s load cpu.

Definition spill_threshold_crossed (s : system) (tload cpu_load : Z) (r : rq)
  : bool :=
  let total_load := u64 (tload + cpu_load) in
  (sched_spill_load s <? total_load)
  || (sysctl_sched_spill_nr_run s <? u32 (nr_running r + 1)).

Definition mostly_idle_cpu_sync (s : system) (cpu load : Z) (sync : bool)
  : bool :=
  let r := cpu_rq s cpu in
  let nr := nr_running r in
  let nr := if sync && (cpu =? smp_processor_id s) then nr - 1 else nr in
  (load <=? mostly_idle_load r) && (nr <=? mostly_idle_nr_run r).

(** [power_cost_at_freq]: the power of the first table entry whose
    frequency reaches [freq], or of the last entry.  [None] is the [BUG()]
    of an empty table. *)
Fixpoint table_walk (costs : list (Z * Z)) (freq : Z) : option Z :=
  match costs with
  | [] => None
  | (f, pw) :: rest =>
      match rest with
      | [] => Some pw
      | _ => if freq <=? f then Some pw else table_walk rest freq
      end
  end.

Definition power_cost_at_freq (s : system) (cpu freq : Z) : option Z :=
  match ptable (cpu_rq s cpu) with
  | Some costs =>
      if negb (sysctl_sched_enable_power_aware s)
      then Some (cpu_max_possible_capacity s cpu)
      else table_walk costs (if freq =? 0 then min_max_freq s else freq)
  | None => Some (cpu_max_possible_capacity s cpu)
  end.

(** [power_cost]: "the cost of running task p on CPU cpu". *)
Definition power_cost (s : system) (tload cpu : Z) : option Z :=
  let r := cpu_rq s cpu in
  if negb (sysctl_sched_enable_power_aware s)
  then Some (cpu_max_possible_capacity s cpu)
  else
    let demand := u64 (tload * 100) in
    let demand := demand / max_task_load s in
    let task_freq := u32 (demand * max_possible_freq r) in
    let task_freq := task_freq / 100 in
    let task_freq := Z.max (cur_freq r) task_freq in
    let static :=
      if idle_cpu s cpu && negb (cstate r =? 0) then
        static_cpu_pwr_cost r
        + (if negb (dstate r =? 0) then static_cluster_pwr_cost r else 0)
      else 0 in
    match power_cost_at_freq s cpu task_freq with
    | Some c => Some (u32 (c + static))
    | None => None
    end.

(** *** Small tasks *)

(** The local variables of [best_small_task_cpu] that live across the
    rounds of its first loop. *)
Record small_scan := mk_scan {
  search_cpu : cpumask;
  fb_search_cpu : cpumask;
  min_cstate_cpu : Z;
  min_cstate : Z;
  best_busy_cpu : Z;
  min_load : Z
}.

(** One round of the [do ... while] loop for CPU [i]: the CPU to return
    at once, or the state for the next round. *)
Definition small_scan_step (s : system) (p : task) (sync : bool) (i : Z)
  (st : small_scan) : Z + small_scan :=
  let r := cpu_rq s i in
  let hmp_capable := negb (cpumask_equal (mpc_mask s) (cpu_possible_mask s)) in
  if (cpu_max_possible_capacity s i =? max_possible_capacity s) && hmp_capable
  then
    inr (mk_scan
           (cpumask_andnot (search_cpu st) (freq_domain_cpumask r))
           (cpumask_and (search_cpu st) (freq_domain_cpumask r))
           (min_cstate_cpu st) (min_cstate st) (best_busy_cpu st)
           (min_load st))
  else
    let search := cpumask_clear_cpu i (search_cpu st) in
    if sched_cpu_high_irqload s i then
      inr (mk_scan search (fb_search_cpu st) (min_cstate_cpu st)
             (min_cstate st) (best_busy_cpu st) (min_load st))
    else if idle_cpu s i && negb (cstate r =? 0) then
      if cstate r <? min_cstate st then
        inr (mk_scan search (fb_search_cpu st) i (cstate r)
               (best_busy_cpu st) (min_load st))
      else
        inr (mk_scan search (fb_search_cpu st) (min_cstate_cpu st)
               (min_cstate st) (best_busy_cpu st) (min_load st))
    else
      let cpu_load := cpu_load_sync s i sync in
      if sysctl_sched_restrict_tasks_spread s then
        let tload := scale_load_to_cpu s (task_load p) i in
        if negb (spill_threshold_crossed s tload cpu_load r)
           && (cpu_load <? min_load st)
        then inr (mk_scan search (fb_search_cpu st) (min_cstate_cpu st)
                    (min_cstate st) i cpu_load)
        else inr (mk_scan search (fb_search_cpu st) (min_cstate_cpu st)
                    (min_cstate st) (best_busy_cpu st) (min_load st))
      else if mostly_idle_cpu_sync s i cpu_load sync then inl i
      else inr (mk_scan search (fb_search_cpu st) (min_cstate_cpu st)
                  (min_cstate st) (best_busy_cpu st) (min_load st)).

(** The [do ... while ((i = cpumask_first(&search_cpu)) < nr_cpu_ids)]
    loop.  Every round takes CPUs out of [search_cpu]; [None] stands for a
    loop that does not end within [fuel] rounds. *)
Fixpoint small_scan_loop (fuel : nat) (s : system) (p : task) (sync : bool)
  (i : Z) (st : small_scan) : option (Z + small_scan) :=
  match fuel with
  | O => None
  | S fuel' =>
      match small_scan_step s p sync i st with
      | inl cpu => Some (inl cpu)
      | inr st' =>
          let i' := cpumask_first s (search_cpu st') in
          if i' <? Z.of_nat (nr_cpu_ids s)
          then small_scan_loop fuel' s p sync i' st'
          else Some (inr st')
      end
  end.

(** [for_each_cpu(i, mask)] over the CPUs [0 .. nr_cpu_ids - 1]. *)
Definition cpus (s : system) : list Z :=
  map Z.of_nat (seq 0 (nr_cpu_ids s)).

(** The second loop of [best_small_task_cpu]: the least loaded CPU below
    the spill thresholds. *)
Definition busy_scan (s : system) (p : task) (sync : bool) (mask : cpumask)
  (best : Z * Z) : Z * Z :=
  fold_left
    (fun (acc : Z * Z) (i : Z) =>
       let '(best_busy_cpu, min_load) := acc in
       if negb (cpumask_test_cpu i mask) then acc
       else
         let prev_cpu := i =? task_cpu p in
         if sched_cpu_high_irqload s i then acc
         else
           let tload := scale_load_to_cpu s (task_load p) i in
           let cpu_load := cpu_load_sync s i sync in
           if negb (spill_threshold_crossed s tload cpu_load (cpu_rq s i))
              && ((cpu_load <? min_load)
                  || (prev_cpu && (cpu_load =? min_load)))
           then (i, cpu_load) else acc)
    (cpus s) best.

(** The last loop of [best_small_task_cpu]: the cheapest CPU among those
    set aside. *)
Definition fallback_scan (s : system) (p : task) (mask : cpumask)
  : option Z :=
  option_map fst
    (fold_left
       (fun (acc : option (Z * Z)) (i : Z) =>
          match acc with
          | None => None
          | Some (fallback_cpu, min_cost) =>
              if negb (cpumask_test_cpu i mask) then acc
              else
                let prev_cpu := i =? task_cpu p in
                let tload := scale_load_to_cpu s (task_load p) i in
                match power_cost s tload i with
                | None => None
                | Some c =>
                    let cpu_cost := s32 c in
                    if (cpu_cost <? min_cost)
                       || (prev_cpu && (cpu_cost =? min_cost))
                    then Some (i, cpu_cost) else acc
                end
          end)
       (cpus s) (Some (-1, INT_MAX))).

(** [best_small_task_cpu].  The [trace_sched_cpu_load] call is left out. *)
Definition best_small_task_cpu (s : system) (p : task) (sync : bool)
  : option Z :=
  let fallback_cpu := -1 in
  let search := cpumask_and (cpus_allowed p) (cpu_active_mask s) in
  let start :=
    if negb (cpumask_test_cpu (task_cpu p) search) then
      if cpumask_empty search then None
      else
        let i := cpumask_first s search in
        if Z.of_nat (nr_cpu_ids s) <=? i then None else Some i
    else Some (task_cpu p) in
  match start with
  | None => Some fallback_cpu
  | Some i =>
      match small_scan_loop (S (nr_cpu_ids s)) s p sync i
              (mk_scan search CPU_MASK_NONE (-1) INT_MAX (-1) ULLONG_MAX) with
      | None => None
      | Some (inl cpu) => Some cpu
      | Some (inr st) =>
          if negb (best_busy_cpu st =? -1) then Some (best_busy_cpu st)
          else if negb (min_cstate_cpu st =? -1) then Some (min_cstate_cpu st)
          else
            let '(busy, _) :=
              if negb (sysctl_sched_restrict_tasks_spread s) then
                busy_scan s p sync
                  (cpumask_andnot
                     (cpumask_and (cpus_allowed p) (cpu_active_mask s))
                     (fb_search_cpu st))
                  (best_busy_cpu st, min_load st)
              else (best_busy_cpu st, min_load st) in
            if negb (sysctl_sched_restrict_tasks_spread s)
               && negb (busy =? -1)
            then Some busy
            else fallback_scan s p (fb_search_cpu st)
      end
  end.

(** [select_packing_target]: "select a single cpu in cluster as target for
    packing, iff cluster frequency is less than a threshold level". *)
Definition select_packing_target (s : system) (p : task) (best_cpu : Z)
  : option Z :=
  let r := cpu_rq s best_cpu in
  if cpu_mostly_idle_freq s best_cpu <=? cur_freq r then Some best_cpu
  else if max_freq r <=? cpu_mostly_idle_freq s best_cpu then Some best_cpu
  else
    let search :=
      cpumask_and (cpumask_and (cpus_allowed p) (cpu_active_mask s))
        (freq_domain_cpumask r) in
    option_map fst
      (fold_left
         (fun (acc : option (Z * Z)) (i : Z) =>
            match acc with
            | None => None
            | Some (target, min_cost) =>
                if negb (cpumask_test_cpu i search) then acc
                else
                  match power_cost s (scale_load_to_cpu s (task_load p) i) i
                  with
                  | None => None
                  | Some c =>
                      let cost := s32 c in
                      if (cost <? min_cost)
                         && negb (sched_cpu_high_irqload s i)
                      then Some (i, cost) else acc
                  end
            end)
         (cpus s) (Some (best_cpu, INT_MAX))).

(** *** The general search *)

Definition UP_MIGRATION : Z := 1.
Definition DOWN_MIGRATION : Z := 2.
Definition EA_MIGRATION : Z := 3.
Definition IRQLOAD_MIGRATION : Z := 4.
Definition PREFERRED_CLUSTER_MIGRATION : Z := 5.

Definition same_cluster (c : Z) (pref_cluster : option Z) : bool :=
  match pref_cluster with
  | Some pc => c =? pc
  | None => false
  end.

Definition skip_freq_domain (s : system) (tcpu cpu reason : Z)
  (pref_cluster : option Z) : bool :=
  if reason =? 0 then false
  else if reason =? UP_MIGRATION
       then cpu_capacity s cpu <=? cpu_capacity s tcpu
  else if reason =? DOWN_MIGRATION
       then cpu_capacity s tcpu <=? cpu_capacity s cpu
  else if reason =? EA_MIGRATION
       then negb (cpu_capacity s cpu =? cpu_capacity s tcpu)
  else if reason =? PREFERRED_CLUSTER_MIGRATION
       then negb (same_cluster (cluster (cpu_rq s cpu)) pref_cluster)
  else false.

Definition skip_cpu (s : system) (p : task) (cpu tload reason : Z)
  : option bool :=
  if reason =? 0 then Some false
  else if reserved (cpu_rq s cpu) then Some true
  else if reason =? EA_MIGRATION then
    match power_cost s tload cpu, power_cost s tload (task_cpu p) with
    | Some a, Some b => Some (b <? a)
    | _, _ => None
    end
  else Some (cpu =? task_cpu p).

Definition task_load_will_fit (s : system) (p : task) (tload cpu : Z) : bool :=
  let prev_cpu := task_cpu p in
  if cpu_capacity s cpu =? max_capacity s then true
  else if sched_boost s then cpu_capacity s prev_cpu <? cpu_capacity s cpu
  else if (sched_upmigrate_min_nice s <? task_nice p)
          || upmigrate_discouraged p then true
  else
    let upmigrate :=
      if cpu_capacity s cpu <? cpu_capacity s prev_cpu
      then s32 (sched_downmigrate s) else s32 (sched_upmigrate s) in
    tload <? u64 upmigrate.

Definition eligible_cpu (s : system) (tload cpu_load cpu : Z) (sync : bool)
  : bool :=
  if sched_cpu_high_irqload s cpu then false
  else if mostly_idle_cpu_sync s cpu cpu_load sync then true
  else if negb (cpu_max_possible_capacity s cpu =? max_possible_capacity s)
  then negb (spill_threshold_crossed s tload cpu_load (cpu_rq s cpu))
  else false.

Definition power_delta_exceeded (s : system) (cpu_cost base_cost : Z) : bool :=
  let cpu_cost := u32 cpu_cost in
  let base_cost := u32 base_cost in
  if (base_cost =? 0) || (cpu_cost =? base_cost) then false
  else if negb (sysctl_sched_enable_power_aware s) then true
  else
    let delta := s32 (cpu_cost - base_cost) in
    let cost_limit :=
      s32 (u64 (sysctl_sched_powerband_limit_pct s * base_cost) / 100) in
    cost_limit <? Z.abs delta.

(** The local variables of [select_best_cpu] that live across the rounds
    of its loop. *)
Record search := mk_search {
  search_cpus : cpumask;
  best_cpu : Z;
  fallback_idle_cpu : Z;
  min_fallback_load : Z;
  g_min_cstate_cpu : Z;
  g_min_cstate : Z;
  min_cost : Z;
  min_idle_cost : Z;
  min_busy_cost : Z;
  g_min_load : Z;
  g_prefer_idle : Z
}.

(** The inner [for_each_cpu_and(j, &search_cpus, &rq->freq_domain_cpumask)]
    loop: "the least-loaded mostly-idle CPU where the task won't fit is our
    fallback". *)
Definition fallback_idle_scan (s : system) (p : task) (sync : bool)
  (mask : cpumask) (acc : Z * Z) : Z * Z :=
  fold_left
    (fun (acc : Z * Z) (j : Z) =>
       let '(fallback, min_fb_load) := acc in
       if negb (cpumask_test_cpu j mask) then acc
       else
         let cpu_load := cpu_load_sync s j sync in
         if mostly_idle_cpu_sync s j cpu_load sync
            && negb (sched_cpu_high_irqload s j)
            && ((cpu_load <? min_fb_load)
                || ((cpu_load =? min_fb_load) && (j =? task_cpu p)))
         then (j, cpu_load) else acc)
    (cpus s) acc.

(** One round of the loop of [select_best_cpu] for a CPU [i] of
    [search_cpus]. *)
Definition search_step (s : system) (p : task) (reason : Z) (sync : bool)
  (pref_cluster : option Z) (prefer_idle_override : bool) (i : Z)
  (st : search) : option search :=
  let r := cpu_rq s i in
  let without_domain :=
    cpumask_andnot (search_cpus st) (freq_domain_cpumask r) in
  if skip_freq_domain s (task_cpu p) i reason pref_cluster then
    Some (mk_search without_domain (best_cpu st) (fallback_idle_cpu st)
            (min_fallback_load st) (g_min_cstate_cpu st) (g_min_cstate st)
            (min_cost st) (min_idle_cost st) (min_busy_cost st)
            (g_min_load st) (g_prefer_idle st))
  else
    let tload := scale_load_to_cpu s (task_load p) i in
    match skip_cpu s p i tload reason with
    | None => None
    | Some true => Some st
    | Some false =>
        let prev_cpu := i =? task_cpu p in
        if (match pref_cluster with
            | Some _ => negb (same_cluster (cluster r) pref_cluster)
            | None => false
            end)
           || negb (task_load_will_fit s p tload i)
        then
          let '(fb, fb_load) :=
            fallback_idle_scan s p sync
              (cpumask_and (search_cpus st) (freq_domain_cpumask r))
              (fallback_idle_cpu st, min_fallback_load st) in
          Some (mk_search without_domain (best_cpu st) fb fb_load
                  (g_min_cstate_cpu st) (g_min_cstate st)
                  (min_cost st) (min_idle_cost st) (min_busy_cost st)
                  (g_min_load st) (g_prefer_idle st))
        else
          let first_fit :=
            if g_prefer_idle st =? -1 then prefer_idle r
            else g_prefer_idle st in
          let st := mk_search (search_cpus st) (best_cpu st)
                      (fallback_idle_cpu st) (min_fallback_load st)
                      (g_min_cstate_cpu st) (g_min_cstate st)
                      (min_cost st) (min_idle_cost st) (min_busy_cost st)
                      (g_min_load st) first_fit in
          let cpu_load := cpu_load_sync s i sync in
          if negb (eligible_cpu s tload cpu_load i sync) then Some st
          else
            match power_cost s tload i with
            | None => None
            | Some c =>
                let cpu_cost := s32 c in
                let band :=
                  if power_delta_exceeded s cpu_cost (min_cost st) then
                    if min_cost st <? cpu_cost then None
                    else
                      Some (mk_search (search_cpus st) (-1)
                              (fallback_idle_cpu st) (min_fallback_load st)
                              (-1) INT_MAX cpu_cost
                              (min_idle_cost st) (min_busy_cost st)
                              ULLONG_MAX
                              (if prefer_idle_override then g_prefer_idle st
                               else prefer_idle r))
                  else Some st in
                match band with
                | None => Some st
                | Some st =>
                    if idle_cpu s i
                       || (sync && (i =? smp_processor_id s)
                           && negb (g_prefer_idle st =? 0)
                           && (nr_running r =? 1))
                    then
                      let cstate := cstate r in
                      if g_min_cstate st <? cstate then Some st
                      else if cstate <? g_min_cstate st then
                        Some (mk_search (search_cpus st) (best_cpu st)
                                (fallback_idle_cpu st) (min_fallback_load st)
                                i cstate (min_cost st) cpu_cost
                                (min_busy_cost st) (g_min_load st)
                                (g_prefer_idle st))
                      else if (cpu_cost <? min_idle_cost st)
                              || (prev_cpu && (cpu_cost =? min_idle_cost st))
                      then
                        Some (mk_search (search_cpus st) (best_cpu st)
                                (fallback_idle_cpu st) (min_fallback_load st)
                                i (g_min_cstate st) (min_cost st) cpu_cost
                                (min_busy_cost st) (g_min_load st)
                                (g_prefer_idle st))
                      else Some st
                    else if g_min_load st <? cpu_load then Some st
                    else if cpu_load <? g_min_load st then
                      Some (mk_search (search_cpus st) i
                              (fallback_idle_cpu st) (min_fallback_load st)
                              (g_min_cstate_cpu st) (g_min_cstate st)
                              (min_cost st) (min_idle_cost st) cpu_cost
                              cpu_load (g_prefer_idle st))
                    else if (cpu_cost <? min_busy_cost st)
                            || (prev_cpu && (cpu_cost =? min_busy_cost st))
                    then
                      Some (mk_search (search_cpus st) i
                              (fallback_idle_cpu st) (min_fallback_load st)
                              (g_min_cstate_cpu st) (g_min_cstate st)
                              (min_cost st) (min_idle_cost st) cpu_cost
                              (g_min_load st) (g_prefer_idle st))
                    else Some st
                end
            end
    end.

(** [for_each_cpu(i, &search_cpus)], with [search_cpus] shrinking on the
    way. *)
Definition search_loop (s : system) (p : task) (reason : Z) (sync : bool)
  (pref_cluster : option Z) (prefer_idle_override : bool) (st : search)
  : option search :=
  fold_left
    (fun (acc : option search) (i : Z) =>
       match acc with
       | None => None
       | Some st =>
           if cpumask_test_cpu i (search_cpus st)
           then search_step s p reason sync pref_cluster
                  prefer_idle_override i st
           else Some st
       end)
    (cpus s) (Some st).

(** [select_best_cpu]: "return cheapest cpu that can fit this task".  The
    [target] argument is not used by the function, and the trace calls
    are left out. *)
Definition select_best_cpu (s : system) (p : task) (reason : Z) (sync : bool)
  : option Z :=
  let small_task := is_small_task s p in
  let boost := sched_boost s in
  let pref :=
    match grp p with
    | Some g =>
        match preferred_cluster g with
        | Some (c, cap) =>
            if sysctl_sched_enable_colocation s && (min_capacity s <? cap)
            then Some c else None
        | None => None
        end
    | None => None
    end in
  let small_task := match pref with Some _ => false | None => small_task end in
  let idle_pref := if negb (reason =? 0) then 1 else -1 in
  let prefer_idle_override := negb (reason =? 0) in
  let wti := wake_to_idle s p in
  let idle_pref := if wti then 1 else idle_pref in
  let prefer_idle_override := wti || prefer_idle_override in
  let small_task := if wti then false else small_task in
  let sync := if wti then false else sync in
  let found : option (Z * Z) :=
    if small_task && negb boost && negb sync then
      match best_small_task_cpu s p sync with
      | Some c => Some (c, -1)
      | None => None
      end
    else
      let search_cpus := cpumask_and (cpus_allowed p) (cpu_active_mask s) in
      if sync && cpumask_test_cpu (smp_processor_id s) search_cpus
      then Some (smp_processor_id s, -1)
      else
        match search_loop s p reason sync pref prefer_idle_override
                (mk_search search_cpus (-1) (-1) ULLONG_MAX (-1) INT_MAX
                   INT_MAX INT_MAX INT_MAX ULLONG_MAX idle_pref) with
        | None => None
        | Some st =>
            let best :=
              if (0 <=? g_min_cstate_cpu st)
                 && ((0 <? g_prefer_idle st) || (best_cpu st <? 0)
                     || negb (mostly_idle_cpu_sync s (best_cpu st)
                                (g_min_load st) sync))
              then g_min_cstate_cpu st else best_cpu st in
            Some (best, fallback_idle_cpu st)
        end in
  match found with
  | None => None
  | Some (best_cpu, fallback_idle_cpu) =>
      let best_cpu :=
        if best_cpu <? 0 then
          if fallback_idle_cpu <? 0 then task_cpu p else fallback_idle_cpu
        else best_cpu in
      if negb (cpu_mostly_idle_freq s best_cpu =? 0)
         && negb prefer_idle_override
      then select_packing_target s p best_cpu
      else Some best_cpu
  end.

(** *** Notions used in the statements about small tasks *)

Definition hmp_capable (s : system) : bool :=
  negb (cpumask_equal (mpc_mask s) (cpu_possible_mask s)).

(** A CPU of the biggest capacity class of a system with several classes:
    [best_small_task_cpu] sets it aside as a fallback. *)
Definition set_aside (s : system) (c : Z) : bool :=
  (cpu_max_possible_capacity s c =? max_possible_capacity s)
  && hmp_capable s.

(** Idle in a C-state other than 0. *)
Definition in_cstate (s : system) (c : Z) : bool :=
  idle_cpu s c && negb (cstate (cpu_rq s c) =? 0).

(** Allowed for the task, active, not set aside, without high IRQ load. *)
Definition candidate (s : system) (p : task) (c : Z) : Prop :=
  Z.testbit (cpumask_and (cpus_allowed p) (cpu_active_mask s)) c = true /\
  set_aside s c = false /\
  sched_cpu_high_irqload s c = false.

(** A candidate that is not idle in a C-state and whose load and running
    count are within the mostly-idle thresholds. *)
Definition awake_mostly_idle (s : system) (p : task) (c : Z) : Prop :=
  candidate s p c /\ in_cstate s c = false /\
  mostly_idle_cpu_sync s c (cpu_load_sync s c false) false = true.

(** A candidate that is idle in a C-state. *)
Definition sleeping (s : system) (p : task) (c : Z) : Prop :=
  candidate s p c /\ in_cstate s c = true.

(** Active CPUs are among the first [nr_cpu_ids]; C-state numbers are
    below [INT_MAX]; an active CPU belongs to its own frequency domain, and
    the frequency domain of one that is set aside holds such CPUs only. *)
Definition well_formed (s : system) : Prop :=
  (forall c, Z.testbit (cpu_active_mask s) c = true ->
             0 <= c < Z.of_nat (nr_cpu_ids s)) /\
  (forall c, cstate (cpu_rq s c) < INT_MAX) /\
  (forall i, Z.testbit (cpu_active_mask s) i = true ->
     Z.testbit (freq_domain_cpumask (cpu_rq s i)) i = true) /\
  (forall i c, Z.testbit (cpu_active_mask s) i = true ->
     set_aside s i = true ->
     Z.testbit (freq_domain_cpumask (cpu_rq s i)) c = true ->
     set_aside s c = true).

(** What holds between the rounds of the first loop of
    [best_small_task_cpu] when tasks are not spread restrictively: no busy
    CPU has been chosen, the idle CPU remembered is one in a C-state, every
    awake mostly-idle candidate is still to be visited, and an idle
    candidate is still to be visited unless one is remembered. *)
Definition scan_invariant (s : system) (p : task) (st : small_scan) : Prop :=
  (forall c, Z.testbit (search_cpu st) c = true ->
     Z.testbit (cpumask_and (cpus_allowed p) (cpu_active_mask s)) c = true) /\
  best_busy_cpu st = -1 /\
  (min_cstate_cpu st = -1 \/ sleeping s p (min_cstate_cpu st)) /\
  (min_cstate_cpu st = -1 -> min_cstate st = INT_MAX) /\
  (forall c, awake_mostly_idle s p c -> Z.testbit (search_cpu st) c = true) /\
  (forall c, sleeping s p c ->
     Z.testbit (search_cpu st) c = true \/ min_cstate_cpu st <> -1).

(** *** Notions used in the statements about affinity *)

(** Allowed for the task and active. *)
Definition within_affinity (s : system) (p : task) (c : Z) : Prop :=
  cpumask_test_cpu c (cpus_allowed p) = true /\
  cpumask_test_cpu c (cpu_active_mask s) = true.

(** A CPU variable of a search: still -1, or a CPU the task may run on. *)
Definition unset_or_allowed (s : system) (p : task) (c : Z) : Prop :=
  c = -1 \/ within_affinity s p c.

(** Between the rounds of the first loop of [best_small_task_cpu]: the
    masks hold allowed active CPUs only, and so do the CPU variables that
    are set. *)
Definition small_scan_allowed (s : system) (p : task) (st : small_scan)
  : Prop :=
  (forall c, Z.testbit (search_cpu st) c = true ->
             Z.testbit (cpumask_and (cpus_allowed p) (cpu_active_mask s)) c
             = true) /\
  (forall c, Z.testbit (fb_search_cpu st) c = true ->
             Z.testbit (cpumask_and (cpus_allowed p) (cpu_active_mask s)) c
             = true) /\
  unset_or_allowed s p (best_busy_cpu st) /\
  unset_or_allowed s p (min_cstate_cpu st).

(** The same between the rounds of the loop of [select_best_cpu]. *)
Definition search_allowed (s : system) (p : task) (st : search) : Prop :=
  (forall c, Z.testbit (search_cpus st) c = true ->
             Z.testbit (cpumask_and (cpus_allowed p) (cpu_active_mask s)) c
             = true) /\
  unset_or_allowed s p (best_cpu st) /\
  unset_or_allowed s p (fallback_idle_cpu st) /\
  unset_or_allowed s p (g_min_cstate_cpu st).

(** No CPU has an empty power table, on which [power_cost_at_freq] ends in
    [BUG()]. *)
Definition tables_filled (s : system) : Prop :=
  forall c, ptable (cpu_rq s c) <> Some [].

(** The number of CPUs of a mask. *)
Definition cpumask_weight (s : system) (m : cpumask) : nat :=
  length (filter (fun c => Z.testbit m c) (cpus s)).

(** *** Scenarios used in the statements *)

(** A run queue with the given capacity, load scale factor, running count
    and load, that is not idle, with mostly-idle thresholds of 20 (load)
    and 3 (tasks) and frequency domain [domain]. *)
Definition busy_rq (cap lsf nr load : Z) (domain : cpumask) : rq :=
  mk_rq_hmp nr load 0 20 3 0 0 0 0 0 domain 0 0 cap cap lsf
            1000000 1000000 1000000 false false false None.

(** Three CPUs of one class (capacity 1024); CPU 0 runs one task with load
    5, CPU 1 one task with load 2, CPU 2 four tasks with load 50.  The
    spill thresholds are 100 (load) and 10 (tasks), tasks below a load of
    10 are small, tasks are not spread restrictively. *)
Definition three_little_cpus : system :=
  mk_system 3
    (fun c => if c =? 0 then busy_rq 1024 1024 1 5 7
              else if c =? 1 then busy_rq 1024 1024 1 2 7
              else busy_rq 1024 1024 4 50 7)
    7 7 7 1024 1024 1024 1024 1000000 100 0 false 0
    10 100 80 60 15 10 false false 20 false.

(** Two CPUs of different classes: CPU 0 (capacity 2048, the biggest) runs
    one task with load 1, CPU 1 (capacity 1024, load scale factor 2048) four
    tasks with load 30, which counts as 60 on it. *)
Definition big_little_cpus : system :=
  mk_system 2
    (fun c => if c =? 0 then busy_rq 2048 1024 1 1 1
              else busy_rq 1024 2048 4 30 2)
    3 3 1 2048 1024 2048 2048 1000000 100 0 false 0
    10 100 80 60 15 10 false false 20 false.

(** Two CPUs of one class: CPU 0 runs one task with load 5 and is mostly
    idle, CPU 1 runs four tasks with load 50, beyond the mostly-idle
    thresholds and below the spill thresholds. *)
Definition mostly_idle_and_busy : system :=
  mk_system 2
    (fun c => if c =? 0 then busy_rq 1024 1024 1 5 3
              else busy_rq 1024 1024 4 50 3)
    3 3 3 1024 1024 1024 1024 1000000 100 0 false 0
    10 100 80 60 15 10 false false 20 false.

(** Three CPUs of one class: CPU 0 runs one task with load 2, CPU 1 one
    task with load 5, both mostly idle; CPU 2 runs four tasks with load 50
    and is busy. *)
Definition previous_cpu_busier : system :=
  mk_system 3
    (fun c => if c =? 0 then busy_rq 1024 1024 1 2 7
              else if c =? 1 then busy_rq 1024 1024 1 5 7
              else busy_rq 1024 1024 4 50 7)
    7 7 7 1024 1024 1024 1024 1000000 100 0 false 0
    10 100 80 60 15 10 false false 20 false.

(** A small task (load 4) that may run anywhere and last ran on [cpu]. *)
Definition small_task_on (cpu : Z) : task :=
  mk_task 4 cpu 255 0 false None false.

End Hmp.

(** ** The per-index CPU load averages *)

Module CpuLoad.
Import Int.

Definition DEGRADE_SHIFT : Z := 7.

(** The number of load indices: the rows of the two tables below. *)
Definition CPU_LOAD_IDX_MAX : Z := 5.

Definition degrade_zero_ticks : list Z := [0; 8; 32; 64; 128].

Definition degrade_factor : list (list Z) :=
  [ [   0;   0;  0;  0;  0;  0; 0; 0 ];
    [  64;  32;  8;  0;  0;  0; 0; 0 ];
    [  96;  72; 40; 12;  1;  0; 0; 0 ];
    [ 112;  98; 75; 43; 15;  1; 0; 0 ];
    [ 120; 112; 98; 76; 45; 16; 2; 0 ] ].

Definition zero_ticks (idx : Z) : Z := nth (Z.to_nat idx) degrade_zero_ticks 0.

Definition factor (idx j : Z) : Z :=
  nth (Z.to_nat j) (nth (Z.to_nat idx) degrade_factor []) 0.

(** [load = (load * degrade_factor[idx][j]) >> DEGRADE_SHIFT] *)
Definition degrade (load idx j : Z) : Z :=
  Z.shiftr (u64 (load * factor idx j)) DEGRADE_SHIFT.

(** The loop [while (missed_updates) { if (missed_updates % 2) ...;
    missed_updates >>= 1; j++; }] of [decay_load_missed], by recursion on
    the binary digits of [missed_updates], lowest first. *)
Fixpoint decay_bits (missed_updates : positive) (load idx j : Z) : Z :=
  match missed_updates with
  | xH => degrade load idx j
  | xO rest => decay_bits rest load idx (j + 1)
  | xI rest => decay_bits rest (degrade load idx j) idx (j + 1)
  end.

(** [decay_load_missed]: [load' = (1 - 1/2^i)^n * load], "approximated on
    a 128 point scale". *)
Definition decay_load_missed (load missed_updates idx : Z) : Z :=
  if missed_updates =? 0 then load
  else if zero_ticks idx <=? missed_updates then 0
  else if idx =? 1 then Z.shiftr load missed_updates
  else
    match missed_updates with
    | Zpos p => decay_bits p load idx 0
    | _ => load
    end.

(** The array [cpu_load[]] and the counter [nr_load_updates] of
    [struct rq]. *)
Record load_rq := mk_load_rq {
  cpu_load : list Z;
  nr_load_updates : Z
}.

(** [a[i] = v] for an index within the array. *)
Fixpoint array_set (a : list Z) (i : nat) (v : Z) : list Z :=
  match a, i with
  | [], _ => []
  | _ :: rest, O => v :: rest
  | x :: rest, S i' => x :: array_set rest i' v
  end.

(** The value that one round of the loop of [__update_cpu_load] stores at
    index [i], where [scale] is [1 << i]. *)
Definition averaged (old_load this_load pending_updates i scale : Z) : Z :=
  let old_load := decay_load_missed old_load (u64 (pending_updates - 1)) i in
  let new_load := this_load in
  let new_load :=
    if old_load <? new_load then u64 (new_load + (scale - 1)) else new_load in
  Z.shiftr (u64 (u64 (old_load * (scale - 1)) + new_load)) i.

(** [for (i = 1, scale = 2; i < CPU_LOAD_IDX_MAX; i++, scale += scale)] *)
Fixpoint update_loop (rounds : nat) (i scale : Z) (a : list Z)
  (this_load pending_updates : Z) : list Z :=
  match rounds with
  | O => a
  | S rounds' =>
      if i <? CPU_LOAD_IDX_MAX then
        let v := averaged (nth (Z.to_nat i) a 0) this_load pending_updates
                   i scale in
        update_loop rounds' (i + 1) (s32 (scale + scale))
          (array_set a (Z.to_nat i) v) this_load pending_updates
      else a
  end.

(** [__update_cpu_load]; [sched_avg_update] writes fields outside the
    model.  The loop makes [CPU_LOAD_IDX_MAX - 1] rounds. *)
Definition __update_cpu_load (r : load_rq) (this_load pending_updates : Z)
  : load_rq :=
  let a := array_set (cpu_load r) 0 this_load in
  mk_load_rq (update_loop 4 1 2 a this_load pending_updates)
             (u64 (nr_load_updates r + 1)).

End CpuLoad.

(** * Properties *)

Import Int.

Lemma u64_range x : is_u64 (u64 x).
Proof. unfold is_u64, u64. apply Z.mod_pos_bound. lia. Qed.

Lemma u32_range x : is_u32 (u32 x).
Proof. unfold is_u32, u32. apply Z.mod_pos_bound. lia. Qed.

Lemma u64_small x : is_u64 x -> u64 x = x.
Proof. unfold is_u64, u64. intros H. apply Z.mod_small. exact H. Qed.

Lemma u32_small x : is_u32 x -> u32 x = x.
Proof. unfold is_u32, u32. intros H. apply Z.mod_small. exact H. Qed.

Lemma s64_range x : - 2 ^ 63 <= s64 x < 2 ^ 63.
Proof.
  unfold s64. pose proof (Z.mod_pos_bound x (2 ^ 64) ltac:(lia)) as H.
  cbv zeta. destruct (Z.ltb_spec (x mod 2 ^ 64) (2 ^ 63)); lia.
Qed.

(** [s64] picks the representative of the residue class that lies in the
    signed range. *)
Lemma s64_of_small d : - 2 ^ 63 <= d < 2 ^ 63 -> s64 d = d.
Proof.
  intros H. unfold s64. cbv zeta.
  destruct (Z.ltb_spec (d mod 2 ^ 64) (2 ^ 63)) as [L | L].
  - destruct (Z.le_gt_cases 0 d) as [P | N].
    + rewrite Z.mod_small by lia. reflexivity.
    + exfalso. replace d with (d + 1 * 2 ^ 64 - 1 * 2 ^ 64) in L by lia.
      rewrite <- (Z.add_opp_r _ (1 * 2 ^ 64)), <- Z.mul_opp_l in L.
      rewrite Z.mod_add in L by lia. rewrite Z.mod_small in L by lia. lia.
  - destruct (Z.le_gt_cases 0 d) as [P | N].
    + rewrite Z.mod_small in L by lia. lia.
    + replace d with (d + 1 * 2 ^ 64 + (-1) * 2 ^ 64) at 1 by lia.
      rewrite Z.mod_add by lia. rewrite Z.mod_small by lia. lia.
Qed.

Lemma s64_congr a b : a mod 2 ^ 64 = b mod 2 ^ 64 -> s64 a = s64 b.
Proof. unfold s64. intros ->. reflexivity. Qed.

Lemma s64_u64 x : s64 (u64 x) = s64 x.
Proof. apply s64_congr. unfold u64. apply Z.mod_mod. lia. Qed.

(** The signed difference of two counters that stand for the unbounded
    values [A] and [B] is [A - B] as long as these are closer than 2^63. *)
Lemma s64_sub_true a b A B :
  a = u64 A -> b = u64 B -> - 2 ^ 63 <= A - B < 2 ^ 63 ->
  s64 (a - b) = A - B.
Proof.
  intros -> -> H. rewrite <- (s64_of_small (A - B)) by exact H.
  apply s64_congr. unfold u64. rewrite <- Zminus_mod. reflexivity.
Qed.

(** ** The scaled division *)

Import Weight Tunables Cfs.

Lemma shiftr32_small x : 0 <= x < 2 ^ 32 -> Z.shiftr x 32 = 0.
Proof.
  intros H. rewrite Z.shiftr_div_pow2 by lia. apply Z.div_small. exact H.
Qed.

Lemma shift_down_small fuel fact shift :
  0 <= fact < 2 ^ 32 -> shift_down fuel fact shift = (fact, shift).
Proof.
  intros H. destruct fuel as [| fuel]; cbn [shift_down]; [reflexivity |].
  rewrite shiftr32_small by exact H. reflexivity.
Qed.

(** The loop leaves with a 32-bit factor whenever the fuel covers the bits
    above the low 32; 64 rounds cover every 64-bit value. *)
Lemma shift_down_ends fuel : forall fact shift,
  0 <= fact < 2 ^ (32 + Z.of_nat fuel) ->
  0 <= fst (shift_down fuel fact shift) < 2 ^ 32.
Proof.
  induction fuel as [| fuel IH]; intros fact shift H.
  - cbn [shift_down fst]. rewrite Z.add_0_r in H. exact H.
  - cbn [shift_down]. destruct (Z.eqb_spec (Z.shiftr fact 32) 0) as [E | E].
    + cbn [fst]. rewrite Z.shiftr_div_pow2 in E by lia.
      apply Z.div_small_iff in E; lia.
    + apply IH. rewrite Z.shiftr_div_pow2 by lia.
      replace (32 + Z.of_nat (S fuel)) with (1 + (32 + Z.of_nat fuel)) in H
        by lia.
      rewrite Z.pow_add_r in H by lia. change (2 ^ 1) with 2 in *.
      split; [apply Z.div_pos; lia |].
      apply Z.div_lt_upper_bound; lia.
Qed.

Lemma shift_down_u64 fact shift :
  is_u64 fact -> is_u32 (fst (shift_down 64 fact shift)).
Proof.
  intros H. apply shift_down_ends. unfold is_u64 in H.
  change (32 + Z.of_nat 64) with 96.
  assert (2 ^ 64 < 2 ^ 96) by (apply Z.pow_lt_mono_r; lia). lia.
Qed.

(** The inverse that [__update_inv_weight] leaves in a weight between 1 and
    [WMULT_CONST - 1] whose cache is empty or up to date. *)
Lemma update_inv_weight_fresh lw :
  0 < weight lw < WMULT_CONST ->
  inv_weight lw = 0 \/ inv_weight lw = WMULT_CONST / weight lw ->
  __update_inv_weight lw = mk_lw (weight lw) (WMULT_CONST / weight lw).
Proof.
  intros Hw Hc. unfold __update_inv_weight, scale_load_down.
  assert (Hq : 0 < WMULT_CONST / weight lw).
  { apply Z.div_str_pos. lia. }
  destruct Hc as [Hc | Hc].
  - rewrite Hc. rewrite Z.eqb_refl. cbn [negb].
    destruct (Z.leb_spec WMULT_CONST (weight lw)); [lia |].
    destruct (Z.eqb_spec (weight lw) 0); [lia |]. reflexivity.
  - destruct (Z.eqb_spec (inv_weight lw) 0) as [E | E]; [lia |].
    cbn [negb]. destruct lw as [w i]. cbn [weight inv_weight] in *.
    subst i. reflexivity.
Qed.

(** [__calc_delta] without any rescaling: the weight and its product with
    the inverse both fit 32 bits. *)
Lemma calc_delta_plain delta w lw :
  is_u64 delta -> 0 <= w ->
  0 < weight lw < WMULT_CONST ->
  inv_weight lw = 0 \/ inv_weight lw = WMULT_CONST / weight lw ->
  w * (WMULT_CONST / weight lw) < 2 ^ 32 ->
  w < 2 ^ 32 ->
  __calc_delta delta w lw =
  ((delta * (w * (WMULT_CONST / weight lw))) / 2 ^ 32,
   mk_lw (weight lw) (WMULT_CONST / weight lw)).
Proof.
  intros Hd Hw0 Hlw Hc Hprod Hw. unfold __calc_delta, scale_load_down.
  rewrite (update_inv_weight_fresh lw Hlw Hc). cbn [inv_weight].
  assert (Hq : 0 < WMULT_CONST / weight lw) by (apply Z.div_str_pos; lia).
  assert (P32 : 2 ^ 32 < 2 ^ 64) by (apply Z.pow_lt_mono_r; lia).
  rewrite (u64_small w) by (unfold is_u64; lia).
  rewrite shift_down_small by lia.
  rewrite (u32_small w) by (unfold is_u32; lia).
  rewrite u64_small by (unfold is_u64; nia).
  rewrite shift_down_small by nia.
  unfold mul_u64_u32_shr, WMULT_SHIFT.
  rewrite Z.shiftr_div_pow2 by lia.
  rewrite u64_small; [reflexivity |].
  unfold is_u64 in *. split.
  - apply Z.div_pos; nia.
  - apply Z.div_lt_upper_bound; nia.
Qed.

(** The rescaling loop in closed form: the factor loses the bits it has
    above 32. *)
Lemma shift_down_log2 fuel : forall fact shift,
  0 <= fact < 2 ^ (32 + Z.of_nat fuel) ->
  shift_down fuel fact shift
  = (fact / 2 ^ Z.max 0 (Z.log2 fact - 31),
     shift - Z.max 0 (Z.log2 fact - 31)).
Proof.
  assert (Hsmall : forall fact, 0 <= fact < 2 ^ 32 ->
            Z.max 0 (Z.log2 fact - 31) = 0).
  { intros fact H. destruct (Z.eq_dec fact 0) as [-> | N].
    - reflexivity.
    - assert (Z.log2 fact < 32) by (apply Z.log2_lt_pow2; lia). lia. }
  induction fuel as [| fuel IH]; intros fact shift H.
  - cbn [shift_down]. rewrite Z.add_0_r in H. rewrite (Hsmall fact H).
    change (2 ^ 0) with 1. rewrite Z.div_1_r, Z.sub_0_r. reflexivity.
  - cbn [shift_down]. rewrite (Z.shiftr_div_pow2 fact 32) by lia.
    destruct (Z.eqb_spec (fact / 2 ^ 32) 0) as [E | N].
    + apply Z.div_small_iff in E; [| lia].
      rewrite (Hsmall fact) by lia.
      change (2 ^ 0) with 1. rewrite Z.div_1_r, Z.sub_0_r. reflexivity.
    + assert (Hbig : 2 ^ 32 <= fact).
      { destruct (Z.lt_ge_cases fact (2 ^ 32)) as [Hlt | Hge]; [| exact Hge].
        exfalso. apply N. apply Z.div_small. lia. }
      assert (HL : 32 <= Z.log2 fact) by (apply Z.log2_le_pow2; lia).
      rewrite Nat2Z.inj_succ in H.
      replace (32 + Z.succ (Z.of_nat fuel)) with (1 + (32 + Z.of_nat fuel)) in H
        by lia.
      rewrite Z.pow_add_r in H by lia. change (2 ^ 1) with 2 in H.
      rewrite IH.
      2: { rewrite Z.shiftr_div_pow2 by lia. change (2 ^ 1) with 2.
           split; [apply Z.div_pos; lia |].
           apply Z.div_lt_upper_bound; lia. }
      rewrite Z.log2_shiftr by lia.
      replace (Z.max 0 (Z.max 0 (Z.log2 fact - 1) - 31))
        with (Z.log2 fact - 32) by lia.
      replace (Z.max 0 (Z.log2 fact - 31)) with (1 + (Z.log2 fact - 32))
        by lia.
      rewrite Z.shiftr_div_pow2 by lia.
      rewrite Z.div_div by (try apply Z.pow_pos_nonneg; lia).
      rewrite <- Z.pow_add_r by lia.
      f_equal. lia.
Qed.

(** The inverse that [__calc_delta] works with: the cached one, or the one
    [__update_inv_weight] computes; it is a 32-bit number other than 0. *)
Lemma update_inv_weight_range lw :
  0 <= weight lw -> is_u32 (inv_weight lw) ->
  0 < inv_weight (__update_inv_weight lw) < 2 ^ 32.
Proof.
  intros Hw [Hi0 Hi1]. unfold __update_inv_weight, scale_load_down.
  assert (WC : WMULT_CONST = 2 ^ 32 - 1) by reflexivity.
  destruct (Z.eqb_spec (inv_weight lw) 0) as [E | E]; cbn [negb]; [| lia].
  destruct (Z.leb_spec WMULT_CONST (weight lw)); [cbn [inv_weight]; lia |].
  destruct (Z.eqb_spec (weight lw) 0); cbn [inv_weight]; [lia |].
  split.
  - apply Z.div_str_pos. lia.
  - apply Z.div_lt_upper_bound; nia.
Qed.

(** What [__calc_delta] returns for a 32-bit weight, whatever the state of
    the cached inverse: the product of weight and inverse, cut back to 32
    bits, times [delta_exec], shifted. *)
Lemma calc_delta_closed delta w lw :
  is_u64 delta -> 0 <= w < 2 ^ 32 ->
  0 <= weight lw -> is_u32 (inv_weight lw) ->
  let inv := inv_weight (__update_inv_weight lw) in
  let k := Z.max 0 (Z.log2 (w * inv) - 31) in
  0 <= k <= 32 /\
  __calc_delta delta w lw
  = (u64 ((delta * (w * inv / 2 ^ k)) / 2 ^ (32 - k)),
     __update_inv_weight lw).
Proof.
  intros Hd Hw Hlw Hi. cbv zeta.
  pose proof (update_inv_weight_range lw Hlw Hi) as Hinv.
  set (inv := inv_weight (__update_inv_weight lw)) in *.
  assert (P32 : 2 ^ 32 < 2 ^ 64) by (apply Z.pow_lt_mono_r; lia).
  assert (P64 : 2 ^ 32 * 2 ^ 32 = 2 ^ 64) by reflexivity.
  set (f := w * inv).
  assert (Hf : 0 <= f < 2 ^ 64) by (unfold f; nia).
  assert (Hk : 0 <= Z.max 0 (Z.log2 f - 31) <= 32).
  { destruct (Z.eq_dec f 0) as [-> | N]; [cbn; lia |].
    assert (Z.log2 f < 64) by (apply Z.log2_lt_pow2; lia). lia. }
  split; [exact Hk |].
  unfold __calc_delta, scale_load_down. fold inv.
  rewrite (u64_small w) by (unfold is_u64; lia).
  rewrite shift_down_small by lia.
  rewrite (u32_small w) by (unfold is_u32; lia).
  fold f. rewrite (u64_small f) by exact Hf.
  rewrite (shift_down_log2 64 f WMULT_SHIFT).
  2: { change (2 ^ (32 + Z.of_nat 64)) with (2 ^ 96).
       assert (2 ^ 64 < 2 ^ 96) by (apply Z.pow_lt_mono_r; lia). lia. }
  unfold mul_u64_u32_shr, WMULT_SHIFT.
  rewrite Z.shiftr_div_pow2 by lia. reflexivity.
Qed.

(** The result never exceeds [delta_exec * weight * inverse / 2^32]. *)
Lemma calc_delta_le_product delta w lw :
  is_u64 delta -> 0 <= w < 2 ^ 32 ->
  0 <= weight lw -> is_u32 (inv_weight lw) ->
  let inv := inv_weight (__update_inv_weight lw) in
  let r := fst (__calc_delta delta w lw) in
  0 <= r /\ r * 2 ^ 32 <= delta * (w * inv).
Proof.
  intros Hd Hw Hlw Hi. cbv zeta.
  destruct (calc_delta_closed delta w lw Hd Hw Hlw Hi) as (Hk & E).
  cbv zeta in Hk, E. rewrite E. cbn [fst]. clear E.
  pose proof (update_inv_weight_range lw Hlw Hi) as Hinv.
  set (inv := inv_weight (__update_inv_weight lw)) in *.
  set (f := w * inv) in *. assert (Hf : 0 <= f) by (unfold f; nia).
  set (k := Z.max 0 (Z.log2 f - 31)) in *.
  assert (Hpk : 0 < 2 ^ k) by (apply Z.pow_pos_nonneg; lia).
  assert (Hpk' : 0 < 2 ^ (32 - k)) by (apply Z.pow_pos_nonneg; lia).
  assert (Hsplit : 2 ^ k * 2 ^ (32 - k) = 2 ^ 32).
  { rewrite <- Z.pow_add_r by lia. f_equal. lia. }
  set (f' := f / 2 ^ k).
  assert (Hf' : 0 <= f' /\ 2 ^ k * f' <= f).
  { split; [apply Z.div_pos; lia | apply Z.mul_div_le; lia]. }
  destruct Hd as [Hd0 Hd1].
  set (x := delta * f' / 2 ^ (32 - k)).
  assert (Hx : 0 <= x /\ 2 ^ (32 - k) * x <= delta * f').
  { split; [apply Z.div_pos; nia | apply Z.mul_div_le; lia]. }
  assert (Hu : 0 <= u64 x <= x).
  { unfold u64. pose proof (Z.mod_pos_bound x (2 ^ 64) ltac:(lia)).
    split; [lia |]. apply Z.mod_le; lia. }
  split; [lia |].
  assert (H1 : 2 ^ 32 * x <= delta * f).
  { rewrite <- Hsplit.
    assert (2 ^ k * (2 ^ (32 - k) * x) <= 2 ^ k * (delta * f'))
      by (apply Z.mul_le_mono_nonneg_l; lia).
    assert (delta * (2 ^ k * f') <= delta * f)
      by (apply Z.mul_le_mono_nonneg_l; lia).
    lia. }
  assert (u64 x * 2 ^ 32 <= x * 2 ^ 32)
    by (apply Z.mul_le_mono_nonneg_r; lia).
  lia.
Qed.

(** The rescaling loop halves the factor [k] times and lowers the shift by
    [k]; [k] is at most the number of bits the factor has above 32. *)
Lemma shift_down_spec fuel : forall fact shift (j : nat),
  0 <= fact < 2 ^ (32 + Z.of_nat j) ->
  exists k, 0 <= k <= Z.of_nat j /\
    shift_down fuel fact shift = (fact / 2 ^ k, shift - k).
Proof.
  induction fuel as [| fuel IH]; intros fact shift j Hf.
  - exists 0. split; [lia |]. cbn [shift_down].
    change (2 ^ 0) with 1. rewrite Z.div_1_r, Z.sub_0_r. reflexivity.
  - cbn [shift_down]. rewrite (Z.shiftr_div_pow2 fact 32) by lia.
    destruct (Z.eqb_spec (fact / 2 ^ 32) 0) as [E | N].
    + exists 0. split; [lia |].
      change (2 ^ 0) with 1. rewrite Z.div_1_r, Z.sub_0_r. reflexivity.
    + destruct j as [| j].
      * exfalso. apply N. apply Z.div_small.
        change (32 + Z.of_nat 0) with 32 in Hf. exact Hf.
      * rewrite Nat2Z.inj_succ in Hf.
        replace (32 + Z.succ (Z.of_nat j)) with (1 + (32 + Z.of_nat j)) in Hf
          by lia.
        rewrite Z.pow_add_r in Hf by lia. change (2 ^ 1) with 2 in Hf.
        destruct (IH (Z.shiftr fact 1) (shift - 1) j) as (k & Hk & E).
        { rewrite Z.shiftr_div_pow2 by lia. change (2 ^ 1) with 2.
          split; [apply Z.div_pos; lia |].
          apply Z.div_lt_upper_bound; lia. }
        exists (k + 1). split; [lia |]. rewrite E.
        rewrite Z.shiftr_div_pow2 by lia.
        rewrite Z.div_div by (try apply Z.pow_pos_nonneg; lia).
        rewrite <- Z.pow_add_r by lia.
        f_equal; [f_equal; f_equal; lia | lia].
Qed.

(** What [__calc_delta] returns for a 32-bit weight and a load weight whose
    cached inverse is up to date: the product with the inverse, brought
    back to 32 bits by [k] halvings, times [delta_exec], shifted. *)
Lemma calc_delta_value delta w lw :
  is_u64 delta -> 0 <= w < 2 ^ 32 ->
  0 < weight lw < WMULT_CONST ->
  inv_weight lw = 0 \/ inv_weight lw = WMULT_CONST / weight lw ->
  exists k, 0 <= k <= 32 /\
    __calc_delta delta w lw =
    (u64 ((delta * (w * (WMULT_CONST / weight lw) / 2 ^ k)) / 2 ^ (32 - k)),
     mk_lw (weight lw) (WMULT_CONST / weight lw)).
Proof.
  intros Hd Hw Hlw Hc. unfold __calc_delta, scale_load_down.
  rewrite (update_inv_weight_fresh lw Hlw Hc). cbn [inv_weight].
  assert (WC : WMULT_CONST = 2 ^ 32 - 1) by reflexivity.
  assert (Hq : 0 < WMULT_CONST / weight lw) by (apply Z.div_str_pos; lia).
  assert (Hq1 : WMULT_CONST / weight lw < 2 ^ 32).
  { apply Z.div_lt_upper_bound; [lia |]. nia. }
  assert (P32 : 2 ^ 32 < 2 ^ 64) by (apply Z.pow_lt_mono_r; lia).
  assert (P64 : 2 ^ 32 * 2 ^ 32 = 2 ^ 64) by reflexivity.
  rewrite (u64_small w) by (unfold is_u64; lia).
  rewrite shift_down_small by lia.
  rewrite (u32_small w) by (unfold is_u32; lia).
  set (f := w * (WMULT_CONST / weight lw)).
  assert (Hf : 0 <= f < 2 ^ 64) by (unfold f; nia).
  rewrite (u64_small f) by exact Hf.
  destruct (shift_down_spec 64 f WMULT_SHIFT 32) as (k & Hk & E).
  { change (2 ^ (32 + Z.of_nat 32)) with (2 ^ 64). exact Hf. }
  change (Z.of_nat 32) with 32 in Hk.
  exists k. split; [exact Hk |]. rewrite E.
  unfold mul_u64_u32_shr, WMULT_SHIFT.
  rewrite Z.shiftr_div_pow2 by lia. reflexivity.
Qed.

(** The result never exceeds the exact quotient. *)
Lemma calc_delta_upper delta w lw :
  is_u64 delta -> 0 <= w < 2 ^ 32 ->
  0 < weight lw < WMULT_CONST ->
  inv_weight lw = 0 \/ inv_weight lw = WMULT_CONST / weight lw ->
  0 <= fst (__calc_delta delta w lw) /\
  fst (__calc_delta delta w lw) * weight lw <= delta * w.
Proof.
  intros Hd Hw Hlw Hc.
  destruct (calc_delta_value delta w lw Hd Hw Hlw Hc) as (k & Hk & E).
  rewrite E. cbn [fst]. clear E.
  assert (WC : WMULT_CONST = 2 ^ 32 - 1) by reflexivity.
  set (W := weight lw) in *. set (inv := WMULT_CONST / W).
  assert (Hinv : 0 <= inv) by (apply Z.div_pos; lia).
  assert (HWinv : W * inv <= WMULT_CONST) by (apply Z.mul_div_le; lia).
  set (f := w * inv). assert (Hf : 0 <= f) by (unfold f; nia).
  assert (Hpk : 0 < 2 ^ k) by (apply Z.pow_pos_nonneg; lia).
  assert (Hpk' : 0 < 2 ^ (32 - k)) by (apply Z.pow_pos_nonneg; lia).
  assert (Hsplit : 2 ^ k * 2 ^ (32 - k) = 2 ^ 32).
  { rewrite <- Z.pow_add_r by lia. f_equal. lia. }
  set (f' := f / 2 ^ k).
  assert (Hf' : 0 <= f' /\ 2 ^ k * f' <= f).
  { split; [apply Z.div_pos; lia | apply Z.mul_div_le; lia]. }
  destruct Hd as [Hd0 Hd1].
  set (x := delta * f' / 2 ^ (32 - k)).
  assert (Hx : 0 <= x /\ 2 ^ (32 - k) * x <= delta * f').
  { split; [apply Z.div_pos; nia | apply Z.mul_div_le; lia]. }
  assert (Hu : 0 <= u64 x <= x).
  { unfold u64. pose proof (Z.mod_pos_bound x (2 ^ 64) ltac:(lia)).
    split; [lia |]. apply Z.mod_le; lia. }
  split; [lia |].
  assert (H1 : 2 ^ 32 * x <= delta * f).
  { rewrite <- Hsplit.
    assert (2 ^ k * (2 ^ (32 - k) * x) <= 2 ^ k * (delta * f'))
      by (apply Z.mul_le_mono_nonneg_l; lia).
    assert (delta * (2 ^ k * f') <= delta * f)
      by (apply Z.mul_le_mono_nonneg_l; lia).
    lia. }
  assert (H2 : delta * f * W <= delta * w * 2 ^ 32).
  { unfold f.
    assert (w * (W * inv) <= w * WMULT_CONST)
      by (apply Z.mul_le_mono_nonneg_l; lia).
    assert (delta * (w * (W * inv)) <= delta * (w * WMULT_CONST))
      by (apply Z.mul_le_mono_nonneg_l; lia).
    nia. }
  assert (H3 : 2 ^ 32 * (x * W) <= 2 ^ 32 * (delta * w)).
  { assert (2 ^ 32 * x * W <= delta * f * W)
      by (apply Z.mul_le_mono_nonneg_r; lia).
    lia. }
  assert (H4 : x * W <= delta * w) by lia.
  assert (u64 x * W <= x * W) by (apply Z.mul_le_mono_nonneg_r; lia).
  lia.
Qed.

(** With an inverse that [__update_inv_weight] computes, the result never
    exceeds the exact quotient; for a weight up to [lw.weight] it falls
    short of it by less than [1 + delta_exec * weight / 2^32] units. *)
Lemma calc_delta_computed_inverse delta w lw :
  is_u64 delta -> 0 <= w < 2 ^ 32 ->
  0 < weight lw < WMULT_CONST ->
  inv_weight lw = 0 \/ inv_weight lw = WMULT_CONST / weight lw ->
  let r := fst (__calc_delta delta w lw) in
  0 <= r /\ r * weight lw <= delta * w /\
  (w <= weight lw ->
   r <= delta /\
   delta * w <= r * weight lw + weight lw
                + (delta * w * weight lw) / 2 ^ 32) /\
  snd (__calc_delta delta w lw) = mk_lw (weight lw) (WMULT_CONST / weight lw).
Proof.
  intros Hd Hw Hlw Hc. cbv zeta.
  destruct (calc_delta_upper delta w lw Hd Hw Hlw Hc) as [H0 Hup].
  split; [exact H0 |]. split; [exact Hup |].
  assert (WC : WMULT_CONST = 2 ^ 32 - 1) by reflexivity.
  split.
  - intros Hle.
    assert (Hprod : w * (WMULT_CONST / weight lw) < 2 ^ 32).
    { assert (weight lw * (WMULT_CONST / weight lw) <= WMULT_CONST)
        by (apply Z.mul_div_le; lia).
      assert (0 <= WMULT_CONST / weight lw) by (apply Z.div_pos; lia).
      nia. }
    rewrite (calc_delta_plain delta w lw Hd ltac:(lia) Hlw Hc Hprod ltac:(lia))
      in *.
    cbn [fst] in *.
    set (W := weight lw) in *. set (inv := WMULT_CONST / W) in *.
    set (s := delta * (w * inv) / 2 ^ 32) in *.
    destruct Hd as [Hd0 Hd1].
    assert (HWinv : W * inv <= WMULT_CONST) by (apply Z.mul_div_le; lia).
    assert (Hlo : WMULT_CONST < W * inv + W).
    { pose proof (Z.mod_pos_bound WMULT_CONST W ltac:(lia)) as Hm.
      pose proof (Z.div_mod WMULT_CONST W ltac:(lia)) as Hdm.
      fold inv in Hdm. lia. }
    assert (Hinv0 : 0 <= inv) by (apply Z.div_pos; lia).
    set (X := delta * (w * inv)) in *.
    assert (HX : 0 <= X) by (unfold X; nia).
    assert (Hs2 : X < 2 ^ 32 * s + 2 ^ 32).
    { pose proof (Z.mod_pos_bound X (2 ^ 32) ltac:(lia)) as Hm.
      pose proof (Z.div_mod X (2 ^ 32) ltac:(lia)) as Hdm. fold s in Hdm.
      lia. }
    set (T := (delta * w * W) / 2 ^ 32).
    assert (HT : delta * w * W < 2 ^ 32 * T + 2 ^ 32).
    { pose proof (Z.mod_pos_bound (delta * w * W) (2 ^ 32) ltac:(lia)) as Hm.
      pose proof (Z.div_mod (delta * w * W) (2 ^ 32) ltac:(lia)) as Hdm.
      fold T in Hdm. lia. }
    split.
    + destruct (Z.eq_dec w 0) as [-> | Hwz].
      * unfold s, X. rewrite Z.mul_0_l, Z.mul_0_r. cbn. lia.
      * assert (s * W <= delta * W); [| nia].
        assert (delta * w <= delta * W) by (apply Z.mul_le_mono_nonneg_l; lia).
        lia.
    + assert (HXW : X * W = delta * w * (W * inv)) by (unfold X; ring).
      assert (Hdw : 0 <= delta * w) by nia.
      assert (delta * w * WMULT_CONST <= delta * w * (W * inv + W))
        by (apply Z.mul_le_mono_nonneg_l; lia).
      assert (X * W < (2 ^ 32 * s + 2 ^ 32) * W)
        by (apply Z.mul_lt_mono_pos_r; lia).
      assert (2 ^ 32 * (delta * w) < 2 ^ 32 * (s * W + W + T + 1)); [| lia].
      nia.
  - destruct (calc_delta_value delta w lw Hd Hw Hlw Hc) as (k & _ & E).
    rewrite E. reflexivity.
Qed.

(** ** Slices on a flat queue *)

Lemma sched_period_u64 sc n : sysctl_ok sc -> is_u64 (__sched_period sc n).
Proof.
  intros (Hl & _). unfold __sched_period.
  destruct (sched_nr_latency sc <? n); [apply u64_range |].
  unfold is_u32, is_u64 in *.
  assert (2 ^ 32 < 2 ^ 64) by (apply Z.pow_lt_mono_r; lia). lia.
Qed.

Lemma sched_slice_walk_top fuel m slice :
  sched_slice_walk fuel m None slice = Some (slice, m).
Proof. destruct fuel; reflexivity. Qed.

(** The quotient that [sched_slice] computes for one of [n] entities of
    weight [w]. *)
Lemma sched_slice_flat sc m q se n w :
  sysctl_ok sc -> equal_weight_queue m q se n w ->
  1 <= n -> 1 <= w -> n * w < WMULT_CONST ->
  exists m',
    sched_slice sc m q se =
    Some ((__sched_period sc n * (w * (WMULT_CONST / (n * w)))) / 2 ^ 32, m').
Proof.
  intros Hsc (Hpar & Hon & Hq & Hw & Hn & Hload & Hinv) Hn1 Hw1 Hnw.
  assert (WC : WMULT_CONST = 2 ^ 32 - 1) by reflexivity.
  assert (Hnu : is_u32 n) by (unfold is_u32; nia).
  unfold sched_slice. rewrite Hon, Hn, Z.add_0_r, (u32_small n Hnu).
  cbn [sched_slice_walk]. rewrite Hon, Hq, Hw.
  assert (Hdiv : n * w * (WMULT_CONST / (n * w)) <= WMULT_CONST).
  { apply Z.mul_div_le. lia. }
  assert (Hq0 : 0 < WMULT_CONST / (n * w)) by (apply Z.div_str_pos; lia).
  rewrite (calc_delta_plain (__sched_period sc n) w (rq_load (rq_at m q))).
  - rewrite Hload, Hpar, sched_slice_walk_top. eexists. reflexivity.
  - apply sched_period_u64. exact Hsc.
  - lia.
  - rewrite Hload. lia.
  - rewrite Hload. exact Hinv.
  - rewrite Hload. nia.
  - nia.
Qed.

(** The quotient is the exact share rounded down, and by less than the
    inverse weight loses: [n] slices fit the period and miss it by at most
    [n + period * n * w / 2^32]. *)
Lemma fixed_point_share P n w :
  0 <= P -> 1 <= n -> 1 <= w -> n * w < WMULT_CONST ->
  let s := (P * (w * (WMULT_CONST / (n * w)))) / 2 ^ 32 in
  n * s <= P <= n * s + n + (P * (n * w)) / 2 ^ 32.
Proof.
  intros HP Hn Hw Hnw s.
  assert (WC : WMULT_CONST = 2 ^ 32 - 1) by reflexivity.
  set (W := n * w) in *. set (inv := WMULT_CONST / W) in *.
  assert (HW : 0 < W) by (unfold W; nia).
  assert (Hup : W * inv <= WMULT_CONST) by (apply Z.mul_div_le; lia).
  assert (Hlo : WMULT_CONST < W * inv + W).
  { pose proof (Z.mod_pos_bound WMULT_CONST W HW) as Hm.
    pose proof (Z.div_mod WMULT_CONST W ltac:(lia)) as Hd. fold inv in Hd. lia. }
  assert (Hinv0 : 0 <= inv) by (apply Z.div_pos; lia).
  set (X := P * (w * inv)) in *.
  assert (HX : 0 <= X) by (unfold X; nia).
  assert (Hs1 : 2 ^ 32 * s <= X) by (apply Z.mul_div_le; lia).
  assert (Hs2 : X < 2 ^ 32 * s + 2 ^ 32).
  { pose proof (Z.mod_pos_bound X (2 ^ 32) ltac:(lia)) as Hm.
    pose proof (Z.div_mod X (2 ^ 32) ltac:(lia)) as Hd. fold s in Hd. lia. }
  assert (HnX : n * X = P * (W * inv)) by (unfold X, W; ring).
  set (T := (P * W) / 2 ^ 32).
  assert (HT : P * W < 2 ^ 32 * T + 2 ^ 32).
  { pose proof (Z.mod_pos_bound (P * W) (2 ^ 32) ltac:(lia)) as Hm.
    pose proof (Z.div_mod (P * W) (2 ^ 32) ltac:(lia)) as Hd. fold T in Hd.
    lia. }
  split.
  - assert (2 ^ 32 * (n * s) <= 2 ^ 32 * P); [| lia].
    assert (P * (W * inv) <= P * WMULT_CONST) by (apply Z.mul_le_mono_nonneg_l; lia).
    nia.
  - assert (2 ^ 32 * P < 2 ^ 32 * (n * s + n + T + 1)); [| lia].
    assert (P * WMULT_CONST <= P * (W * inv + W)) by (apply Z.mul_le_mono_nonneg_l; lia).
    nia.
Qed.

(** C1.  For one of [n] queued entities of equal weight [w] on a flat
    queue, [sched_slice] returns the target latency divided by [n] while
    [n] is at most [sched_nr_latency], and the minimum granularity above
    that, computed with the 32-bit fixed-point inverse of the queue weight:
    [n] slices never exceed the period (the latency, resp. [n] minimum
    granularities) and fall short of it by at most
    [n + period * n * w / 2^32] nanoseconds.  With the initial tunables
    (6 ms, 0.75 ms, ratio 8) and nice-0 tasks the slice is 1499998 ns
    (1.5 ms) for 4 tasks and 749999 ns (0.75 ms) for 10 tasks. *)
Theorem C1_sched_slice_equal_weight sc m q se n w :
  sysctl_ok sc -> equal_weight_queue m q se n w ->
  1 <= n -> 1 <= w -> n * w < WMULT_CONST ->
  exists s m',
    sched_slice sc m q se = Some (s, m') /\
    (n <= sched_nr_latency sc ->
     let L := sysctl_sched_latency sc in
     n * s <= L <= n * s + n + (L * (n * w)) / 2 ^ 32) /\
    (sched_nr_latency sc < n ->
     let G := sysctl_sched_min_granularity sc in
     s <= G /\ n * G <= n * s + n + (n * G * (n * w)) / 2 ^ 32) /\
    (sc = default_sysctl -> w = NICE_0_LOAD ->
     (n = 4 -> s = 1499998) /\ (n = 10 -> s = 749999)).
Proof.
  intros Hsc Hq Hn Hw Hnw.
  destruct (sched_slice_flat sc m q se n w Hsc Hq Hn Hw Hnw) as [m' Hs].
  eexists. exists m'. split; [exact Hs |].
  pose proof (sched_period_u64 sc n Hsc) as [HP _].
  pose proof (fixed_point_share (__sched_period sc n) n w HP Hn Hw Hnw) as Hb.
  cbv zeta in Hb. unfold __sched_period in *.
  destruct Hsc as (Hl & Hg & _). unfold is_u32 in Hl, Hg.
  assert (P32 : 2 ^ 32 * 2 ^ 32 = 2 ^ 64) by reflexivity.
  split; [| split].
  - intros Hle. cbv zeta.
    destruct (Z.ltb_spec (sched_nr_latency sc) n); [lia |]. exact Hb.
  - intros Hlt. cbv zeta.
    destruct (Z.ltb_spec (sched_nr_latency sc) n); [| lia].
    assert (Hn32 : n < 2 ^ 32) by (unfold WMULT_CONST in Hnw; nia).
    assert (HnG : is_u64 (n * sysctl_sched_min_granularity sc)).
    { unfold is_u64. rewrite <- P32. split; [nia |].
      apply Z.mul_lt_mono_nonneg; lia. }
    rewrite (u64_small _ HnG) in Hb |- *.
    destruct Hb as [Hb1 Hb2]. split; [| exact Hb2].
    apply (Z.mul_le_mono_pos_l _ _ n); [lia | exact Hb1].
  - intros -> ->. split; intros ->; reflexivity.
Qed.

(** Witness of C1: four nice-0 tasks under the initial tunables. *)
Lemma C1_sched_slice_equal_weight_witness :
  exists s m',
    sched_slice default_sysctl (nice0_tasks 4) 0%nat 0%nat = Some (s, m') /\
    (4 <= sched_nr_latency default_sysctl ->
     let L := sysctl_sched_latency default_sysctl in
     4 * s <= L <= 4 * s + 4 + (L * (4 * NICE_0_LOAD)) / 2 ^ 32) /\
    (sched_nr_latency default_sysctl < 4 ->
     let G := sysctl_sched_min_granularity default_sysctl in
     s <= G /\ 4 * G <= 4 * s + 4 + (4 * G * (4 * NICE_0_LOAD)) / 2 ^ 32) /\
    (default_sysctl = default_sysctl -> NICE_0_LOAD = NICE_0_LOAD ->
     (4 = 4 -> s = 1499998) /\ (4 = 10 -> s = 749999)).
Proof.
  apply (C1_sched_slice_equal_weight default_sysctl (nice0_tasks 4)
           0%nat 0%nat 4 NICE_0_LOAD).
  - unfold sysctl_ok, is_u32. cbn [default_sysctl sysctl_sched_latency
      sysctl_sched_min_granularity sched_nr_latency
      sysctl_sched_wakeup_granularity sysctl_sched_cfs_bandwidth_slice].
    lia.
  - unfold equal_weight_queue. cbn. repeat split; auto.
  - lia.
  - unfold NICE_0_LOAD. lia.
  - vm_compute. reflexivity.
Defined.

(** The rounding of the fixed-point inverse: four nice-0 tasks with a 6 ms
    target latency get 1499998 ns each, 2 ns short of 6 ms / 4. *)
Example sched_slice_four_tasks :
  equal_weight_queue (nice0_tasks 4) 0%nat 0%nat 4 NICE_0_LOAD /\
  option_map fst (sched_slice default_sysctl (nice0_tasks 4) 0%nat 0%nat)
    = Some 1499998 /\
  1499998 <> sysctl_sched_latency default_sysctl / 4.
Proof.
  split; [| split].
  - unfold equal_weight_queue. cbn. repeat split; auto.
  - vm_compute. reflexivity.
  - vm_compute. discriminate.
Qed.

(** ** Wrap-around comparisons of virtual runtimes *)

Section TrueOrder.

(** [A] and [B] are the virtual runtimes as unbounded numbers; the counters
    hold their low 64 bits. *)
Variables (A B : Z).
Hypothesis close : Z.abs (A - B) < 2 ^ 63.

Lemma s64_diff_true : s64 (u64 A - u64 B) = A - B.
Proof. apply (s64_sub_true _ _ A B); [reflexivity | reflexivity | lia]. Qed.

Lemma s64_diff_true_sym : s64 (u64 B - u64 A) = B - A.
Proof. apply (s64_sub_true _ _ B A); [reflexivity | reflexivity | lia]. Qed.

Lemma entity_before_true a b :
  vruntime a = u64 A -> vruntime b = u64 B ->
  entity_before a b = (A <? B).
Proof.
  intros Ha Hb. unfold entity_before. rewrite Ha, Hb, s64_diff_true.
  destruct (Z.ltb_spec (A - B) 0), (Z.ltb_spec A B); solve [reflexivity | lia].
Qed.

Lemma max_vruntime_true : max_vruntime (u64 A) (u64 B) = u64 (Z.max A B).
Proof.
  unfold max_vruntime. cbv zeta. rewrite s64_diff_true_sym.
  destruct (Z.ltb_spec 0 (B - A)).
  - rewrite Z.max_r by lia. reflexivity.
  - rewrite Z.max_l by lia. reflexivity.
Qed.

Lemma min_vruntime_true : min_vruntime (u64 A) (u64 B) = u64 (Z.min A B).
Proof.
  unfold min_vruntime. cbv zeta. rewrite s64_diff_true_sym.
  destruct (Z.ltb_spec (B - A) 0).
  - rewrite Z.min_r by lia. reflexivity.
  - rewrite Z.min_l by lia. reflexivity.
Qed.

End TrueOrder.

(** ** The timeline keeps the order of the keys *)

Lemma ordered_by_app V l1 l2 :
  ordered_by V (l1 ++ l2) <->
  ordered_by V l1 /\ ordered_by V l2 /\
  (forall x y, In x l1 -> In y l2 -> V x <= V y).
Proof.
  induction l1 as [| e l1 IH]; cbn [app ordered_by].
  - split; [intros H; repeat split; [exact H | intros x y []] | tauto].
  - rewrite IH. split.
    + intros (He & H1 & H2 & H12). repeat split; auto.
      * intros x Hx. apply He. apply in_or_app. left. exact Hx.
      * intros x y [<- | Hx] Hy.
        -- apply He. apply in_or_app. right. exact Hy.
        -- apply H12; assumption.
    + intros ((He & H1) & H2 & H12). repeat split; auto.
      * intros x Hx. apply in_app_or in Hx as [Hx | Hx]; [auto |].
        apply H12; [left; reflexivity | exact Hx].
      * intros x y Hx Hy. apply H12; [right; exact Hx | exact Hy].
Qed.

Lemma ordered_by_cons V e l :
  ordered_by V (e :: l) <-> (forall x, In x l -> V e <= V x) /\ ordered_by V l.
Proof. reflexivity. Qed.

Section Descent.

Variables (m : mem) (V : ptr -> Z) (se : ptr).

(** The descent of [__enqueue_entity] puts the new node behind every node
    whose key is at most its own, and before every node with a larger key. *)
Lemma rb_link_position : forall t,
  (forall x, In x (inorder t) ->
     entity_before (se_at m se) (se_at m x) = (V se <? V x)) ->
  ordered_by V (inorder t) ->
  exists l1 l2,
    inorder t = l1 ++ l2 /\
    inorder (fst (rb_link m t se)) = l1 ++ se :: l2 /\
    (forall x, In x l1 -> V x <= V se) /\
    (forall x, In x l2 -> V se < V x) /\
    (snd (rb_link m t se) = true <-> l1 = []).
Proof.
  induction t as [| l IHl e r IHr]; intros Hcmp Hord.
  - exists [], []. cbn. repeat split; auto; intros x [].
  - cbn [inorder] in Hcmp, Hord. apply ordered_by_app in Hord.
    destruct Hord as (Ol & Oer & Hler). cbn [ordered_by] in Oer.
    destruct Oer as (Her & Or).
    cbn [rb_link]. rewrite (Hcmp e) by (apply in_or_app; right; left; reflexivity).
    destruct (Z.ltb_spec (V se) (V e)) as [Hlt | Hge].
    + destruct IHl as (a1 & a2 & E1 & E2 & Ha1 & Ha2 & Hlm).
      { intros x Hx. apply Hcmp. apply in_or_app. left. exact Hx. }
      { exact Ol. }
      destruct (rb_link m l se) as [l' lm]. cbn [fst snd] in *.
      exists a1, (a2 ++ e :: inorder r). cbn [inorder]. rewrite E1, E2.
      rewrite <- !app_assoc. cbn [app]. repeat split; auto.
      * intros x Hx. apply in_app_or in Hx as [Hx | [<- | Hx]]; auto.
        specialize (Her x Hx). lia.
      * apply Hlm.
      * apply Hlm.
    + destruct IHr as (b1 & b2 & E1 & E2 & Hb1 & Hb2 & _).
      { intros x Hx. apply Hcmp. apply in_or_app. right. right. exact Hx. }
      { exact Or. }
      destruct (rb_link m r se) as [r' lm]. cbn [fst snd] in *.
      exists (inorder l ++ e :: b1), b2. cbn [inorder]. rewrite E1, E2.
      rewrite <- !app_assoc. cbn [app]. repeat split; auto.
      * intros x Hx. apply in_app_or in Hx as [Hx | [<- | Hx]]; auto.
        specialize (Hler x e Hx (or_introl eq_refl)). lia.
      * discriminate.
      * intros E. destruct (inorder l); discriminate E.
Qed.

End Descent.

(** ** The store *)

Lemma rq_at_upd_rq m q f : rq_at (upd_rq m q f) q = f (rq_at m q).
Proof. cbn. rewrite Nat.eqb_refl. reflexivity. Qed.

Lemma rq_at_upd_rq_other m q q' f :
  q' <> q -> rq_at (upd_rq m q f) q' = rq_at m q'.
Proof.
  intros H. cbn. destruct (Nat.eqb_spec q' q); [contradiction | reflexivity].
Qed.

Lemma se_at_upd_rq m q f p : se_at (upd_rq m q f) p = se_at m p.
Proof. reflexivity. Qed.

Lemma se_at_upd_se m p f : se_at (upd_se m p f) p = f (se_at m p).
Proof. cbn. rewrite Nat.eqb_refl. reflexivity. Qed.

Lemma se_at_upd_se_other m p p' f :
  p' <> p -> se_at (upd_se m p f) p' = se_at m p'.
Proof.
  intros H. cbn. destruct (Nat.eqb_spec p' p); [contradiction | reflexivity].
Qed.

Lemma rq_at_upd_se m p f q : rq_at (upd_se m p f) q = rq_at m q.
Proof. reflexivity. Qed.

(** C10.  [entity_before], [max_vruntime] and [min_vruntime] decide by the
    sign of the signed 64-bit difference, so for counters that hold the low
    64 bits of two virtual runtimes [A] and [B] less than 2^63 apart they
    agree with the order of [A] and [B], whether or not a counter has
    wrapped.  On a timeline in key order whose keys are within that distance
    of the new key, [__enqueue_entity] puts the new entity behind all
    entities with a smaller or equal key (equal keys keep insertion order)
    and before all with a larger key; the timeline stays in key order and
    the cached leftmost node stays its first node. *)
Theorem C10_wraparound_safe_order
  (A B : Z) (a b : sched_entity) (m : mem) (q se : ptr) (V : ptr -> Z) :
  Z.abs (A - B) < 2 ^ 63 ->
  vruntime a = u64 A -> vruntime b = u64 B ->
  (forall x, In x (se :: inorder (tasks_timeline (rq_at m q))) ->
     vruntime (se_at m x) = u64 (V x)) ->
  (forall x, In x (inorder (tasks_timeline (rq_at m q))) ->
     Z.abs (V se - V x) < 2 ^ 63) ->
  ordered_by V (inorder (tasks_timeline (rq_at m q))) ->
  rb_leftmost (rq_at m q) = hd_error (inorder (tasks_timeline (rq_at m q))) ->
  (entity_before a b = (A <? B) /\
   max_vruntime (vruntime a) (vruntime b) = u64 (Z.max A B) /\
   min_vruntime (vruntime a) (vruntime b) = u64 (Z.min A B)) /\
  exists l1 l2,
    let r' := rq_at (__enqueue_entity m q se) q in
    inorder (tasks_timeline (rq_at m q)) = l1 ++ l2 /\
    inorder (tasks_timeline r') = l1 ++ se :: l2 /\
    (forall x, In x l1 -> V x <= V se) /\
    (forall x, In x l2 -> V se < V x) /\
    ordered_by V (l1 ++ se :: l2) /\
    rb_leftmost r' = hd_error (l1 ++ se :: l2).
Proof.
  intros Hclose Ha Hb HV Hwin Hord Hlm. split.
  - rewrite (entity_before_true A B Hclose a b Ha Hb), Ha, Hb.
    rewrite (max_vruntime_true A B Hclose), (min_vruntime_true A B Hclose).
    repeat split.
  - destruct (rb_link_position m V se (tasks_timeline (rq_at m q)))
      as (l1 & l2 & E1 & E2 & H1 & H2 & Hflag).
    { intros x Hx. apply entity_before_true.
      - apply Hwin. exact Hx.
      - apply HV. left. reflexivity.
      - apply HV. right. exact Hx. }
    { exact Hord. }
    exists l1, l2. cbv zeta. unfold __enqueue_entity.
    destruct (rb_link m (tasks_timeline (rq_at m q)) se) as [t' flag].
    cbn [fst snd] in *. rewrite rq_at_upd_rq.
    cbn [set_timeline tasks_timeline rb_leftmost]. unfold rb_insert_color.
    rewrite E1 in Hord. apply ordered_by_app in Hord.
    destruct Hord as (O1 & O2 & O12).
    repeat split; auto.
    + apply ordered_by_app. repeat split; auto.
      * intros x Hx. specialize (H2 x Hx). lia.
      * intros x y Hx [<- | Hy]; auto.
    + destruct flag.
      * rewrite (proj1 Hflag eq_refl). reflexivity.
      * destruct l1 as [| e l1].
        -- destruct Hflag as [_ Hf]. discriminate (Hf eq_refl).
        -- rewrite Hlm, E1. reflexivity.
Qed.

(** Witness of C10: two counters on either side of the 64-bit overflow, and
    a timeline that straddles it and receives an entity with the key of its
    first node. *)
Lemma C10_wraparound_safe_order_witness :
  let V := fun p : ptr => 2 ^ 64 - 10 + 10 * Z.of_nat (Nat.div2 p) in
  let m := mk_mem
    (fun p => mk_se (mk_lw NICE_0_LOAD 0) (u64 (V p)) 0 0 0 true O None O)
    (fun _ => mk_rq (mk_lw (2 * NICE_0_LOAD) 0) 2 0
                (rb_node rb_nil 0%nat (rb_node rb_nil 2%nat rb_nil))
                (Some 0%nat) None None None None 0 false) in
  (entity_before (se_at m 2%nat) (se_at m 0%nat) = (2 ^ 64 <? 2 ^ 64 - 10) /\
   max_vruntime (vruntime (se_at m 2%nat)) (vruntime (se_at m 0%nat))
     = u64 (Z.max (2 ^ 64) (2 ^ 64 - 10)) /\
   min_vruntime (vruntime (se_at m 2%nat)) (vruntime (se_at m 0%nat))
     = u64 (Z.min (2 ^ 64) (2 ^ 64 - 10))) /\
  exists l1 l2,
    let r' := rq_at (__enqueue_entity m 0%nat 1%nat) 0%nat in
    inorder (tasks_timeline (rq_at m 0%nat)) = l1 ++ l2 /\
    inorder (tasks_timeline r') = l1 ++ 1%nat :: l2 /\
    (forall x, In x l1 -> V x <= V 1%nat) /\
    (forall x, In x l2 -> V 1%nat < V x) /\
    ordered_by V (l1 ++ 1%nat :: l2) /\
    rb_leftmost r' = hd_error (l1 ++ 1%nat :: l2).
Proof.
  intros V m.
  apply (C10_wraparound_safe_order (2 ^ 64) (2 ^ 64 - 10)
           (se_at m 2%nat) (se_at m 0%nat) m 0%nat 1%nat V).
  - vm_compute. reflexivity.
  - vm_compute. reflexivity.
  - vm_compute. reflexivity.
  - intros x Hx. reflexivity.
  - intros x [<- | [<- | []]]; vm_compute; reflexivity.
  - cbn [m rq_at tasks_timeline inorder app ordered_by In].
    repeat split; try tauto.
    intros x [<- | []]. vm_compute. discriminate.
  - reflexivity.
Defined.

(** ** The watermark [min_vruntime] *)

Lemma not_before_refl a : not_before a a.
Proof. unfold not_before. rewrite Z.sub_diag. vm_compute. discriminate. Qed.

Lemma max_vruntime_not_before a v : not_before a (max_vruntime a v).
Proof.
  unfold max_vruntime. cbv zeta.
  destruct (Z.ltb_spec 0 (s64 (v - a))) as [H | H].
  - unfold not_before. lia.
  - apply not_before_refl.
Qed.

Lemma watermark_upd_rq m q f q' :
  (forall r, min_vruntime_of (f r) = min_vruntime_of r) ->
  watermark (upd_rq m q f) q' = watermark m q'.
Proof.
  intros Hf. unfold watermark. destruct (Nat.eq_dec q' q) as [-> | N].
  - rewrite rq_at_upd_rq. apply Hf.
  - rewrite rq_at_upd_rq_other by exact N. reflexivity.
Qed.

Lemma watermark_upd_se m p f q : watermark (upd_se m p f) q = watermark m q.
Proof. reflexivity. Qed.

Lemma update_min_vruntime_value m q :
  watermark (update_min_vruntime m q) q =
  max_vruntime (watermark m q) (min_candidate m q).
Proof.
  unfold update_min_vruntime, watermark, min_candidate. cbv zeta.
  rewrite rq_at_upd_rq. cbn [set_min_vruntime min_vruntime_of].
  destruct (curr (rq_at m q)), (rb_leftmost (rq_at m q)); reflexivity.
Qed.

Lemma update_min_vruntime_other m q q' :
  q' <> q -> watermark (update_min_vruntime m q) q' = watermark m q'.
Proof.
  intros N. unfold update_min_vruntime, watermark. cbv zeta.
  rewrite rq_at_upd_rq_other by exact N. reflexivity.
Qed.

Lemma update_min_vruntime_advances m q q' :
  not_before (watermark m q') (watermark (update_min_vruntime m q) q').
Proof.
  destruct (Nat.eq_dec q' q) as [-> | N].
  - rewrite update_min_vruntime_value. apply max_vruntime_not_before.
  - rewrite update_min_vruntime_other by exact N. apply not_before_refl.
Qed.

Lemma rq_at_calc_delta_fair m d p :
  rq_at (snd (calc_delta_fair m d p)) = rq_at m.
Proof.
  unfold calc_delta_fair. cbv zeta.
  destruct (negb (weight (load (se_at m p)) =? NICE_0_LOAD)); [| reflexivity].
  destruct (__calc_delta d NICE_0_LOAD (load (se_at m p))). reflexivity.
Qed.

Lemma update_curr_advances m q q' :
  not_before (watermark m q') (watermark (update_curr m q) q').
Proof.
  unfold update_curr. destruct (curr (rq_at m q)) as [c |];
    [| apply not_before_refl].
  cbv zeta.
  destruct (s64 (u64 (clock_task (rq_at m q) - exec_start (se_at m c))) <=? 0);
    [apply not_before_refl |].
  match goal with
  | |- context [calc_delta_fair ?m0 ?d ?p] =>
      pose proof (rq_at_calc_delta_fair m0 d p) as Hrq;
      destruct (calc_delta_fair m0 d p) as [dv m1]
  end.
  cbn [snd] in Hrq.
  match goal with
  | |- not_before _ (watermark (update_min_vruntime ?m2 q) q') =>
      replace (watermark m q') with (watermark m2 q')
  end.
  - apply update_min_vruntime_advances.
  - rewrite watermark_upd_se. unfold watermark. rewrite Hrq. reflexivity.
Qed.

Lemma account_entity_enqueue_watermark m q se q' :
  watermark (account_entity_enqueue m q se) q' = watermark m q'.
Proof.
  unfold account_entity_enqueue. cbv zeta.
  rewrite !watermark_upd_rq; reflexivity.
Qed.

Lemma account_entity_dequeue_watermark m q se q' :
  watermark (account_entity_dequeue m q se) q' = watermark m q'.
Proof.
  unfold account_entity_dequeue. cbv zeta.
  rewrite !watermark_upd_rq; reflexivity.
Qed.

Lemma enqueue_entity_tree_watermark m q se q' :
  watermark (__enqueue_entity m q se) q' = watermark m q'.
Proof.
  unfold __enqueue_entity. cbv zeta.
  destruct (rb_link m (tasks_timeline (rq_at m q)) se).
  apply watermark_upd_rq. reflexivity.
Qed.

Lemma dequeue_entity_tree_watermark m q se q' :
  watermark (__dequeue_entity m q se) q' = watermark m q'.
Proof.
  unfold __dequeue_entity. cbv zeta. apply watermark_upd_rq. reflexivity.
Qed.

Lemma clear_buddies_last_watermark fuel : forall m se m' q',
  __clear_buddies_last fuel m se = Some m' -> watermark m' q' = watermark m q'.
Proof.
  induction fuel as [| fuel IH]; intros m [p |] m' q' H; cbn in H;
    try discriminate; try (injection H as <-; reflexivity).
  destruct (negb _) in H.
  - injection H as <-. reflexivity.
  - rewrite (IH _ _ _ q' H). apply watermark_upd_rq. reflexivity.
Qed.

Lemma clear_buddies_next_watermark fuel : forall m se m' q',
  __clear_buddies_next fuel m se = Some m' -> watermark m' q' = watermark m q'.
Proof.
  induction fuel as [| fuel IH]; intros m [p |] m' q' H; cbn in H;
    try discriminate; try (injection H as <-; reflexivity).
  destruct (negb _) in H.
  - injection H as <-. reflexivity.
  - rewrite (IH _ _ _ q' H). apply watermark_upd_rq. reflexivity.
Qed.

Lemma clear_buddies_skip_watermark fuel : forall m se m' q',
  __clear_buddies_skip fuel m se = Some m' -> watermark m' q' = watermark m q'.
Proof.
  induction fuel as [| fuel IH]; intros m [p |] m' q' H; cbn in H;
    try discriminate; try (injection H as <-; reflexivity).
  destruct (negb _) in H.
  - injection H as <-. reflexivity.
  - rewrite (IH _ _ _ q' H). apply watermark_upd_rq. reflexivity.
Qed.

Lemma clear_buddies_watermark m q se m' q' :
  clear_buddies m q se = Some m' -> watermark m' q' = watermark m q'.
Proof.
  unfold clear_buddies. cbv zeta. intros H.
  destruct (ptr_eqb (last (rq_at m q)) se).
  - destruct (__clear_buddies_last _ m se) as [m1 |] eqn:E1; [| discriminate].
    apply (clear_buddies_last_watermark _ _ _ _ q') in E1. rewrite <- E1.
    destruct (ptr_eqb (next (rq_at m1 q)) se).
    + destruct (__clear_buddies_next _ m1 se) as [m2 |] eqn:E2; [| discriminate].
      apply (clear_buddies_next_watermark _ _ _ _ q') in E2. rewrite <- E2.
      destruct (ptr_eqb (skip (rq_at m2 q)) se).
      * apply (clear_buddies_skip_watermark _ _ _ _ q') in H. exact H.
      * injection H as <-. reflexivity.
    + destruct (ptr_eqb (skip (rq_at m1 q)) se).
      * apply (clear_buddies_skip_watermark _ _ _ _ q') in H. exact H.
      * injection H as <-. reflexivity.
  - destruct (ptr_eqb (next (rq_at m q)) se).
    + destruct (__clear_buddies_next _ m se) as [m2 |] eqn:E2; [| discriminate].
      apply (clear_buddies_next_watermark _ _ _ _ q') in E2. rewrite <- E2.
      destruct (ptr_eqb (skip (rq_at m2 q)) se).
      * apply (clear_buddies_skip_watermark _ _ _ _ q') in H. exact H.
      * injection H as <-. reflexivity.
    + destruct (ptr_eqb (skip (rq_at m q)) se).
      * apply (clear_buddies_skip_watermark _ _ _ _ q') in H. exact H.
      * injection H as <-. reflexivity.
Qed.

Lemma place_entity_wakeup_value sc ft m q se :
  place_entity sc ft m q se false =
  Some (upd_se m se (fun e =>
    set_vruntime
      (max_vruntime (vruntime e)
         (u64 (min_vruntime_of (rq_at m q) -
               (if GENTLE_FAIR_SLEEPERS ft
                then Z.shiftr (sysctl_sched_latency sc) 1
                else sysctl_sched_latency sc)))) e)).
Proof. reflexivity. Qed.

Lemma enqueue_entity_advances sc ft m q se flags m' q' :
  enqueue_entity sc ft m q se flags = Some m' ->
  not_before (watermark m q') (watermark m' q').
Proof.
  unfold enqueue_entity. cbv zeta.
  set (m0 := if negb (ENQUEUE_WAKEUP flags) || ENQUEUE_WAKING flags
             then _ else m).
  assert (H0 : watermark m0 q' = watermark m q').
  { unfold m0. destruct (_ || _); reflexivity. }
  rewrite <- H0. clearbody m0.
  pose proof (update_curr_advances m0 q q') as Hadv.
  set (m1 := update_curr m0 q) in *. clearbody m1.
  rewrite <- (account_entity_enqueue_watermark m1 q se q') in Hadv.
  set (m2 := account_entity_enqueue m1 q se) in *. clearbody m2.
  destruct (ENQUEUE_WAKEUP flags).
  - rewrite place_entity_wakeup_value.
    match goal with
    | |- context [if ?c then __enqueue_entity ?a q se else ?a] =>
        destruct c
    end; intros H; injection H as <-.
    + rewrite watermark_upd_se, enqueue_entity_tree_watermark. exact Hadv.
    + exact Hadv.
  - match goal with
    | |- context [if ?c then __enqueue_entity ?a q se else ?a] =>
        destruct c
    end; intros H; injection H as <-.
    + rewrite watermark_upd_se, enqueue_entity_tree_watermark. exact Hadv.
    + exact Hadv.
Qed.

Lemma dequeue_entity_advances m q se flags m' q' :
  dequeue_entity m q se flags = Some m' ->
  not_before (watermark (update_curr m q) q') (watermark m' q').
Proof.
  unfold dequeue_entity. cbv zeta.
  set (m1 := update_curr m q) in *. clearbody m1.
  destruct (clear_buddies m1 q (Some se)) as [m2 |] eqn:E; [| discriminate].
  rewrite <- (clear_buddies_watermark _ _ _ _ q' E). clear E.
  intros H. injection H as <-.
  match goal with
  | |- not_before _ (watermark (update_min_vruntime ?a q) q') =>
      replace (watermark m2 q') with (watermark a q');
        [apply update_min_vruntime_advances |]
  end.
  match goal with
  | |- watermark (if ?c then _ else _) q' = _ => destruct c
  end.
  all: rewrite ?watermark_upd_se, account_entity_dequeue_watermark,
         watermark_upd_se.
  all: match goal with
       | |- watermark (if ?c then _ else _) _ = _ => destruct c
       end.
  all: rewrite ?dequeue_entity_tree_watermark; reflexivity.
Qed.

Lemma last_cons_default (l : list Z) : forall x d,
  List.last (x :: l) d = List.last l x.
Proof.
  induction l as [| y l IH]; intros x d; [reflexivity |].
  change (List.last (x :: y :: l) d) with (List.last (y :: l) d).
  rewrite (IH y d), (IH y x). reflexivity.
Qed.

Lemma nondecreasing_mod64_app a l1 l2 :
  nondecreasing_mod64 (a :: l1) ->
  nondecreasing_mod64 (List.last l1 a :: l2) ->
  nondecreasing_mod64 (a :: l1 ++ l2).
Proof.
  revert a. induction l1 as [| b l1 IH]; intros a H1 H2.
  - exact H2.
  - cbn [app]. destruct H1 as [Hab H1]. split; [exact Hab |].
    apply IH; [exact H1 |].
    rewrite last_cons_default in H2. exact H2.
Qed.

Lemma op_watermarks_advance sc ft q m op :
  nondecreasing_mod64 (watermark m q :: op_watermarks sc ft q m op) /\
  (forall m', run_op sc ft q m op = Some m' ->
     List.last (op_watermarks sc ft q m op) (watermark m q) = watermark m' q).
Proof.
  destruct op as [now | | se flags | se flags]; cbn [op_watermarks run_op].
  - split; [exact I |]. intros m' H. injection H as <-.
    symmetry. apply watermark_upd_rq. reflexivity.
  - split.
    + split; [apply update_curr_advances | exact I].
    + intros m' H. injection H as <-. reflexivity.
  - destruct (enqueue_entity sc ft m q se flags) as [m1 |] eqn:E.
    + split.
      * split; [apply (enqueue_entity_advances _ _ _ _ _ _ _ _ E) | exact I].
      * intros m' H. injection H as <-. reflexivity.
    + split; [exact I | discriminate].
  - destruct (dequeue_entity m q se flags) as [m1 |] eqn:E.
    + split.
      * split; [apply update_curr_advances |].
        split; [apply (dequeue_entity_advances _ _ _ _ _ _ E) | exact I].
      * intros m' H. injection H as <-. reflexivity.
    + split; [| discriminate].
      split; [apply update_curr_advances | exact I].
Qed.

(** C3.  [update_min_vruntime] sets the watermark to the later (in the order
    of signed 64-bit differences) of its old value and the smaller of the
    virtual runtimes of the running and the leftmost queued entity, so the
    new value is never before the old one; and along every sequence of
    clock advances, [update_curr], [enqueue_entity] and [dequeue_entity]
    calls, each value written to [min_vruntime] is at or after the value it
    replaces. *)
Theorem C3_min_vruntime_never_decreases sc ft q m ops :
  watermark (update_min_vruntime m q) q =
    max_vruntime (watermark m q) (min_candidate m q) /\
  not_before (watermark m q) (watermark (update_min_vruntime m q) q) /\
  nondecreasing_mod64 (watermark m q :: watermarks sc ft q m ops).
Proof.
  split; [apply update_min_vruntime_value |].
  split; [apply update_min_vruntime_advances |].
  revert m. induction ops as [| op ops IH]; intros m.
  - exact I.
  - cbn [watermarks].
    destruct (op_watermarks_advance sc ft q m op) as [Hop Hlast].
    apply nondecreasing_mod64_app; [exact Hop |].
    destruct (run_op sc ft q m op) as [m' |].
    + rewrite (Hlast m' eq_refl). apply IH.
    + exact I.
Qed.

(** ** Walks up the parent chain *)

Lemma chain_len_ext m m' : (forall p, se_at m' p = se_at m p) ->
  forall k p, chain_len m k p -> chain_len m' k p.
Proof.
  intros Hse. induction k as [| k IH]; intros p; cbn [chain_len];
    rewrite Hse; [tauto |].
  intros (pp & Hp & Hc). exists pp. split; [exact Hp | apply IH; exact Hc].
Qed.

Lemma set_rq_load_same r : set_rq_load (rq_load r) r = r.
Proof. destruct r. reflexivity. Qed.

Lemma set_rq_load_twice lw lw' r :
  set_rq_load lw (set_rq_load lw' r) = set_rq_load lw r.
Proof. reflexivity. Qed.

(** [sched_slice] reaches the top of a well-formed chain, and it writes
    nothing but the cached inverses of queue weights. *)
Lemma sched_slice_walk_total k : forall m p s,
  chain_len m k p ->
  exists v m',
    sched_slice_walk (S k) m (Some p) s = Some (v, m') /\
    (forall a, se_at m' a = se_at m a) /\
    (forall q, exists lw, rq_at m' q = set_rq_load lw (rq_at m q)).
Proof.
  induction k as [| k IH]; intros m p s Hc; cbn [chain_len] in Hc;
    cbn [sched_slice_walk].
  - rewrite Hc.
    destruct (on_rq (se_at m p)).
    + destruct (__calc_delta s _ _) as [v lw].
      eexists. eexists.
      split; [reflexivity |]. split; [reflexivity |].
      intros q. destruct (Nat.eq_dec q (cfs_rq_of (se_at m p))) as [-> | N].
      * exists lw. rewrite rq_at_upd_rq. reflexivity.
      * exists (rq_load (rq_at m q)).
        rewrite rq_at_upd_rq_other by exact N.
        symmetry. apply set_rq_load_same.
    + destruct (__calc_delta s _ _) as [v lw].
      eexists. eexists. split; [reflexivity |]. split; [reflexivity |].
      intros q. exists (rq_load (rq_at m q)). symmetry. apply set_rq_load_same.
  - destruct Hc as (pp & Hp & Hc). rewrite Hp.
    destruct (on_rq (se_at m p)).
    + destruct (__calc_delta s _ _) as [v lw].
      set (m1 := upd_rq m (cfs_rq_of (se_at m p)) (set_rq_load lw)).
      destruct (IH m1 pp v) as (v' & m' & Hw & Hse & Hrq).
      { apply (chain_len_ext m); [reflexivity | exact Hc]. }
      exists v', m'. split; [exact Hw |]. split.
      * intros a. rewrite Hse. reflexivity.
      * intros q. destruct (Hrq q) as [lw' Hq].
        destruct (Nat.eq_dec q (cfs_rq_of (se_at m p))) as [-> | N].
        -- exists lw'. rewrite Hq. unfold m1. rewrite rq_at_upd_rq.
           reflexivity.
        -- exists lw'. rewrite Hq. unfold m1.
           rewrite rq_at_upd_rq_other by exact N. reflexivity.
    + destruct (__calc_delta s _ _) as [v lw].
      apply IH. exact Hc.
Qed.

Lemma sched_slice_total sc m q se :
  chain_ok m se ->
  exists v m',
    sched_slice sc m q se = Some (v, m') /\
    (forall a, se_at m' a = se_at m a) /\
    (forall q', exists lw, rq_at m' q' = set_rq_load lw (rq_at m q')).
Proof. intros Hc. unfold sched_slice. apply sched_slice_walk_total. exact Hc. Qed.

(** The buddy loops reach the top of a well-formed chain or stop before;
    they write nothing but buddy pointers. *)

Lemma buddies_only_refl m : buddies_only m m.
Proof.
  split; [reflexivity |]. intros q.
  exists (next (rq_at m q)), (last (rq_at m q)), (skip (rq_at m q)).
  destruct (rq_at m q). reflexivity.
Qed.

Lemma buddies_only_trans m1 m2 m3 :
  buddies_only m1 m2 -> buddies_only m2 m3 -> buddies_only m1 m3.
Proof.
  intros [S1 R1] [S2 R2]. split.
  - intros a. rewrite S2. apply S1.
  - intros q. destruct (R1 q) as (n1 & l1 & s1 & E1).
    destruct (R2 q) as (n2 & l2 & s2 & E2).
    exists n2, l2, s2. rewrite E2, E1. reflexivity.
Qed.

Lemma buddies_only_upd m q f :
  (forall r, exists n l s, f r = set_next n (set_last l (set_skip s r))) ->
  buddies_only m (upd_rq m q f).
Proof.
  intros Hf. split; [reflexivity |]. intros q'.
  destruct (Nat.eq_dec q' q) as [-> | N].
  - rewrite rq_at_upd_rq. apply Hf.
  - rewrite rq_at_upd_rq_other by exact N.
    destruct (buddies_only_refl m) as [_ R]. apply R.
Qed.

Lemma set_last_buddy p r :
  exists n l s, set_last p r = set_next n (set_last l (set_skip s r)).
Proof. exists (next r), p, (skip r). destruct r. reflexivity. Qed.

Lemma set_next_buddy p r :
  exists n l s, set_next p r = set_next n (set_last l (set_skip s r)).
Proof. exists p, (last r), (skip r). destruct r. reflexivity. Qed.

Lemma set_skip_buddy p r :
  exists n l s, set_skip p r = set_next n (set_last l (set_skip s r)).
Proof. exists (next r), (last r), p. destruct r. reflexivity. Qed.

Lemma clear_buddies_last_step fuel m p :
  __clear_buddies_last (S fuel) m (Some p) =
  let q := cfs_rq_of (se_at m p) in
  if negb (ptr_eqb (last (rq_at m q)) (Some p)) then Some m
  else __clear_buddies_last fuel (upd_rq m q (set_last None)) (parent (se_at m p)).
Proof. reflexivity. Qed.

Lemma clear_buddies_last_total k : forall m p,
  chain_len m k p ->
  exists m', __clear_buddies_last (S k) m (Some p) = Some m' /\
             buddies_only m m'.
Proof.
  induction k as [| k IH]; intros m p Hc; cbn [chain_len] in Hc;
    rewrite clear_buddies_last_step; cbv zeta.
  - destruct (negb _).
    + eexists. split; [reflexivity | apply buddies_only_refl].
    + rewrite Hc. eexists. split; [reflexivity |].
      apply buddies_only_upd. apply set_last_buddy.
  - destruct Hc as (pp & Hp & Hc). destruct (negb _).
    + eexists. split; [reflexivity | apply buddies_only_refl].
    + rewrite Hp.
      set (m0 := upd_rq m (cfs_rq_of (se_at m p)) (set_last None)).
      destruct (IH m0 pp) as (m' & E & Hb).
      { apply (chain_len_ext m); [reflexivity | exact Hc]. }
      exists m'. split; [exact E |].
      apply (buddies_only_trans m m0 m');
        [apply buddies_only_upd; apply set_last_buddy | exact Hb].
Qed.

Lemma clear_buddies_next_step fuel m p :
  __clear_buddies_next (S fuel) m (Some p) =
  let q := cfs_rq_of (se_at m p) in
  if negb (ptr_eqb (next (rq_at m q)) (Some p)) then Some m
  else __clear_buddies_next fuel (upd_rq m q (set_next None)) (parent (se_at m p)).
Proof. reflexivity. Qed.

Lemma clear_buddies_next_total k : forall m p,
  chain_len m k p ->
  exists m', __clear_buddies_next (S k) m (Some p) = Some m' /\
             buddies_only m m'.
Proof.
  induction k as [| k IH]; intros m p Hc; cbn [chain_len] in Hc;
    rewrite clear_buddies_next_step; cbv zeta.
  - destruct (negb _).
    + eexists. split; [reflexivity | apply buddies_only_refl].
    + rewrite Hc. eexists. split; [reflexivity |].
      apply buddies_only_upd. apply set_next_buddy.
  - destruct Hc as (pp & Hp & Hc). destruct (negb _).
    + eexists. split; [reflexivity | apply buddies_only_refl].
    + rewrite Hp.
      set (m0 := upd_rq m (cfs_rq_of (se_at m p)) (set_next None)).
      destruct (IH m0 pp) as (m' & E & Hb).
      { apply (chain_len_ext m); [reflexivity | exact Hc]. }
      exists m'. split; [exact E |].
      apply (buddies_only_trans m m0 m');
        [apply buddies_only_upd; apply set_next_buddy | exact Hb].
Qed.

Lemma clear_buddies_skip_step fuel m p :
  __clear_buddies_skip (S fuel) m (Some p) =
  let q := cfs_rq_of (se_at m p) in
  if negb (ptr_eqb (skip (rq_at m q)) (Some p)) then Some m
  else __clear_buddies_skip fuel (upd_rq m q (set_skip None)) (parent (se_at m p)).
Proof. reflexivity. Qed.

Lemma clear_buddies_skip_total k : forall m p,
  chain_len m k p ->
  exists m', __clear_buddies_skip (S k) m (Some p) = Some m' /\
             buddies_only m m'.
Proof.
  induction k as [| k IH]; intros m p Hc; cbn [chain_len] in Hc;
    rewrite clear_buddies_skip_step; cbv zeta.
  - destruct (negb _).
    + eexists. split; [reflexivity | apply buddies_only_refl].
    + rewrite Hc. eexists. split; [reflexivity |].
      apply buddies_only_upd. apply set_skip_buddy.
  - destruct Hc as (pp & Hp & Hc). destruct (negb _).
    + eexists. split; [reflexivity | apply buddies_only_refl].
    + rewrite Hp.
      set (m0 := upd_rq m (cfs_rq_of (se_at m p)) (set_skip None)).
      destruct (IH m0 pp) as (m' & E & Hb).
      { apply (chain_len_ext m); [reflexivity | exact Hc]. }
      exists m'. split; [exact E |].
      apply (buddies_only_trans m m0 m');
        [apply buddies_only_upd; apply set_skip_buddy | exact Hb].
Qed.

Lemma clear_buddies_total m q se :
  match se with Some p => chain_ok m p | None => True end ->
  exists m', clear_buddies m q se = Some m' /\ buddies_only m m'.
Proof.
  intros Hc. unfold clear_buddies. cbv zeta.
  assert (L : forall m1, buddies_only m m1 ->
            exists m', __clear_buddies_last (chain_fuel m se) m1 se = Some m'
                       /\ buddies_only m m').
  { intros m1 Hb. destruct se as [p |].
    - destruct (clear_buddies_last_total (depth (se_at m p)) m1 p)
        as (m' & E & Hb').
      + apply (chain_len_ext m); [apply Hb | exact Hc].
      + exists m'. split; [exact E | apply (buddies_only_trans _ _ _ Hb Hb')].
    - exists m1. split; [reflexivity | exact Hb]. }
  assert (N : forall m1, buddies_only m m1 ->
            exists m', __clear_buddies_next (chain_fuel m se) m1 se = Some m'
                       /\ buddies_only m m').
  { intros m1 Hb. destruct se as [p |].
    - destruct (clear_buddies_next_total (depth (se_at m p)) m1 p)
        as (m' & E & Hb').
      + apply (chain_len_ext m); [apply Hb | exact Hc].
      + exists m'. split; [exact E | apply (buddies_only_trans _ _ _ Hb Hb')].
    - exists m1. split; [reflexivity | exact Hb]. }
  assert (K : forall m1, buddies_only m m1 ->
            exists m', __clear_buddies_skip (chain_fuel m se) m1 se = Some m'
                       /\ buddies_only m m').
  { intros m1 Hb. destruct se as [p |].
    - destruct (clear_buddies_skip_total (depth (se_at m p)) m1 p)
        as (m' & E & Hb').
      + apply (chain_len_ext m); [apply Hb | exact Hc].
      + exists m'. split; [exact E | apply (buddies_only_trans _ _ _ Hb Hb')].
    - exists m1. split; [reflexivity | exact Hb]. }
  assert (S1 : exists m1,
            (if ptr_eqb (last (rq_at m q)) se
             then __clear_buddies_last (chain_fuel m se) m se else Some m)
            = Some m1 /\ buddies_only m m1).
  { destruct (ptr_eqb (last (rq_at m q)) se).
    - apply L. apply buddies_only_refl.
    - exists m. split; [reflexivity | apply buddies_only_refl]. }
  destruct S1 as (m1 & -> & B1).
  assert (S2 : exists m2,
            (if ptr_eqb (next (rq_at m1 q)) se
             then __clear_buddies_next (chain_fuel m se) m1 se else Some m1)
            = Some m2 /\ buddies_only m m2).
  { destruct (ptr_eqb (next (rq_at m1 q)) se).
    - apply N. exact B1.
    - exists m1. split; [reflexivity | exact B1]. }
  destruct S2 as (m2 & -> & B2).
  destruct (ptr_eqb (skip (rq_at m2 q)) se).
  - apply K. exact B2.
  - exists m2. split; [reflexivity | exact B2].
Qed.

Lemma buddies_only_need_resched m m' q :
  buddies_only m m' -> need_resched (rq_at m' q) = need_resched (rq_at m q).
Proof.
  intros [_ R]. destruct (R q) as (n & l & s & ->). reflexivity.
Qed.

(** ** Preemption at the tick *)

Lemma check_preempt_tick_marks sc m q c l ideal m0 :
  chain_ok m c ->
  __pick_first_entity m q = Some l ->
  sched_slice sc m q c = Some (ideal, m0) ->
  (forall a, se_at m0 a = se_at m a) ->
  (forall q', exists lw, rq_at m0 q' = set_rq_load lw (rq_at m q')) ->
  exists m',
    check_preempt_tick sc m q c = Some m' /\
    let delta_exec :=
      u64 (sum_exec_runtime (se_at m c) - prev_sum_exec_runtime (se_at m c)) in
    let delta := s64 (vruntime (se_at m c) - vruntime (se_at m l)) in
    need_resched (rq_at m' q) =
      need_resched (rq_at m q)
      || ((ideal <? delta_exec)
          || ((sysctl_sched_min_granularity sc <=? delta_exec)
              && (0 <=? delta) && (ideal <? delta))) /\
    (delta_exec <= ideal -> delta_exec < sysctl_sched_min_granularity sc ->
     need_resched (rq_at m' q) = need_resched (rq_at m q)).
Proof.
  intros Hc Hl Hs Hse Hrq.
  assert (Hres : need_resched (rq_at m0 q) = need_resched (rq_at m q)).
  { destruct (Hrq q) as [lw ->]. reflexivity. }
  assert (Hlm : __pick_first_entity m0 q = Some l).
  { unfold __pick_first_entity in *. destruct (Hrq q) as [lw ->]. exact Hl. }
  unfold check_preempt_tick. rewrite Hs. cbv zeta.
  rewrite !Hse.
  set (delta_exec :=
         u64 (sum_exec_runtime (se_at m c) - prev_sum_exec_runtime (se_at m c))).
  set (delta := s64 (vruntime (se_at m c) - vruntime (se_at m l))).
  destruct (Z.ltb_spec ideal delta_exec) as [Hover | Hin].
  - destruct (clear_buddies_total (upd_rq m0 q resched_curr) q (Some c))
      as (m' & E & Hb).
    { unfold chain_ok. rewrite se_at_upd_rq, Hse.
      apply (chain_len_ext m); [| exact Hc]. intros a. cbn. apply Hse. }
    exists m'. split; [exact E |].
    rewrite (buddies_only_need_resched _ _ q Hb), rq_at_upd_rq.
    cbn [resched_curr need_resched]. split.
    + rewrite orb_true_r. reflexivity.
    + intros; lia.
  - cbn [orb].
    destruct (Z.ltb_spec delta_exec (sysctl_sched_min_granularity sc))
      as [Hshort | Hlong].
    + exists m0. split; [reflexivity |].
      destruct (Z.leb_spec (sysctl_sched_min_granularity sc) delta_exec);
        [lia |].
      cbn [andb]. rewrite orb_false_r. split; [exact Hres | intros; exact Hres].
    + rewrite Hlm, Hse. fold delta.
      destruct (Z.leb_spec (sysctl_sched_min_granularity sc) delta_exec);
        [| lia].
      cbn [andb].
      destruct (Z.ltb_spec delta 0) as [Hneg | Hpos].
      * exists m0. split; [reflexivity |].
        destruct (Z.leb_spec 0 delta); [lia |]. cbn [andb].
        rewrite orb_false_r. split; [exact Hres | intros; exact Hres].
      * destruct (Z.leb_spec 0 delta); [| lia]. cbn [andb].
        assert (Hu : u64 delta = delta).
        { apply u64_small. pose proof (s64_range
            (vruntime (se_at m c) - vruntime (se_at m l))) as R.
          fold delta in R. unfold is_u64.
          assert (2 ^ 63 < 2 ^ 64) by (apply Z.pow_lt_mono_r; lia). lia. }
        rewrite Hu.
        destruct (Z.ltb_spec ideal delta).
        -- eexists. split; [reflexivity |]. rewrite rq_at_upd_rq.
           cbn [resched_curr need_resched]. rewrite orb_true_r.
           split; [reflexivity | intros; lia].
        -- exists m0. split; [reflexivity |]. rewrite orb_false_r.
           split; [exact Hres | intros; exact Hres].
Qed.

(** C2 (amended).  At the tick the running entity is marked for preemption
    exactly when its elapsed slice exceeds [ideal_runtime], or else when the
    elapsed slice is at least the minimum granularity and its virtual
    runtime is ahead of the leftmost queued entity's by more than
    [ideal_runtime].  The minimum granularity guards the second test only:
    an entity whose elapsed slice does not exceed [ideal_runtime] and is
    below the minimum granularity is never marked. *)
Theorem C2_check_preempt_tick sc m q c l :
  chain_ok m c ->
  __pick_first_entity m q = Some l ->
  exists ideal m0 m',
    sched_slice sc m q c = Some (ideal, m0) /\
    check_preempt_tick sc m q c = Some m' /\
    let delta_exec :=
      u64 (sum_exec_runtime (se_at m c) - prev_sum_exec_runtime (se_at m c)) in
    let delta := s64 (vruntime (se_at m c) - vruntime (se_at m l)) in
    need_resched (rq_at m' q) =
      need_resched (rq_at m q)
      || ((ideal <? delta_exec)
          || ((sysctl_sched_min_granularity sc <=? delta_exec)
              && (0 <=? delta) && (ideal <? delta))) /\
    (delta_exec <= ideal -> delta_exec < sysctl_sched_min_granularity sc ->
     need_resched (rq_at m' q) = need_resched (rq_at m q)).
Proof.
  intros Hc Hl.
  destruct (sched_slice_total sc m q c Hc) as (ideal & m0 & Hs & Hse & Hrq).
  destruct (check_preempt_tick_marks sc m q c l ideal m0 Hc Hl Hs Hse Hrq)
    as (m' & Ht & Hmark).
  exists ideal, m0, m'. split; [exact Hs |]. split; [exact Ht | exact Hmark].
Qed.

(** Witness of C2: the nice-19 task of [light_task_running]. *)
Lemma C2_check_preempt_tick_witness :
  exists ideal m0 m',
    sched_slice default_sysctl light_task_running 0%nat 0%nat
      = Some (ideal, m0) /\
    check_preempt_tick default_sysctl light_task_running 0%nat 0%nat
      = Some m' /\
    let delta_exec :=
      u64 (sum_exec_runtime (se_at light_task_running 0%nat)
           - prev_sum_exec_runtime (se_at light_task_running 0%nat)) in
    let delta :=
      s64 (vruntime (se_at light_task_running 0%nat)
           - vruntime (se_at light_task_running 1%nat)) in
    need_resched (rq_at m' 0%nat) =
      need_resched (rq_at light_task_running 0%nat)
      || ((ideal <? delta_exec)
          || ((sysctl_sched_min_granularity default_sysctl <=? delta_exec)
              && (0 <=? delta) && (ideal <? delta))) /\
    (delta_exec <= ideal ->
     delta_exec < sysctl_sched_min_granularity default_sysctl ->
     need_resched (rq_at m' 0%nat)
       = need_resched (rq_at light_task_running 0%nat)).
Proof.
  apply (C2_check_preempt_tick default_sysctl light_task_running
           0%nat 0%nat 1%nat).
  - reflexivity.
  - reflexivity.
Defined.

(** Counterexample to C2 as stated: a nice-19 task next to a nice-0 task
    has an ideal runtime of 86621 ns; after 100 us, well below the 750 us
    minimum granularity, the tick marks it for preemption. *)
Lemma C2_overrun_below_min_granularity_is_preempted :
  let m := light_task_running in
  let delta_exec :=
    u64 (sum_exec_runtime (se_at m 0%nat)
         - prev_sum_exec_runtime (se_at m 0%nat)) in
  option_map fst (sched_slice default_sysctl m 0%nat 0%nat) = Some 86621 /\
  delta_exec = 100000 /\
  delta_exec < sysctl_sched_min_granularity default_sysctl /\
  need_resched (rq_at m 0%nat) = false /\
  option_map (fun m' => need_resched (rq_at m' 0%nat))
    (check_preempt_tick default_sysctl m 0%nat 0%nat) = Some true.
Proof.
  cbv zeta. split; [vm_compute; reflexivity |].
  split; [vm_compute; reflexivity |].
  split; [vm_compute; reflexivity |].
  split; vm_compute; reflexivity.
Qed.

(** ** Placement *)

Lemma max_vruntime_floor a v : s64 (v - max_vruntime a v) <= 0.
Proof.
  unfold max_vruntime. cbv zeta.
  destruct (Z.ltb_spec 0 (s64 (v - a))) as [H | H].
  - rewrite Z.sub_diag. vm_compute. discriminate.
  - exact H.
Qed.

Lemma calc_delta_fair_frame m d p :
  (forall a, vruntime (se_at (snd (calc_delta_fair m d p)) a)
             = vruntime (se_at m a)) /\
  rq_at (snd (calc_delta_fair m d p)) = rq_at m.
Proof.
  split; [| apply rq_at_calc_delta_fair].
  intros a. unfold calc_delta_fair. cbv zeta.
  destruct (negb (weight (load (se_at m p)) =? NICE_0_LOAD)); [| reflexivity].
  destruct (__calc_delta d NICE_0_LOAD (load (se_at m p))) as [v lw].
  cbn [snd]. destruct (Nat.eq_dec a p) as [-> | N].
  - rewrite se_at_upd_se. reflexivity.
  - rewrite se_at_upd_se_other by exact N. reflexivity.
Qed.

Lemma sched_vslice_total sc m q se :
  chain_ok m se ->
  exists vs m0,
    sched_vslice sc m q se = Some (vs, m0) /\
    (forall a, vruntime (se_at m0 a) = vruntime (se_at m a)) /\
    (forall q', watermark m0 q' = watermark m q').
Proof.
  intros Hc. destruct (sched_slice_total sc m q se Hc)
    as (s & m1 & Hs & Hse & Hrq).
  unfold sched_vslice. rewrite Hs.
  destruct (calc_delta_fair_frame m1 s se) as [Fv Fr].
  destruct (calc_delta_fair m1 s se) as [vs m0]. cbn [snd] in *.
  exists vs, m0. split; [reflexivity |]. split.
  - intros a. rewrite Fv, Hse. reflexivity.
  - intros q'. unfold watermark. rewrite Fr.
    destruct (Hrq q') as [lw ->]. reflexivity.
Qed.

Lemma place_entity_initial_value sc ft m q se :
  chain_ok m se ->
  exists vs m0 m',
    sched_vslice sc m q se = Some (vs, m0) /\
    place_entity sc ft m q se true = Some m' /\
    vruntime (se_at m' se) =
      max_vruntime (vruntime (se_at m se))
        (if START_DEBIT ft then u64 (watermark m q + vs) else watermark m q).
Proof.
  intros Hc. destruct (sched_vslice_total sc m q se Hc)
    as (vs & m0 & Hs & Hv & _).
  exists vs, m0. unfold place_entity. cbv zeta. cbn [andb negb].
  rewrite Hs. destruct (START_DEBIT ft).
  - eexists. split; [reflexivity |]. split; [reflexivity |].
    rewrite se_at_upd_se. cbn [set_vruntime vruntime]. rewrite Hv.
    reflexivity.
  - eexists. split; [reflexivity |]. split; [reflexivity |].
    rewrite se_at_upd_se. reflexivity.
Qed.

Lemma enqueue_entity_wakeup_value sc ft m q se flags :
  ENQUEUE_WAKEUP flags = true ->
  let m1 := before_placement m q se flags in
  exists m',
    enqueue_entity sc ft m q se flags = Some m' /\
    vruntime (se_at m' se) =
      max_vruntime (vruntime (se_at m1 se))
        (u64 (watermark m1 q - sleep_bonus sc ft)).
Proof.
  intros Hw. cbv zeta. unfold enqueue_entity, before_placement. cbv zeta.
  rewrite Hw. cbn [negb orb].
  set (m1 := account_entity_enqueue _ q se).
  rewrite place_entity_wakeup_value.
  eexists. split; [reflexivity |].
  rewrite se_at_upd_se. cbn [set_on_rq vruntime].
  match goal with
  | |- vruntime (se_at (if ?c then __enqueue_entity ?a q se else ?a) se) = _ =>
      assert (E : se_at (if c then __enqueue_entity a q se else a) se
                  = se_at a se)
  end.
  { destruct (negb _); [| reflexivity]. unfold __enqueue_entity. cbv zeta.
    destruct (rb_link _ _ se). reflexivity. }
  rewrite E, se_at_upd_se. cbn [set_depth vruntime].
  rewrite se_at_upd_se. reflexivity.
Qed.

(** C4 (amended).  [place_entity] for a waking entity ([initial] = 0) sets
    its virtual runtime to the later of its prior virtual runtime and
    [min_vruntime] minus the sleep bonus (one scheduling latency, halved
    under GENTLE_FAIR_SLEEPERS), so it is never placed before that point;
    [enqueue_entity] with ENQUEUE_WAKEUP places the entity this way.  For an
    initial entity no bonus is subtracted, and [min_vruntime] is moved
    forward by one [sched_vslice] before the comparison when the START_DEBIT
    feature is enabled; without that feature it is compared as it is. *)
Theorem C4_place_entity sc ft m q se flags :
  chain_ok m se -> ENQUEUE_WAKEUP flags = true ->
  (exists m',
     place_entity sc ft m q se false = Some m' /\
     let floor := u64 (watermark m q - sleep_bonus sc ft) in
     vruntime (se_at m' se) = max_vruntime (vruntime (se_at m se)) floor /\
     s64 (floor - vruntime (se_at m' se)) <= 0) /\
  (exists m',
     enqueue_entity sc ft m q se flags = Some m' /\
     let m1 := before_placement m q se flags in
     vruntime (se_at m' se) =
       max_vruntime (vruntime (se_at m1 se))
         (u64 (watermark m1 q - sleep_bonus sc ft))) /\
  (exists vs m0 m',
     sched_vslice sc m q se = Some (vs, m0) /\
     place_entity sc ft m q se true = Some m' /\
     vruntime (se_at m' se) =
       max_vruntime (vruntime (se_at m se))
         (if START_DEBIT ft then u64 (watermark m q + vs)
          else watermark m q)).
Proof.
  intros Hc Hw. split; [| split].
  - rewrite place_entity_wakeup_value. eexists. split; [reflexivity |].
    cbv zeta. rewrite se_at_upd_se. cbn [set_vruntime vruntime].
    split; [reflexivity |]. apply max_vruntime_floor.
  - apply enqueue_entity_wakeup_value. exact Hw.
  - apply place_entity_initial_value. exact Hc.
Qed.

(** Witness of C4: a nice-0 task among four, woken under the initial
    tunables with both features on. *)
Lemma C4_place_entity_witness :
  let sc := default_sysctl in
  let ft := mk_features true true false in
  let m := nice0_tasks 4 in
  let flags := mk_enq_flags true false false in
  (exists m',
     place_entity sc ft m 0%nat 0%nat false = Some m' /\
     let floor := u64 (watermark m 0%nat - sleep_bonus sc ft) in
     vruntime (se_at m' 0%nat)
       = max_vruntime (vruntime (se_at m 0%nat)) floor /\
     s64 (floor - vruntime (se_at m' 0%nat)) <= 0) /\
  (exists m',
     enqueue_entity sc ft m 0%nat 0%nat flags = Some m' /\
     let m1 := before_placement m 0%nat 0%nat flags in
     vruntime (se_at m' 0%nat) =
       max_vruntime (vruntime (se_at m1 0%nat))
         (u64 (watermark m1 0%nat - sleep_bonus sc ft))) /\
  (exists vs m0 m',
     sched_vslice sc m 0%nat 0%nat = Some (vs, m0) /\
     place_entity sc ft m 0%nat 0%nat true = Some m' /\
     vruntime (se_at m' 0%nat) =
       max_vruntime (vruntime (se_at m 0%nat))
         (if START_DEBIT ft then u64 (watermark m 0%nat + vs)
          else watermark m 0%nat)).
Proof.
  intros sc ft m flags.
  apply (C4_place_entity sc ft m 0%nat 0%nat flags).
  - reflexivity.
  - reflexivity.
Defined.

(** Counterexample to C4 as stated: with START_DEBIT off an initial entity
    is compared with [min_vruntime] itself; the vslice (1499998 ns here) is
    not added. *)
Lemma C4_initial_bias_needs_start_debit :
  let sc := default_sysctl in
  let ft := mk_features false true false in
  let m := nice0_tasks 4 in
  option_map fst (sched_vslice sc m 0%nat 0%nat) = Some 1499998 /\
  option_map (fun m' => vruntime (se_at m' 0%nat))
    (place_entity sc ft m 0%nat 0%nat true) = Some 0 /\
  max_vruntime (vruntime (se_at m 0%nat))
    (u64 (min_vruntime_of (rq_at m 0%nat) + 1499998)) = 1499998.
Proof.
  cbv zeta. split; [vm_compute; reflexivity |].
  split; vm_compute; reflexivity.
Qed.

(** ** Picking the next entity *)

Lemma update_inv_weight_weight lw :
  weight (__update_inv_weight lw) = weight lw.
Proof.
  unfold __update_inv_weight. cbv zeta.
  destruct (negb _); [reflexivity |].
  destruct (_ <=? _); [reflexivity |]. destruct (_ =? _); reflexivity.
Qed.

Lemma update_inv_weight_nonzero lw :
  inv_weight (__update_inv_weight lw) <> 0 \/ inv_weight lw <> 0.
Proof.
  unfold __update_inv_weight, scale_load_down. cbv zeta.
  destruct (Z.eqb_spec (inv_weight lw) 0) as [E | E]; [| right; exact E].
  left. cbn [negb].
  assert (WC : WMULT_CONST = 2 ^ 32 - 1) by reflexivity.
  destruct (Z.leb_spec WMULT_CONST (weight lw)); [cbn; lia |].
  destruct (Z.eqb_spec (weight lw) 0) as [W0 | W0]; [cbn; lia |].
  cbn [inv_weight]. intros Hq.
  pose proof (Z.div_mod WMULT_CONST (weight lw) W0) as Hd.
  rewrite Hq in Hd.
  destruct (Z.lt_ge_cases 0 (weight lw)) as [P | N].
  - pose proof (Z.mod_pos_bound WMULT_CONST (weight lw) P). lia.
  - pose proof (Z.mod_neg_bound WMULT_CONST (weight lw) ltac:(lia)). lia.
Qed.

Lemma update_inv_weight_idem lw :
  __update_inv_weight (__update_inv_weight lw) = __update_inv_weight lw.
Proof.
  destruct (update_inv_weight_nonzero lw) as [H | H].
  - unfold __update_inv_weight at 1.
    destruct (Z.eqb_spec (inv_weight (__update_inv_weight lw)) 0);
      [contradiction | reflexivity].
  - assert (E : __update_inv_weight lw = lw).
    { unfold __update_inv_weight.
      destruct (Z.eqb_spec (inv_weight lw) 0); [contradiction | reflexivity]. }
    rewrite !E. reflexivity.
Qed.

Lemma calc_delta_inverse d w lw :
  __calc_delta d w lw = __calc_delta d w (__update_inv_weight lw) /\
  snd (__calc_delta d w lw) = __update_inv_weight lw.
Proof.
  unfold __calc_delta. cbv zeta. rewrite update_inv_weight_idem.
  destruct (shift_down 64 _ _) as [f1 s1].
  destruct (shift_down 64 _ s1) as [f2 s2]. split; reflexivity.
Qed.

Lemma calc_delta_congr d w lw1 lw2 :
  __update_inv_weight lw1 = __update_inv_weight lw2 ->
  __calc_delta d w lw1 = __calc_delta d w lw2.
Proof.
  intros H. rewrite (proj1 (calc_delta_inverse d w lw1)),
    (proj1 (calc_delta_inverse d w lw2)), H. reflexivity.
Qed.

Lemma inverses_only_refl m : inverses_only m m.
Proof.
  split; [reflexivity |]. intros a. exists (load (se_at m a)).
  split; [destruct (se_at m a); reflexivity | reflexivity].
Qed.

Lemma inverses_only_fields m m' a :
  inverses_only m m' ->
  vruntime (se_at m' a) = vruntime (se_at m a) /\
  parent (se_at m' a) = parent (se_at m a) /\
  depth (se_at m' a) = depth (se_at m a) /\
  cfs_rq_of (se_at m' a) = cfs_rq_of (se_at m a) /\
  weight (load (se_at m' a)) = weight (load (se_at m a)).
Proof.
  intros [_ H]. destruct (H a) as (lw & -> & E). repeat split.
  cbn [set_load load]. rewrite <- (update_inv_weight_weight lw), E.
  apply update_inv_weight_weight.
Qed.

Lemma calc_delta_fair_inverses m mi d l :
  inverses_only m mi ->
  fst (calc_delta_fair mi d l) = fst (calc_delta_fair m d l) /\
  inverses_only m (snd (calc_delta_fair mi d l)).
Proof.
  intros Hi. destruct (inverses_only_fields m mi l Hi) as (_ & _ & _ & _ & Hw).
  destruct Hi as [Hr Hs]. unfold calc_delta_fair. cbv zeta. rewrite Hw.
  destruct (negb (weight (load (se_at m l)) =? NICE_0_LOAD)).
  - destruct (Hs l) as (lw & El & Eu).
    assert (Hl : load (se_at mi l) = lw) by (rewrite El; reflexivity).
    rewrite Hl. rewrite (calc_delta_congr d NICE_0_LOAD lw _ Eu).
    pose proof (proj2 (calc_delta_inverse d NICE_0_LOAD
                         (load (se_at m l)))) as Hsnd.
    destruct (__calc_delta d NICE_0_LOAD (load (se_at m l))) as [v lw'].
    cbn [fst snd] in *. split; [reflexivity |]. split; [exact Hr |].
    intros a. destruct (Nat.eq_dec a l) as [-> | N].
    + exists lw'. rewrite se_at_upd_se, El. split; [reflexivity |].
      rewrite Hsnd. apply update_inv_weight_idem.
    + rewrite se_at_upd_se_other by exact N. apply Hs.
  - split; [reflexivity |]. split; assumption.
Qed.

Lemma wakeup_preempt_entity_guard sc m mi b l :
  inverses_only m mi ->
  (fst (wakeup_preempt_entity sc mi b l) <? 1) = within_gran sc m b l /\
  inverses_only m (snd (wakeup_preempt_entity sc mi b l)).
Proof.
  intros Hi. unfold wakeup_preempt_entity, within_gran, wakeup_gran_of. cbv zeta.
  destruct (inverses_only_fields m mi b Hi) as (Vb & _).
  destruct (inverses_only_fields m mi l Hi) as (Vl & _).
  rewrite Vb, Vl.
  set (vdiff := s64 (vruntime (se_at m b) - vruntime (se_at m l))).
  destruct (Z.leb_spec vdiff 0) as [Hle | Hgt].
  - cbn [fst snd orb]. split; [reflexivity | exact Hi].
  - unfold wakeup_gran.
    destruct (calc_delta_fair_inverses m mi
                (sysctl_sched_wakeup_granularity sc) l Hi) as [Hv Hm].
    destruct (calc_delta_fair mi (sysctl_sched_wakeup_granularity sc) l)
      as [g mi'].
    cbn [fst snd] in Hv, Hm. rewrite <- Hv. cbn [orb].
    destruct (Z.ltb_spec (s64 g) vdiff); cbn [fst snd].
    + split; [| exact Hm].
      destruct (Z.leb_spec vdiff (s64 g)); [lia | reflexivity].
    + split; [| exact Hm].
      destruct (Z.leb_spec vdiff (s64 g)); [reflexivity | lia].
Qed.

Lemma buddy_ok_guard sc m mi buddy l :
  inverses_only m mi ->
  exists mi',
    buddy_ok sc mi buddy (Some l)
      = Some (honoured sc m buddy (Some l), mi') /\
    inverses_only m mi'.
Proof.
  intros Hi. unfold buddy_ok, honoured. destruct buddy as [b |].
  - destruct (wakeup_preempt_entity_guard sc m mi b l Hi) as [Hg Hm].
    destruct (wakeup_preempt_entity sc mi b l) as [w mi'].
    cbn [fst snd] in *. exists mi'. rewrite Hg. split; [reflexivity | exact Hm].
  - exists mi. split; [reflexivity | exact Hi].
Qed.

Lemma chain_len_parents m m' :
  (forall p, parent (se_at m' p) = parent (se_at m p)) ->
  forall k p, chain_len m k p -> chain_len m' k p.
Proof.
  intros Hp. induction k as [| k IH]; intros p; cbn [chain_len];
    rewrite Hp; [tauto |].
  intros (pp & E & Hc). exists pp. split; [exact E | apply IH; exact Hc].
Qed.

Lemma chain_ok_inverses m m' p :
  inverses_only m m' -> chain_ok m p -> chain_ok m' p.
Proof.
  intros Hi Hc. unfold chain_ok in *.
  destruct (inverses_only_fields m m' p Hi) as (_ & _ & -> & _).
  apply (chain_len_parents m); [| exact Hc].
  intros a. apply (inverses_only_fields m m' a Hi).
Qed.

Lemma within_gran_meaning sc m b l :
  within_gran sc m b l = true <->
  s64 (vruntime (se_at m b) - vruntime (se_at m l))
    <= Z.max 0 (wakeup_gran_of sc m l).
Proof.
  unfold within_gran. cbv zeta. rewrite orb_true_iff, !Z.leb_le. lia.
Qed.

Lemma pick_next_entity_refines sc ft m q curr l :
  (forall p, chain_ok m p) ->
  leftmost_candidate m q curr = Some l ->
  exists m',
    pick_next_entity sc ft m q curr = Some (pick_spec sc ft m q curr, m').
Proof.
  intros Hc Hl. unfold pick_next_entity, pick_spec, skip_adjusted. cbv zeta.
  rewrite Hl.
  (* the skip buddy *)
  match goal with
  | |- exists m', match ?stage with _ => _ end = _ =>
      assert (Hskip : exists ma,
                stage =
                Some ((if ptr_eqb (skip (rq_at m q)) (Some l) then
                         match second_candidate m q curr (Some l) with
                         | None => Some l
                         | Some s =>
                             if STRICT_SKIP_BUDDY ft
                                || honoured sc m (Some s) (Some l)
                             then Some s else Some l
                         end
                       else Some l), ma) /\ inverses_only m ma)
  end.
  { destruct (ptr_eqb (skip (rq_at m q)) (Some l)).
    - destruct (second_candidate m q curr (Some l)) as [s |].
      + destruct (STRICT_SKIP_BUDDY ft).
        * exists m. split; [reflexivity | apply inverses_only_refl].
        * destruct (buddy_ok_guard sc m m (Some s) l (inverses_only_refl m))
            as (ma & -> & Hi).
          exists ma. split; [| exact Hi]. cbn [orb].
          destruct (honoured sc m (Some s) (Some l)); reflexivity.
      + exists m. split; [reflexivity | apply inverses_only_refl].
    - exists m. split; [reflexivity | apply inverses_only_refl]. }
  destruct Hskip as (ma & -> & Ha).
  (* the last buddy, then the next buddy *)
  assert (Ra : rq_at ma = rq_at m) by apply Ha. rewrite Ra.
  destruct (buddy_ok_guard sc m ma (last (rq_at m q)) l Ha) as (mb & -> & Hb).
  assert (Rb : rq_at mb = rq_at m) by apply Hb. rewrite Rb.
  destruct (buddy_ok_guard sc m mb (next (rq_at m q)) l Hb) as (mc & -> & Hm).
  assert (Rc : rq_at mc = rq_at m) by apply Hm. rewrite Rc.
  match goal with
  | |- exists m', match clear_buddies mc q ?se with _ => _ end = _ =>
      destruct (clear_buddies_total mc q se) as (m' & -> & _)
  end.
  { match goal with
    | |- match ?se with _ => _ end => destruct se as [p |]; [| exact I]
    end.
    apply (chain_ok_inverses m mc p Hm). apply Hc. }
  exists m'.
  destruct (honoured sc m (next (rq_at m q)) (Some l)); [reflexivity |].
  destruct (honoured sc m (last (rq_at m q)) (Some l)); reflexivity.
Qed.

(** The helpers of the code against the words of the specification. *)

Lemma leftmost_candidate_words m q curr :
  rb_leftmost (rq_at m q) = hd_error (inorder (tasks_timeline (rq_at m q))) ->
  leftmost_candidate m q curr = leftmost_entity m q curr.
Proof.
  intros Hcache. unfold leftmost_candidate, leftmost_entity,
    __pick_first_entity. rewrite Hcache.
  destruct (hd_error (inorder (tasks_timeline (rq_at m q)))) as [f |];
    [| destruct curr; reflexivity].
  destruct curr as [c |]; reflexivity.
Qed.

Lemma node_after_successor se : forall nodes,
  successor nodes se = node_after se nodes.
Proof.
  induction nodes as [| a rest IH]; [reflexivity |].
  cbn [successor node_after]. destruct (Nat.eqb a se); [reflexivity | exact IH].
Qed.

Lemma second_candidate_words m q curr l :
  rb_leftmost (rq_at m q) = hd_error (inorder (tasks_timeline (rq_at m q))) ->
  second_candidate m q curr (Some l) = entity_after m q curr l.
Proof.
  intros Hcache. unfold second_candidate, entity_after, __pick_first_entity,
    __pick_next_entity, rb_next. cbv zeta.
  rewrite Hcache, node_after_successor.
  destruct curr as [c |]; cbn [ptr_eqb].
  - destruct (Nat.eqb l c); [reflexivity |].
    destruct (node_after l (inorder (tasks_timeline (rq_at m q))));
      reflexivity.
  - destruct (node_after l (inorder (tasks_timeline (rq_at m q))));
      reflexivity.
Qed.

Lemma shifted_product_le d f k :
  0 <= d -> 0 <= f -> 0 <= k <= 32 ->
  0 <= d * (f / 2 ^ k) / 2 ^ (32 - k) /\
  d * (f / 2 ^ k) / 2 ^ (32 - k) * 2 ^ 32 <= d * f.
Proof.
  intros Hd Hf Hk.
  assert (Hpk : 0 < 2 ^ k) by (apply Z.pow_pos_nonneg; lia).
  assert (Hpk' : 0 < 2 ^ (32 - k)) by (apply Z.pow_pos_nonneg; lia).
  assert (Hsplit : 2 ^ k * 2 ^ (32 - k) = 2 ^ 32).
  { rewrite <- Z.pow_add_r by lia. f_equal. lia. }
  set (f' := f / 2 ^ k).
  assert (Hf' : 0 <= f' /\ 2 ^ k * f' <= f).
  { split; [apply Z.div_pos; lia | apply Z.mul_div_le; lia]. }
  set (x := d * f' / 2 ^ (32 - k)).
  assert (Hx : 0 <= x /\ 2 ^ (32 - k) * x <= d * f').
  { split; [apply Z.div_pos; nia | apply Z.mul_div_le; lia]. }
  split; [lia |]. rewrite <- Hsplit.
  assert (2 ^ k * (2 ^ (32 - k) * x) <= 2 ^ k * (d * f'))
    by (apply Z.mul_le_mono_nonneg_l; lia).
  assert (d * (2 ^ k * f') <= d * f)
    by (apply Z.mul_le_mono_nonneg_l; lia).
  lia.
Qed.

(** The scaled granularity is what [__calc_delta] computes. *)
Lemma virtual_gran_value sc lw :
  sysctl_ok sc ->
  0 < weight lw < WMULT_CONST -> is_u32 (inv_weight lw) ->
  virtual_gran sc lw
  = (if weight lw =? NICE_0_LOAD then sysctl_sched_wakeup_granularity sc
     else fst (__calc_delta (sysctl_sched_wakeup_granularity sc)
                 NICE_0_LOAD lw)) /\
  0 <= virtual_gran sc lw < 2 ^ 63.
Proof.
  intros (_ & _ & _ & Hg & _) Hw Hi. unfold virtual_gran. cbv zeta.
  set (gran := sysctl_sched_wakeup_granularity sc) in *.
  unfold is_u32 in Hg.
  assert (E32 : 2 ^ 32 = 4294967296) by reflexivity.
  assert (E63 : 2 ^ 63 = 9223372036854775808) by reflexivity.
  assert (E64 : 2 ^ 64 = 18446744073709551616) by reflexivity.
  destruct (Z.eqb_spec (weight lw) NICE_0_LOAD) as [En | Nn];
    [split; [reflexivity | lia] |].
  assert (Hgu : is_u64 gran) by (unfold is_u64; lia).
  assert (HN : 0 <= NICE_0_LOAD < 2 ^ 32) by (unfold NICE_0_LOAD; lia).
  assert (Hw0 : 0 <= weight lw) by lia.
  destruct (calc_delta_closed gran NICE_0_LOAD lw Hgu HN Hw0 Hi) as (Hk & E).
  cbv zeta in Hk, E.
  pose proof (update_inv_weight_range lw Hw0 Hi) as Hinv.
  assert (Einv : inv_weight (__update_inv_weight lw)
                 = if inv_weight lw =? 0 then WMULT_CONST / weight lw
                   else inv_weight lw).
  { unfold __update_inv_weight, scale_load_down.
    destruct (Z.eqb_spec (inv_weight lw) 0); cbn [negb]; [| reflexivity].
    destruct (Z.leb_spec WMULT_CONST (weight lw)); [lia |].
    destruct (Z.eqb_spec (weight lw) 0); [lia | reflexivity]. }
  rewrite Einv in E, Hk, Hinv.
  set (inv := if inv_weight lw =? 0 then WMULT_CONST / weight lw
              else inv_weight lw) in *.
  set (k := Z.max 0 (Z.log2 (NICE_0_LOAD * inv) - 31)) in *.
  destruct (shifted_product_le gran (NICE_0_LOAD * inv) k) as (Hx0 & Hx);
    [lia | unfold NICE_0_LOAD; lia | exact Hk |].
  set (x := gran * (NICE_0_LOAD * inv / 2 ^ k) / 2 ^ (32 - k)) in *.
  assert (Hx42 : x < 2 ^ 42).
  { unfold NICE_0_LOAD in Hx.
    assert (gran * (1024 * inv) < 2 ^ 32 * (1024 * 2 ^ 32)) by nia.
    change (2 ^ 42) with (1024 * 2 ^ 32). lia. }
  assert (E42 : 2 ^ 42 = 4398046511104) by reflexivity.
  rewrite E. cbn [fst]. rewrite (u64_small x) by (unfold is_u64; lia).
  split; [reflexivity | lia].
Qed.

(** The granularity that [wakeup_gran] computes for [left]. *)
Lemma wakeup_gran_words sc m l :
  sysctl_ok sc ->
  0 < weight (load (se_at m l)) < WMULT_CONST ->
  is_u32 (inv_weight (load (se_at m l))) ->
  wakeup_gran_of sc m l = virtual_gran sc (load (se_at m l)).
Proof.
  intros Hsc Hw Hi.
  destruct (virtual_gran_value sc (load (se_at m l)) Hsc Hw Hi) as (Ev & Hr).
  unfold wakeup_gran_of, wakeup_gran, calc_delta_fair. cbv zeta.
  rewrite <- (s64_of_small (virtual_gran sc (load (se_at m l)))) by lia.
  rewrite Ev.
  destruct (weight (load (se_at m l)) =? NICE_0_LOAD); cbn [negb];
    [reflexivity |].
  destruct (__calc_delta _ _ _) as [g lw']. reflexivity.
Qed.

(** The scaled granularity against the exact quotient. *)
Lemma virtual_gran_bounds sc lw :
  sysctl_ok sc ->
  0 < weight lw < WMULT_CONST -> is_u32 (inv_weight lw) ->
  let gran := sysctl_sched_wakeup_granularity sc in
  (weight lw = NICE_0_LOAD -> virtual_gran sc lw = gran) /\
  (inv_weight lw = 0 \/ inv_weight lw * weight lw <= 2 ^ 32 ->
   virtual_gran sc lw * weight lw <= gran * NICE_0_LOAD) /\
  (inv_weight lw = 0 -> NICE_0_LOAD <= weight lw ->
   gran * NICE_0_LOAD
     <= virtual_gran sc lw * weight lw + weight lw
        + (gran * NICE_0_LOAD * weight lw) / 2 ^ 32).
Proof.
  intros Hsc Hw Hi. cbv zeta.
  destruct (virtual_gran_value sc lw Hsc Hw Hi) as (Ev & Hr).
  destruct Hsc as (_ & _ & _ & Hg & _). unfold is_u32 in Hg.
  set (gran := sysctl_sched_wakeup_granularity sc) in *.
  assert (E32 : 2 ^ 32 = 4294967296) by reflexivity.
  assert (E64 : 2 ^ 64 = 18446744073709551616) by reflexivity.
  assert (WC : WMULT_CONST = 2 ^ 32 - 1) by reflexivity.
  assert (Hgu : is_u64 gran) by (unfold is_u64; lia).
  assert (HN : 0 <= NICE_0_LOAD < 2 ^ 32) by (unfold NICE_0_LOAD; lia).
  destruct (Z.eqb_spec (weight lw) NICE_0_LOAD) as [En | Nn].
  - rewrite Ev. split; [intros _; reflexivity |].
    split; [intros _; rewrite En; lia |].
    intros _ _. rewrite En.
    assert (0 <= gran * NICE_0_LOAD * NICE_0_LOAD / 2 ^ 32)
      by (apply Z.div_pos; [unfold NICE_0_LOAD |]; lia).
    unfold NICE_0_LOAD in *. lia.
  - rewrite Ev. split; [intros C; contradiction |]. split.
    + intros Hfit.
      pose proof (calc_delta_le_product gran NICE_0_LOAD lw Hgu HN
                    ltac:(lia) Hi) as (H0 & Hle).
      cbv zeta in H0, Hle.
      pose proof (update_inv_weight_range lw ltac:(lia) Hi) as Hinv.
      assert (Hfit' : inv_weight (__update_inv_weight lw) * weight lw
                      <= 2 ^ 32).
      { unfold __update_inv_weight, scale_load_down.
        destruct (Z.eqb_spec (inv_weight lw) 0) as [Z0 | N0]; cbn [negb].
        - destruct (Z.leb_spec WMULT_CONST (weight lw)); [lia |].
          destruct (Z.eqb_spec (weight lw) 0); [lia |]. cbn [inv_weight].
          assert (weight lw * (WMULT_CONST / weight lw) <= WMULT_CONST)
            by (apply Z.mul_div_le; lia).
          lia.
        - destruct Hfit as [Z0 | Hle']; [contradiction | exact Hle']. }
      set (r := fst (__calc_delta gran NICE_0_LOAD lw)) in *.
      set (inv := inv_weight (__update_inv_weight lw)) in *.
      assert (H1 : r * 2 ^ 32 * weight lw
                   <= gran * (NICE_0_LOAD * inv) * weight lw)
        by (apply Z.mul_le_mono_nonneg_r; lia).
      assert (H2 : gran * NICE_0_LOAD * (inv * weight lw)
                   <= gran * NICE_0_LOAD * 2 ^ 32)
        by (apply Z.mul_le_mono_nonneg_l; unfold NICE_0_LOAD; lia).
      nia.
    + intros Z0 Hheavy.
      apply (calc_delta_computed_inverse gran NICE_0_LOAD lw Hgu HN Hw
               (or_introl Z0)).
      exact Hheavy.
Qed.

Lemma within_gran_words sc m b l :
  wakeup_gran_of sc m l = virtual_gran sc (load (se_at m l)) ->
  within_gran sc m b l = fair_to_run sc m b l.
Proof.
  intros E. unfold within_gran, fair_to_run. cbv zeta. rewrite E.
  set (v := s64 (vruntime (se_at m b) - vruntime (se_at m l))).
  set (g := virtual_gran sc (load (se_at m l))).
  destruct (Z.leb_spec v 0), (Z.leb_spec v g), (Z.leb_spec v (Z.max 0 g));
    cbn [orb]; try reflexivity; lia.
Qed.

Lemma pick_spec_words sc ft m q curr l :
  rb_leftmost (rq_at m q) = hd_error (inorder (tasks_timeline (rq_at m q))) ->
  leftmost_entity m q curr = Some l ->
  wakeup_gran_of sc m l = virtual_gran sc (load (se_at m l)) ->
  pick_spec sc ft m q curr = choice sc ft m q curr.
Proof.
  intros Hcache Hl Hg.
  assert (Hlc : leftmost_candidate m q curr = Some l)
    by (rewrite leftmost_candidate_words; assumption).
  unfold pick_spec, skip_adjusted, choice. cbv zeta. rewrite Hlc, Hl.
  assert (Hhon : forall b,
            honoured sc m b (Some l)
            = match b with
              | Some b => fair_to_run sc m b l
              | None => false
              end).
  { intros [b |]; cbn [honoured]; [| reflexivity].
    apply within_gran_words. exact Hg. }
  rewrite !Hhon.
  destruct (match next (rq_at m q) with
            | Some b => fair_to_run sc m b l
            | None => false
            end); [reflexivity |].
  destruct (match last (rq_at m q) with
            | Some b => fair_to_run sc m b l
            | None => false
            end); [reflexivity |].
  rewrite (second_candidate_words m q curr l Hcache).
  destruct (skip (rq_at m q)) as [sk |]; cbn [ptr_eqb]; [| reflexivity].
  destruct (Nat.eqb sk l); [| reflexivity].
  destruct (entity_after m q curr l) as [second |]; [| reflexivity].
  rewrite Hhon. reflexivity.
Qed.

(** C5.  With some entity to run, [pick_next_entity] returns the choice its
    specification words: the next buddy if it is set and its virtual
    runtime does not exceed that of the leftmost entity by more than one
    wakeup granularity (in the virtual time of the leftmost entity, that
    is scaled by 1024 over its weight); else the last buddy under the same
    guard; else the leftmost entity, which is the first node of the
    timeline, or the running entity when that is before it, and which
    gives way to the entity after it when it is the skip buddy and that
    entity is within the guard.  A buddy outside the guard has no
    influence on the choice.  The scaled granularity is the granularity
    itself for the nice-0 weight; it never exceeds [gran * 1024 / weight]
    when the inverse of the weight does not overshoot, and for a heavier
    weight whose inverse is not cached it is less than that by no more
    than the rounding of the inverse. *)
Theorem C5_pick_next_entity sc ft m q curr l :
  sysctl_ok sc ->
  (forall p, chain_ok m p) ->
  rb_leftmost (rq_at m q) = hd_error (inorder (tasks_timeline (rq_at m q))) ->
  leftmost_entity m q curr = Some l ->
  0 < weight (load (se_at m l)) < WMULT_CONST ->
  is_u32 (inv_weight (load (se_at m l))) ->
  let nodes := inorder (tasks_timeline (rq_at m q)) in
  let lw := load (se_at m l) in
  let gran := sysctl_sched_wakeup_granularity sc in
  exists r m',
    pick_next_entity sc ft m q curr = Some (r, m') /\
    r = choice sc ft m q curr /\
    (forall f c, hd_error nodes = Some f -> curr = Some c ->
       (s64 (vruntime (se_at m c) - vruntime (se_at m f)) < 0 -> l = c) /\
       (0 <= s64 (vruntime (se_at m c) - vruntime (se_at m f)) -> l = f)) /\
    (forall f, hd_error nodes = Some f -> curr = None -> l = f) /\
    (skip (rq_at m q) = None -> last (rq_at m q) = None ->
     next (rq_at m q) = None -> r = Some l) /\
    (forall n, next (rq_at m q) = Some n ->
       fair_to_run sc m n l = true -> r = Some n) /\
    (forall b, last (rq_at m q) = Some b -> fair_to_run sc m b l = true ->
       (forall n, next (rq_at m q) = Some n ->
                  fair_to_run sc m n l = false) ->
       r = Some b) /\
    (forall second,
       skip (rq_at m q) = Some l -> entity_after m q curr l = Some second ->
       (forall n, next (rq_at m q) = Some n ->
                  fair_to_run sc m n l = false) ->
       (forall b, last (rq_at m q) = Some b ->
                  fair_to_run sc m b l = false) ->
       r = if STRICT_SKIP_BUDDY ft || fair_to_run sc m second l
           then Some second else Some l) /\
    (forall b, fair_to_run sc m b l = true <->
       s64 (vruntime (se_at m b) - vruntime (se_at m l))
         <= Z.max 0 (virtual_gran sc lw)) /\
    (weight lw = NICE_0_LOAD -> virtual_gran sc lw = gran) /\
    (inv_weight lw = 0 \/ inv_weight lw * weight lw <= 2 ^ 32 ->
     virtual_gran sc lw * weight lw <= gran * NICE_0_LOAD) /\
    (inv_weight lw = 0 -> NICE_0_LOAD <= weight lw ->
     gran * NICE_0_LOAD
       <= virtual_gran sc lw * weight lw + weight lw
          + (gran * NICE_0_LOAD * weight lw) / 2 ^ 32).
Proof.
  intros Hsc Hc Hcache Hl Hw Hi. cbv zeta.
  pose proof (wakeup_gran_words sc m l Hsc Hw Hi) as Hg.
  assert (Hlc : leftmost_candidate m q curr = Some l)
    by (rewrite leftmost_candidate_words; assumption).
  destruct (pick_next_entity_refines sc ft m q curr l Hc Hlc) as [m' Hp].
  rewrite (pick_spec_words sc ft m q curr l Hcache Hl Hg) in Hp.
  exists (choice sc ft m q curr), m'.
  split; [exact Hp |]. split; [reflexivity |].
  split; [| split; [| split; [| split; [| split; [| split; [| split]]]]]].
  - intros f c Hf Hcu. unfold leftmost_entity in Hl. rewrite Hf, Hcu in Hl.
    unfold runs_earlier in Hl.
    destruct (Z.ltb_spec
                (s64 (vruntime (se_at m c) - vruntime (se_at m f))) 0);
      injection Hl as <-; split; intros; try reflexivity; lia.
  - intros f Hf Hcu. unfold leftmost_entity in Hl. rewrite Hf, Hcu in Hl.
    injection Hl as <-. reflexivity.
  - intros Hs Hla Hn. unfold choice. cbv zeta. rewrite Hl, Hs, Hla, Hn.
    reflexivity.
  - intros n Hn Hf. unfold choice. cbv zeta. rewrite Hl, Hn, Hf.
    reflexivity.
  - intros b Hb Hf Hn. unfold choice. cbv zeta. rewrite Hl, Hb, Hf.
    destruct (next (rq_at m q)) as [n |]; [| reflexivity].
    rewrite (Hn n eq_refl). reflexivity.
  - intros second Hs Hsec Hn Hla. unfold choice. cbv zeta.
    rewrite Hl, Hs, Hsec, Nat.eqb_refl.
    destruct (next (rq_at m q)) as [n |];
      [rewrite (Hn n eq_refl) |];
      (destruct (last (rq_at m q)) as [b |];
       [rewrite (Hla b eq_refl) |]); reflexivity.
  - intros b. unfold fair_to_run. apply Z.leb_le.
  - apply (virtual_gran_bounds sc (load (se_at m l)) Hsc Hw Hi).
Qed.

(** Witness of C5: the three tasks of [skipped_heavy_queue].  The leftmost
    task 1 is the skip buddy and gives way to task 2, which is within the
    scaled granularity of 499999 ns; the next buddy, task 3, is 0.6 ms
    behind task 1, within 1 ms but not within the scaled granularity, and
    is not picked. *)
Lemma C5_pick_next_entity_witness :
  let sc := default_sysctl in
  let ft := mk_features true true false in
  let m := skipped_heavy_queue in
  (leftmost_entity m 0%nat None = Some 1%nat /\
   0 < weight (load (se_at m 1%nat)) < WMULT_CONST /\
   virtual_gran sc (load (se_at m 1%nat)) = 499999 /\
   fair_to_run sc m 3%nat 1%nat = false /\
   entity_after m 0%nat None 1%nat = Some 2%nat /\
   fair_to_run sc m 2%nat 1%nat = true) /\
  exists r m',
    pick_next_entity sc ft m 0%nat None = Some (r, m') /\
    r = choice sc ft m 0%nat None /\
    r = Some 2%nat.
Proof.
  intros sc ft m.
  assert (Hl : leftmost_entity m 0%nat None = Some 1%nat) by reflexivity.
  assert (Hw : 0 < weight (load (se_at m 1%nat)) < WMULT_CONST)
    by (vm_compute; split; reflexivity).
  assert (Hv : virtual_gran sc (load (se_at m 1%nat)) = 499999)
    by (vm_compute; reflexivity).
  assert (H3 : fair_to_run sc m 3%nat 1%nat = false)
    by (vm_compute; reflexivity).
  assert (Ha : entity_after m 0%nat None 1%nat = Some 2%nat) by reflexivity.
  assert (H2 : fair_to_run sc m 2%nat 1%nat = true)
    by (vm_compute; reflexivity).
  split; [repeat split; assumption || apply Hw |].
  destruct (C5_pick_next_entity sc ft m 0%nat None 1%nat)
    as (r & m' & Hp & Hr & _ & _ & _ & _ & _ & Hskip & _).
  - unfold sysctl_ok, is_u32. cbn [sc default_sysctl sysctl_sched_latency
      sysctl_sched_min_granularity sched_nr_latency
      sysctl_sched_wakeup_granularity sysctl_sched_cfs_bandwidth_slice].
    lia.
  - intros p. destruct p as [| [| [| p]]]; reflexivity.
  - reflexivity.
  - exact Hl.
  - exact Hw.
  - unfold is_u32. vm_compute. split; [discriminate | reflexivity].
  - exists r, m'. split; [exact Hp |]. split; [exact Hr |].
    rewrite (Hskip 2%nat eq_refl Ha).
    + rewrite H2. reflexivity.
    + intros n Hn. injection Hn as <-. exact H3.
    + intros b Hb. discriminate Hb.
Defined.

(** In [buddy_queue] the next buddy is within one wakeup granularity (1 ms)
    of the leftmost task and is picked; the last buddy is not, and is
    passed over when no next buddy is set. *)
Example pick_next_entity_buddies :
  let sc := default_sysctl in
  let ft := mk_features true true false in
  option_map fst (pick_next_entity sc ft buddy_queue 0%nat None)
    = Some (Some 2%nat) /\
  option_map fst
    (pick_next_entity sc ft (upd_rq buddy_queue 0%nat (set_next None))
       0%nat None)
    = Some (Some 1%nat).
Proof. split; vm_compute; reflexivity. Qed.

(** ** Decay of the load average *)

Import Pelt.

Lemma decay_load_32 val :
  decay_load val 32 = u64 (((val / 2) * (2 ^ 32 - 1)) / 2 ^ 32).
Proof.
  change (decay_load val 32)
    with (mul_u64_u32_shr (Z.shiftr val 1) (2 ^ 32 - 1) 32).
  unfold mul_u64_u32_shr. rewrite !Z.shiftr_div_pow2 by lia.
  change (2 ^ 1) with 2. reflexivity.
Qed.

(** Half the value, less the rounding of the 32-bit inverse. *)
Lemma decay_load_half val :
  is_u64 val ->
  val / 2 - val / 2 ^ 33 - 1 <= decay_load val 32 <= val / 2.
Proof.
  intros [H0 H1]. rewrite decay_load_32.
  set (h := val / 2).
  assert (Hh0 : 0 <= h) by (apply Z.div_pos; lia).
  assert (Hh1 : h < 2 ^ 63).
  { apply Z.div_lt_upper_bound; [lia |]. change (2 * 2 ^ 63) with (2 ^ 64).
    exact H1. }
  assert (E33 : val / 2 ^ 33 = h / 2 ^ 32).
  { unfold h. rewrite Z.div_div by lia. reflexivity. }
  rewrite E33.
  set (k := h / 2 ^ 32).
  assert (Hk : 2 ^ 32 * k <= h < 2 ^ 32 * k + 2 ^ 32).
  { pose proof (Z.div_mod h (2 ^ 32) ltac:(lia)) as Hd.
    pose proof (Z.mod_pos_bound h (2 ^ 32) ltac:(lia)) as Hm.
    fold k in Hd. lia. }
  set (X := h * (2 ^ 32 - 1)).
  assert (HX : 0 <= X) by (unfold X; nia).
  assert (Hup : X / 2 ^ 32 <= h).
  { apply Z.div_le_upper_bound; [lia |]. unfold X. nia. }
  assert (Hlo : h - k - 1 <= X / 2 ^ 32).
  { apply Z.div_le_lower_bound; [lia |]. unfold X. nia. }
  assert (Hq0 : 0 <= X / 2 ^ 32) by (apply Z.div_pos; lia).
  rewrite u64_small.
  - lia.
  - unfold is_u64. assert (2 ^ 63 < 2 ^ 64) by (apply Z.pow_lt_mono_r; lia).
    lia.
Qed.

Lemma decay_load_0 val : decay_load val 0 = val.
Proof. reflexivity. Qed.

Lemma decay_load_far val n : LOAD_AVG_PERIOD * 63 < n -> decay_load val n = 0.
Proof.
  intros H. unfold decay_load.
  destruct (Z.eqb_spec n 0) as [-> | _]; [unfold LOAD_AVG_PERIOD in H; lia |].
  destruct (Z.ltb_spec (LOAD_AVG_PERIOD * 63) n); [reflexivity | lia].
Qed.

(** An update of a blocked entity ([weight] 0, not running) that crosses
    32 period boundaries decays the sum by 32 periods and recomputes the
    average from it. *)
Lemma update_load_avg_blocked_32 scale_freq scale_cpu now sa d :
  u64 (now - last_update_time sa) = d -> 0 <= d < 2 ^ 63 ->
  0 <= period_contrib sa < 1024 ->
  (d / 1024 + period_contrib sa) / 1024 = 32 ->
  let r := __update_load_avg scale_freq scale_cpu now sa 0 false in
  snd r = true /\
  load_sum (fst r) = decay_load (load_sum sa) 32 /\
  load_avg (fst r) = decay_load (load_sum sa) 32 / LOAD_AVG_MAX.
Proof.
  intros Hd Hr Hc Hp. cbv zeta. unfold __update_load_avg. rewrite Hd.
  rewrite (s64_of_small d) by lia.
  destruct (Z.ltb_spec d 0) as [? | _]; [lia |].
  rewrite Z.shiftr_div_pow2 by lia. change (2 ^ 10) with 1024.
  set (delta := d / 1024) in *. set (c := period_contrib sa) in *.
  assert (Hdelta0 : 0 <= delta) by (apply Z.div_pos; lia).
  assert (Hsum : 32 * 1024 <= delta + c < 33 * 1024).
  { pose proof (Z.div_mod (delta + c) 1024 ltac:(lia)) as Hdm.
    pose proof (Z.mod_pos_bound (delta + c) 1024 ltac:(lia)) as Hm.
    rewrite Hp in Hdm. lia. }
  destruct (Z.eqb_spec delta 0) as [? | _]; [lia |].
  cbv zeta.
  assert (P64 : 2 ^ 32 < 2 ^ 64) by (apply Z.pow_lt_mono_r; lia).
  rewrite (u64_small (delta + c)) by (unfold is_u64; lia).
  destruct (Z.leb_spec 1024 (delta + c)) as [_ | ?]; [| lia].
  rewrite (u32_small (1024 - c)) by (unfold is_u32; lia).
  rewrite (u64_small (delta - (1024 - c))) by (unfold is_u64; lia).
  assert (Hper : (delta - (1024 - c)) / 1024 = 31).
  { replace (delta - (1024 - c)) with (delta + c + (-1) * 1024) by lia.
    rewrite Z.div_add by lia. rewrite Hp. reflexivity. }
  rewrite Hper. change (u64 (31 + 1)) with 32.
  change (0 =? 0) with true. cbv iota beta.
  cbn [fst snd load_sum load_avg]. repeat split.
Qed.

(** An entity of constant weight that is runnable for exactly 32 periods
    (of 1024 * 1024 ns, at full frequency), starting from an empty average:
    the first period is decayed 32 times, the 31 others contribute
    [__compute_runnable_contrib 31]. *)
Lemma update_load_avg_runnable_32 scale_cpu t0 weight running :
  0 <= t0 -> t0 + 32 * 1024 * 1024 < 2 ^ 64 ->
  0 < weight <= 2 ^ 23 ->
  let sa := mk_avg t0 0 0 0 0 0 in
  let r := __update_load_avg 1024 scale_cpu (t0 + 32 * 1024 * 1024) sa
             weight running in
  snd r = true /\
  period_contrib (fst r) = 0 /\
  load_sum (fst r) = weight * 23371 - 1 /\
  load_avg (fst r) = (weight * 23371 - 1) / LOAD_AVG_MAX.
Proof.
  intros Ht0 Hnow Hw. cbv zeta. unfold __update_load_avg.
  cbn [last_update_time period_contrib load_sum util_sum load_avg util_avg].
  replace (t0 + 32 * 1024 * 1024 - t0) with 33554432 by lia.
  change (u64 33554432) with 33554432.
  change (s64 33554432 <? 0) with false. cbv iota.
  change (Z.shiftr 33554432 10) with 32768.
  change (32768 =? 0) with false. cbv iota. cbv zeta.
  change (1024 <=? u64 (32768 + 0)) with true. cbv iota.
  change (u32 (1024 - 0)) with 1024.
  change (u32 (cap_scale 1024 1024)) with 1024.
  change (u64 (32768 - 1024)) with 31744.
  change (31744 / 1024) with 31. change (31744 mod 1024) with 0.
  change (u64 (31 + 1)) with 32.
  change (__compute_runnable_contrib 31) with 22859.
  change (u32 (cap_scale 22859 1024)) with 22859.
  change (u64 (cap_scale 0 1024)) with 0.
  change (u32 (0 + 0)) with 0.
  destruct (Z.eqb_spec weight 0) as [? | _]; [lia |].
  cbn [fst snd period_contrib load_sum load_avg].
  assert (E23 : 2 ^ 23 = 8388608) by reflexivity.
  assert (E32 : 2 ^ 32 = 4294967296) by reflexivity.
  assert (E64 : 2 ^ 64 = 18446744073709551616) by reflexivity.
  rewrite (u64_small (weight * 1024)) by (unfold is_u64; lia).
  rewrite Z.add_0_l.
  rewrite (u64_small (weight * 1024)) by (unfold is_u64; lia).
  rewrite decay_load_32.
  replace (weight * 1024 / 2) with (weight * 512)
    by (apply Z.div_unique_exact; lia).
  assert (Hdec : weight * 512 * (2 ^ 32 - 1) / 2 ^ 32 = weight * 512 - 1).
  { symmetry. apply Z.div_unique with (2 ^ 32 - weight * 512); lia. }
  rewrite Hdec.
  rewrite (u64_small (weight * 512 - 1)) by (unfold is_u64; lia).
  rewrite (u64_small (weight * 22859)) by (unfold is_u64; lia).
  rewrite (u64_small (weight * 512 - 1 + weight * 22859))
    by (unfold is_u64; lia).
  rewrite Z.mul_0_r. change (u64 0) with 0. rewrite Z.add_0_r.
  rewrite (u64_small (weight * 512 - 1 + weight * 22859))
    by (unfold is_u64; lia).
  replace (weight * 512 - 1 + weight * 22859) with (weight * 23371 - 1)
    by lia.
  repeat split.
Qed.

(** C9 (amended).  [decay_load] follows the half-life law of 32 periods:
    across 32 periods it returns half the value, less the rounding of the
    32-bit fixed-point inverse (at most [val / 2^33 + 1] below [val / 2],
    and never above it); across 0 periods it returns the value; across
    more than 32 * 63 periods it returns 0.  An entity of constant weight
    that is fully runnable for exactly 32 periods, starting from an empty
    average, has the load average
    [(weight * __compute_runnable_contrib 32 - 1) / LOAD_AVG_MAX], that is
    [(weight * 23371 - 1) / 47742]: about 0.4895 of its weight, and short
    of half its weight by at least a hundredth of the weight, not by
    rounding only.  Half is what is left of an average after 32 blocked
    periods: the load average of an entity that starts as fully runnable
    ([init_entity_runnable_average]) and is then blocked is, after an
    update that crosses 32 period boundaries, half its initial value
    rounded down, or one less. *)
Theorem C9_decay_half_life :
  (forall val, is_u64 val ->
     val / 2 - val / 2 ^ 33 - 1 <= decay_load val 32 <= val / 2) /\
  (forall val, decay_load val 0 = val) /\
  (forall val n, 32 * 63 < n -> decay_load val n = 0) /\
  (forall scale_cpu t0 weight running,
     0 <= t0 -> t0 + 32 * 1024 * 1024 < 2 ^ 64 -> 0 < weight <= 2 ^ 23 ->
     let r := __update_load_avg 1024 scale_cpu (t0 + 32 * 1024 * 1024)
                (mk_avg t0 0 0 0 0 0) weight running in
     snd r = true /\
     load_avg (fst r)
       = (weight * __compute_runnable_contrib 32 - 1) / LOAD_AVG_MAX /\
     load_avg (fst r) = (weight * 23371 - 1) / 47742 /\
     2 * load_avg (fst r) + weight / 50 <= weight) /\
  (forall scale_freq scale_cpu weight now,
     0 <= weight < 2 ^ 32 -> 0 <= now < 2 ^ 63 ->
     (now / 1024 + 1023) / 1024 = 32 ->
     let sa := init_entity_runnable_average weight in
     let r := __update_load_avg scale_freq scale_cpu now sa 0 false in
     snd r = true /\
     load_avg sa = weight /\
     weight / 2 - 1 <= load_avg (fst r) <= weight / 2).
Proof.
  split; [exact decay_load_half |].
  split; [exact decay_load_0 |].
  split; [exact decay_load_far |].
  split.
  { intros scale_cpu t0 weight running Ht0 Hnow Hw. cbv zeta.
    destruct (update_load_avg_runnable_32 scale_cpu t0 weight running
                Ht0 Hnow Hw) as (Hdec & _ & _ & Havg).
    split; [exact Hdec |]. rewrite Havg.
    change (__compute_runnable_contrib 32) with 23371.
    change LOAD_AVG_MAX with 47742.
    split; [reflexivity |]. split; [reflexivity |].
    set (a := (weight * 23371 - 1) / 47742).
    assert (Ha : 47742 * a <= weight * 23371 - 1)
      by (apply Z.mul_div_le; lia).
    assert (Hq : 50 * (weight / 50) <= weight)
      by (apply Z.mul_div_le; lia).
    lia. }
  intros scale_freq scale_cpu weight now Hw Hnow Hp. cbv zeta.
  set (sa := init_entity_runnable_average weight).
  assert (P63 : 2 ^ 63 < 2 ^ 64) by (apply Z.pow_lt_mono_r; lia).
  assert (Hd : u64 (now - last_update_time sa) = now).
  { change (last_update_time sa) with 0. rewrite Z.sub_0_r.
    apply u64_small. unfold is_u64. lia. }
  destruct (update_load_avg_blocked_32 scale_freq scale_cpu now sa now
              Hd Hnow) as (Hdec & Hsum & Havg).
  { change (period_contrib sa) with 1023. lia. }
  { exact Hp. }
  split; [exact Hdec |]. split; [reflexivity |].
  rewrite Havg.
  assert (HL : load_sum sa = weight * LOAD_AVG_MAX).
  { change (load_sum sa) with (u64 (weight * LOAD_AVG_MAX)).
    apply u64_small. unfold is_u64, LOAD_AVG_MAX.
    assert (2 ^ 32 * 47742 < 2 ^ 64) by reflexivity. nia. }
  assert (HLu : is_u64 (load_sum sa)).
  { rewrite HL. unfold is_u64, LOAD_AVG_MAX.
    assert (2 ^ 32 * 47742 < 2 ^ 64) by reflexivity. nia. }
  pose proof (decay_load_half (load_sum sa) HLu) as [Hlo Hhi].
  rewrite HL in Hlo, Hhi |- *. unfold LOAD_AVG_MAX in *.
  assert (Hhalf : weight * 47742 / 2 = weight * 23871).
  { replace (weight * 47742) with (weight * 23871 * 2) by lia.
    apply Z.div_mul. lia. }
  rewrite Hhalf in Hlo, Hhi.
  assert (Hk : weight * 47742 / 2 ^ 33 <= 23870).
  { apply Z.lt_succ_r. apply Z.div_lt_upper_bound; [lia |].
    assert (2 ^ 33 * Z.succ 23870 = 2 ^ 32 * 47742) by reflexivity. nia. }
  set (D := decay_load (weight * 47742) 32) in *.
  set (h := weight / 2).
  assert (Hh : 2 * h <= weight < 2 * h + 2).
  { pose proof (Z.div_mod weight 2 ltac:(lia)) as Hdm.
    pose proof (Z.mod_pos_bound weight 2 ltac:(lia)) as Hm.
    fold h in Hdm. lia. }
  split.
  - apply Z.div_le_lower_bound; [lia |]. lia.
  - apply Z.lt_succ_r. apply Z.div_lt_upper_bound; [lia |]. lia.
Qed.

(** Witness of C9: a nice-0 entity (weight 1024), runnable for 32 periods
    of 1024 * 1024 ns from an empty average, and blocked for 32 periods
    from its initialisation. *)
Lemma C9_decay_half_life_witness :
  (1024 * 47742 / 2 - 1024 * 47742 / 2 ^ 33 - 1
     <= decay_load (1024 * 47742) 32 <= 1024 * 47742 / 2) /\
  decay_load (1024 * 47742) 0 = 1024 * 47742 /\
  decay_load (1024 * 47742) 2017 = 0 /\
  (let r := __update_load_avg 1024 1024 (0 + 32 * 1024 * 1024)
              (mk_avg 0 0 0 0 0 0) 1024 true in
   snd r = true /\
   load_avg (fst r)
     = (1024 * __compute_runnable_contrib 32 - 1) / LOAD_AVG_MAX /\
   load_avg (fst r) = (1024 * 23371 - 1) / 47742 /\
   2 * load_avg (fst r) + 1024 / 50 <= 1024) /\
  (let sa := init_entity_runnable_average 1024 in
   let r := __update_load_avg 1024 1024 (32 * 1024 * 1024) sa 0 false in
   snd r = true /\ load_avg sa = 1024 /\
   1024 / 2 - 1 <= load_avg (fst r) <= 1024 / 2).
Proof.
  destruct C9_decay_half_life as (H32 & H0 & Hfar & Hrun & Havg).
  split; [| split; [| split; [| split]]].
  - apply H32. unfold is_u64. lia.
  - apply H0.
  - apply Hfar. lia.
  - apply (Hrun 1024 0 1024 true); lia.
  - apply (Havg 1024 1024 1024 (32 * 1024 * 1024)).
    + lia.
    + lia.
    + reflexivity.
Defined.

(** Counterexample to C9 as stated: a nice-0 entity (weight 1024) that is
    fully runnable for exactly 32 periods has a load average of 501, not
    half its weight: 11 below 512, where the rounding of [decay_load]
    accounts for 1. *)
Lemma C9_runnable_for_32_periods_is_below_half :
  let r := __update_load_avg 1024 1024 (32 * 1024 * 1024)
             (mk_avg 0 0 0 0 0 0) 1024 true in
  snd r = true /\
  load_avg (fst r) = 501 /\
  1024 / 2 = 512 /\
  load_avg (fst r) < 1024 / 2 - 1024 / 2 ^ 33 - 1.
Proof. cbv zeta. repeat split; vm_compute; reflexivity. Qed.

(** The figures behind the witness.  From the fully runnable state the
    average of a nice-0 entity drops from 1024 to 511 in 32 blocked periods.
    (Built up from nothing, the same entity reaches 501 after 32 runnable
    periods: the sum over the periods 1 to 32 is 23371 of at most 47742.) *)
Example decay_load_figures :
  decay_load (1024 * 47742) 32 = 24443903 /\
  load_avg (fst (__update_load_avg 1024 1024 (32 * 1024 * 1024)
                   (init_entity_runnable_average 1024) 0 false)) = 511 /\
  __compute_runnable_contrib 32 = 23371 /\
  __compute_runnable_contrib 100 = 41384 /\
  load_avg (fst (__update_load_avg 1024 1024 (32 * 1024 * 1024)
                   (mk_avg 0 0 0 0 0 0) 1024 true)) = 501.
Proof. repeat split; vm_compute; reflexivity. Qed.

(** ** Drawing runtime from the pool *)

Import Bandwidth.

Lemma bandwidth_slice_range sc :
  sysctl_ok sc ->
  sched_cfs_bandwidth_slice sc
    = sysctl_sched_cfs_bandwidth_slice sc * 1000 /\
  0 <= sched_cfs_bandwidth_slice sc < 2 ^ 42.
Proof.
  intros (_ & _ & _ & _ & [H0 H1]).
  unfold sched_cfs_bandwidth_slice, NSEC_PER_USEC.
  assert (P : 2 ^ 32 * 1000 < 2 ^ 42) by reflexivity.
  assert (Q : 2 ^ 42 < 2 ^ 64) by reflexivity.
  rewrite u64_small by (unfold is_u64; lia). lia.
Qed.

(** C6 (amended).  The default period is 100 ms and the default slice 5 ms.
    A draw by a queue whose local balance is non-positive takes from the
    pool (refilled to the quota first if its period timer was inactive)
    exactly the smaller of what the pool holds and one slice plus the
    queue's deficit: the pool shrinks by that amount, which is at most
    [slice - runtime_remaining] (one slice when the balance was 0), the
    local balance grows by it and ends at most at one slice.  The call reports success exactly when the local
    balance has become positive.  Without a quota the pool is left alone
    and the balance is set to one slice. *)
Theorem C6_assign_cfs_rq_runtime sc now rq b :
  sysctl_ok sc ->
  - 2 ^ 63 <= runtime_remaining rq <= 0 ->
  is_u64 (runtime b) -> is_u64 (quota b) ->
  let slice := sched_cfs_bandwidth_slice sc in
  let r := assign_cfs_rq_runtime sc now rq b in
  let ok := fst (fst r) in
  let rq' := snd (fst r) in
  let b' := snd r in
  default_cfs_period = 100 * 1000 * 1000 /\
  sched_cfs_bandwidth_slice default_sysctl = 5 * 1000 * 1000 /\
  (ok = true <-> 0 < runtime_remaining rq') /\
  runtime_remaining rq' <= slice /\
  (quota b <> RUNTIME_INF ->
   let drawn := pool_before_draw b - runtime b' in
   drawn = Z.min (pool_before_draw b) (slice - runtime_remaining rq) /\
   0 <= drawn <= slice - runtime_remaining rq /\
   drawn <= pool_before_draw b /\
   runtime_remaining rq' = runtime_remaining rq + drawn /\
   (runtime_remaining rq = 0 -> drawn <= slice) /\
   (runtime_remaining rq = 0 -> slice <= pool_before_draw b ->
    drawn = slice)) /\
  (quota b = RUNTIME_INF -> b' = b /\ runtime_remaining rq' = slice).
Proof.
  intros Hsc Hrr Hrt Hq. cbv zeta.
  destruct (bandwidth_slice_range sc Hsc) as [_ Hs].
  set (slice := sched_cfs_bandwidth_slice sc) in *.
  set (rr := runtime_remaining rq) in *.
  assert (P63 : 2 ^ 63 + 2 ^ 42 < 2 ^ 64) by reflexivity.
  assert (P42 : 2 ^ 42 < 2 ^ 63) by reflexivity.
  split; [reflexivity |]. split; [reflexivity |].
  unfold assign_cfs_rq_runtime. fold slice. fold rr.
  rewrite (u64_small (slice - rr)) by (unfold is_u64; lia).
  destruct (Z.eqb_spec (quota b) RUNTIME_INF) as [Einf | Ninf].
  - (* no quota *)
    cbn [fst snd runtime_remaining].
    replace (rr + (slice - rr)) with slice by lia.
    rewrite (s64_of_small slice) by lia.
    split; [apply Z.ltb_lt |]. split; [lia |].
    split; [intros C; contradiction |]. intros _. split; reflexivity.
  - set (b1 := if negb (timer_active b)
               then __start_cfs_bandwidth (__refill_cfs_bandwidth_runtime now b)
               else b).
    assert (Hb1 : runtime b1 = pool_before_draw b).
    { unfold b1, pool_before_draw, __refill_cfs_bandwidth_runtime.
      destruct (timer_active b); cbn [negb]; [reflexivity |].
      destruct (Z.eqb_spec (quota b) RUNTIME_INF); [contradiction |].
      reflexivity. }
    assert (Hpool : is_u64 (pool_before_draw b)).
    { unfold pool_before_draw. destruct (timer_active b); assumption. }
    unfold is_u64 in Hpool. rewrite <- Hb1 in Hpool.
    set (pool := pool_before_draw b) in *.
    destruct (Z.ltb_spec 0 (runtime b1)) as [Hpos | Hzero].
    + cbn [fst snd runtime_remaining runtime].
      set (amount := Z.min (runtime b1) (slice - rr)).
      assert (Ha : 0 <= amount <= slice - rr /\ amount <= runtime b1)
        by (unfold amount; lia).
      rewrite (u64_small (runtime b1 - amount)) by (unfold is_u64; lia).
      rewrite (s64_of_small (rr + amount)) by lia.
      split; [apply Z.ltb_lt |]. split; [lia |].
      split; [| intros C; contradiction]. intros _. rewrite <- Hb1. lia.
    + cbn [fst snd runtime_remaining runtime].
      rewrite Z.add_0_r. rewrite (s64_of_small rr) by lia.
      split; [apply Z.ltb_lt |]. split; [lia |].
      split; [| intros C; contradiction]. intros _. rewrite <- Hb1. lia.
Qed.

(** Witness of C6: a queue 1 ms in deficit drawing from [full_pool]. *)
Lemma C6_assign_cfs_rq_runtime_witness :
  let sc := default_sysctl in
  let rq := mk_rq_runtime (-1000000) 0 in
  let b := full_pool in
  let slice := sched_cfs_bandwidth_slice sc in
  let r := assign_cfs_rq_runtime sc 0 rq b in
  let ok := fst (fst r) in
  let rq' := snd (fst r) in
  let b' := snd r in
  default_cfs_period = 100 * 1000 * 1000 /\
  sched_cfs_bandwidth_slice default_sysctl = 5 * 1000 * 1000 /\
  (ok = true <-> 0 < runtime_remaining rq') /\
  runtime_remaining rq' <= slice /\
  (quota b <> RUNTIME_INF ->
   let drawn := pool_before_draw b - runtime b' in
   drawn = Z.min (pool_before_draw b) (slice - runtime_remaining rq) /\
   0 <= drawn <= slice - runtime_remaining rq /\
   drawn <= pool_before_draw b /\
   runtime_remaining rq' = runtime_remaining rq + drawn /\
   (runtime_remaining rq = 0 -> drawn <= slice) /\
   (runtime_remaining rq = 0 -> slice <= pool_before_draw b ->
    drawn = slice)) /\
  (quota b = RUNTIME_INF -> b' = b /\ runtime_remaining rq' = slice).
Proof.
  intros sc rq b.
  apply (C6_assign_cfs_rq_runtime sc 0 rq b).
  - unfold sysctl_ok, is_u32. cbn [sc default_sysctl sysctl_sched_latency
      sysctl_sched_min_granularity sched_nr_latency
      sysctl_sched_wakeup_granularity sysctl_sched_cfs_bandwidth_slice].
    lia.
  - cbn [rq runtime_remaining]. lia.
  - unfold is_u64. cbn [b full_pool runtime]. lia.
  - unfold is_u64. cbn [b full_pool quota]. lia.
Defined.

(** Counterexample to C6 as stated: the queue is 1 ms in deficit, and one
    call takes 6 ms out of the pool, more than the 5 ms slice. *)
Lemma C6_draw_exceeds_one_slice :
  let r := assign_cfs_rq_runtime default_sysctl 0
             (mk_rq_runtime (-1000000) 0) full_pool in
  sched_cfs_bandwidth_slice default_sysctl = 5000000 /\
  runtime full_pool - runtime (snd r) = 6000000 /\
  runtime_remaining (snd (fst r)) = 5000000 /\
  fst (fst r) = true.
Proof. cbv zeta. repeat split; vm_compute; reflexivity. Qed.

(** ** Writes to the HMP tunables *)

Import HmpTunables.

Lemma s32_u32 v : s32 (u32 v) = s32 v.
Proof. unfold s32, u32. rewrite Z.mod_mod by lia. reflexivity. Qed.

Lemma u32_s32 v : u32 (s32 v) = u32 v.
Proof.
  unfold s32, u32. cbv zeta.
  destruct (v mod 2 ^ 32 <? 2 ^ 31).
  - apply Z.mod_mod. lia.
  - rewrite <- (Z.mod_mod v (2 ^ 32)) at 2 by lia.
    replace (v mod 2 ^ 32 - 2 ^ 32) with (v mod 2 ^ 32 + (-1) * 2 ^ 32) by lia.
    apply Z.mod_add. lia.
Qed.

Lemma s32_idem v : s32 (s32 v) = s32 v.
Proof. rewrite <- (s32_u32 (s32 v)), u32_s32. apply s32_u32. Qed.

Lemma u32_idem v : u32 (u32 v) = u32 v.
Proof. unfold u32. apply Z.mod_mod. lia. Qed.

Lemma as_stored_old data x :
  as_stored data x = x -> as_stored data (as_unsigned x) = x.
Proof.
  unfold as_stored, as_unsigned.
  destruct (tunable_eqb data upmigrate_min_nice).
  - rewrite s32_u32. auto.
  - rewrite u32_idem. auto.
Qed.

Lemma as_unsigned_stored data v : as_unsigned (as_stored data v) = u32 v.
Proof.
  unfold as_stored, as_unsigned.
  destruct (tunable_eqb data upmigrate_min_nice);
    [apply u32_s32 | apply u32_idem].
Qed.

Lemma as_stored_unsigned data v :
  as_stored data (u32 v) = as_stored data v.
Proof.
  unfold as_stored.
  destruct (tunable_eqb data upmigrate_min_nice);
    [apply s32_u32 | apply u32_idem].
Qed.

Lemma get_set data v t : get data (set data v t) = v.
Proof. destruct data; reflexivity. Qed.

Lemma set_set_get data v t : set data (get data t) (set data v t) = t.
Proof. destruct data, t; reflexivity. Qed.

Lemma set_tunables_same st : set_tunables (tunables st) st = st.
Proof. destruct st. reflexivity. Qed.

Lemma tunables_set_tunables s st : tunables (set_tunables s st) = s.
Proof. reflexivity. Qed.

Lemma set_tunables_twice s s' st :
  set_tunables s (set_tunables s' st) = set_tunables s st.
Proof. reflexivity. Qed.





(** Writes the handler refuses and accepts, from the boot state. *)
Example handler_cases :
  fst (sched_hmp_proc_update_handler boot_state downmigrate_pct true
         (ProcDone (Some 90))) = - EINVAL /\
  fst (sched_hmp_proc_update_handler boot_state grp_downmigrate_pct true
         (ProcDone (Some 130))) = - EINVAL /\
  fst (sched_hmp_proc_update_handler boot_state upmigrate_min_nice true
         (ProcDone (Some 20))) = - EINVAL /\
  fst (sched_hmp_proc_update_handler boot_state upmigrate_min_nice true
         (ProcDone (Some (-20)))) = 0 /\
  fst (sched_hmp_proc_update_handler boot_state spill_load_pct true
         (ProcDone (Some 101))) = - EINVAL /\
  fst (sched_hmp_proc_update_handler boot_state upmigrate_pct true
         (ProcDone (Some 95))) = 0.
Proof. repeat split; vm_compute; reflexivity. Qed.

(** ** Placement of small tasks *)

Import Hmp.

Example small_task_scenarios :
  is_small_task three_little_cpus (small_task_on 0) = true /\
  select_best_cpu three_little_cpus (small_task_on 0) 0 false = Some 0 /\
  select_best_cpu three_little_cpus (small_task_on 1) 0 false = Some 1 /\
  select_best_cpu three_little_cpus (small_task_on 2) 0 false = Some 0 /\
  select_best_cpu big_little_cpus (small_task_on 1) 0 false = Some 1 /\
  select_best_cpu big_little_cpus (small_task_on 0) 0 false = Some 1.
Proof. repeat split; vm_compute; reflexivity. Qed.

Lemma first_from_spec nr : forall i m,
  let r := first_from nr i m in
  i <= r <= i + Z.of_nat nr /\
  (r < i + Z.of_nat nr -> Z.testbit m r = true) /\
  (forall c, i <= c < r -> Z.testbit m c = false).
Proof.
  induction nr as [| nr IH]; intros i m; cbn [first_from].
  - cbv zeta. split; [lia |]. split; [lia |]. intros c Hc. lia.
  - destruct (Z.testbit m i) eqn:E.
    + cbv zeta. split; [lia |]. split; [intros _; exact E |].
      intros c Hc. lia.
    + specialize (IH (i + 1) m). cbv zeta in IH.
      destruct IH as (Hr & Hset & Hclear). cbv zeta.
      split; [lia |]. split; [intros H; apply Hset; lia |].
      intros c Hc. destruct (Z.eq_dec c i) as [-> | N]; [exact E |].
      apply Hclear. lia.
Qed.

Lemma in_cpus s c : In c (cpus s) <-> 0 <= c < Z.of_nat (nr_cpu_ids s).
Proof.
  unfold cpus. rewrite in_map_iff. split.
  - intros (n & <- & Hn). apply in_seq in Hn. lia.
  - intros H. exists (Z.to_nat c). split; [lia |]. apply in_seq. lia.
Qed.

Lemma filter_weight_le (f g : Z -> bool) l :
  (forall c, In c l -> g c = true -> f c = true) ->
  (length (filter g l) <= length (filter f l))%nat.
Proof.
  induction l as [| a l IH]; intros H; [apply Nat.le_refl |].
  cbn [filter]. assert (IH' := IH (fun c Hc => H c (or_intror Hc))).
  destruct (g a) eqn:Eg.
  - rewrite (H a (or_introl eq_refl) Eg). cbn [length]. lia.
  - destruct (f a); cbn [length]; lia.
Qed.

Lemma filter_weight_lt (f g : Z -> bool) l i :
  (forall c, In c l -> g c = true -> f c = true) ->
  In i l -> f i = true -> g i = false ->
  (length (filter g l) < length (filter f l))%nat.
Proof.
  induction l as [| a l IH]; intros H Hi Hf Hg; [destruct Hi |].
  cbn [filter]. destruct Hi as [-> | Hi].
  - rewrite Hf, Hg. cbn [length].
    pose proof (filter_weight_le f g l (fun c Hc => H c (or_intror Hc))). lia.
  - assert (IH' := IH (fun c Hc => H c (or_intror Hc)) Hi Hf Hg).
    destruct (g a) eqn:Eg.
    + rewrite (H a (or_introl eq_refl) Eg). cbn [length]. lia.
    + destruct (f a); cbn [length]; lia.
Qed.

Lemma cpumask_weight_bound s m : (cpumask_weight s m <= nr_cpu_ids s)%nat.
Proof.
  unfold cpumask_weight. etransitivity; [apply List.filter_length_le |].
  unfold cpus. rewrite length_map, length_seq. apply Nat.le_refl.
Qed.

Section SmallScan.

Variables (s : system) (p : task).
Hypothesis wf : well_formed s.
Hypothesis spread : sysctl_sched_restrict_tasks_spread s = false.

Let allowed := cpumask_and (cpus_allowed p) (cpu_active_mask s).

Lemma allowed_range c :
  Z.testbit allowed c = true -> 0 <= c < Z.of_nat (nr_cpu_ids s).
Proof.
  unfold allowed, cpumask_and. rewrite Z.land_spec, andb_true_iff.
  intros [_ H]. apply wf. exact H.
Qed.

(** One round either returns an awake mostly-idle candidate or keeps the
    invariant and takes the CPU out of the search mask. *)
Lemma small_scan_step_inv i st :
  scan_invariant s p st ->
  Z.testbit (search_cpu st) i = true ->
  match small_scan_step s p false i st with
  | inl r => awake_mostly_idle s p r
  | inr st' =>
      scan_invariant s p st' /\
      Z.testbit (search_cpu st') i = false /\
      (forall c, Z.testbit (search_cpu st') c = true ->
                 Z.testbit (search_cpu st) c = true)
  end.
Proof.
  intros (Ia & Ib & Ic & Im & Id & Ie) Hi.
  destruct wf as (Wrange & Wcstate & Wself & Wdom).
  assert (Hall : Z.testbit allowed i = true) by (apply Ia; exact Hi).
  pose proof (allowed_range i Hall) as Hir.
  assert (Hact : Z.testbit (cpu_active_mask s) i = true).
  { unfold allowed, cpumask_and in Hall.
    rewrite Z.land_spec, andb_true_iff in Hall. apply Hall. }
  unfold small_scan_step. cbv zeta.
  change ((cpu_max_possible_capacity s i =? max_possible_capacity s)
          && negb (cpumask_equal (mpc_mask s) (cpu_possible_mask s)))
    with (set_aside s i).
  destruct (set_aside s i) eqn:Easide.
  - (* set aside with its frequency domain *)
    unfold scan_invariant. cbn [search_cpu best_busy_cpu min_cstate_cpu
                                 min_cstate].
    unfold cpumask_andnot.
    assert (Hkeep : forall c, set_aside s c = false ->
              Z.testbit (search_cpu st) c = true ->
              Z.testbit (Z.ldiff (search_cpu st)
                           (freq_domain_cpumask (cpu_rq s i))) c = true).
    { intros c Hc Hs. rewrite Z.ldiff_spec, Hs. cbn [andb].
      destruct (Z.testbit (freq_domain_cpumask (cpu_rq s i)) c) eqn:E;
        [| reflexivity].
      rewrite (Wdom i c Hact Easide E) in Hc. discriminate. }
    assert (Hsub : forall c,
              Z.testbit (Z.ldiff (search_cpu st)
                           (freq_domain_cpumask (cpu_rq s i))) c = true ->
              Z.testbit (search_cpu st) c = true).
    { intros c. rewrite Z.ldiff_spec, andb_true_iff. tauto. }
    repeat split; auto.
    + intros c Hc. apply Hkeep; [apply Hc | apply Id; exact Hc].
    + intros c Hc. destruct (Ie c Hc) as [Hs | Hn]; [left | right; exact Hn].
      apply Hkeep; [apply Hc | exact Hs].
    + rewrite Z.ldiff_spec, (Wself i Hact), andb_false_r. reflexivity.
  - (* visited *)
    assert (Hsub : forall c,
              Z.testbit (cpumask_clear_cpu i (search_cpu st)) c = true ->
              Z.testbit (search_cpu st) c = true).
    { intros c. unfold cpumask_clear_cpu. rewrite Z.clearbit_iff. tauto. }
    assert (Hkeep : forall c, c <> i ->
              Z.testbit (search_cpu st) c = true ->
              Z.testbit (cpumask_clear_cpu i (search_cpu st)) c = true).
    { intros c Hc Hs. unfold cpumask_clear_cpu. apply Z.clearbit_iff.
      split; [exact Hs | congruence]. }
    assert (Hgone : Z.testbit (cpumask_clear_cpu i (search_cpu st)) i = false)
      by apply Z.clearbit_eq.
    destruct (sched_cpu_high_irqload s i) eqn:Eirq.
    { (* high IRQ load *)
      unfold scan_invariant. cbn [search_cpu best_busy_cpu min_cstate_cpu
                                   min_cstate].
      repeat split; auto.
      - intros c Hc. apply Hkeep; [| apply Id; exact Hc].
        intros ->. destruct Hc as ((_ & _ & Hq) & _). congruence.
      - intros c Hc. destruct (Ie c Hc) as [Hs | Hn]; [left | right; exact Hn].
        apply Hkeep; [| exact Hs].
        intros ->. destruct Hc as ((_ & _ & Hq) & _). congruence. }
    assert (Hcand : candidate s p i) by (repeat split; assumption).
    change (idle_cpu s i && negb (cstate (cpu_rq s i) =? 0))
      with (in_cstate s i).
    destruct (in_cstate s i) eqn:Ecs.
    { (* idle in a C-state *)
      assert (Hsleep : sleeping s p i) by (split; assumption).
      destruct (Z.ltb_spec (cstate (cpu_rq s i)) (min_cstate st)) as [Hlt | Hge].
      - unfold scan_invariant. cbn [search_cpu best_busy_cpu min_cstate_cpu
                                     min_cstate].
        repeat split; auto.
        + intros E. lia.
        + intros c Hc. apply Hkeep; [| apply Id; exact Hc].
          intros ->. destruct Hc as (_ & Hq & _). congruence.
        + intros c Hc. right. lia.
      - assert (Hset : min_cstate_cpu st <> -1).
        { intros E. specialize (Im E). specialize (Wcstate i). lia. }
        unfold scan_invariant. cbn [search_cpu best_busy_cpu min_cstate_cpu
                                     min_cstate].
        repeat split; auto.
        + intros c Hc. apply Hkeep; [| apply Id; exact Hc].
          intros ->. destruct Hc as (_ & Hq & _). congruence. }
    (* awake *)
    rewrite spread.
    destruct (mostly_idle_cpu_sync s i (cpu_load_sync s i false) false) eqn:Emi.
    + repeat split; assumption.
    + unfold scan_invariant. cbn [search_cpu best_busy_cpu min_cstate_cpu
                                   min_cstate].
      repeat split; auto.
      * intros c Hc. apply Hkeep; [| apply Id; exact Hc].
        intros ->. destruct Hc as (_ & _ & Hq). congruence.
      * intros c Hc. destruct (Ie c Hc) as [Hs | Hn]; [left | right; exact Hn].
        apply Hkeep; [| exact Hs].
        intros ->. destruct Hc as (_ & Hq). congruence.
Qed.

(** The loop ends within the number of CPUs of its search mask: with an
    awake mostly-idle candidate, or with the search mask exhausted. *)
Lemma small_scan_loop_inv : forall fuel i st,
  scan_invariant s p st ->
  Z.testbit (search_cpu st) i = true ->
  (cpumask_weight s (search_cpu st) <= fuel)%nat ->
  exists res,
    small_scan_loop fuel s p false i st = Some res /\
    match res with
    | inl r => awake_mostly_idle s p r
    | inr st' =>
        scan_invariant s p st' /\
        forall c, 0 <= c < Z.of_nat (nr_cpu_ids s) ->
                  Z.testbit (search_cpu st') c = false
    end.
Proof.
  induction fuel as [| fuel IH]; intros i st Hinv Hi Hw.
  - exfalso.
    assert (Hr : In i (cpus s)).
    { apply in_cpus. apply allowed_range. apply Hinv. exact Hi. }
    unfold cpumask_weight in Hw.
    destruct (filter (fun c => Z.testbit (search_cpu st) c) (cpus s)) eqn:E.
    + assert (Hin : In i (filter (fun c => Z.testbit (search_cpu st) c)
                            (cpus s))).
      { apply filter_In. split; assumption. }
      rewrite E in Hin. destruct Hin.
    + cbn [length] in Hw. lia.
  - cbn [small_scan_loop].
    pose proof (small_scan_step_inv i st Hinv Hi) as Hstep.
    destruct (small_scan_step s p false i st) as [r | st'].
    + exists (inl r). split; [reflexivity | exact Hstep].
    + destruct Hstep as (Hinv' & Hgone & Hsub).
      pose proof (first_from_spec (nr_cpu_ids s) 0 (search_cpu st')) as Hf.
      cbv zeta in Hf. fold (cpumask_first s (search_cpu st')) in Hf.
      destruct Hf as (Hrange & Hset & Hclear).
      destruct (Z.ltb_spec (cpumask_first s (search_cpu st'))
                  (Z.of_nat (nr_cpu_ids s))) as [Hlt | Hge].
      * apply IH; [exact Hinv' | apply Hset; lia |].
        assert (Hr : In i (cpus s)).
        { apply in_cpus. apply allowed_range. apply Hinv. exact Hi. }
        pose proof (filter_weight_lt
                      (fun c => Z.testbit (search_cpu st) c)
                      (fun c => Z.testbit (search_cpu st') c)
                      (cpus s) i (fun c _ => Hsub c) Hr Hi Hgone) as Hlt'.
        unfold cpumask_weight in *. lia.
      * exists (inr st'). split; [reflexivity |].
        split; [exact Hinv' |]. intros c Hc. apply Hclear. lia.
Qed.

End SmallScan.

Lemma best_small_task_cpu_not_busy s p :
  well_formed s ->
  sysctl_sched_restrict_tasks_spread s = false ->
  (exists c, awake_mostly_idle s p c \/ sleeping s p c) ->
  exists r,
    best_small_task_cpu s p false = Some r /\
    (awake_mostly_idle s p r \/
     (sleeping s p r /\ forall c, ~ awake_mostly_idle s p c)).
Proof.
  intros wf spread (c0 & Hc0).
  set (allowed := cpumask_and (cpus_allowed p) (cpu_active_mask s)).
  assert (Hc0a : Z.testbit allowed c0 = true).
  { destruct Hc0 as [((H & _) & _) | ((H & _) & _)]; exact H. }
  pose proof (allowed_range s p wf c0 Hc0a) as Hc0r.
  (* the CPU the scan starts with *)
  assert (Hstart : exists i,
            (if negb (cpumask_test_cpu (task_cpu p) allowed) then
               if cpumask_empty allowed then None
               else
                 if Z.of_nat (nr_cpu_ids s) <=? cpumask_first s allowed
                 then None else Some (cpumask_first s allowed)
             else Some (task_cpu p)) = Some i /\
            Z.testbit allowed i = true).
  { unfold cpumask_test_cpu.
    destruct (Z.testbit allowed (task_cpu p)) eqn:Et; cbn [negb].
    - exists (task_cpu p). split; [reflexivity | exact Et].
    - unfold cpumask_empty. destruct (Z.eqb_spec allowed 0) as [E0 | _].
      + rewrite E0, Z.bits_0 in Hc0a. discriminate.
      + pose proof (first_from_spec (nr_cpu_ids s) 0 allowed) as Hf.
        cbv zeta in Hf. fold (cpumask_first s allowed) in Hf.
        destruct Hf as (Hrange & Hset & Hclear).
        destruct (Z.leb_spec (Z.of_nat (nr_cpu_ids s))
                    (cpumask_first s allowed)) as [Hge | Hlt].
        * rewrite (Hclear c0) in Hc0a by lia. discriminate.
        * eexists. split; [reflexivity |]. apply Hset. lia. }
  destruct Hstart as (i & Estart & Hi).
  unfold best_small_task_cpu. cbv zeta. fold allowed. rewrite Estart.
  set (st0 := mk_scan allowed CPU_MASK_NONE (-1) INT_MAX (-1) ULLONG_MAX).
  assert (Hinv0 : scan_invariant s p st0).
  { unfold scan_invariant, st0.
    cbn [search_cpu best_busy_cpu min_cstate_cpu min_cstate].
    repeat split; auto.
    - intros c ((H & _) & _). exact H.
    - intros c ((H & _) & _). left. exact H. }
  destruct (small_scan_loop_inv s p wf spread (S (nr_cpu_ids s)) i st0
              Hinv0 Hi) as (res & Eloop & Hres).
  { pose proof (cpumask_weight_bound s (search_cpu st0)). lia. }
  rewrite Eloop. destruct res as [r | st'].
  - exists r. split; [reflexivity | left; exact Hres].
  - destruct Hres as ((Ia & Ib & Ic & Im & Id & Ie) & Hempty).
    rewrite Ib. cbn [negb Z.eqb].
    assert (Hnone : forall c, ~ awake_mostly_idle s p c).
    { intros c Hc. pose proof (Id c Hc) as Hs.
      rewrite Hempty in Hs; [discriminate |].
      apply (allowed_range s p wf). apply Hc. }
    assert (Hsl : sleeping s p c0).
    { destruct Hc0 as [Ha | Hs]; [destruct (Hnone c0 Ha) | exact Hs]. }
    assert (Hset : min_cstate_cpu st' <> -1).
    { destruct (Ie c0 Hsl) as [Hs | Hn]; [| exact Hn].
      rewrite Hempty in Hs by exact Hc0r. discriminate. }
    destruct (Z.eqb_spec (min_cstate_cpu st') (-1)) as [E | _];
      [contradiction |].
    cbn [negb]. exists (min_cstate_cpu st'). split; [reflexivity |].
    right. split; [| exact Hnone].
    destruct Ic as [E | Hs]; [contradiction | exact Hs].
Qed.

(** A round that returns a CPU returns the one it looks at. *)
Lemma small_scan_step_returns s p sync i st r :
  small_scan_step s p sync i st = inl r -> r = i.
Proof.
  unfold small_scan_step. cbv zeta.
  repeat match goal with
  | |- context [if ?b then _ else _] => destruct b
  end; intros E; try discriminate E.
  injection E as <-. reflexivity.
Qed.

Section ScanOrder.

Variables (s : system) (p : task).
Hypothesis wf : well_formed s.
Hypothesis spread : sysctl_sched_restrict_tasks_spread s = false.

(** The round of an awake mostly-idle candidate returns it. *)
Lemma small_scan_step_awake i st :
  awake_mostly_idle s p i -> small_scan_step s p false i st = inl i.
Proof.
  intros ((_ & Haside & Hirq) & Hcs & Hmi).
  unfold small_scan_step. cbv zeta.
  change ((cpu_max_possible_capacity s i =? max_possible_capacity s)
          && negb (cpumask_equal (mpc_mask s) (cpu_possible_mask s)))
    with (set_aside s i).
  rewrite Haside, Hirq.
  change (idle_cpu s i && negb (cstate (cpu_rq s i) =? 0))
    with (in_cstate s i).
  rewrite Hcs, spread, Hmi. reflexivity.
Qed.

(** The CPU the loop returns is the one it starts with, or the lowest
    awake mostly-idle candidate: after the first round the loop goes on
    with the lowest CPU left in the search mask, and every such candidate
    is still in it. *)
Lemma small_scan_loop_first : forall fuel i st r,
  scan_invariant s p st ->
  Z.testbit (search_cpu st) i = true ->
  small_scan_loop fuel s p false i st = Some (inl r) ->
  r = i \/ forall c, awake_mostly_idle s p c -> r <= c.
Proof.
  induction fuel as [| fuel IH]; intros i st r Hinv Hi Hloop;
    [discriminate Hloop |].
  cbn [small_scan_loop] in Hloop.
  pose proof (small_scan_step_inv s p wf spread i st Hinv Hi) as Hstep.
  destruct (small_scan_step s p false i st) as [r0 | st'] eqn:Estep.
  - left. injection Hloop as <-.
    apply (small_scan_step_returns s p false i st r0 Estep).
  - destruct Hstep as (Hinv' & Hgone & Hsub).
    pose proof (first_from_spec (nr_cpu_ids s) 0 (search_cpu st')) as Hf.
    cbv zeta in Hf. fold (cpumask_first s (search_cpu st')) in Hf.
    destruct Hf as (Hrange & Hset & Hclear).
    destruct (Z.ltb_spec (cpumask_first s (search_cpu st'))
                (Z.of_nat (nr_cpu_ids s))) as [Hlt | Hge];
      [| discriminate Hloop].
    right. intros c Hc.
    assert (Hin : Z.testbit (search_cpu st') c = true).
    { destruct Hinv' as (_ & _ & _ & _ & Id & _). apply Id. exact Hc. }
    assert (Hfirst : cpumask_first s (search_cpu st') <= c).
    { destruct (Z.lt_ge_cases c (cpumask_first s (search_cpu st')))
        as [Hlow | Hok]; [| lia].
      destruct (Z.lt_ge_cases c 0) as [Hneg | Hpos].
      - rewrite Z.testbit_neg_r in Hin by exact Hneg. discriminate.
      - rewrite Hclear in Hin by lia. discriminate. }
    destruct (IH _ st' r Hinv' (Hset ltac:(lia)) Hloop) as [-> | Hleast].
    + exact Hfirst.
    + apply Hleast. exact Hc.
Qed.

End ScanOrder.

(** The order of the scan of [best_small_task_cpu]: the task's previous
    CPU first, then the CPUs by their numbers. *)
Lemma best_small_task_cpu_scan_order s p r :
  well_formed s ->
  sysctl_sched_restrict_tasks_spread s = false ->
  best_small_task_cpu s p false = Some r ->
  (awake_mostly_idle s p (task_cpu p) -> r = task_cpu p) /\
  (awake_mostly_idle s p r ->
   r = task_cpu p \/ forall c, awake_mostly_idle s p c -> r <= c).
Proof.
  intros wf spread Hbest.
  set (allowed := cpumask_and (cpus_allowed p) (cpu_active_mask s)).
  set (st0 := mk_scan allowed CPU_MASK_NONE (-1) INT_MAX (-1) ULLONG_MAX).
  assert (Hinv0 : scan_invariant s p st0).
  { unfold scan_invariant, st0.
    cbn [search_cpu best_busy_cpu min_cstate_cpu min_cstate].
    repeat split; auto.
    - intros c ((H & _) & _). exact H.
    - intros c ((H & _) & _). left. exact H. }
  unfold best_small_task_cpu in Hbest. cbv zeta in Hbest.
  fold allowed in Hbest. fold st0 in Hbest.
  unfold cpumask_test_cpu in Hbest.
  split.
  - intros Hprev.
    assert (Hin : Z.testbit allowed (task_cpu p) = true)
      by (destruct Hprev as ((H & _) & _); exact H).
    rewrite Hin in Hbest. cbn [negb] in Hbest.
    cbn [small_scan_loop] in Hbest.
    rewrite (small_scan_step_awake s p spread (task_cpu p) st0 Hprev)
      in Hbest.
    injection Hbest as <-. reflexivity.
  - intros Hr.
    destruct (Z.testbit allowed (task_cpu p)) eqn:Et; cbn [negb] in Hbest.
    + destruct (small_scan_loop (S (nr_cpu_ids s)) s p false (task_cpu p) st0)
        as [[r0 | st] |] eqn:Eloop; [| | discriminate Hbest].
      * injection Hbest as <-.
        destruct (small_scan_loop_first s p wf spread _ _ st0 r0 Hinv0 Et
                    Eloop) as [E | Hleast]; [left; exact E | right; exact Hleast].
      * (* the loop ended without a CPU: no awake mostly-idle candidate *)
        exfalso.
        destruct (small_scan_loop_inv s p wf spread (S (nr_cpu_ids s))
                    (task_cpu p) st0 Hinv0 Et) as (res & Eres & Hres).
        { pose proof (cpumask_weight_bound s (search_cpu st0)). lia. }
        rewrite Eloop in Eres. injection Eres as <-.
        destruct Hres as ((_ & _ & _ & _ & Id & _) & Hempty).
        pose proof (Id r Hr) as Hs.
        rewrite Hempty in Hs; [discriminate |].
        apply (allowed_range s p wf). apply Hr.
    + destruct (cpumask_empty allowed); [injection Hbest as <- |].
      { exfalso. destruct Hr as ((H & _) & _).
        unfold cpumask_and in H. rewrite Z.land_spec in H.
        fold (cpumask_and (cpus_allowed p) (cpu_active_mask s)) in H.
        rewrite Z.testbit_neg_r in H by lia. discriminate. }
      pose proof (first_from_spec (nr_cpu_ids s) 0 allowed) as Hf.
      cbv zeta in Hf. fold (cpumask_first s allowed) in Hf.
      destruct Hf as (Hrange & Hset & Hclear).
      destruct (Z.leb_spec (Z.of_nat (nr_cpu_ids s))
                  (cpumask_first s allowed)) as [Hge | Hlt].
      { injection Hbest as <-. exfalso. destruct Hr as ((H & _) & _).
        rewrite Z.testbit_neg_r in H by lia. discriminate. }
      assert (Hi : Z.testbit allowed (cpumask_first s allowed) = true)
        by (apply Hset; lia).
      assert (Hlow : forall c, awake_mostly_idle s p c ->
                cpumask_first s allowed <= c).
      { intros c ((Hc & _) & _). fold allowed in Hc.
        destruct (Z.lt_ge_cases c (cpumask_first s allowed))
          as [Hl | Hok]; [| lia].
        destruct (Z.lt_ge_cases c 0) as [Hneg | Hpos].
        - rewrite Z.testbit_neg_r in Hc by exact Hneg. discriminate.
        - rewrite Hclear in Hc by lia. discriminate. }
      destruct (small_scan_loop (S (nr_cpu_ids s)) s p false
                  (cpumask_first s allowed) st0)
        as [[r0 | st] |] eqn:Eloop; [| | discriminate Hbest].
      * injection Hbest as <-. right.
        destruct (small_scan_loop_first s p wf spread _ _ st0 r0 Hinv0 Hi
                    Eloop) as [-> | Hleast]; [exact Hlow | exact Hleast].
      * exfalso.
        destruct (small_scan_loop_inv s p wf spread (S (nr_cpu_ids s))
                    (cpumask_first s allowed) st0 Hinv0 Hi)
          as (res & Eres & Hres).
        { pose proof (cpumask_weight_bound s (search_cpu st0)). lia. }
        rewrite Eloop in Eres. injection Eres as <-.
        destruct Hres as ((_ & _ & _ & _ & Id & _) & Hempty).
        pose proof (Id r Hr) as Hs.
        rewrite Hempty in Hs; [discriminate |].
        apply (allowed_range s p wf). apply Hr.
Qed.

(** C7 (amended).  For a non-boosted, non-sync wakeup of a small task that
    is not placed by a preferred cluster and is not to be woken to an idle
    CPU, with restricted spreading off and frequency packing out of play
    (a migration reason is given, or no CPU has a mostly-idle frequency),
    [select_best_cpu] scans the allowed active CPUs that are not of the
    biggest class of an HMP system and have no high IRQ load, and returns
    an awake one whose load and running count are within the mostly-idle
    thresholds if there is one: the first the scan meets, that is the
    task's previous CPU if it is such a CPU and else the one with the
    lowest number, whatever the loads of the others.  Otherwise it returns
    one that is idle in a C-state if there is one: not a busy CPU.  If only
    one CPU qualifies, as C0 in the two-CPU scenario, that CPU is
    returned. *)
Theorem C7_small_task_placement s p reason :
  well_formed s ->
  is_small_task s p = true -> sched_boost s = false ->
  wake_to_idle s p = false ->
  (forall g c cap,
     grp p = Some g -> preferred_cluster g = Some (c, cap) ->
     sysctl_sched_enable_colocation s && (min_capacity s <? cap) = false) ->
  sysctl_sched_restrict_tasks_spread s = false ->
  (reason <> 0 \/ forall c, cpu_mostly_idle_freq s c = 0) ->
  (exists c, awake_mostly_idle s p c \/ sleeping s p c) ->
  exists r,
    select_best_cpu s p reason false = Some r /\
    (awake_mostly_idle s p r \/
     (sleeping s p r /\ forall c, ~ awake_mostly_idle s p c)) /\
    (awake_mostly_idle s p (task_cpu p) -> r = task_cpu p) /\
    (awake_mostly_idle s p r ->
     r = task_cpu p \/ forall c, awake_mostly_idle s p c -> r <= c) /\
    (forall c0,
       (forall c, awake_mostly_idle s p c \/ sleeping s p c -> c = c0) ->
       r = c0).
Proof.
  intros wf Hsmall Hboost Hwti Hgrp Hspread Hpack Hex.
  destruct (best_small_task_cpu_not_busy s p wf Hspread Hex) as (r & Er & Hr).
  destruct (best_small_task_cpu_scan_order s p r wf Hspread Er)
    as (Hprev & Horder).
  exists r.
  assert (Hr0 : 0 <= r).
  { assert (Ha : Z.testbit (cpumask_and (cpus_allowed p) (cpu_active_mask s))
                   r = true).
    { destruct Hr as [((H & _) & _) | (((H & _) & _) & _)]; exact H. }
    apply (allowed_range s p wf r Ha). }
  split; [| split; [| split; [| split]]].
  - unfold select_best_cpu. cbv zeta.
    assert (Hpref :
      match grp p with
      | Some g =>
          match preferred_cluster g with
          | Some (c, cap) =>
              if sysctl_sched_enable_colocation s && (min_capacity s <? cap)
              then Some c else None
          | None => None
          end
      | None => None
      end = None).
    { destruct (grp p) as [g |] eqn:Eg; [| reflexivity].
      destruct (preferred_cluster g) as [[c cap] |] eqn:Ep; [| reflexivity].
      rewrite (Hgrp g c cap eq_refl Ep). reflexivity. }
    rewrite Hpref, Hsmall, Hboost, Hwti. cbn [negb andb orb].
    rewrite Er.
    destruct (Z.ltb_spec r 0) as [? | _]; [lia |].
    destruct Hpack as [Hreason | Hfreq].
    + destruct (Z.eqb_spec reason 0) as [? | _]; [contradiction |].
      cbn [negb]. rewrite andb_false_r. reflexivity.
    + rewrite Hfreq. reflexivity.
  - exact Hr.
  - exact Hprev.
  - exact Horder.
  - intros c0 Honly. apply Honly.
    destruct Hr as [Ha | [Hs _]]; [left; exact Ha | right; exact Hs].
Qed.

Lemma mask_bits_below m k c :
  0 <= m < 2 ^ k -> 0 <= k -> Z.testbit m c = true -> 0 <= c < k.
Proof.
  intros Hm Hk Hb. split.
  - destruct (Z.lt_ge_cases c 0) as [N | P]; [| exact P].
    rewrite Z.testbit_neg_r in Hb by exact N. discriminate.
  - destruct (Z.lt_ge_cases c k) as [L | G]; [exact L |].
    destruct (Z.eq_dec m 0) as [-> | Nz].
    + rewrite Z.bits_0 in Hb. discriminate.
    + rewrite Z.bits_above_log2 in Hb; [discriminate | lia |].
      apply Z.lt_le_trans with k; [| exact G].
      apply Z.log2_lt_pow2; lia.
Qed.

Lemma mostly_idle_and_busy_well_formed : well_formed mostly_idle_and_busy.
Proof.
  assert (R : forall c, Z.testbit 3 c = true -> 0 <= c < 2).
  { intros c. apply mask_bits_below; lia. }
  unfold well_formed. split; [| split; [| split]].
  - intros c H. apply (R c H).
  - intros c. cbn. destruct (c =? 0); reflexivity.
  - intros i Hi. apply R in Hi.
    assert (i = 0 \/ i = 1) as [-> | ->] by lia; reflexivity.
  - intros i c _ Hs. unfold set_aside in Hs.
    change (hmp_capable mostly_idle_and_busy) with false in Hs.
    rewrite andb_false_r in Hs. discriminate Hs.
Qed.

Lemma previous_cpu_busier_well_formed : well_formed previous_cpu_busier.
Proof.
  assert (R : forall c, Z.testbit 7 c = true -> 0 <= c < 3).
  { intros c. apply mask_bits_below; lia. }
  unfold well_formed. split; [| split; [| split]].
  - intros c H. apply (R c H).
  - intros c. cbn. destruct (c =? 0); [reflexivity |].
    destruct (c =? 1); reflexivity.
  - intros i Hi. apply R in Hi.
    assert (i = 0 \/ i = 1 \/ i = 2) as [-> | [-> | ->]] by lia; reflexivity.
  - intros i c _ Hs. unfold set_aside in Hs.
    change (hmp_capable previous_cpu_busier) with false in Hs.
    rewrite andb_false_r in Hs. discriminate Hs.
Qed.

(** Witness of C7: the small task last ran on CPU 1 of
    [previous_cpu_busier]; CPUs 0 and 1 are both mostly idle, and the scan
    starts at CPU 1 and returns it. *)
Lemma C7_small_task_placement_witness :
  let s := previous_cpu_busier in
  let p := small_task_on 1 in
  awake_mostly_idle s p 0 /\ awake_mostly_idle s p 1 /\
  exists r,
    select_best_cpu s p 0 false = Some r /\
    (awake_mostly_idle s p r \/
     (sleeping s p r /\ forall c, ~ awake_mostly_idle s p c)) /\
    r = 1.
Proof.
  intros s p.
  assert (H0 : awake_mostly_idle s p 0) by (repeat split; reflexivity).
  assert (H1 : awake_mostly_idle s p 1) by (repeat split; reflexivity).
  split; [exact H0 |]. split; [exact H1 |].
  destruct (C7_small_task_placement s p 0) as (r & Er & Hr & Hprev & _).
  - exact previous_cpu_busier_well_formed.
  - reflexivity.
  - reflexivity.
  - reflexivity.
  - intros g c cap Hg. discriminate Hg.
  - reflexivity.
  - right. intros c. unfold cpu_mostly_idle_freq. cbn.
    destruct (c =? 0); [reflexivity |]. destruct (c =? 1); reflexivity.
  - exists 0. left. exact H0.
  - exists r. split; [exact Er |]. split; [exact Hr |].
    apply Hprev. exact H1.
Defined.

(** Counterexample to C7 as stated.  On [previous_cpu_busier] the task last
    ran on CPU 1: CPUs 0 and 1 are both mostly idle, CPU 2 is busy and would
    fit the task, CPU 0 carries the smaller load, and CPU 1, where the scan
    starts, is returned.  On [three_little_cpus] the task last ran on the
    busy CPU 2, and the scan goes on to CPU 0, which is returned although
    CPU 1 carries the smaller load.  On [big_little_cpus] the only
    mostly-idle CPU is of the biggest class, and the busy CPU 1 is
    returned. *)
Lemma C7_not_the_least_loaded_mostly_idle_cpu :
  let s := previous_cpu_busier in
  let p := small_task_on 1 in
  is_small_task s p = true /\
  awake_mostly_idle s p 0 /\ awake_mostly_idle s p 1 /\
  mostly_idle_cpu_sync s 2 (cpu_load_sync s 2 false) false = false /\
  spill_threshold_crossed s (scale_load_to_cpu s (task_load p) 2)
    (cpu_load_sync s 2 false) (cpu_rq s 2) = false /\
  cpu_load_sync s 0 false < cpu_load_sync s 1 false /\
  select_best_cpu s p 0 false = Some 1 /\
  (let s := three_little_cpus in
   let p := small_task_on 2 in
   is_small_task s p = true /\
   awake_mostly_idle s p 0 /\ awake_mostly_idle s p 1 /\
   cpu_load_sync s 1 false < cpu_load_sync s 0 false /\
   select_best_cpu s p 0 false = Some 0) /\
  (let s := big_little_cpus in
   let p := small_task_on 1 in
   is_small_task s p = true /\
   mostly_idle_cpu_sync s 0 (cpu_load_sync s 0 false) false = true /\
   sched_cpu_high_irqload s 0 = false /\
   mostly_idle_cpu_sync s 1 (cpu_load_sync s 1 false) false = false /\
   spill_threshold_crossed s (scale_load_to_cpu s (task_load p) 1)
     (cpu_load_sync s 1 false) (cpu_rq s 1) = false /\
   select_best_cpu s p 0 false = Some 1).
Proof.
  cbv zeta. repeat split; vm_compute; try reflexivity.
Qed.

(** * Further properties of the modelled code *)

(** ** The decay tables of the load tracker *)

Import Pelt.

Lemma runnable_avg_yN_inv_range i :
  2 ^ 31 <= table runnable_avg_yN_inv i <= 2 ^ 32 - 1 \/
  (table runnable_avg_yN_inv i = 0 /\ ~ 0 <= i < 32).
Proof.
  unfold table.
  destruct (Z.lt_ge_cases i 0) as [Hneg | Hpos].
  - left. destruct i as [| p | p]; try lia.
    change (Z.to_nat (Z.neg p)) with O. cbn [nth runnable_avg_yN_inv]. lia.
  - destruct (Nat.lt_ge_cases (Z.to_nat i) 32) as [Hlt | Hge].
    + left.
      assert (H : forallb (fun x => (2 ^ 31 <=? x) && (x <=? 2 ^ 32 - 1))
                    runnable_avg_yN_inv = true) by (vm_compute; reflexivity).
      rewrite forallb_forall in H.
      specialize (H (nth (Z.to_nat i) runnable_avg_yN_inv 0)).
      assert (Hin : In (nth (Z.to_nat i) runnable_avg_yN_inv 0)
                      runnable_avg_yN_inv).
      { apply nth_In. exact Hlt. }
      apply H in Hin. apply andb_prop in Hin. destruct Hin as [Ha Hb].
      apply Z.leb_le in Ha. apply Z.leb_le in Hb. lia.
    + right. split; [apply nth_overflow; exact Hge | lia].
Qed.

(** The decayed value as one multiplication and one division. *)
Lemma decay_load_value val n :
  is_u64 val -> 0 < n <= 32 * 63 ->
  decay_load val n =
  (val / 2 ^ (n / 32) * table runnable_avg_yN_inv (n mod 32)) / 2 ^ 32.
Proof.
  intros [Hv0 Hv1] [Hn0 Hn1]. unfold decay_load.
  destruct (Z.eqb_spec n 0) as [? | _]; [lia |].
  unfold LOAD_AVG_PERIOD.
  destruct (Z.ltb_spec (32 * 63) n) as [? | _]; [lia |].
  assert (P : 32 * 63 < 2 ^ 32) by reflexivity.
  rewrite (u32_small n) by (unfold is_u32; lia).
  assert (Hq : 0 <= n / 32) by (apply Z.div_pos; lia).
  assert (Hval : 0 <= val / 2 ^ (n / 32) <= val).
  { split; [apply Z.div_pos; [lia | apply Z.pow_pos_nonneg; lia] |].
    apply Z.div_le_upper_bound; [apply Z.pow_pos_nonneg; lia |].
    assert (0 < 2 ^ (n / 32)) by (apply Z.pow_pos_nonneg; lia).
    nia. }
  assert (Hgen : forall v k, 0 <= v < 2 ^ 64 -> 0 <= k < 32 ->
            mul_u64_u32_shr v (table runnable_avg_yN_inv k) 32 =
            (v * table runnable_avg_yN_inv k) / 2 ^ 32).
  { intros v k Hv Hk. unfold mul_u64_u32_shr.
    rewrite Z.shiftr_div_pow2 by lia.
    destruct (runnable_avg_yN_inv_range k) as [Hr | [_ Hr]]; [| lia].
    apply u64_small. unfold is_u64. split.
    - apply Z.div_pos; [nia | lia].
    - apply Z.div_lt_upper_bound; [lia |]. nia. }
  destruct (Z.leb_spec 32 n) as [Hge | Hlt].
  - rewrite Z.shiftr_div_pow2 by lia.
    apply Hgen; [lia |]. apply Z.mod_pos_bound. lia.
  - rewrite (Z.div_small n 32) by lia. rewrite (Z.mod_small n 32) by lia.
    change (2 ^ 0) with 1. rewrite Z.div_1_r.
    apply Hgen; lia.
Qed.

(** X1.  [decay_load] brackets the half-life law for every number of
    periods up to 32 * 63: with [k = n / 32] full half-lives the result lies
    between [val / 2^(k+1)] and [val / 2^k]; so decay never increases a
    value.  It is monotone in the value decayed. *)
Theorem X1_decay_load_brackets val val' n :
  is_u64 val -> is_u64 val' -> val <= val' -> 0 <= n <= 32 * 63 ->
  val / 2 ^ (n / 32 + 1) <= decay_load val n <= val / 2 ^ (n / 32) /\
  decay_load val n <= val /\
  decay_load val n <= decay_load val' n.
Proof.
  intros Hv Hv' Hle [Hn0 Hn1].
  destruct (Z.eq_dec n 0) as [-> | Hnz].
  - change (decay_load val 0) with val. change (decay_load val' 0) with val'.
    change (0 / 32) with 0. change (2 ^ 0) with 1. change (2 ^ (0 + 1)) with 2.
    rewrite Z.div_1_r. destruct Hv as [Hv0 _].
    assert (val / 2 <= val).
    { apply Z.div_le_upper_bound; lia. }
    lia.
  - rewrite (decay_load_value val n Hv) by lia.
    rewrite (decay_load_value val' n Hv') by lia.
    destruct Hv as [Hv0 Hv1]. destruct Hv' as [Hv0' Hv1'].
    assert (Hq : 0 <= n / 32) by (apply Z.div_pos; lia).
    assert (Hp : 0 < 2 ^ (n / 32)) by (apply Z.pow_pos_nonneg; lia).
    set (k := n / 32) in *.
    set (v := val / 2 ^ k). set (v' := val' / 2 ^ k).
    assert (Hvv : 0 <= v <= v').
    { split; [apply Z.div_pos; lia | apply Z.div_le_mono; lia]. }
    assert (Hvle : v <= val).
    { unfold v. apply Z.div_le_upper_bound; [lia |]. nia. }
    destruct (runnable_avg_yN_inv_range (n mod 32)) as [Hr | [_ Hr]].
    2: { exfalso. apply Hr. apply Z.mod_pos_bound. lia. }
    set (y := table runnable_avg_yN_inv (n mod 32)) in *.
    assert (Hup : v * y / 2 ^ 32 <= v).
    { apply Z.div_le_upper_bound; [lia |]. nia. }
    assert (Hlo : v / 2 <= v * y / 2 ^ 32).
    { apply Z.div_le_lower_bound; [lia |].
      assert (2 * (v / 2) <= v).
      { pose proof (Z.mul_div_le v 2 ltac:(lia)). lia. }
      assert (0 <= v / 2) by (apply Z.div_pos; lia).
      change (2 ^ 32) with (2 * 2 ^ 31). nia. }
    assert (Hhalf : val / 2 ^ (k + 1) = v / 2).
    { unfold v. rewrite Z.pow_add_r by lia. change (2 ^ 1) with 2.
      rewrite Z.div_div by lia. reflexivity. }
    rewrite Hhalf.
    split; [split; [exact Hlo | exact Hup] |].
    split; [lia |].
    apply Z.div_le_mono; [lia |]. nia.
Qed.

(** Witness of X1: a load sum of 1024 * 47742 and a larger one, over 100
    periods. *)
Lemma X1_decay_load_brackets_witness :
  1024 * 47742 / 2 ^ (100 / 32 + 1) <= decay_load (1024 * 47742) 100
    <= 1024 * 47742 / 2 ^ (100 / 32) /\
  decay_load (1024 * 47742) 100 <= 1024 * 47742 /\
  decay_load (1024 * 47742) 100 <= decay_load (2048 * 47742) 100.
Proof.
  apply (X1_decay_load_brackets (1024 * 47742) (2048 * 47742) 100).
  - unfold is_u64. lia.
  - unfold is_u64. lia.
  - lia.
  - lia.
Defined.

Lemma compute_runnable_contrib_table :
  forallb (fun k =>
             (0 <=? __compute_runnable_contrib (Z.of_nat k))
             && (__compute_runnable_contrib (Z.of_nat k)
                 <=? __compute_runnable_contrib (Z.of_nat (S k)))
             && (__compute_runnable_contrib (Z.of_nat (S k)) <=? LOAD_AVG_MAX))
          (seq 0 345) = true.
Proof. vm_compute. reflexivity. Qed.

Lemma compute_runnable_contrib_saturated n :
  LOAD_AVG_MAX_N <= n -> __compute_runnable_contrib n = LOAD_AVG_MAX.
Proof.
  intros H. unfold __compute_runnable_contrib, LOAD_AVG_MAX_N, LOAD_AVG_PERIOD in *.
  destruct (Z.leb_spec n 32) as [? | _]; [lia |].
  destruct (Z.leb_spec 345 n) as [_ | ?]; [reflexivity | lia].
Qed.

Lemma compute_runnable_contrib_step n :
  0 <= n ->
  0 <= __compute_runnable_contrib n <= __compute_runnable_contrib (n + 1) /\
  __compute_runnable_contrib (n + 1) <= LOAD_AVG_MAX.
Proof.
  intros Hn.
  destruct (Z.lt_ge_cases n 345) as [Hlt | Hge].
  - pose proof compute_runnable_contrib_table as H.
    rewrite forallb_forall in H.
    specialize (H (Z.to_nat n)).
    assert (Hin : In (Z.to_nat n) (seq 0 345)).
    { apply in_seq. lia. }
    apply H in Hin.
    apply andb_prop in Hin. destruct Hin as [Hin Hc].
    apply andb_prop in Hin. destruct Hin as [Ha Hb].
    rewrite Nat2Z.inj_succ in Hb, Hc.
    rewrite Z2Nat.id in Ha, Hb, Hc by lia.
    apply Z.leb_le in Ha. apply Z.leb_le in Hb. apply Z.leb_le in Hc.
    unfold Z.succ in *. lia.
  - rewrite !compute_runnable_contrib_saturated
      by (unfold LOAD_AVG_MAX_N; lia).
    unfold LOAD_AVG_MAX. lia.
Qed.

(** X2.  The contribution of [n] full periods computed by
    [__compute_runnable_contrib] never exceeds [LOAD_AVG_MAX], is reached
    exactly from [LOAD_AVG_MAX_N] periods on, and grows with the number of
    periods. *)
Theorem X2_runnable_contrib_bounded_monotone n n' :
  0 <= n <= n' ->
  0 <= __compute_runnable_contrib n <= __compute_runnable_contrib n' /\
  __compute_runnable_contrib n' <= LOAD_AVG_MAX /\
  (LOAD_AVG_MAX_N <= n -> __compute_runnable_contrib n = LOAD_AVG_MAX).
Proof.
  intros [Hn Hle].
  assert (Hmono : forall d : nat,
            __compute_runnable_contrib n
              <= __compute_runnable_contrib (n + Z.of_nat d)).
  { induction d as [| d IH].
    - rewrite Z.add_0_r. lia.
    - rewrite Nat2Z.inj_succ. unfold Z.succ. rewrite Z.add_assoc.
      pose proof (compute_runnable_contrib_step (n + Z.of_nat d) ltac:(lia)).
      lia. }
  specialize (Hmono (Z.to_nat (n' - n))).
  rewrite Z2Nat.id in Hmono by lia.
  replace (n + (n' - n)) with n' in Hmono by lia.
  pose proof (compute_runnable_contrib_step n Hn) as [[H0 _] _].
  split; [lia |]. split.
  - destruct (Z.eq_dec n' 0) as [-> | Hnz].
    + vm_compute. discriminate.
    + pose proof (compute_runnable_contrib_step (n' - 1) ltac:(lia)) as [_ H].
      replace (n' - 1 + 1) with n' in H by lia. exact H.
  - apply compute_runnable_contrib_saturated.
Qed.

(** Witness of X2: 40 and 100 periods. *)
Lemma X2_runnable_contrib_bounded_monotone_witness :
  0 <= __compute_runnable_contrib 40 <= __compute_runnable_contrib 100 /\
  __compute_runnable_contrib 100 <= LOAD_AVG_MAX /\
  (LOAD_AVG_MAX_N <= 40 -> __compute_runnable_contrib 40 = LOAD_AVG_MAX).
Proof.
  apply (X2_runnable_contrib_bounded_monotone 40 100). lia.
Defined.

(** ** Period accounting of the load tracker *)

(** X3.  [__update_load_avg] keeps [period_contrib] strictly below 1024
    ("sched_avg's period_contrib should be strictly less then 1024").  It
    reports a decay exactly when time went forward and the elapsed time, in
    units of 1024 ns and added to what the current period already holds,
    reaches a period boundary; without a decay the averages are left as they
    are.  When time went backwards only the time stamp is moved, and an
    update less than 1024 ns after the last one changes nothing at all. *)
Theorem X3_update_load_avg_periods scale_freq scale_cpu now sa weight running :
  0 <= period_contrib sa < 1024 ->
  let d := u64 (now - last_update_time sa) in
  let r := __update_load_avg scale_freq scale_cpu now sa weight running in
  0 <= period_contrib (fst r) < 1024 /\
  (snd r = true <-> 0 <= s64 d /\ 1024 <= d / 1024 + period_contrib sa) /\
  (snd r = false ->
   load_avg (fst r) = load_avg sa /\ util_avg (fst r) = util_avg sa) /\
  (s64 d < 0 ->
   fst r = mk_avg now (load_sum sa) (util_sum sa) (period_contrib sa)
             (load_avg sa) (util_avg sa)) /\
  (0 <= s64 d -> d < 1024 -> fst r = sa).
Proof.
  intros Hc. cbv zeta. unfold __update_load_avg.
  set (d := u64 (now - last_update_time sa)).
  assert (Hd : 0 <= d < 2 ^ 64) by apply u64_range.
  destruct (Z.ltb_spec (s64 d) 0) as [Hback | Hfwd].
  - cbn [fst snd period_contrib load_avg util_avg].
    split; [exact Hc |]. split; [split; [discriminate | lia] |].
    split; [intros _; split; reflexivity |].
    split; [intros _; reflexivity | lia].
  - rewrite Z.shiftr_div_pow2 by lia. change (2 ^ 10) with 1024.
    assert (Hs : s64 d = d \/ s64 d = d - 2 ^ 64).
    { unfold s64. cbv zeta. rewrite (Z.mod_small d) by exact Hd.
      destruct (d <? 2 ^ 63); [left | right]; reflexivity. }
    assert (Hd63 : d < 2 ^ 63).
    { destruct Hs as [E | E]; [| lia].
      pose proof (s64_range d). lia. }
    set (delta := d / 1024).
    assert (Hdelta : 0 <= delta < 2 ^ 53).
    { unfold delta. split; [apply Z.div_pos; lia |].
      apply Z.div_lt_upper_bound; [lia |].
      change (1024 * 2 ^ 53) with (2 ^ 63). exact Hd63. }
    assert (P53 : 2 ^ 53 + 1024 < 2 ^ 64) by reflexivity.
    destruct (Z.eqb_spec delta 0) as [E0 | N0].
    + cbn [fst snd].
      split; [exact Hc |]. split; [split; [discriminate | lia] |].
      split; [intros _; split; reflexivity |].
      split; [lia | intros _ _; reflexivity].
    + assert (Hbig : 1024 <= d).
      { destruct (Z.lt_ge_cases d 1024) as [Hlt | Hge]; [| exact Hge].
        exfalso. apply N0. unfold delta. apply Z.div_small. lia. }
      rewrite (u64_small (delta + period_contrib sa)) by (unfold is_u64; lia).
      destruct (Z.leb_spec 1024 (delta + period_contrib sa)) as [Hx | Hn].
      * cbn [fst snd period_contrib load_avg util_avg].
        rewrite Z.add_0_l.
        set (rest := u64 (delta - u32 (1024 - period_contrib sa)) mod 1024).
        assert (Hrest : 0 <= rest < 1024)
          by (unfold rest; apply Z.mod_pos_bound; lia).
        assert (P32 : 1024 < 2 ^ 32) by reflexivity.
        rewrite (u32_small rest) by (unfold is_u32; lia).
        split; [exact Hrest |]. split; [split; [lia | reflexivity] |].
        split; [discriminate |]. split; lia.
      * cbn [fst snd period_contrib load_avg util_avg].
        assert (P32 : 1024 < 2 ^ 32) by reflexivity.
        rewrite (u32_small (period_contrib sa + delta))
          by (unfold is_u32; lia).
        split; [lia |]. split; [split; [discriminate | lia] |].
        split; [intros _; split; reflexivity |]. split; lia.
Qed.

(** Witness of X3: a nice-0 entity 100 us into its period, updated 5 ms
    later. *)
Lemma X3_update_load_avg_periods_witness :
  let sa := mk_avg 0 0 0 100 0 0 in
  let d := u64 (5000000 - last_update_time sa) in
  let r := __update_load_avg 1024 1024 5000000 sa 1024 true in
  0 <= period_contrib (fst r) < 1024 /\
  (snd r = true <-> 0 <= s64 d /\ 1024 <= d / 1024 + period_contrib sa) /\
  (snd r = false ->
   load_avg (fst r) = load_avg sa /\ util_avg (fst r) = util_avg sa) /\
  (s64 d < 0 ->
   fst r = mk_avg 5000000 (load_sum sa) (util_sum sa) (period_contrib sa)
             (load_avg sa) (util_avg sa)) /\
  (0 <= s64 d -> d < 1024 -> fst r = sa).
Proof.
  intros sa.
  apply (X3_update_load_avg_periods 1024 1024 5000000 sa 1024 true).
  cbn [sa period_contrib]. lia.
Defined.

(** ** The scaled division *)

Import Weight Tunables Cfs.



(** A cached inverse above [2^32 / lw.weight] does round up: with the
    inverse 5237765 for the weight 820, 820 * 5237765 is 4 above [2^32],
    and [2^22] units scaled by 1024 / 820 come out as 5237765, while
    [5237765 * 820] exceeds [2^22 * 1024]. *)
Example calc_delta_cached_inverse_rounds_up :
  let lw := mk_lw 820 5237765 in
  inv_weight lw * weight lw = 2 ^ 32 + 4 /\
  fst (__calc_delta (2 ^ 22) 1024 lw) = 5237765 /\
  2 ^ 22 * 1024 < fst (__calc_delta (2 ^ 22) 1024 lw) * weight lw.
Proof. cbv zeta. repeat split; vm_compute; reflexivity. Qed.

(** ** Run-time accounting *)

Lemma set_load_same e : set_load (load e) e = e.
Proof. destruct e; reflexivity. Qed.

(** [calc_delta_fair] writes nothing but the cached inverse of the entity's
    own weight. *)
Lemma calc_delta_fair_entity m d p :
  exists lw,
    se_at (snd (calc_delta_fair m d p)) p = set_load lw (se_at m p) /\
    weight lw = weight (load (se_at m p)).
Proof.
  unfold calc_delta_fair.
  destruct (weight (load (se_at m p)) =? NICE_0_LOAD) eqn:E; cbn [negb].
  - exists (load (se_at m p)). cbn [snd]. rewrite set_load_same.
    split; reflexivity.
  - destruct (__calc_delta d NICE_0_LOAD (load (se_at m p))) as [v lw] eqn:Ec.
    exists lw. cbn [snd]. rewrite se_at_upd_se. split; [reflexivity |].
    pose proof (calc_delta_inverse d NICE_0_LOAD (load (se_at m p))) as [_ Hs].
    rewrite Ec in Hs. cbn [snd] in Hs. rewrite Hs.
    apply update_inv_weight_weight.
Qed.

(** X5.  [update_curr] charges the running entity with the time since
    [exec_start]: when the clock has not advanced nothing is written;
    otherwise [exec_start] becomes the clock, [sum_exec_runtime] grows by
    the elapsed time, and the virtual runtime grows by exactly the elapsed
    time for a nice-0 weight and by no more than the elapsed time for a
    heavier one, whether its inverse is not cached yet or is a cached
    32-bit inverse of at most [2^32 / 1024] (as an inverse of a weight of
    1024 or more is). *)
Theorem X5_update_curr_accounting m q c :
  curr (rq_at m q) = Some c ->
  let e := se_at m c in
  let now := clock_task (rq_at m q) in
  let delta := u64 (now - exec_start e) in
  let e' := se_at (update_curr m q) c in
  (s64 delta <= 0 -> update_curr m q = m) /\
  (0 < s64 delta ->
   exec_start e' = now /\
   sum_exec_runtime e' = u64 (sum_exec_runtime e + delta) /\
   prev_sum_exec_runtime e' = prev_sum_exec_runtime e /\
   on_rq e' = on_rq e /\
   weight (load e') = weight (load e) /\
   (weight (load e) = NICE_0_LOAD ->
    vruntime e' = u64 (vruntime e + delta)) /\
   (NICE_0_LOAD <= weight (load e) ->
    0 <= inv_weight (load e) <= 2 ^ 22 ->
    exists d, 0 <= d <= delta /\ vruntime e' = u64 (vruntime e + d))).
Proof.
  intros Hcurr. cbv zeta. unfold update_curr. rewrite Hcurr.
  set (now := clock_task (rq_at m q)).
  set (delta := u64 (now - exec_start (se_at m c))).
  destruct (Z.leb_spec (s64 delta) 0) as [Hle | Hgt].
  - split; [intros _; reflexivity | lia].
  - split; [lia |]. intros _.
    set (m1 := upd_se m c (set_exec_start now)).
    set (m2 := upd_se m1 c
                 (fun e => set_sum_exec_runtime
                             (u64 (sum_exec_runtime e + delta)) e)).
    assert (E2 : se_at m2 c =
                 set_sum_exec_runtime
                   (u64 (sum_exec_runtime (se_at m c) + delta))
                   (set_exec_start now (se_at m c))).
    { unfold m2. rewrite se_at_upd_se. unfold m1. rewrite se_at_upd_se.
      reflexivity. }
    destruct (calc_delta_fair_entity m2 delta c) as (lw & E3 & Hlw).
    destruct (calc_delta_fair m2 delta c) as [d m3] eqn:Ec.
    cbn [snd] in E3.
    unfold update_min_vruntime. rewrite se_at_upd_rq, se_at_upd_se.
    rewrite E3, E2.
    cbn [exec_start sum_exec_runtime prev_sum_exec_runtime on_rq load
         vruntime set_vruntime set_load set_sum_exec_runtime set_exec_start].
    rewrite E2 in Hlw.
    cbn [load set_sum_exec_runtime set_exec_start] in Hlw.
    split; [reflexivity |]. split; [reflexivity |]. split; [reflexivity |].
    split; [reflexivity |]. split; [exact Hlw |].
    assert (Hw2 : load (se_at m2 c) = load (se_at m c)).
    { rewrite E2. reflexivity. }
    split.
    + intros Hn. unfold calc_delta_fair in Ec. rewrite Hw2, Hn in Ec.
      rewrite Z.eqb_refl in Ec. cbn [negb] in Ec.
      injection Ec as <- _. reflexivity.
    + intros Hw Hinv. exists d. split; [| reflexivity].
      unfold calc_delta_fair in Ec. rewrite Hw2 in Ec.
      destruct (Z.eqb_spec (weight (load (se_at m c))) NICE_0_LOAD) as [En | Nn];
        cbn [negb] in Ec.
      * injection Ec as <- _.
        pose proof (u64_range (now - exec_start (se_at m c))) as Hr.
        fold delta in Hr. unfold is_u64 in Hr. lia.
      * destruct (__calc_delta delta NICE_0_LOAD (load (se_at m c)))
          as [v lw'] eqn:Ed.
        injection Ec as <- _.
        assert (Hdu : is_u64 delta) by apply u64_range.
        assert (HN : 0 <= NICE_0_LOAD < 2 ^ 32) by (unfold NICE_0_LOAD; lia).
        assert (E22 : 2 ^ 22 = 4194304) by reflexivity.
        assert (E32 : 2 ^ 32 = 4294967296) by reflexivity.
        assert (Hlw0 : 0 <= weight (load (se_at m c)))
          by (unfold NICE_0_LOAD in Hw; lia).
        assert (Hi32 : is_u32 (inv_weight (load (se_at m c))))
          by (unfold is_u32; lia).
        pose proof (calc_delta_le_product delta NICE_0_LOAD
                      (load (se_at m c)) Hdu HN Hlw0 Hi32) as [H0 Hup].
        cbv zeta in H0, Hup. rewrite Ed in H0, Hup. cbn [fst] in H0, Hup.
        split; [exact H0 |].
        assert (Hsmall : 0 < inv_weight (__update_inv_weight
                                           (load (se_at m c))) <= 2 ^ 22).
        { pose proof (update_inv_weight_range _ Hlw0 Hi32) as Hr.
          split; [lia |].
          unfold __update_inv_weight, scale_load_down.
          destruct (Z.eqb_spec (inv_weight (load (se_at m c))) 0) as [Z0 | N0];
            cbn [negb]; [| lia].
          destruct (Z.leb_spec WMULT_CONST (weight (load (se_at m c))));
            [cbn [inv_weight]; lia |].
          destruct (Z.eqb_spec (weight (load (se_at m c))) 0);
            [unfold NICE_0_LOAD in Hw; lia |].
          cbn [inv_weight]. apply Z.lt_succ_r.
          apply Z.div_lt_upper_bound; unfold NICE_0_LOAD, WMULT_CONST in *;
            lia. }
        set (inv := inv_weight (__update_inv_weight (load (se_at m c)))) in *.
        destruct Hdu as [Hd0 Hd1]. unfold NICE_0_LOAD in Hup.
        assert (delta * (1024 * inv) <= delta * 2 ^ 32)
          by (apply Z.mul_le_mono_nonneg_l; lia).
        lia.
Qed.

(** Witness of X5: a running task of weight 3121 with the cached inverse
    1376151 in the place of the running task of [light_task_running], with
    the clock moved on by 1 ms. *)
Lemma X5_update_curr_accounting_witness :
  let m := upd_se (upd_rq light_task_running 0%nat (set_clock_task 1000000))
             0%nat (set_load (mk_lw 3121 1376151)) in
  let e := se_at m 0%nat in
  let now := clock_task (rq_at m 0%nat) in
  let delta := u64 (now - exec_start e) in
  let e' := se_at (update_curr m 0%nat) 0%nat in
  (curr (rq_at m 0%nat) = Some 0%nat /\ 0 < s64 delta /\
   NICE_0_LOAD <= weight (load e) /\ 0 <= inv_weight (load e) <= 2 ^ 22) /\
  exec_start e' = now /\
  sum_exec_runtime e' = u64 (sum_exec_runtime e + delta) /\
  exists d, 0 <= d <= delta /\ vruntime e' = u64 (vruntime e + d).
Proof.
  intros m. cbv zeta.
  assert (Hc : curr (rq_at m 0%nat) = Some 0%nat) by reflexivity.
  assert (Hd : 0 < s64 (u64 (clock_task (rq_at m 0%nat)
                             - exec_start (se_at m 0%nat))))
    by (vm_compute; reflexivity).
  assert (Hw : NICE_0_LOAD <= weight (load (se_at m 0%nat)))
    by (vm_compute; discriminate).
  assert (Hi : 0 <= inv_weight (load (se_at m 0%nat)) <= 2 ^ 22)
    by (vm_compute; split; discriminate).
  destruct (X5_update_curr_accounting m 0%nat 0%nat Hc) as (_ & Hrun).
  destruct (Hrun Hd) as (H1 & H2 & _ & _ & _ & _ & Hheavy).
  split; [split; [exact Hc | split; [exact Hd | split; [exact Hw | exact Hi]]] |].
  split; [exact H1 |]. split; [exact H2 |].
  exact (Hheavy Hw Hi).
Defined.

(** ** Wakeup preemption *)

Lemma s64_neg_diff a b : 0 < s64 (a - b) -> s64 (b - a) = - s64 (a - b).
Proof.
  unfold s64. cbv zeta. intros H.
  pose proof (Z.mod_pos_bound (a - b) (2 ^ 64) ltac:(lia)) as Hx.
  pose proof (Z.div_mod (a - b) (2 ^ 64) ltac:(lia)) as Hd.
  set (x := (a - b) mod 2 ^ 64) in *. set (k := (a - b) / 2 ^ 64) in *.
  destruct (Z.ltb_spec x (2 ^ 63)) as [Hlt | Hge]; [| lia].
  assert (E : (b - a) mod 2 ^ 64 = 2 ^ 64 - x).
  { symmetry. apply (Z.mod_unique_pos _ _ (- k - 1)); lia. }
  rewrite E.
  destruct (Z.ltb_spec (2 ^ 64 - x) (2 ^ 63)) as [Hlt' | Hge']; lia.
Qed.

(** X6.  [wakeup_preempt_entity(curr, se)] answers -1, 0 or 1; it answers
    -1 exactly when [curr] is not ahead of [se] in virtual time, so an
    entity never preempts itself; and when [se] is to preempt [curr], then
    [curr] is not to preempt [se]. *)
Theorem X6_wakeup_preempt_entity_asymmetric sc m m' a b :
  vruntime (se_at m' a) = vruntime (se_at m a) ->
  vruntime (se_at m' b) = vruntime (se_at m b) ->
  let r := fst (wakeup_preempt_entity sc m a b) in
  (r = -1 \/ r = 0 \/ r = 1) /\
  (r = -1 <-> s64 (vruntime (se_at m a) - vruntime (se_at m b)) <= 0) /\
  (r = 1 -> fst (wakeup_preempt_entity sc m' b a) = -1) /\
  fst (wakeup_preempt_entity sc m a a) = -1.
Proof.
  intros Ha Hb. cbv zeta.
  assert (Hself : fst (wakeup_preempt_entity sc m a a) = -1).
  { unfold wakeup_preempt_entity. cbv zeta. rewrite Z.sub_diag.
    change (s64 0 <=? 0) with true. reflexivity. }
  assert (Hrev : 0 < s64 (vruntime (se_at m a) - vruntime (se_at m b)) ->
                 fst (wakeup_preempt_entity sc m' b a) = -1).
  { intros Hgt. unfold wakeup_preempt_entity. cbv zeta. rewrite Ha, Hb.
    rewrite (s64_neg_diff _ _ Hgt).
    set (vdiff := s64 (vruntime (se_at m a) - vruntime (se_at m b))) in *.
    destruct (Z.leb_spec (- vdiff) 0) as [_ | ?]; [reflexivity | lia]. }
  remember (fst (wakeup_preempt_entity sc m a b)) as r eqn:Er.
  unfold wakeup_preempt_entity in Er. cbv zeta in Er.
  set (vdiff := s64 (vruntime (se_at m a) - vruntime (se_at m b))) in *.
  destruct (Z.leb_spec vdiff 0) as [Hle | Hgt].
  - cbn [fst] in Er. subst r. split; [left; reflexivity |].
    split; [split; [intros _; exact Hle | reflexivity] |].
    split; [discriminate | exact Hself].
  - destruct (wakeup_gran sc m a b) as [g m0].
    destruct (Z.ltb_spec (s64 g) vdiff); cbn [fst] in Er; subst r.
    + split; [right; right; reflexivity |].
      split; [split; [discriminate | lia] |].
      split; [intros _; apply Hrev; exact Hgt | exact Hself].
    + split; [right; left; reflexivity |].
      split; [split; [discriminate | lia] |].
      split; [discriminate | exact Hself].
Qed.

(** Witness of X6: the last buddy (task 3) and the leftmost task (task 1)
    of [buddy_queue], 4 ms apart. *)
Lemma X6_wakeup_preempt_entity_asymmetric_witness :
  let sc := default_sysctl in
  let m := buddy_queue in
  let r := fst (wakeup_preempt_entity sc m 3%nat 1%nat) in
  (r = -1 \/ r = 0 \/ r = 1) /\
  (r = -1 <->
   s64 (vruntime (se_at m 3%nat) - vruntime (se_at m 1%nat)) <= 0) /\
  (r = 1 -> fst (wakeup_preempt_entity sc m 1%nat 3%nat) = -1) /\
  fst (wakeup_preempt_entity sc m 3%nat 3%nat) = -1.
Proof.
  intros sc m.
  apply (X6_wakeup_preempt_entity_asymmetric sc m m 3%nat 1%nat);
    reflexivity.
Defined.

(** ** Buddies *)

Lemma ptr_eqb_eq a b : ptr_eqb a b = true <-> a = b.
Proof.
  destruct a as [x |], b as [y |]; cbn [ptr_eqb].
  - rewrite Nat.eqb_eq. split; [intros ->; reflexivity | congruence].
  - split; discriminate.
  - split; discriminate.
  - split; reflexivity.
Qed.

Lemma set_buddies_same r :
  set_next (next r) (set_last (last r) (set_skip (skip r) r)) = r.
Proof. destruct r; reflexivity. Qed.

Lemma buddies_reset_refl m : buddies_reset m m.
Proof.
  split; [reflexivity |]. intros q.
  exists (next (rq_at m q)), (last (rq_at m q)), (skip (rq_at m q)).
  rewrite set_buddies_same. repeat split; left; reflexivity.
Qed.

Lemma buddies_reset_trans m1 m2 m3 :
  buddies_reset m1 m2 -> buddies_reset m2 m3 -> buddies_reset m1 m3.
Proof.
  intros [Ha Hq] [Ha' Hq']. split.
  - intros a. rewrite Ha', Ha. reflexivity.
  - intros q. destruct (Hq q) as (n & l & s & E & Hn & Hl & Hs).
    destruct (Hq' q) as (n' & l' & s' & E' & Hn' & Hl' & Hs').
    exists n', l', s'. rewrite E', E.
    rewrite E in Hn', Hl', Hs'. cbn [next last skip set_next set_last set_skip]
      in Hn', Hl', Hs'.
    split; [destruct (rq_at m1 q); reflexivity |].
    split; [| split].
    + destruct Hn' as [-> | ->]; [exact Hn | right; reflexivity].
    + destruct Hl' as [-> | ->]; [exact Hl | right; reflexivity].
    + destruct Hs' as [-> | ->]; [exact Hs | right; reflexivity].
Qed.

Lemma buddies_reset_upd m q f :
  (forall r, exists n l s,
     f r = set_next n (set_last l (set_skip s r)) /\
     (n = next r \/ n = None) /\ (l = last r \/ l = None) /\
     (s = skip r \/ s = None)) ->
  buddies_reset m (upd_rq m q f).
Proof.
  intros Hf. split; [intros a; apply se_at_upd_rq |].
  intros q'. destruct (Nat.eq_dec q' q) as [-> | N].
  - rewrite rq_at_upd_rq. apply Hf.
  - rewrite rq_at_upd_rq_other by exact N.
    exists (next (rq_at m q')), (last (rq_at m q')), (skip (rq_at m q')).
    rewrite set_buddies_same. repeat split; left; reflexivity.
Qed.

Lemma buddies_reset_last m q :
  buddies_reset m (upd_rq m q (set_last None)).
Proof.
  apply buddies_reset_upd. intros r. exists (next r), None, (skip r).
  split; [destruct r; reflexivity |].
  split; [left; reflexivity |]. split; [right | left]; reflexivity.
Qed.

Lemma buddies_reset_next m q :
  buddies_reset m (upd_rq m q (set_next None)).
Proof.
  apply buddies_reset_upd. intros r. exists None, (last r), (skip r).
  split; [destruct r; reflexivity |].
  split; [right; reflexivity |]. split; left; reflexivity.
Qed.

Lemma buddies_reset_skip m q :
  buddies_reset m (upd_rq m q (set_skip None)).
Proof.
  apply buddies_reset_upd. intros r. exists (next r), (last r), None.
  split; [destruct r; reflexivity |].
  split; [left; reflexivity |]. split; [left | right]; reflexivity.
Qed.

(** What a reset leaves in the three slots of a queue. *)
Lemma buddies_reset_slots m m' q :
  buddies_reset m m' ->
  (next (rq_at m' q) = next (rq_at m q) \/ next (rq_at m' q) = None) /\
  (last (rq_at m' q) = last (rq_at m q) \/ last (rq_at m' q) = None) /\
  (skip (rq_at m' q) = skip (rq_at m q) \/ skip (rq_at m' q) = None).
Proof.
  intros [_ Hq]. destruct (Hq q) as (n & l & s & E & Hn & Hl & Hs).
  rewrite E. cbn [next last skip set_next set_last set_skip].
  repeat split; assumption.
Qed.

Lemma clear_buddies_last_reset fuel : forall m se m',
  __clear_buddies_last fuel m se = Some m' ->
  buddies_reset m m' /\
  match se with
  | Some p => last (rq_at m' (cfs_rq_of (se_at m p))) <> Some p
  | None => True
  end.
Proof.
  induction fuel as [| fuel IH]; intros m se m' E.
  - destruct se as [p |]; [discriminate |]. injection E as <-.
    split; [apply buddies_reset_refl | exact I].
  - destruct se as [p |].
    2: { injection E as <-. split; [apply buddies_reset_refl | exact I]. }
    rewrite clear_buddies_last_step in E. cbv zeta in E.
    set (q := cfs_rq_of (se_at m p)) in *.
    destruct (ptr_eqb (last (rq_at m q)) (Some p)) eqn:Eq; cbn [negb] in E.
    + apply IH in E. destruct E as [Hr _].
      pose proof (buddies_reset_trans _ _ _ (buddies_reset_last m q) Hr) as Ht.
      split; [exact Ht |].
      destruct (buddies_reset_slots _ _ q Hr) as (_ & [Hl | Hl] & _).
      * rewrite Hl, rq_at_upd_rq. destruct (rq_at m q); discriminate.
      * rewrite Hl. discriminate.
    + injection E as <-. split; [apply buddies_reset_refl |].
      intros C. apply ptr_eqb_eq in C. congruence.
Qed.

Lemma clear_buddies_next_reset fuel : forall m se m',
  __clear_buddies_next fuel m se = Some m' ->
  buddies_reset m m' /\
  match se with
  | Some p => next (rq_at m' (cfs_rq_of (se_at m p))) <> Some p
  | None => True
  end.
Proof.
  induction fuel as [| fuel IH]; intros m se m' E.
  - destruct se as [p |]; [discriminate |]. injection E as <-.
    split; [apply buddies_reset_refl | exact I].
  - destruct se as [p |].
    2: { injection E as <-. split; [apply buddies_reset_refl | exact I]. }
    rewrite clear_buddies_next_step in E. cbv zeta in E.
    set (q := cfs_rq_of (se_at m p)) in *.
    destruct (ptr_eqb (next (rq_at m q)) (Some p)) eqn:Eq; cbn [negb] in E.
    + apply IH in E. destruct E as [Hr _].
      pose proof (buddies_reset_trans _ _ _ (buddies_reset_next m q) Hr) as Ht.
      split; [exact Ht |].
      destruct (buddies_reset_slots _ _ q Hr) as ([Hl | Hl] & _).
      * rewrite Hl, rq_at_upd_rq. destruct (rq_at m q); discriminate.
      * rewrite Hl. discriminate.
    + injection E as <-. split; [apply buddies_reset_refl |].
      intros C. apply ptr_eqb_eq in C. congruence.
Qed.

Lemma clear_buddies_skip_reset fuel : forall m se m',
  __clear_buddies_skip fuel m se = Some m' ->
  buddies_reset m m' /\
  match se with
  | Some p => skip (rq_at m' (cfs_rq_of (se_at m p))) <> Some p
  | None => True
  end.
Proof.
  induction fuel as [| fuel IH]; intros m se m' E.
  - destruct se as [p |]; [discriminate |]. injection E as <-.
    split; [apply buddies_reset_refl | exact I].
  - destruct se as [p |].
    2: { injection E as <-. split; [apply buddies_reset_refl | exact I]. }
    rewrite clear_buddies_skip_step in E. cbv zeta in E.
    set (q := cfs_rq_of (se_at m p)) in *.
    destruct (ptr_eqb (skip (rq_at m q)) (Some p)) eqn:Eq; cbn [negb] in E.
    + apply IH in E. destruct E as [Hr _].
      pose proof (buddies_reset_trans _ _ _ (buddies_reset_skip m q) Hr) as Ht.
      split; [exact Ht |].
      destruct (buddies_reset_slots _ _ q Hr) as (_ & _ & [Hl | Hl]).
      * rewrite Hl, rq_at_upd_rq. destruct (rq_at m q); discriminate.
      * rewrite Hl. discriminate.
    + injection E as <-. split; [apply buddies_reset_refl |].
      intros C. apply ptr_eqb_eq in C. congruence.
Qed.

(** What [clear_buddies] does to the store when it returns. *)
Lemma clear_buddies_reset m q se m' :
  clear_buddies m q (Some se) = Some m' ->
  cfs_rq_of (se_at m se) = q ->
  buddies_reset m m' /\
  last (rq_at m' q) <> Some se /\
  next (rq_at m' q) <> Some se /\
  skip (rq_at m' q) <> Some se.
Proof.
  intros E Hq. unfold clear_buddies in E. cbv zeta in E.
  set (fuel := chain_fuel m (Some se)) in *.
  assert (S1 : exists m1,
            (if ptr_eqb (last (rq_at m q)) (Some se)
             then __clear_buddies_last fuel m (Some se) else Some m) = Some m1).
  { destruct (if ptr_eqb (last (rq_at m q)) (Some se)
              then __clear_buddies_last fuel m (Some se) else Some m)
      as [m1 |]; [exists m1; reflexivity | discriminate]. }
  destruct S1 as (m1 & E1). rewrite E1 in E.
  assert (H1 : buddies_reset m m1 /\ last (rq_at m1 q) <> Some se).
  { destruct (ptr_eqb (last (rq_at m q)) (Some se)) eqn:Eb.
    - apply clear_buddies_last_reset in E1. rewrite Hq in E1. exact E1.
    - injection E1 as <-. split; [apply buddies_reset_refl |].
      intros C. apply ptr_eqb_eq in C. congruence. }
  destruct H1 as [R1 L1].
  assert (S2 : exists m2,
            (if ptr_eqb (next (rq_at m1 q)) (Some se)
             then __clear_buddies_next fuel m1 (Some se) else Some m1)
            = Some m2).
  { destruct (if ptr_eqb (next (rq_at m1 q)) (Some se)
              then __clear_buddies_next fuel m1 (Some se) else Some m1)
      as [m2 |]; [exists m2; reflexivity | discriminate]. }
  destruct S2 as (m2 & E2). rewrite E2 in E.
  assert (Hq1 : cfs_rq_of (se_at m1 se) = q).
  { destruct R1 as [Ha _]. rewrite Ha. exact Hq. }
  assert (H2 : buddies_reset m1 m2 /\ next (rq_at m2 q) <> Some se).
  { destruct (ptr_eqb (next (rq_at m1 q)) (Some se)) eqn:Eb.
    - apply clear_buddies_next_reset in E2. rewrite Hq1 in E2. exact E2.
    - injection E2 as <-. split; [apply buddies_reset_refl |].
      intros C. apply ptr_eqb_eq in C. congruence. }
  destruct H2 as [R2 N2].
  assert (Hq2 : cfs_rq_of (se_at m2 se) = q).
  { destruct R2 as [Ha _]. rewrite Ha. exact Hq1. }
  assert (H3 : buddies_reset m2 m' /\ skip (rq_at m' q) <> Some se).
  { destruct (ptr_eqb (skip (rq_at m2 q)) (Some se)) eqn:Eb.
    - apply clear_buddies_skip_reset in E. rewrite Hq2 in E. exact E.
    - injection E as <-. split; [apply buddies_reset_refl |].
      intros C. apply ptr_eqb_eq in C. congruence. }
  destruct H3 as [R3 K3].
  split; [apply (buddies_reset_trans _ _ _ R1 (buddies_reset_trans _ _ _ R2 R3)) |].
  destruct (buddies_reset_slots _ _ q R2) as (_ & Hl2 & _).
  destruct (buddies_reset_slots _ _ q R3) as (Hn3 & Hl3 & _).
  split; [| split; [| exact K3]].
  - destruct Hl3 as [-> | ->]; [| discriminate].
    destruct Hl2 as [-> | ->]; [exact L1 | discriminate].
  - destruct Hn3 as [-> | ->]; [exact N2 | discriminate].
Qed.

(** X7.  [clear_buddies(cfs_rq_of(se), se)] always returns for an entity
    whose [depth] is the length of its parent chain, and afterwards none of
    the buddy pointers [last], [next], [skip] of the queue refers to [se].
    It writes nothing but buddy pointers, and a buddy pointer of any queue
    is left as it was or reset to null: no buddy is ever set. *)
Theorem X7_clear_buddies_forgets_entity m q se :
  chain_ok m se -> cfs_rq_of (se_at m se) = q ->
  exists m',
    clear_buddies m q (Some se) = Some m' /\
    last (rq_at m' q) <> Some se /\
    next (rq_at m' q) <> Some se /\
    skip (rq_at m' q) <> Some se /\
    buddies_only m m' /\
    (forall q',
       (next (rq_at m' q') = next (rq_at m q') \/ next (rq_at m' q') = None) /\
       (last (rq_at m' q') = last (rq_at m q') \/ last (rq_at m' q') = None) /\
       (skip (rq_at m' q') = skip (rq_at m q') \/ skip (rq_at m' q') = None)).
Proof.
  intros Hc Hq.
  destruct (clear_buddies_total m q (Some se) Hc) as (m' & E & Hb).
  exists m'. split; [exact E |].
  destruct (clear_buddies_reset m q se m' E Hq) as (R & L & N & K).
  split; [exact L |]. split; [exact N |]. split; [exact K |].
  split; [exact Hb |].
  intros q'. apply buddies_reset_slots. exact R.
Qed.

(** Witness of X7: the next buddy (task 2) of [buddy_queue]. *)
Lemma X7_clear_buddies_forgets_entity_witness :
  let m := buddy_queue in
  exists m',
    clear_buddies m 0%nat (Some 2%nat) = Some m' /\
    last (rq_at m' 0%nat) <> Some 2%nat /\
    next (rq_at m' 0%nat) <> Some 2%nat /\
    skip (rq_at m' 0%nat) <> Some 2%nat /\
    buddies_only m m' /\
    (forall q',
       (next (rq_at m' q') = next (rq_at m q') \/ next (rq_at m' q') = None) /\
       (last (rq_at m' q') = last (rq_at m q') \/ last (rq_at m' q') = None) /\
       (skip (rq_at m' q') = skip (rq_at m q') \/ skip (rq_at m' q') = None)).
Proof.
  intros m.
  apply (X7_clear_buddies_forgets_entity m 0%nat 2%nat); reflexivity.
Defined.

(** ** Enqueue and dequeue *)

Lemma same_accounts_refl m : same_accounts m m.
Proof. split; intros; repeat split; reflexivity. Qed.

Lemma same_accounts_trans m1 m2 m3 :
  same_accounts m1 m2 -> same_accounts m2 m3 -> same_accounts m1 m3.
Proof.
  intros [Ha Hq] [Ha' Hq']. split.
  - intros a. destruct (Ha a) as (A1 & A2 & A3 & A4).
    destruct (Ha' a) as (B1 & B2 & B3 & B4).
    repeat split; congruence.
  - intros q. destruct (Hq q) as (A1 & A2). destruct (Hq' q) as (B1 & B2).
    split; congruence.
Qed.

Lemma same_accounts_upd_se m p f :
  (forall e, parent (f e) = parent e /\ cfs_rq_of (f e) = cfs_rq_of e /\
             depth (f e) = depth e /\ weight (load (f e)) = weight (load e)) ->
  same_accounts m (upd_se m p f).
Proof.
  intros Hf. split.
  - intros a. destruct (Nat.eq_dec a p) as [-> | N].
    + rewrite se_at_upd_se. apply Hf.
    + rewrite se_at_upd_se_other by exact N. repeat split; reflexivity.
  - intros q. rewrite rq_at_upd_se. split; reflexivity.
Qed.

Lemma same_accounts_upd_rq m q f :
  (forall r, nr_running (f r) = nr_running r /\ rq_load (f r) = rq_load r) ->
  same_accounts m (upd_rq m q f).
Proof.
  intros Hf. split.
  - intros a. rewrite se_at_upd_rq. repeat split; reflexivity.
  - intros q'. destruct (Nat.eq_dec q' q) as [-> | N].
    + rewrite rq_at_upd_rq. apply Hf.
    + rewrite rq_at_upd_rq_other by exact N. split; reflexivity.
Qed.

Lemma same_accounts_set_vruntime m p g :
  same_accounts m (upd_se m p (fun e => set_vruntime (g e) e)).
Proof.
  apply same_accounts_upd_se. intros e. repeat split; reflexivity.
Qed.

Lemma same_accounts_calc_delta_fair m d p :
  same_accounts m (snd (calc_delta_fair m d p)).
Proof.
  unfold calc_delta_fair.
  destruct (negb (weight (load (se_at m p)) =? NICE_0_LOAD)).
  - destruct (__calc_delta d NICE_0_LOAD (load (se_at m p))) as [v lw] eqn:E.
    cbn [snd].
    pose proof (calc_delta_inverse d NICE_0_LOAD (load (se_at m p))) as [_ Hs].
    rewrite E in Hs. cbn [snd] in Hs.
    split.
    + intros a. destruct (Nat.eq_dec a p) as [-> | N].
      * rewrite se_at_upd_se.
        cbn [set_load parent cfs_rq_of depth load].
        repeat split; try reflexivity.
        rewrite Hs. apply update_inv_weight_weight.
      * rewrite se_at_upd_se_other by exact N. repeat split; reflexivity.
    + intros q. rewrite rq_at_upd_se. split; reflexivity.
  - apply same_accounts_refl.
Qed.

Lemma same_accounts_update_min_vruntime m q :
  same_accounts m (update_min_vruntime m q).
Proof.
  unfold update_min_vruntime. apply same_accounts_upd_rq.
  intros r. split; reflexivity.
Qed.

Lemma same_accounts_update_curr m q : same_accounts m (update_curr m q).
Proof.
  unfold update_curr. destruct (curr (rq_at m q)) as [c |];
    [| apply same_accounts_refl].
  match goal with |- context [if ?b then _ else _] => destruct b end;
    [apply same_accounts_refl |].
  set (m1 := upd_se m c (set_exec_start (clock_task (rq_at m q)))).
  assert (H1 : same_accounts m m1).
  { apply same_accounts_upd_se. intros e. repeat split; reflexivity. }
  match goal with
  | |- context [calc_delta_fair ?mm ?dd c] =>
      set (m2 := mm); set (dl := dd)
  end.
  assert (H2 : same_accounts m1 m2).
  { apply same_accounts_upd_se. intros e. repeat split; reflexivity. }
  pose proof (same_accounts_calc_delta_fair m2 dl c) as H3.
  destruct (calc_delta_fair m2 dl c) as [d m3]. cbn [snd] in H3.
  eapply same_accounts_trans; [exact H1 |].
  eapply same_accounts_trans; [exact H2 |].
  eapply same_accounts_trans; [exact H3 |].
  eapply same_accounts_trans; [| apply same_accounts_update_min_vruntime].
  apply same_accounts_set_vruntime.
Qed.

Lemma same_accounts_enqueue_tree m q se :
  same_accounts m (__enqueue_entity m q se).
Proof.
  unfold __enqueue_entity.
  destruct (rb_link m (tasks_timeline (rq_at m q)) se) as [t lm].
  apply same_accounts_upd_rq. intros r. split; reflexivity.
Qed.

Lemma same_accounts_dequeue_tree m q se :
  same_accounts m (__dequeue_entity m q se).
Proof.
  unfold __dequeue_entity. apply same_accounts_upd_rq.
  intros r. split; reflexivity.
Qed.

Lemma same_accounts_buddies m m' : buddies_only m m' -> same_accounts m m'.
Proof.
  intros [Ha Hq]. split.
  - intros a. rewrite Ha. repeat split; reflexivity.
  - intros q. destruct (Hq q) as (n & l & s & E). rewrite E.
    split; reflexivity.
Qed.

Lemma chain_len_unique m : forall k k' p,
  chain_len m k p -> chain_len m k' p -> k = k'.
Proof.
  induction k as [| k IH]; intros k' p H H'.
  - destruct k' as [| k']; [reflexivity |].
    cbn [chain_len] in H, H'. destruct H' as (pp & E & _). congruence.
  - destruct k' as [| k'].
    + cbn [chain_len] in H, H'. destruct H as (pp & E & _). congruence.
    + cbn [chain_len] in H, H'.
      destruct H as (pp & E & Hc). destruct H' as (pp' & E' & Hc').
      assert (pp' = pp) by congruence. subst pp'.
      f_equal. apply (IH k' pp Hc Hc').
Qed.

(** In a well-formed hierarchy the depth that [enqueue_entity] stores is
    the depth the entity has. *)
Lemma depth_of_parent m se :
  (forall p, chain_ok m p) ->
  match parent (se_at m se) with
  | Some pp => S (depth (se_at m pp))
  | None => O
  end = depth (se_at m se).
Proof.
  intros Hc. pose proof (Hc se) as Hs. unfold chain_ok in Hs.
  destruct (depth (se_at m se)) as [| k]; cbn [chain_len] in Hs.
  - rewrite Hs. reflexivity.
  - destruct Hs as (pp & E & Hk). rewrite E. f_equal.
    apply (chain_len_unique m (depth (se_at m pp)) k pp); [apply Hc | exact Hk].
Qed.

Lemma chain_ok_same_accounts m m' p :
  same_accounts m m' -> chain_ok m p -> chain_ok m' p.
Proof.
  intros [Ha _] Hc. unfold chain_ok in *.
  destruct (Ha p) as (_ & _ & Hd & _). rewrite Hd.
  apply (chain_len_parents m m'); [| exact Hc].
  intros a. apply Ha.
Qed.

Lemma set_depth_same e : set_depth (depth e) e = e.
Proof. destruct e; reflexivity. Qed.

(** [enqueue_entity] always returns; it leaves the hierarchy alone and adds
    the entity's weight and one to the accounts of the queue. *)
Lemma enqueue_entity_accounts sc ft m q se flags :
  (forall p, chain_ok m p) ->
  exists m1,
    enqueue_entity sc ft m q se flags = Some m1 /\
    on_rq (se_at m1 se) = true /\
    (forall a,
       parent (se_at m1 a) = parent (se_at m a) /\
       cfs_rq_of (se_at m1 a) = cfs_rq_of (se_at m a) /\
       depth (se_at m1 a) = depth (se_at m a) /\
       weight (load (se_at m1 a)) = weight (load (se_at m a))) /\
    nr_running (rq_at m1 q) = u32 (nr_running (rq_at m q) + 1) /\
    rq_load (rq_at m1 q) =
      update_load_add (rq_load (rq_at m q)) (weight (load (se_at m se))).
Proof.
  intros Hc. unfold enqueue_entity.
  set (m0 := if negb (ENQUEUE_WAKEUP flags) || ENQUEUE_WAKING flags
             then upd_se m se (fun e =>
                    set_vruntime (u64 (vruntime e + min_vruntime_of (rq_at m q))) e)
             else m).
  assert (H0 : same_accounts m m0).
  { unfold m0. destruct (negb (ENQUEUE_WAKEUP flags) || ENQUEUE_WAKING flags);
      [apply same_accounts_set_vruntime | apply same_accounts_refl]. }
  set (ma := update_curr m0 q).
  assert (Ha : same_accounts m ma).
  { eapply same_accounts_trans; [exact H0 | apply same_accounts_update_curr]. }
  set (mb := account_entity_enqueue ma q se).
  assert (Hb_se : forall a, se_at mb a = se_at ma a).
  { intros a. unfold mb, account_entity_enqueue. cbv zeta.
    rewrite !se_at_upd_rq. reflexivity. }
  assert (Hb_nr : nr_running (rq_at mb q) = u32 (nr_running (rq_at m q) + 1)).
  { unfold mb, account_entity_enqueue. cbv zeta. rewrite !rq_at_upd_rq.
    cbn [nr_running set_nr_running set_rq_load].
    destruct Ha as [_ Hq]. destruct (Hq q) as [-> _]. reflexivity. }
  assert (Hb_load : rq_load (rq_at mb q) =
            update_load_add (rq_load (rq_at m q)) (weight (load (se_at m se)))).
  { unfold mb, account_entity_enqueue. cbv zeta. rewrite !rq_at_upd_rq.
    cbn [rq_load set_nr_running set_rq_load].
    destruct Ha as [Hse Hq]. destruct (Hq q) as [_ ->].
    destruct (Hse se) as (_ & _ & _ & ->). reflexivity. }
  assert (Hplace : exists mc,
            (if ENQUEUE_WAKEUP flags
             then place_entity sc ft mb q se false else Some mb) = Some mc /\
            same_accounts mb mc).
  { destruct (ENQUEUE_WAKEUP flags).
    - rewrite place_entity_wakeup_value. eexists. split; [reflexivity |].
      apply same_accounts_set_vruntime.
    - exists mb. split; [reflexivity | apply same_accounts_refl]. }
  destruct Hplace as (mc & -> & Hcm).
  assert (Hc_se : forall a,
            parent (se_at mc a) = parent (se_at m a) /\
            cfs_rq_of (se_at mc a) = cfs_rq_of (se_at m a) /\
            depth (se_at mc a) = depth (se_at m a) /\
            weight (load (se_at mc a)) = weight (load (se_at m a))).
  { intros a. destruct Hcm as [Hx _]. destruct (Hx a) as (A1 & A2 & A3 & A4).
    rewrite Hb_se in A1, A2, A3, A4.
    destruct Ha as [Hy _]. destruct (Hy a) as (B1 & B2 & B3 & B4).
    repeat split; congruence. }
  set (d := match parent (se_at mc se) with
            | Some pp => S (depth (se_at mc pp))
            | None => O
            end).
  assert (Hd : d = depth (se_at mc se)).
  { unfold d. destruct (Hc_se se) as (-> & _ & -> & _).
    rewrite <- (depth_of_parent m se Hc).
    destruct (parent (se_at m se)) as [pp |]; [| reflexivity].
    destruct (Hc_se pp) as (_ & _ & -> & _). reflexivity. }
  set (md := upd_se mc se (set_depth d)).
  assert (Hmd : same_accounts mc md).
  { unfold md. split.
    - intros a. destruct (Nat.eq_dec a se) as [-> | N].
      + rewrite se_at_upd_se, Hd, set_depth_same. repeat split; reflexivity.
      + rewrite se_at_upd_se_other by exact N. repeat split; reflexivity.
    - intros q'. rewrite rq_at_upd_se. split; reflexivity. }
  set (me := if negb (ptr_eqb (Some se) (curr (rq_at md q)))
             then __enqueue_entity md q se else md).
  assert (Hme : same_accounts md me).
  { unfold me. destruct (negb (ptr_eqb (Some se) (curr (rq_at md q))));
      [apply same_accounts_enqueue_tree | apply same_accounts_refl]. }
  exists (upd_se me se (set_on_rq true)). split; [reflexivity |].
  assert (Hall : same_accounts mc (upd_se me se (set_on_rq true))).
  { eapply same_accounts_trans; [exact Hmd |].
    eapply same_accounts_trans; [exact Hme |].
    apply same_accounts_upd_se. intros e. repeat split; reflexivity. }
  split; [rewrite se_at_upd_se; reflexivity |].
  destruct Hall as [Hx Hy]. destruct Hcm as [_ Hz].
  split.
  - intros a. destruct (Hx a) as (A1 & A2 & A3 & A4).
    destruct (Hc_se a) as (B1 & B2 & B3 & B4). repeat split; congruence.
  - destruct (Hy q) as [-> ->]. destruct (Hz q) as [-> ->].
    split; [exact Hb_nr | exact Hb_load].
Qed.

(** [dequeue_entity] returns in a well-formed hierarchy; it takes the
    entity's weight and one off the accounts of the queue. *)
Lemma dequeue_entity_accounts m q se flags :
  (forall p, chain_ok m p) ->
  exists m2,
    dequeue_entity m q se flags = Some m2 /\
    on_rq (se_at m2 se) = false /\
    (forall a,
       parent (se_at m2 a) = parent (se_at m a) /\
       cfs_rq_of (se_at m2 a) = cfs_rq_of (se_at m a) /\
       depth (se_at m2 a) = depth (se_at m a) /\
       weight (load (se_at m2 a)) = weight (load (se_at m a))) /\
    nr_running (rq_at m2 q) = u32 (nr_running (rq_at m q) - 1) /\
    rq_load (rq_at m2 q) =
      update_load_sub (rq_load (rq_at m q)) (weight (load (se_at m se))).
Proof.
  intros Hc. unfold dequeue_entity.
  set (ma := update_curr m q).
  assert (Ha : same_accounts m ma) by apply same_accounts_update_curr.
  destruct (clear_buddies_total ma q (Some se)) as (mb & -> & Hb).
  { apply (chain_ok_same_accounts m ma se Ha). apply Hc. }
  apply same_accounts_buddies in Hb.
  set (mc := if negb (ptr_eqb (Some se) (curr (rq_at mb q)))
             then __dequeue_entity mb q se else mb).
  assert (Hmc : same_accounts mb mc).
  { unfold mc. destruct (negb (ptr_eqb (Some se) (curr (rq_at mb q))));
      [apply same_accounts_dequeue_tree | apply same_accounts_refl]. }
  set (md := upd_se mc se (set_on_rq false)).
  assert (Hmd : same_accounts mc md).
  { apply same_accounts_upd_se. intros e. repeat split; reflexivity. }
  assert (Hd : same_accounts m md).
  { eapply same_accounts_trans; [exact Ha |].
    eapply same_accounts_trans; [exact Hb |].
    eapply same_accounts_trans; [exact Hmc | exact Hmd]. }
  set (me := account_entity_dequeue md q se).
  assert (He_se : forall a, se_at me a = se_at md a).
  { intros a. unfold me, account_entity_dequeue. cbv zeta.
    rewrite !se_at_upd_rq. reflexivity. }
  assert (He_nr : nr_running (rq_at me q) = u32 (nr_running (rq_at m q) - 1)).
  { unfold me, account_entity_dequeue. cbv zeta. rewrite !rq_at_upd_rq.
    cbn [nr_running set_nr_running set_rq_load].
    destruct Hd as [_ Hq]. destruct (Hq q) as [-> _]. reflexivity. }
  assert (He_load : rq_load (rq_at me q) =
            update_load_sub (rq_load (rq_at m q)) (weight (load (se_at m se)))).
  { unfold me, account_entity_dequeue. cbv zeta. rewrite !rq_at_upd_rq.
    cbn [rq_load set_nr_running set_rq_load].
    destruct Hd as [Hse Hq]. destruct (Hq q) as [_ ->].
    destruct (Hse se) as (_ & _ & _ & ->). reflexivity. }
  set (mf := if negb (DEQUEUE_SLEEP flags)
             then upd_se me se (fun e =>
                    set_vruntime (u64 (vruntime e - min_vruntime_of (rq_at me q))) e)
             else me).
  assert (Hmf : same_accounts me mf).
  { unfold mf. destruct (negb (DEQUEUE_SLEEP flags));
      [apply same_accounts_set_vruntime | apply same_accounts_refl]. }
  exists (update_min_vruntime mf q). split; [reflexivity |].
  assert (Hall : same_accounts me (update_min_vruntime mf q)).
  { eapply same_accounts_trans;
      [exact Hmf | apply same_accounts_update_min_vruntime]. }
  split.
  - unfold update_min_vruntime. rewrite se_at_upd_rq.
    unfold mf. destruct (negb (DEQUEUE_SLEEP flags)).
    + rewrite se_at_upd_se. cbn [on_rq set_vruntime].
      rewrite He_se. unfold md. rewrite se_at_upd_se. reflexivity.
    + rewrite He_se. unfold md. rewrite se_at_upd_se. reflexivity.
  - destruct Hall as [Hx Hy]. split.
    + intros a. destruct (Hx a) as (A1 & A2 & A3 & A4).
      rewrite He_se in A1, A2, A3, A4.
      destruct Hd as [Hz _]. destruct (Hz a) as (B1 & B2 & B3 & B4).
      repeat split; congruence.
    + destruct (Hy q) as [-> ->]. split; [exact He_nr | exact He_load].
Qed.

Lemma chain_ok_fields m m' :
  (forall a, parent (se_at m' a) = parent (se_at m a) /\
             cfs_rq_of (se_at m' a) = cfs_rq_of (se_at m a) /\
             depth (se_at m' a) = depth (se_at m a) /\
             weight (load (se_at m' a)) = weight (load (se_at m a))) ->
  (forall p, chain_ok m p) -> forall p, chain_ok m' p.
Proof.
  intros Hf Hc p. unfold chain_ok.
  destruct (Hf p) as (_ & _ & -> & _).
  apply (chain_len_parents m m'); [| apply Hc].
  intros a. apply Hf.
Qed.

(** X8.  In a well-formed hierarchy [enqueue_entity] and [dequeue_entity]
    always return.  Enqueueing marks the entity as queued and adds its
    weight and one to the load and the running count of the queue;
    dequeueing it again marks it as not queued and restores both, so the
    accounts of a queue are the same after an entity has come and gone
    (the cached inverse of the load is invalidated). *)
Theorem X8_enqueue_dequeue_accounts sc ft m q se fl fl' :
  (forall p, chain_ok m p) ->
  is_u64 (weight (rq_load (rq_at m q))) ->
  is_u32 (nr_running (rq_at m q)) ->
  exists m1 m2,
    enqueue_entity sc ft m q se fl = Some m1 /\
    dequeue_entity m1 q se fl' = Some m2 /\
    on_rq (se_at m1 se) = true /\
    nr_running (rq_at m1 q) = u32 (nr_running (rq_at m q) + 1) /\
    weight (rq_load (rq_at m1 q)) =
      u64 (weight (rq_load (rq_at m q)) + weight (load (se_at m se))) /\
    on_rq (se_at m2 se) = false /\
    nr_running (rq_at m2 q) = nr_running (rq_at m q) /\
    weight (rq_load (rq_at m2 q)) = weight (rq_load (rq_at m q)) /\
    inv_weight (rq_load (rq_at m2 q)) = 0.
Proof.
  intros Hc HW Hn.
  destruct (enqueue_entity_accounts sc ft m q se fl Hc)
    as (m1 & E1 & Hon1 & Hf1 & Hnr1 & Hl1).
  pose proof (chain_ok_fields m m1 Hf1 Hc) as Hc1.
  destruct (dequeue_entity_accounts m1 q se fl' Hc1)
    as (m2 & E2 & Hon2 & Hf2 & Hnr2 & Hl2).
  exists m1, m2.
  split; [exact E1 |]. split; [exact E2 |]. split; [exact Hon1 |].
  split; [exact Hnr1 |].
  split; [rewrite Hl1; reflexivity |].
  split; [exact Hon2 |].
  destruct (Hf1 se) as (_ & _ & _ & Hw1).
  split; [| split].
  - rewrite Hnr2, Hnr1. unfold u32.
    rewrite Zminus_mod_idemp_l.
    replace (nr_running (rq_at m q) + 1 - 1) with (nr_running (rq_at m q))
      by lia.
    apply Z.mod_small. exact Hn.
  - rewrite Hl2, Hl1, Hw1. cbn [weight update_load_sub update_load_add].
    unfold u64. rewrite Zminus_mod_idemp_l.
    replace (weight (rq_load (rq_at m q)) + weight (load (se_at m se))
             - weight (load (se_at m se)))
      with (weight (rq_load (rq_at m q))) by lia.
    apply Z.mod_small. exact HW.
  - rewrite Hl2. reflexivity.
Qed.

(** Witness of X8: a fifth nice-0 task (address 7, not queued) woken onto
    the queue of [nice0_tasks 4] and put to sleep again. *)
Lemma X8_enqueue_dequeue_accounts_witness :
  let sc := default_sysctl in
  let ft := mk_features true true false in
  let m := upd_se (nice0_tasks 4) 7%nat (set_on_rq false) in
  exists m1 m2,
    enqueue_entity sc ft m 0%nat 7%nat (mk_enq_flags true false false)
      = Some m1 /\
    dequeue_entity m1 0%nat 7%nat (mk_deq_flags true false) = Some m2 /\
    on_rq (se_at m1 7%nat) = true /\
    nr_running (rq_at m1 0%nat) = u32 (nr_running (rq_at m 0%nat) + 1) /\
    weight (rq_load (rq_at m1 0%nat)) =
      u64 (weight (rq_load (rq_at m 0%nat)) + weight (load (se_at m 7%nat))) /\
    on_rq (se_at m2 7%nat) = false /\
    nr_running (rq_at m2 0%nat) = nr_running (rq_at m 0%nat) /\
    weight (rq_load (rq_at m2 0%nat)) = weight (rq_load (rq_at m 0%nat)) /\
    inv_weight (rq_load (rq_at m2 0%nat)) = 0.
Proof.
  intros sc ft m.
  apply (X8_enqueue_dequeue_accounts sc ft m 0%nat 7%nat).
  - intros p. unfold chain_ok, m.
    destruct (Nat.eq_dec p 7) as [-> | N].
    + reflexivity.
    + rewrite se_at_upd_se_other by exact N.
      change (chain_len (upd_se (nice0_tasks 4) 7%nat (set_on_rq false)) 0 p).
      cbn [chain_len]. rewrite se_at_upd_se_other by exact N. reflexivity.
  - unfold is_u64. cbn. lia.
  - unfold is_u32. cbn. lia.
Defined.

(** ** The timeline and its leftmost cache *)

(** Where [rb_link] hangs the new node, whatever the keys are: the flag
    tells whether it became the first node. *)
Lemma rb_link_inorder m se : forall t,
  exists l1 l2,
    inorder t = l1 ++ l2 /\
    inorder (fst (rb_link m t se)) = l1 ++ se :: l2 /\
    (snd (rb_link m t se) = true <-> l1 = []).
Proof.
  induction t as [| l IHl e r IHr].
  - exists [], []. cbn. repeat split; reflexivity.
  - cbn [rb_link].
    destruct (entity_before (se_at m se) (se_at m e)).
    + destruct IHl as (l1 & l2 & E & E' & Hf).
      destruct (rb_link m l se) as [l' f]. cbn [fst snd] in *.
      exists l1, (l2 ++ e :: inorder r). cbn [inorder].
      rewrite E, E'. rewrite <- !app_assoc. cbn [app].
      repeat split; try reflexivity; apply Hf.
    + destruct IHr as (l1 & l2 & E & E' & Hf).
      destruct (rb_link m r se) as [r' f]. cbn [fst snd] in *.
      exists (inorder l ++ e :: l1), l2. cbn [inorder].
      rewrite E, E'. rewrite <- !app_assoc. cbn [app].
      split; [reflexivity |]. split; [reflexivity |].
      split; [discriminate |].
      intros C. destruct (inorder l); discriminate C.
Qed.

Lemma inorder_rb_join l r : inorder (rb_join l r) = inorder l ++ inorder r.
Proof.
  induction l as [| ll IHl e lr IHr]; [reflexivity |].
  cbn [rb_join inorder]. rewrite IHr. rewrite <- app_assoc. reflexivity.
Qed.

Lemma filter_absent se l :
  ~ In se l -> filter (fun x => negb (Nat.eqb x se)) l = l.
Proof.
  induction l as [| x l IH]; intros H; [reflexivity |].
  cbn [filter]. destruct (Nat.eqb_spec x se) as [-> | N].
  - exfalso. apply H. left. reflexivity.
  - cbn [negb]. f_equal. apply IH. intros C. apply H. right. exact C.
Qed.

Lemma filter_present se l : ~ In se (filter (fun x => negb (Nat.eqb x se)) l).
Proof.
  intros C. apply filter_In in C. destruct C as [_ C].
  rewrite Nat.eqb_refl in C. discriminate.
Qed.

Lemma inorder_rb_erase se : forall t,
  NoDup (inorder t) ->
  inorder (rb_erase t se) = filter (fun x => negb (Nat.eqb x se)) (inorder t).
Proof.
  induction t as [| l IHl e r IHr]; intros Hn; [reflexivity |].
  cbn [inorder] in Hn.
  pose proof (NoDup_remove_1 _ _ _ Hn) as Hlr.
  pose proof (NoDup_remove_2 _ _ _ Hn) as He.
  assert (Hl : NoDup (inorder l)) by (apply (NoDup_app_remove_r _ _ Hlr)).
  assert (Hr : NoDup (inorder r)) by (apply (NoDup_app_remove_l _ _ Hlr)).
  cbn [rb_erase inorder]. rewrite filter_app. cbn [filter].
  destruct (Nat.eqb_spec e se) as [-> | N].
  - cbn [negb]. rewrite inorder_rb_join.
    rewrite !filter_absent; [reflexivity | |];
      intros C; apply He; apply in_or_app; [right | left]; exact C.
  - cbn [negb inorder]. rewrite IHl, IHr by assumption. reflexivity.
Qed.

Lemma successor_head se l : successor (se :: l) se = hd_error l.
Proof. cbn [successor]. rewrite Nat.eqb_refl. reflexivity. Qed.

Lemma NoDup_filter_neq se (l : list ptr) :
  NoDup l -> NoDup (filter (fun x => negb (Nat.eqb x se)) l).
Proof.
  induction 1 as [| x l Hx Hn IH]; [constructor |].
  cbn [filter]. destruct (negb (Nat.eqb x se)); [| exact IH].
  constructor; [| exact IH].
  intros C. apply filter_In in C. apply Hx. apply C.
Qed.

(** [__dequeue_entity] on a timeline without repetitions whose leftmost
    cache is right. *)
Lemma dequeue_entity_timeline m q se :
  NoDup (inorder (tasks_timeline (rq_at m q))) ->
  rb_leftmost (rq_at m q) = hd_error (inorder (tasks_timeline (rq_at m q))) ->
  let r' := rq_at (__dequeue_entity m q se) q in
  inorder (tasks_timeline r') =
    filter (fun x => negb (Nat.eqb x se))
      (inorder (tasks_timeline (rq_at m q))) /\
  rb_leftmost r' = hd_error (inorder (tasks_timeline r')).
Proof.
  intros Hn Hl. cbv zeta. unfold __dequeue_entity. rewrite rq_at_upd_rq.
  cbn [tasks_timeline rb_leftmost set_timeline].
  rewrite (inorder_rb_erase se _ Hn). split; [reflexivity |].
  unfold rb_next. rewrite Hl.
  destruct (inorder (tasks_timeline (rq_at m q))) as [| x l] eqn:E.
  - reflexivity.
  - cbn [hd_error ptr_eqb filter].
    destruct (Nat.eqb_spec x se) as [-> | N].
    + cbn [negb]. rewrite successor_head.
      rewrite filter_absent; [reflexivity |].
      inversion Hn; assumption.
    + cbn [negb hd_error]. reflexivity.
Qed.

(** X9.  On a timeline without repeated nodes whose cached leftmost node is
    its first node, [__dequeue_entity] takes out exactly the given entity,
    keeps the order of the others and keeps the cache right (the next node
    takes over when the leftmost one goes).  [__enqueue_entity] followed by
    [__dequeue_entity] of an entity that was not queued gives back the
    sequence of nodes and the cache. *)
Theorem X9_dequeue_keeps_timeline m q se :
  NoDup (inorder (tasks_timeline (rq_at m q))) ->
  rb_leftmost (rq_at m q) = hd_error (inorder (tasks_timeline (rq_at m q))) ->
  let t := tasks_timeline (rq_at m q) in
  let r' := rq_at (__dequeue_entity m q se) q in
  let r'' := rq_at (__dequeue_entity (__enqueue_entity m q se) q se) q in
  inorder (tasks_timeline r') =
    filter (fun x => negb (Nat.eqb x se)) (inorder t) /\
  ~ In se (inorder (tasks_timeline r')) /\
  NoDup (inorder (tasks_timeline r')) /\
  rb_leftmost r' = hd_error (inorder (tasks_timeline r')) /\
  (~ In se (inorder t) ->
   inorder (tasks_timeline r') = inorder t /\
   In se (inorder (tasks_timeline (rq_at (__enqueue_entity m q se) q))) /\
   inorder (tasks_timeline r'') = inorder t /\
   rb_leftmost r'' = rb_leftmost (rq_at m q)).
Proof.
  intros Hn Hl. cbv zeta.
  destruct (dequeue_entity_timeline m q se Hn Hl) as [E1 E2].
  split; [exact E1 |].
  split; [rewrite E1; apply filter_present |].
  split; [rewrite E1; apply NoDup_filter_neq; exact Hn |].
  split; [exact E2 |].
  intros Hout.
  split; [rewrite E1; apply filter_absent; exact Hout |].
  set (m1 := __enqueue_entity m q se).
  destruct (rb_link_inorder m se (tasks_timeline (rq_at m q)))
    as (l1 & l2 & Et & El & Hf).
  assert (Et1 : inorder (tasks_timeline (rq_at m1 q)) = l1 ++ se :: l2).
  { unfold m1, __enqueue_entity.
    destruct (rb_link m (tasks_timeline (rq_at m q)) se) as [t' f].
    rewrite rq_at_upd_rq. cbn [tasks_timeline set_timeline rb_insert_color].
    exact El. }
  assert (Ec1 : rb_leftmost (rq_at m1 q) = hd_error (l1 ++ se :: l2)).
  { unfold m1, __enqueue_entity.
    destruct (rb_link m (tasks_timeline (rq_at m q)) se) as [t' f].
    rewrite rq_at_upd_rq. cbn [rb_leftmost set_timeline]. cbn [snd] in Hf.
    destruct f.
    - rewrite (proj1 Hf eq_refl). reflexivity.
    - rewrite Hl, Et. destruct l1 as [| x l1]; [| reflexivity].
      destruct Hf as [_ Hf]. discriminate (Hf eq_refl). }
  rewrite Et in Hout.
  assert (Hn1 : NoDup (l1 ++ se :: l2)).
  { apply NoDup_Add with (a := se) (l := l1 ++ l2).
    - apply Add_app.
    - split; [rewrite <- Et; exact Hn | exact Hout]. }
  split; [rewrite Et1; apply in_or_app; right; left; reflexivity |].
  rewrite <- Et1 in Hn1, Ec1.
  destruct (dequeue_entity_timeline m1 q se Hn1 Ec1) as [F1 F2].
  rewrite Et1 in F1. rewrite filter_app in F1. cbn [filter] in F1.
  rewrite Nat.eqb_refl in F1. cbn [negb] in F1.
  rewrite !filter_absent in F1
    by (intros C; apply Hout; apply in_or_app; auto).
  split; [rewrite F1, Et; reflexivity |].
  rewrite F2, F1, Hl, Et. reflexivity.
Qed.

(** Witness of X9: task 2, the middle node of the timeline of
    [buddy_queue]. *)
Lemma X9_dequeue_keeps_timeline_witness :
  let m := buddy_queue in
  let t := tasks_timeline (rq_at m 0%nat) in
  let r' := rq_at (__dequeue_entity m 0%nat 2%nat) 0%nat in
  let r'' := rq_at (__dequeue_entity (__enqueue_entity m 0%nat 2%nat)
                      0%nat 2%nat) 0%nat in
  inorder (tasks_timeline r') =
    filter (fun x => negb (Nat.eqb x 2%nat)) (inorder t) /\
  ~ In 2%nat (inorder (tasks_timeline r')) /\
  NoDup (inorder (tasks_timeline r')) /\
  rb_leftmost r' = hd_error (inorder (tasks_timeline r')) /\
  (~ In 2%nat (inorder t) ->
   inorder (tasks_timeline r') = inorder t /\
   In 2%nat (inorder (tasks_timeline
                        (rq_at (__enqueue_entity m 0%nat 2%nat) 0%nat))) /\
   inorder (tasks_timeline r'') = inorder t /\
   rb_leftmost r'' = rb_leftmost (rq_at m 0%nat)).
Proof.
  intros m.
  apply (X9_dequeue_keeps_timeline m 0%nat 2%nat).
  - cbn. repeat constructor; cbn; intuition discriminate.
  - reflexivity.
Defined.

(** ** The running entity and the timeline *)

(** [__enqueue_entity] on a timeline whose leftmost cache is right. *)
Lemma enqueue_entity_timeline m q se :
  rb_leftmost (rq_at m q) = hd_error (inorder (tasks_timeline (rq_at m q))) ->
  exists l1 l2,
    let r' := rq_at (__enqueue_entity m q se) q in
    inorder (tasks_timeline (rq_at m q)) = l1 ++ l2 /\
    inorder (tasks_timeline r') = l1 ++ se :: l2 /\
    rb_leftmost r' = hd_error (l1 ++ se :: l2) /\
    curr r' = curr (rq_at m q).
Proof.
  intros Hl.
  destruct (rb_link_inorder m se (tasks_timeline (rq_at m q)))
    as (l1 & l2 & Et & El & Hf).
  exists l1, l2. cbv zeta. unfold __enqueue_entity.
  destruct (rb_link m (tasks_timeline (rq_at m q)) se) as [t' f].
  rewrite rq_at_upd_rq.
  cbn [tasks_timeline rb_leftmost curr set_timeline rb_insert_color].
  cbn [fst snd] in El, Hf.
  split; [exact Et |]. split; [exact El |]. split; [| reflexivity].
  destruct f.
  - rewrite (proj1 Hf eq_refl). reflexivity.
  - rewrite Hl, Et. destruct l1 as [| x l1]; [| reflexivity].
    destruct Hf as [_ Hf]. discriminate (Hf eq_refl).
Qed.

Lemma set_min_vruntime_same r : set_min_vruntime (min_vruntime_of r) r = r.
Proof. destruct r; reflexivity. Qed.

(** [update_curr] writes no field of a queue but [min_vruntime], and never
    the [on_rq] flag of an entity. *)
Lemma update_curr_queues m q q' :
  exists v, rq_at (update_curr m q) q' = set_min_vruntime v (rq_at m q').
Proof.
  unfold update_curr.
  destruct (curr (rq_at m q)) as [c |].
  2: { exists (min_vruntime_of (rq_at m q')). rewrite set_min_vruntime_same.
       reflexivity. }
  match goal with |- context [if ?b then _ else _] => destruct b end.
  { exists (min_vruntime_of (rq_at m q')). rewrite set_min_vruntime_same.
    reflexivity. }
  match goal with
  | |- context [calc_delta_fair ?mm ?dd c] =>
      set (m2 := mm); set (dl := dd)
  end.
  pose proof (rq_at_calc_delta_fair m2 dl c) as Hrq.
  destruct (calc_delta_fair m2 dl c) as [d m3]. cbn [snd] in Hrq.
  unfold update_min_vruntime.
  destruct (Nat.eq_dec q' q) as [-> | N].
  - rewrite rq_at_upd_rq, rq_at_upd_se, Hrq. unfold m2.
    rewrite !rq_at_upd_se. eexists. reflexivity.
  - rewrite rq_at_upd_rq_other by exact N.
    rewrite rq_at_upd_se, Hrq. unfold m2. rewrite !rq_at_upd_se.
    exists (min_vruntime_of (rq_at m q')). rewrite set_min_vruntime_same.
    reflexivity.
Qed.

Lemma calc_delta_fair_on_rq m d p a :
  on_rq (se_at (snd (calc_delta_fair m d p)) a) = on_rq (se_at m a).
Proof.
  unfold calc_delta_fair.
  destruct (negb (weight (load (se_at m p)) =? NICE_0_LOAD)); [| reflexivity].
  destruct (__calc_delta d NICE_0_LOAD (load (se_at m p))) as [v lw].
  cbn [snd]. destruct (Nat.eq_dec a p) as [-> | N].
  - rewrite se_at_upd_se. reflexivity.
  - rewrite se_at_upd_se_other by exact N. reflexivity.
Qed.

Lemma upd_se_on_rq m p f a :
  (forall e, on_rq (f e) = on_rq e) ->
  on_rq (se_at (upd_se m p f) a) = on_rq (se_at m a).
Proof.
  intros Hf. destruct (Nat.eq_dec a p) as [-> | N].
  - rewrite se_at_upd_se. apply Hf.
  - rewrite se_at_upd_se_other by exact N. reflexivity.
Qed.

Lemma update_curr_on_rq m q a :
  on_rq (se_at (update_curr m q) a) = on_rq (se_at m a).
Proof.
  unfold update_curr.
  destruct (curr (rq_at m q)) as [c |]; [| reflexivity].
  match goal with |- context [if ?b then _ else _] => destruct b end;
    [reflexivity |].
  match goal with
  | |- context [calc_delta_fair ?mm ?dd c] =>
      set (m2 := mm); set (dl := dd)
  end.
  pose proof (calc_delta_fair_on_rq m2 dl c a) as H3.
  destruct (calc_delta_fair m2 dl c) as [d m3]. cbn [snd] in H3.
  unfold update_min_vruntime. rewrite se_at_upd_rq.
  rewrite upd_se_on_rq by reflexivity. rewrite H3. unfold m2.
  rewrite !upd_se_on_rq by reflexivity. reflexivity.
Qed.

(** X10.  "'current' is not kept within the tree": on a timeline without
    repeated nodes whose leftmost cache is right, [set_next_entity] makes a
    queued entity the running one, takes it out of the timeline, leaves the
    other nodes in their order and the cache right, and starts its slice
    ([exec_start] is the clock and the elapsed slice
    [sum_exec_runtime - prev_sum_exec_runtime] is 0).  [put_prev_entity]
    puts it back: no entity is running, the timeline has the entity once
    more among the same other nodes, and the cache is right again. *)
Theorem X10_running_entity_leaves_the_tree m q se :
  NoDup (inorder (tasks_timeline (rq_at m q))) ->
  rb_leftmost (rq_at m q) = hd_error (inorder (tasks_timeline (rq_at m q))) ->
  on_rq (se_at m se) = true ->
  let others := filter (fun x => negb (Nat.eqb x se)) in
  let m1 := set_next_entity m q se in
  let m2 := put_prev_entity m1 q se in
  let t1 := inorder (tasks_timeline (rq_at m1 q)) in
  let t2 := inorder (tasks_timeline (rq_at m2 q)) in
  (curr (rq_at m1 q) = Some se /\
   ~ In se t1 /\
   t1 = others (inorder (tasks_timeline (rq_at m q))) /\
   rb_leftmost (rq_at m1 q) = hd_error t1 /\
   exec_start (se_at m1 se) = clock_task (rq_at m q) /\
   prev_sum_exec_runtime (se_at m1 se) = sum_exec_runtime (se_at m1 se)) /\
  (curr (rq_at m2 q) = None /\
   In se t2 /\ NoDup t2 /\
   others t2 = others (inorder (tasks_timeline (rq_at m q))) /\
   rb_leftmost (rq_at m2 q) = hd_error t2).
Proof.
  intros Hn Hl Hon. cbv zeta.
  destruct (dequeue_entity_timeline m q se Hn Hl) as [E1 E2].
  set (md := __dequeue_entity m q se) in *.
  assert (Hm1 : set_next_entity m q se =
            upd_se (upd_rq (upd_se md se (set_exec_start (clock_task (rq_at md q))))
                      q (set_curr (Some se)))
              se (fun e => set_prev_sum_exec_runtime (sum_exec_runtime e) e)).
  { unfold set_next_entity. rewrite Hon. reflexivity. }
  set (m1 := set_next_entity m q se) in *.
  assert (Hrq1 : rq_at m1 q = set_curr (Some se) (rq_at md q)).
  { rewrite Hm1. rewrite rq_at_upd_se, rq_at_upd_rq, rq_at_upd_se.
    reflexivity. }
  assert (Hclock : clock_task (rq_at md q) = clock_task (rq_at m q)).
  { unfold md, __dequeue_entity. rewrite rq_at_upd_rq. reflexivity. }
  assert (Hse1 : se_at m1 se =
            set_prev_sum_exec_runtime (sum_exec_runtime (se_at m se))
              (set_exec_start (clock_task (rq_at m q)) (se_at m se))).
  { rewrite Hm1. rewrite se_at_upd_se, se_at_upd_rq, se_at_upd_se.
    rewrite Hclock. unfold md, __dequeue_entity. rewrite se_at_upd_rq.
    reflexivity. }
  assert (Ht1 : inorder (tasks_timeline (rq_at m1 q)) =
                filter (fun x => negb (Nat.eqb x se))
                  (inorder (tasks_timeline (rq_at m q)))).
  { rewrite Hrq1. exact E1. }
  assert (Hc1 : rb_leftmost (rq_at m1 q) =
                hd_error (inorder (tasks_timeline (rq_at m1 q)))).
  { rewrite Hrq1. exact E2. }
  split.
  - split; [rewrite Hrq1; reflexivity |].
    split; [rewrite Ht1; apply filter_present |].
    split; [exact Ht1 |]. split; [exact Hc1 |].
    rewrite Hse1. split; reflexivity.
  - assert (Hon1 : on_rq (se_at m1 se) = true).
    { rewrite Hse1. exact Hon. }
    unfold put_prev_entity. rewrite Hon1.
    rewrite update_curr_on_rq, Hon1.
    set (ma := update_curr m1 q).
    destruct (update_curr_queues m1 q q) as (v & Hv). fold ma in Hv.
    assert (Hta : inorder (tasks_timeline (rq_at ma q)) =
                  inorder (tasks_timeline (rq_at m1 q))).
    { rewrite Hv. reflexivity. }
    assert (Hca : rb_leftmost (rq_at ma q) =
                  hd_error (inorder (tasks_timeline (rq_at ma q)))).
    { rewrite Hta, Hv. exact Hc1. }
    destruct (enqueue_entity_timeline ma q se Hca)
      as (l1 & l2 & Ea & Eb & Ec & _).
    rewrite rq_at_upd_rq. cbn [curr tasks_timeline rb_leftmost set_curr].
    rewrite Eb, Ec.
    rewrite Hta, Ht1 in Ea.
    assert (Hout : ~ In se (l1 ++ l2)).
    { rewrite <- Ea. apply filter_present. }
    split; [reflexivity |].
    split; [apply in_or_app; right; left; reflexivity |].
    split.
    + apply NoDup_Add with (a := se) (l := l1 ++ l2); [apply Add_app |].
      split; [| exact Hout].
      rewrite <- Ea. apply NoDup_filter_neq. exact Hn.
    + split; [| reflexivity].
      rewrite filter_app. cbn [filter]. rewrite Nat.eqb_refl. cbn [negb].
      rewrite !filter_absent
        by (intros C; apply Hout; apply in_or_app; auto).
      symmetry. exact Ea.
Qed.

(** Witness of X10: the leftmost task of [buddy_queue] is picked to run and
    put back. *)
Lemma X10_running_entity_leaves_the_tree_witness :
  let m := buddy_queue in
  let others := filter (fun x => negb (Nat.eqb x 1%nat)) in
  let m1 := set_next_entity m 0%nat 1%nat in
  let m2 := put_prev_entity m1 0%nat 1%nat in
  let t1 := inorder (tasks_timeline (rq_at m1 0%nat)) in
  let t2 := inorder (tasks_timeline (rq_at m2 0%nat)) in
  (curr (rq_at m1 0%nat) = Some 1%nat /\
   ~ In 1%nat t1 /\
   t1 = others (inorder (tasks_timeline (rq_at m 0%nat))) /\
   rb_leftmost (rq_at m1 0%nat) = hd_error t1 /\
   exec_start (se_at m1 1%nat) = clock_task (rq_at m 0%nat) /\
   prev_sum_exec_runtime (se_at m1 1%nat) = sum_exec_runtime (se_at m1 1%nat)) /\
  (curr (rq_at m2 0%nat) = None /\
   In 1%nat t2 /\ NoDup t2 /\
   others t2 = others (inorder (tasks_timeline (rq_at m 0%nat))) /\
   rb_leftmost (rq_at m2 0%nat) = hd_error t2).
Proof.
  intros m.
  apply (X10_running_entity_leaves_the_tree m 0%nat 1%nat).
  - cbn. repeat constructor; cbn; intuition discriminate.
  - reflexivity.
  - reflexivity.
Defined.

(** ** The periodic tick *)

(** X11.  For an entity of the root group's queue (an entity without a
    parent, where [update_cfs_shares] returns at once), [entity_tick]
    always returns when the timeline is not empty whenever more than one
    entity is runnable.  A tick never withdraws a pending request
    to reschedule, and a queued high-resolution tick always asks for one.
    When the high-resolution tick does not take over (the tick is not a
    queued one, and DOUBLE_TICK is on or the hrtick timer is not active)
    and more than one entity is runnable, an entity that, once
    [update_curr] has charged it, has run for longer than its
    [sched_slice] is marked for rescheduling. *)
Theorem X11_entity_tick_decision sc hr m q c queued :
  chain_ok m c -> parent (se_at m c) = None ->
  (1 < nr_running (rq_at m q) -> exists l, __pick_first_entity m q = Some l) ->
  exists m' ideal ms,
    entity_tick sc hr m q c queued = Some m' /\
    sched_slice sc (update_curr m q) q c = Some (ideal, ms) /\
    (need_resched (rq_at m q) = true -> need_resched (rq_at m' q) = true) /\
    (hrtick_enabled hr && queued = true -> need_resched (rq_at m' q) = true) /\
    (hrtick_enabled hr && queued = false ->
     hrtick_enabled hr && negb (DOUBLE_TICK hr) && hrtick_timer_active hr
       = false ->
     1 < nr_running (rq_at m q) ->
     let e := se_at (update_curr m q) c in
     ideal < u64 (sum_exec_runtime e - prev_sum_exec_runtime e) ->
     need_resched (rq_at m' q) = true).
Proof.
  intros Hc _ Hl. unfold entity_tick.
  set (m0 := update_curr m q).
  destruct (update_curr_queues m q q) as (v & Hv). fold m0 in Hv.
  assert (Hnr : nr_running (rq_at m0 q) = nr_running (rq_at m q))
    by (rewrite Hv; reflexivity).
  assert (Hres : need_resched (rq_at m0 q) = need_resched (rq_at m q))
    by (rewrite Hv; reflexivity).
  assert (Hc0 : chain_ok m0 c).
  { apply (chain_ok_same_accounts m m0 c);
      [apply same_accounts_update_curr | exact Hc]. }
  destruct (sched_slice_total sc m0 q c Hc0) as (ideal & ms & Es & Hse & Hrq).
  destruct (hrtick_enabled hr && queued) eqn:Eq.
  - eexists. exists ideal, ms. split; [reflexivity |]. split; [exact Es |].
    rewrite rq_at_upd_rq. cbn [need_resched resched_curr].
    split; [reflexivity |]. split; [reflexivity |]. discriminate.
  - destruct (hrtick_enabled hr && negb (DOUBLE_TICK hr)
              && hrtick_timer_active hr).
    + exists m0, ideal, ms. split; [reflexivity |]. split; [exact Es |].
      rewrite Hres. split; [intros H; exact H |]. split; [discriminate |].
      intros _ C. discriminate C.
    + rewrite Hnr.
      destruct (Z.ltb_spec 1 (nr_running (rq_at m q))) as [Hmany | Hone].
      * destruct (Hl Hmany) as (l & El).
        assert (El0 : __pick_first_entity m0 q = Some l).
        { unfold __pick_first_entity in *. rewrite Hv. exact El. }
        destruct (check_preempt_tick_marks sc m0 q c l ideal ms Hc0 El0 Es
                    Hse Hrq) as (m' & Et & Hm & _).
        exists m', ideal, ms. split; [exact Et |]. split; [exact Es |].
        cbv zeta in Hm. rewrite Hm, Hres.
        split; [intros ->; reflexivity |]. split; [discriminate |].
        intros _ _ _ Hover.
        apply Z.ltb_lt in Hover. rewrite Hover. cbn [orb].
        apply orb_true_r.
      * exists m0, ideal, ms. split; [reflexivity |]. split; [exact Es |].
        rewrite Hres. split; [intros H; exact H |]. split; [discriminate |].
        intros _ _ Hmany. lia.
Qed.

(** Witness of X11: the tick of the running nice-19 task of
    [light_task_running], which has run for 100 us of a slice of 86621 ns
    and is marked. *)
Lemma X11_entity_tick_decision_witness :
  let sc := default_sysctl in
  let hr := mk_hrtick false false false in
  let m := light_task_running in
  (chain_ok m 0%nat /\ parent (se_at m 0%nat) = None /\
   1 < nr_running (rq_at m 0%nat)) /\
  exists m' ideal ms,
    entity_tick sc hr m 0%nat 0%nat false = Some m' /\
    sched_slice sc (update_curr m 0%nat) 0%nat 0%nat = Some (ideal, ms) /\
    ideal = 86621 /\
    need_resched (rq_at m' 0%nat) = true.
Proof.
  intros sc hr m.
  assert (Hc : chain_ok m 0%nat) by reflexivity.
  assert (Hn : 1 < nr_running (rq_at m 0%nat)) by reflexivity.
  split; [split; [exact Hc | split; [reflexivity | exact Hn]] |].
  destruct (X11_entity_tick_decision sc hr m 0%nat 0%nat false Hc eq_refl)
    as (m' & ideal & ms & Et & Es & _ & _ & Hover).
  { intros _. exists 1%nat. reflexivity. }
  exists m', ideal, ms. split; [exact Et |]. split; [exact Es |].
  assert (Ei : ideal = 86621).
  { assert (E : sched_slice sc (update_curr m 0%nat) 0%nat 0%nat
                = Some (86621, snd (match sched_slice sc (update_curr m 0%nat)
                                            0%nat 0%nat with
                                    | Some r => r
                                    | None => (0, m)
                                    end))) by (vm_compute; reflexivity).
    rewrite E in Es. injection Es as Hi _. symmetry. exact Hi. }
  split; [exact Ei |].
  apply Hover; [reflexivity | reflexivity | exact Hn |].
  rewrite Ei. vm_compute. reflexivity.
Defined.

(** ** Weights of group entities *)

(** X12.  [reweight_entity] gives the entity its new weight (with an empty
    inverse cache) and keeps the accounts of its queue in step: for a
    queued entity the load of the queue goes down by the old weight and up
    by the new one while the running count stays; for an entity that is not
    queued no queue is written. *)
Theorem X12_reweight_entity_accounts m q se w :
  is_u32 (nr_running (rq_at m q)) ->
  let m' := reweight_entity m q se w in
  load (se_at m' se) = mk_lw w 0 /\
  on_rq (se_at m' se) = on_rq (se_at m se) /\
  nr_running (rq_at m' q) = nr_running (rq_at m q) /\
  (on_rq (se_at m se) = true ->
   rq_load (rq_at m' q) =
     mk_lw (u64 (weight (rq_load (rq_at m q)) - weight (load (se_at m se)) + w))
           0) /\
  (on_rq (se_at m se) = false -> rq_at m' = rq_at m).
Proof.
  intros Hn. cbv zeta. unfold reweight_entity.
  destruct (on_rq (se_at m se)) eqn:Hon.
  - set (ma := if ptr_eqb (curr (rq_at m q)) (Some se)
               then update_curr m q else m).
    assert (Ha : same_accounts m ma).
    { unfold ma. destruct (ptr_eqb (curr (rq_at m q)) (Some se));
        [apply same_accounts_update_curr | apply same_accounts_refl]. }
    assert (Hona : on_rq (se_at ma se) = true).
    { unfold ma. destruct (ptr_eqb (curr (rq_at m q)) (Some se));
        [rewrite update_curr_on_rq |]; exact Hon. }
    destruct Ha as [Hse Hq]. destruct (Hq q) as [Hnr Hld].
    destruct (Hse se) as (_ & _ & _ & Hw).
    set (mb := account_entity_dequeue ma q se).
    assert (Hb_se : forall a, se_at mb a = se_at ma a).
    { intros a. unfold mb, account_entity_dequeue. cbv zeta.
      rewrite !se_at_upd_rq. reflexivity. }
    assert (Hb_rq : rq_at mb q =
              set_nr_running (u32 (nr_running (rq_at m q) - 1))
                (set_rq_load
                   (update_load_sub (rq_load (rq_at m q))
                      (weight (load (se_at m se))))
                   (rq_at ma q))).
    { unfold mb, account_entity_dequeue. cbv zeta. rewrite !rq_at_upd_rq.
      cbn [nr_running set_rq_load]. rewrite Hnr, Hld, Hw. reflexivity. }
    set (mc := upd_se mb se (fun e => set_load (update_load_set (load e) w) e)).
    assert (Hc_se : se_at mc se =
              set_load (update_load_set (load (se_at ma se)) w) (se_at ma se)).
    { unfold mc. rewrite se_at_upd_se, Hb_se. reflexivity. }
    assert (Honc : on_rq (se_at mc se) = true).
    { rewrite Hc_se. exact Hona. }
    rewrite Honc. unfold account_entity_enqueue. cbv zeta.
    assert (Hc_rq : rq_at mc q = rq_at mb q)
      by (unfold mc; apply rq_at_upd_se).
    rewrite !se_at_upd_rq, !rq_at_upd_rq. rewrite Hc_se.
    rewrite !Hc_rq. rewrite !Hb_rq.
    cbn [load set_load update_load_set weight nr_running rq_load
         set_nr_running set_rq_load on_rq update_load_add update_load_sub].
    split; [reflexivity |]. split; [exact Hona |].
    split.
    + unfold u32. rewrite Zplus_mod_idemp_l.
      replace (nr_running (rq_at m q) - 1 + 1) with (nr_running (rq_at m q))
        by lia.
      apply Z.mod_small. exact Hn.
    + split; [intros _ | discriminate].
      apply (f_equal (fun x => mk_lw x 0)).
      cbn [weight update_load_sub].
      unfold u64. rewrite Zplus_mod_idemp_l. reflexivity.
  - rewrite se_at_upd_se. cbn [on_rq set_load load update_load_set].
    rewrite Hon. rewrite se_at_upd_se.
    cbn [on_rq set_load load update_load_set].
    split; [reflexivity |]. split; [exact Hon |].
    split; [rewrite rq_at_upd_se; reflexivity |].
    split; [discriminate |]. intros _. reflexivity.
Qed.

(** Witness of X12: the running task of [light_task_running] (weight 15 on
    a queue of weight 1039) is given the weight 1024. *)
Lemma X12_reweight_entity_accounts_witness :
  let m := light_task_running in
  let m' := reweight_entity m 0%nat 0%nat 1024 in
  load (se_at m' 0%nat) = mk_lw 1024 0 /\
  on_rq (se_at m' 0%nat) = on_rq (se_at m 0%nat) /\
  nr_running (rq_at m' 0%nat) = nr_running (rq_at m 0%nat) /\
  (on_rq (se_at m 0%nat) = true ->
   rq_load (rq_at m' 0%nat) =
     mk_lw (u64 (weight (rq_load (rq_at m 0%nat))
                 - weight (load (se_at m 0%nat)) + 1024)) 0) /\
  (on_rq (se_at m 0%nat) = false -> rq_at m' = rq_at m).
Proof.
  intros m.
  apply (X12_reweight_entity_accounts m 0%nat 0%nat 1024).
  unfold is_u32. cbn. lia.
Defined.

(** X13.  [calc_cfs_shares] clamps whatever share it computes: for a group
    whose [shares] are at least [MIN_SHARES] (and fit a [long]) the result
    lies between [MIN_SHARES] and the group's [shares], whatever the loads
    are; a group with fewer shares than [MIN_SHARES] gets its [shares]. *)
Theorem X13_calc_cfs_shares_clamped MIN_SHARES lw tg_load contrib tg_shares :
  0 <= MIN_SHARES < 2 ^ 63 -> 0 <= tg_shares < 2 ^ 63 ->
  let r := calc_cfs_shares MIN_SHARES lw tg_load contrib tg_shares in
  r <= tg_shares /\
  (MIN_SHARES <= tg_shares -> MIN_SHARES <= r) /\
  (tg_shares < MIN_SHARES -> r = tg_shares).
Proof.
  intros Hm Ht. cbv zeta. unfold calc_cfs_shares. cbv zeta.
  set (tg_weight := s64 (s64 (s64 tg_load - contrib)
                         + s64 (scale_load_down lw))).
  set (prod := s64 (tg_shares * s64 (scale_load_down lw))).
  set (x := if tg_weight =? 0 then prod else s64 (Z.quot prod tg_weight)).
  assert (Hx : - 2 ^ 63 <= x < 2 ^ 63).
  { unfold x, prod. destruct (tg_weight =? 0); apply s64_range. }
  clearbody x. clear tg_weight prod.
  assert (P : 2 ^ 63 < 2 ^ 64) by reflexivity.
  assert (Hsm : s64 MIN_SHARES = MIN_SHARES) by (apply s64_of_small; lia).
  assert (Hst : s64 tg_shares = tg_shares) by (apply s64_of_small; lia).
  assert (Hum : u64 MIN_SHARES = MIN_SHARES)
    by (apply u64_small; unfold is_u64; lia).
  assert (Hux : u64 x = x \/ (x < 0 /\ u64 x = x + 2 ^ 64)).
  { unfold u64. destruct (Z.lt_ge_cases x 0) as [L | G].
    - right. split; [exact L |]. symmetry.
      apply (Z.mod_unique_pos _ _ (-1)); lia.
    - left. apply Z.mod_small. lia. }
  rewrite Hsm, Hst.
  destruct (Z.ltb_spec (u64 x) MIN_SHARES) as [Hlow | Hhigh].
  - rewrite Hum.
    destruct (Z.ltb_spec tg_shares MIN_SHARES); lia.
  - destruct (Z.ltb_spec tg_shares (u64 x)) as [Hbig | Hfit]; lia.
Qed.

(** Witness of X13: a queue that carries a quarter of its group's load,
    with 1024 shares and a minimum of 2. *)
Lemma X13_calc_cfs_shares_clamped_witness :
  let r := calc_cfs_shares 2 1024 4096 1024 1024 in
  r <= 1024 /\
  (2 <= 1024 -> 2 <= r) /\
  (1024 < 2 -> r = 1024).
Proof.
  apply (X13_calc_cfs_shares_clamped 2 1024 4096 1024 1024); lia.
Defined.

(** ** Decay of the CPU load averages *)

Import CpuLoad.

Lemma factor_range idx j : 0 <= factor idx j <= 120.
Proof.
  unfold factor.
  assert (H : forallb (forallb (fun x => (0 <=? x) && (x <=? 120)))
                degrade_factor = true) by reflexivity.
  rewrite forallb_forall in H.
  destruct (nth_in_or_default (Z.to_nat idx) degrade_factor []) as [Hin | ->].
  - specialize (H _ Hin). rewrite forallb_forall in H.
    destruct (nth_in_or_default (Z.to_nat j)
                (nth (Z.to_nat idx) degrade_factor []) 0) as [Hin' | ->].
    + specialize (H _ Hin'). apply andb_prop in H. destruct H as [Ha Hb].
      apply Z.leb_le in Ha. apply Z.leb_le in Hb. lia.
    + lia.
  - destruct (Z.to_nat j); cbn; lia.
Qed.

Lemma degrade_le load idx j :
  is_u64 load -> 0 <= degrade load idx j <= load.
Proof.
  intros [H0 H1]. unfold degrade, DEGRADE_SHIFT.
  pose proof (factor_range idx j) as Hf.
  rewrite Z.shiftr_div_pow2 by lia. change (2 ^ 7) with 128.
  pose proof (u64_range (load * factor idx j)) as [Hu0 Hu1].
  split; [apply Z.div_pos; lia |].
  destruct (Z.lt_ge_cases (load * factor idx j) (2 ^ 64)) as [Hs | Hb].
  - rewrite u64_small by (unfold is_u64; nia).
    apply Z.div_le_upper_bound; [lia |]. nia.
  - assert (2 ^ 57 <= load).
    { change (2 ^ 64) with (128 * 2 ^ 57) in Hb. nia. }
    assert (u64 (load * factor idx j) / 128 < 2 ^ 57).
    { apply Z.div_lt_upper_bound; [lia |].
      change (128 * 2 ^ 57) with (2 ^ 64). exact Hu1. }
    lia.
Qed.

Lemma decay_bits_le p : forall load idx j,
  is_u64 load -> 0 <= decay_bits p load idx j <= load.
Proof.
  induction p as [p IH | p IH |]; intros load idx j Hl; cbn [decay_bits].
  - pose proof (degrade_le load idx j Hl) as Hd.
    assert (Hd' : is_u64 (degrade load idx j))
      by (unfold is_u64 in *; lia).
    pose proof (IH (degrade load idx j) idx (j + 1) Hd'). lia.
  - apply IH. exact Hl.
  - apply degrade_le. exact Hl.
Qed.

(** The decayed load is between 0 and the load. *)
Lemma decay_load_missed_le load missed idx :
  is_u64 load -> 0 <= missed ->
  0 <= decay_load_missed load missed idx <= load.
Proof.
  intros Hl Hm. pose proof Hl as [H0 H1]. unfold decay_load_missed.
  destruct (Z.eqb_spec missed 0) as [E | N]; [lia |].
  destruct (Z.leb_spec (zero_ticks idx) missed) as [_ | _]; [lia |].
  destruct (idx =? 1).
  - rewrite Z.shiftr_div_pow2 by lia.
    split; [apply Z.div_pos; [lia | apply Z.pow_pos_nonneg; lia] |].
    apply Z.div_le_upper_bound; [apply Z.pow_pos_nonneg; lia |].
    assert (0 < 2 ^ missed) by (apply Z.pow_pos_nonneg; lia). nia.
  - destruct missed as [| p | p]; [lia | | lia].
    apply decay_bits_le. exact Hl.
Qed.

(** X14.  [decay_load_missed] never raises a load: the result lies between
    0 and the load, for every index and every number of missed updates.
    No missed update leaves the load as it is, and from
    [degrade_zero_ticks[idx]] missed updates on the load is 0; index 0
    forgets at once. *)
Theorem X14_decay_load_missed_bounds load missed idx :
  is_u64 load -> 0 <= missed ->
  0 <= decay_load_missed load missed idx <= load /\
  (missed = 0 -> decay_load_missed load missed idx = load) /\
  (0 < missed -> zero_ticks idx <= missed ->
   decay_load_missed load missed idx = 0) /\
  (0 < missed -> decay_load_missed load missed 0 = 0).
Proof.
  intros Hl Hm. pose proof Hl as [H0 H1]. unfold decay_load_missed.
  destruct (Z.eqb_spec missed 0) as [E | N].
  - split; [lia |]. split; [reflexivity |]. split; lia.
  - change (zero_ticks 0) with 0.
    split; [| split; [lia |]; split].
    + pose proof (decay_load_missed_le load missed idx Hl Hm) as Hd.
      unfold decay_load_missed in Hd.
      destruct (Z.eqb_spec missed 0) as [? | _]; [contradiction |].
      exact Hd.
    + intros _ Hz.
      destruct (Z.leb_spec (zero_ticks idx) missed); [reflexivity | lia].
    + intros _.
      destruct (Z.leb_spec 0 missed); [reflexivity | lia].
Qed.

(** Witness of X14: a load of 1000 at index 2 after 5 missed updates. *)
Lemma X14_decay_load_missed_bounds_witness :
  0 <= decay_load_missed 1000 5 2 <= 1000 /\
  (5 = 0 -> decay_load_missed 1000 5 2 = 1000) /\
  (0 < 5 -> zero_ticks 2 <= 5 -> decay_load_missed 1000 5 2 = 0) /\
  (0 < 5 -> decay_load_missed 1000 5 0 = 0).
Proof.
  apply (X14_decay_load_missed_bounds 1000 5 2).
  - unfold is_u64. lia.
  - lia.
Defined.

(** The average of one round for one pending update, as a quotient. *)
Lemma averaged_between old this i scale :
  1 <= i <= 4 -> scale = 2 ^ i ->
  0 <= old < 2 ^ 59 -> 0 <= this < 2 ^ 59 ->
  let new_load := if old <? this then u64 (this + (scale - 1)) else this in
  let v := Z.shiftr (u64 (u64 (old * (scale - 1)) + new_load)) i in
  Z.min old this <= v <= Z.max old this /\ (v = old -> this = old).
Proof.
  intros Hi Hs Ho Ht. cbv zeta.
  assert (Hsc : 2 <= scale <= 16).
  { subst scale.
    assert (i = 1 \/ i = 2 \/ i = 3 \/ i = 4) as [-> | [-> | [-> | ->]]]
      by lia; cbn; lia. }
  assert (P1 : 2 ^ 59 * 16 = 2 ^ 63) by reflexivity.
  assert (P2 : 2 ^ 63 + 2 ^ 63 = 2 ^ 64) by reflexivity.
  rewrite Z.shiftr_div_pow2 by lia. rewrite <- Hs.
  rewrite (u64_small (old * (scale - 1))) by (unfold is_u64; nia).
  destruct (Z.ltb_spec old this) as [Hlt | Hge].
  - rewrite (u64_small (this + (scale - 1))) by (unfold is_u64; lia).
    rewrite u64_small by (unfold is_u64; nia).
    set (num := old * (scale - 1) + (this + (scale - 1))).
    assert (Hlo : old + 1 <= num / scale).
    { apply Z.div_le_lower_bound; [lia |]. unfold num. nia. }
    assert (Hhi : num / scale <= this).
    { apply Z.div_le_upper_bound; [lia |]. unfold num. nia. }
    lia.
  - rewrite u64_small by (unfold is_u64; nia).
    set (num := old * (scale - 1) + this).
    assert (Hlo : this <= num / scale).
    { apply Z.div_le_lower_bound; [lia |]. unfold num. nia. }
    assert (Hhi : num / scale <= old).
    { apply Z.div_le_upper_bound; [lia |]. unfold num. nia. }
    split; [lia |]. intros Hv.
    assert (scale * (num / scale) <= num) by (apply Z.mul_div_le; lia).
    rewrite Hv in H. unfold num in H. nia.
Qed.

(** The four rounds of the loop on an array of five loads. *)
Lemma update_cpu_load_rounds a0 a1 a2 a3 a4 this pending :
  update_loop 4 1 2 [a0; a1; a2; a3; a4] this pending =
  [ a0; averaged a1 this pending 1 2; averaged a2 this pending 2 4;
    averaged a3 this pending 3 8; averaged a4 this pending 4 16 ].
Proof.
  cbn [update_loop].
  change (1 <? CPU_LOAD_IDX_MAX) with true. cbv iota.
  change (1 + 1) with 2. change (s32 (2 + 2)) with 4.
  change (2 <? CPU_LOAD_IDX_MAX) with true. cbv iota.
  change (2 + 1) with 3. change (s32 (4 + 4)) with 8.
  change (3 <? CPU_LOAD_IDX_MAX) with true. cbv iota.
  change (3 + 1) with 4. change (s32 (8 + 8)) with 16.
  change (4 <? CPU_LOAD_IDX_MAX) with true. cbv iota.
  change (Z.to_nat 1) with 1%nat. change (Z.to_nat 2) with 2%nat.
  change (Z.to_nat 3) with 3%nat. change (Z.to_nat 4) with 4%nat.
  cbv zeta. cbn [array_set nth]. reflexivity.
Qed.

(** X15.  [__update_cpu_load] stores the current load at index 0 and, at
    every further index, a value between the old average (decayed for the
    missed ticks, hence no larger than the old one) and the current load.
    The value differs from the decayed old one unless that already equals
    the current load: the rounding up on a rising load "prevents us from
    getting stuck on 9 if the load is 10". *)
Theorem X15_update_cpu_load_converges r this pending :
  length (cpu_load r) = 5%nat ->
  (forall i, 0 <= nth i (cpu_load r) 0 < 2 ^ 59) ->
  0 <= this < 2 ^ 59 ->
  let r' := __update_cpu_load r this pending in
  length (cpu_load r') = 5%nat /\
  nth 0 (cpu_load r') 0 = this /\
  nr_load_updates r' = u64 (nr_load_updates r + 1) /\
  forall i, (1 <= i <= 4)%nat ->
    let old := decay_load_missed (nth i (cpu_load r) 0)
                 (u64 (pending - 1)) (Z.of_nat i) in
    let v := nth i (cpu_load r') 0 in
    0 <= old <= nth i (cpu_load r) 0 /\
    Z.min old this <= v <= Z.max old this /\
    (v = old -> this = old).
Proof.
  intros Hlen Hrange Hthis. cbv zeta.
  destruct r as [a n]. cbn [cpu_load nr_load_updates] in *.
  destruct a as [| a0 [| a1 [| a2 [| a3 [| a4 [| a5 a]]]]]];
    try discriminate Hlen.
  unfold __update_cpu_load. cbn [cpu_load nr_load_updates array_set].
  rewrite update_cpu_load_rounds.
  split; [reflexivity |]. split; [reflexivity |]. split; [reflexivity |].
  intros i Hi.
  assert (P59 : 2 ^ 59 < 2 ^ 64) by reflexivity.
  assert (Hall : forall k old0 scale,
            1 <= k <= 4 -> scale = 2 ^ k -> 0 <= old0 < 2 ^ 59 ->
            let old := decay_load_missed old0 (u64 (pending - 1)) k in
            0 <= old <= old0 /\
            Z.min old this <= averaged old0 this pending k scale
              <= Z.max old this /\
            (averaged old0 this pending k scale = old -> this = old)).
  { intros k old0 scale Hk Hs Ho. cbv zeta.
    pose proof (u64_range (pending - 1)) as [Hp _].
    pose proof (decay_load_missed_le old0 (u64 (pending - 1)) k
                  ltac:(unfold is_u64; lia) Hp) as Hd.
    split; [exact Hd |].
    unfold averaged. cbv zeta.
    apply (averaged_between _ this k scale Hk Hs); lia. }
  assert (i = 1 \/ i = 2 \/ i = 3 \/ i = 4)%nat
    as [-> | [-> | [-> | ->]]] by lia; cbn [nth].
  - apply (Hall 1 a1 2); [lia | reflexivity | apply (Hrange 1%nat)].
  - apply (Hall 2 a2 4); [lia | reflexivity | apply (Hrange 2%nat)].
  - apply (Hall 3 a3 8); [lia | reflexivity | apply (Hrange 3%nat)].
  - apply (Hall 4 a4 16); [lia | reflexivity | apply (Hrange 4%nat)].
Qed.

(** Witness of X15: a CPU whose averages are all 9 sees a load of 10. *)
Lemma X15_update_cpu_load_converges_witness :
  let r := mk_load_rq [9; 9; 9; 9; 9] 0 in
  let r' := __update_cpu_load r 10 1 in
  length (cpu_load r') = 5%nat /\
  nth 0 (cpu_load r') 0 = 10 /\
  nr_load_updates r' = u64 (nr_load_updates r + 1) /\
  forall i, (1 <= i <= 4)%nat ->
    let old := decay_load_missed (nth i (cpu_load r) 0)
                 (u64 (1 - 1)) (Z.of_nat i) in
    let v := nth i (cpu_load r') 0 in
    0 <= old <= nth i (cpu_load r) 0 /\
    Z.min old 10 <= v <= Z.max old 10 /\
    (v = old -> 10 = old).
Proof.
  intros r.
  apply (X15_update_cpu_load_converges r 10 1).
  - reflexivity.
  - intros i. cbn [r cpu_load].
    do 5 (destruct i as [| i]; [cbn; lia |]). destruct i; cbn; lia.
  - lia.
Defined.

(** ** Charging and returning runtime *)

Import Bandwidth.

(** X16.  [__account_cfs_rq_runtime] docks the executed time, drops
    leftover runtime whose deadline has passed, and draws from the pool
    when nothing is left.  It asks for a reschedule exactly when the queue
    ends without runtime while an entity is running on it, "so that the
    active hierarchy can be throttled"; with a deadline ahead of the clock
    and runtime left after docking, nothing but the balance is written. *)
Theorem X16_account_runtime_reschedules sc tick clock now has_curr rq b delta :
  let r := __account_cfs_rq_runtime sc tick clock now has_curr rq b delta in
  let rq' := fst (fst r) in
  let docked := s64 (runtime_remaining rq - delta) in
  (snd r = true <-> runtime_remaining rq' <= 0 /\ has_curr = true) /\
  (0 < docked -> s64 (clock - rq_runtime_expires rq) < 0 ->
   r = (mk_rq_runtime docked (rq_runtime_expires rq), b, false)) /\
  (0 <= docked -> 0 <= s64 (clock - rq_runtime_expires rq) ->
   rq_runtime_expires rq = runtime_expires b ->
   r = (let '(ok, rq1, b1) :=
          assign_cfs_rq_runtime sc now
            (mk_rq_runtime 0 (rq_runtime_expires rq)) b in
        (rq1, b1, negb ok && has_curr))).
Proof.
  cbv zeta. unfold __account_cfs_rq_runtime. cbv zeta.
  set (docked := s64 (runtime_remaining rq - delta)).
  set (rq0 := mk_rq_runtime docked (rq_runtime_expires rq)).
  assert (Hassign : forall rqx,
            let '(ok, rq1, b1) := assign_cfs_rq_runtime sc now rqx b in
            ok = (0 <? runtime_remaining rq1)).
  { intros rqx. unfold assign_cfs_rq_runtime. cbv zeta.
    destruct (quota b =? RUNTIME_INF); [reflexivity |].
    match goal with
    | |- context [if 0 <? runtime ?bb then _ else _] =>
        destruct (0 <? runtime bb)
    end; reflexivity. }
  split; [| split].
  - set (rq1 := expire_cfs_rq_runtime tick clock rq0 b).
    destruct (Z.ltb_spec 0 (runtime_remaining rq1)) as [Hpos | Hneg].
    + cbn [fst snd]. split; [discriminate | lia].
    + specialize (Hassign rq1).
      destruct (assign_cfs_rq_runtime sc now rq1 b) as [[ok rq2] b2].
      cbn [fst snd]. subst ok.
      destruct (Z.ltb_spec 0 (runtime_remaining rq2)); cbn [negb andb].
      * split; [discriminate | lia].
      * split; [intros ->; split; [lia | reflexivity] | intros [_ ->]; reflexivity].
  - intros Hd Hc. unfold expire_cfs_rq_runtime. cbn [rq_runtime_expires rq0].
    destruct (Z.ltb_spec (s64 (clock - rq_runtime_expires rq)) 0); [| lia].
    cbn [runtime_remaining rq0].
    destruct (Z.ltb_spec 0 docked); [reflexivity | lia].
  - intros Hd Hc He. unfold expire_cfs_rq_runtime.
    cbn [rq_runtime_expires runtime_remaining rq0].
    destruct (Z.ltb_spec (s64 (clock - rq_runtime_expires rq)) 0); [lia |].
    destruct (Z.ltb_spec docked 0); [lia |].
    rewrite He, Z.eqb_refl. cbn [negb runtime_remaining].
    change (0 <? 0) with false. cbv iota. reflexivity.
Qed.

(** Witness of X16: a queue with 1 ms left is charged 3 ms while the pool
    is empty. *)
Lemma X16_account_runtime_reschedules_witness :
  let sc := default_sysctl in
  let rq := mk_rq_runtime 1000000 100000000 in
  let b := mk_cfs_b 100000000 0 default_cfs_period 100000000 true false in
  let r := __account_cfs_rq_runtime sc 10000000 50000000 50000000 true
             rq b 3000000 in
  let rq' := fst (fst r) in
  let docked := s64 (runtime_remaining rq - 3000000) in
  (snd r = true <-> runtime_remaining rq' <= 0 /\ true = true) /\
  (0 < docked -> s64 (50000000 - rq_runtime_expires rq) < 0 ->
   r = (mk_rq_runtime docked (rq_runtime_expires rq), b, false)) /\
  (0 <= docked -> 0 <= s64 (50000000 - rq_runtime_expires rq) ->
   rq_runtime_expires rq = runtime_expires b ->
   r = (let '(ok, rq1, b1) :=
          assign_cfs_rq_runtime sc 50000000
            (mk_rq_runtime 0 (rq_runtime_expires rq)) b in
        (rq1, b1, negb ok && true))).
Proof.
  intros sc rq b.
  exact (X16_account_runtime_reschedules sc 10000000 50000000 50000000 true
           rq b 3000000).
Defined.

(** X17.  [__return_cfs_rq_runtime] keeps [min_cfs_rq_runtime] (1 ms) on
    the queue and gives up the rest: a queue that holds no more than 1 ms
    returns nothing; otherwise its balance becomes exactly 1 ms, and the
    slack is added to the pool when the group has a quota and the queue's
    deadline is the pool's (the sum of pool and balance is then unchanged)
    and is dropped otherwise.  The slack timer is started only when queues
    are throttled, the pool holds more than one slice and no refresh of
    the quota is near. *)
Theorem X17_return_runtime_conserves sc t thr rq b :
  - 2 ^ 62 <= runtime_remaining rq < 2 ^ 63 ->
  0 <= runtime b -> runtime b + runtime_remaining rq < 2 ^ 64 ->
  let r := __return_cfs_rq_runtime sc t thr rq b in
  let rq' := fst (fst r) in
  let b' := snd (fst r) in
  let slack := runtime_remaining rq - min_cfs_rq_runtime in
  (slack <= 0 -> r = (rq, b, false)) /\
  (0 < slack ->
   runtime_remaining rq' = min_cfs_rq_runtime /\
   rq_runtime_expires rq' = rq_runtime_expires rq /\
   (quota b <> RUNTIME_INF -> rq_runtime_expires rq = runtime_expires b ->
    runtime b' = runtime b + slack /\
    runtime b' + runtime_remaining rq' = runtime b + runtime_remaining rq) /\
   (quota b = RUNTIME_INF \/ rq_runtime_expires rq <> runtime_expires b ->
    b' = b /\ snd r = false)) /\
  (snd r = true ->
   thr = true /\ sched_cfs_bandwidth_slice sc < runtime b' /\
   runtime_refresh_within t
     (cfs_bandwidth_slack_period + min_bandwidth_expiration) = false).
Proof.
  intros Hr Hb0 Hsum. cbv zeta. unfold __return_cfs_rq_runtime. cbv zeta.
  assert (Hmin : min_cfs_rq_runtime = 1000000) by reflexivity.
  set (slack := runtime_remaining rq - min_cfs_rq_runtime).
  assert (Hs : s64 slack = slack).
  { apply s64_of_small. unfold slack. rewrite Hmin. lia. }
  rewrite Hs.
  destruct (Z.leb_spec slack 0) as [Hle | Hgt].
  - cbn [fst snd]. split; [intros _; reflexivity |].
    split; [lia | discriminate].
  - assert (Hleft : s64 (runtime_remaining rq - slack) = min_cfs_rq_runtime).
    { unfold slack.
      replace (runtime_remaining rq - (runtime_remaining rq - min_cfs_rq_runtime))
        with min_cfs_rq_runtime by lia.
      rewrite Hmin. reflexivity. }
    rewrite Hleft.
    destruct (Z.eqb_spec (quota b) RUNTIME_INF) as [Einf | Ninf]; cbn [negb andb].
    + cbn [fst snd runtime_remaining rq_runtime_expires].
      split; [lia |]. split; [| discriminate]. intros _.
      split; [reflexivity |]. split; [reflexivity |].
      split; [contradiction |]. intros _. split; reflexivity.
    + destruct (Z.eqb_spec (rq_runtime_expires rq) (runtime_expires b))
        as [Ee | Ne].
      * cbn [fst snd runtime_remaining rq_runtime_expires runtime].
        assert (Hu : u64 (runtime b + slack) = runtime b + slack).
        { apply u64_small. unfold is_u64, slack. rewrite Hmin. lia. }
        rewrite Hu.
        split; [lia |]. split.
        -- intros _. split; [reflexivity |]. split; [reflexivity |].
           split.
           ++ intros _ _. split; [reflexivity |]. unfold slack. lia.
           ++ intros [C | C]; contradiction.
        -- intros H. apply andb_prop in H. destruct H as [H H3].
           apply andb_prop in H. destruct H as [H1 H2].
           apply Z.ltb_lt in H1. split; [exact H2 |]. split; [exact H1 |].
           unfold start_cfs_slack_bandwidth in H3. cbv zeta in H3.
           rewrite u64_small in H3 by (unfold is_u64; cbn; lia).
           destruct (runtime_refresh_within t
                       (cfs_bandwidth_slack_period + min_bandwidth_expiration));
             [discriminate | reflexivity].
      * cbn [fst snd runtime_remaining rq_runtime_expires].
        split; [lia |]. split; [| discriminate]. intros _.
        split; [reflexivity |]. split; [reflexivity |].
        split; [contradiction |]. intros _. split; reflexivity.
Qed.

(** Witness of X17: a queue with 4 ms left returns 3 ms to a pool of 10
    ms. *)
Lemma X17_return_runtime_conserves_witness :
  let sc := default_sysctl in
  let t := mk_period_timer false 50000000 in
  let rq := mk_rq_runtime 4000000 100000000 in
  let b := mk_cfs_b 100000000 10000000 default_cfs_period 100000000 true false in
  let r := __return_cfs_rq_runtime sc t true rq b in
  let rq' := fst (fst r) in
  let b' := snd (fst r) in
  let slack := runtime_remaining rq - min_cfs_rq_runtime in
  (slack <= 0 -> r = (rq, b, false)) /\
  (0 < slack ->
   runtime_remaining rq' = min_cfs_rq_runtime /\
   rq_runtime_expires rq' = rq_runtime_expires rq /\
   (quota b <> RUNTIME_INF -> rq_runtime_expires rq = runtime_expires b ->
    runtime b' = runtime b + slack /\
    runtime b' + runtime_remaining rq' = runtime b + runtime_remaining rq) /\
   (quota b = RUNTIME_INF \/ rq_runtime_expires rq <> runtime_expires b ->
    b' = b /\ snd r = false)) /\
  (snd r = true ->
   true = true /\ sched_cfs_bandwidth_slice sc < runtime b' /\
   runtime_refresh_within t
     (cfs_bandwidth_slack_period + min_bandwidth_expiration) = false).
Proof.
  intros sc t rq b.
  apply (X17_return_runtime_conserves sc t true rq b).
  - cbn. lia.
  - cbn. lia.
  - cbn. lia.
Defined.

(** ** Distributing a refilled pool *)

Lemma distribute_one_spec c remaining expires :
  0 <= remaining < 2 ^ 62 ->
  (throttled c = true -> - 2 ^ 62 <= runtime_remaining (balance c) <= 0) ->
  let c' := fst (distribute_one c remaining expires) in
  let rem' := snd (distribute_one c remaining expires) in
  0 <= rem' <= remaining /\
  runtime_remaining (balance c') =
    runtime_remaining (balance c) + (remaining - rem') /\
  (c' = c \/
   (throttled c = true /\
    runtime_remaining (balance c) <= runtime_remaining (balance c') <= 1 /\
    throttled c' = negb (0 <? runtime_remaining (balance c')) /\
    rq_runtime_expires (balance c') = expires)) /\
  (rem' <> 0 -> throttled c' = false).
Proof.
  intros Hr Hc. cbv zeta. unfold distribute_one.
  destruct (throttled c) eqn:Et; cbn [negb].
  - specialize (Hc eq_refl). cbv zeta.
    assert (P : 2 ^ 62 + 1 < 2 ^ 64) by reflexivity.
    assert (Q : 2 ^ 62 < 2 ^ 63) by reflexivity.
    set (bal := runtime_remaining (balance c)) in *.
    rewrite (u64_small (- bal + 1)) by (unfold is_u64; lia).
    set (given := if remaining <? - bal + 1 then remaining else - bal + 1).
    assert (Hg : 0 <= given <= remaining /\ given <= - bal + 1 /\
                  (given < remaining -> given = - bal + 1)).
    { unfold given. destruct (Z.ltb_spec remaining (- bal + 1)); lia. }
    rewrite (u64_small (remaining - given)) by (unfold is_u64; lia).
    rewrite (s64_of_small (bal + given)) by lia.
    cbn [fst snd balance runtime_remaining rq_runtime_expires throttled].
    split; [lia |]. split; [lia |]. split.
    + right. split; [reflexivity |]. split; [lia |]. split; reflexivity.
    + intros Hn. destruct Hg as (Hg1 & Hg2 & Hg3).
      rewrite Hg3 by lia.
      replace (bal + (- bal + 1)) with 1 by lia. reflexivity.
  - cbn [fst snd]. split; [lia |]. split; [lia |].
    split; [left; reflexivity |]. intros _. exact Et.
Qed.

Lemma distribute_walk_spec expires : forall l remaining,
  0 <= remaining < 2 ^ 62 ->
  Forall (fun c => throttled c = true ->
                   - 2 ^ 62 <= runtime_remaining (balance c) <= 0) l ->
  let l' := fst (distribute_walk l remaining expires) in
  let rem' := snd (distribute_walk l remaining expires) in
  0 <= rem' <= remaining /\
  total_balance l' = total_balance l + (remaining - rem') /\
  Forall2 (fun c c' =>
     c' = c \/
     (throttled c = true /\
      runtime_remaining (balance c) <= runtime_remaining (balance c') <= 1 /\
      throttled c' = negb (0 <? runtime_remaining (balance c')) /\
      rq_runtime_expires (balance c') = expires)) l l' /\
  (rem' <> 0 -> Forall (fun c' => throttled c' = false) l').
Proof.
  induction l as [| c rest IH]; intros remaining Hr Hl; cbv zeta.
  - cbn [distribute_walk fst snd total_balance fold_right].
    split; [lia |]. split; [lia |]. split; constructor.
  - inversion Hl as [| ? ? Hc Hrest]; subst.
    cbn [distribute_walk].
    pose proof (distribute_one_spec c remaining expires Hr Hc) as Hone.
    cbv zeta in Hone.
    destruct (distribute_one c remaining expires) as [c' rem1].
    cbn [fst snd] in Hone. destruct Hone as (H1 & H2 & H3 & H4).
    destruct (Z.eqb_spec rem1 0) as [E0 | N0].
    + cbn [fst snd total_balance fold_right].
      fold (total_balance rest).
      split; [lia |]. split; [lia |]. split.
      * constructor; [exact H3 |].
        clear. induction rest; constructor; [left; reflexivity | assumption].
      * intros C. contradiction.
    + specialize (IH rem1 ltac:(lia) Hrest). cbv zeta in IH.
      destruct (distribute_walk rest rem1 expires) as [rest' rem2].
      cbn [fst snd] in IH. destruct IH as (I1 & I2 & I3 & I4).
      cbn [fst snd total_balance fold_right].
      fold (total_balance rest). fold (total_balance rest').
      split; [lia |]. split; [lia |]. split.
      * constructor; assumption.
      * intros Hn. constructor; [apply H4; exact N0 | apply I4; exact Hn].
Qed.

(** X18.  [distribute_cfs_runtime] never hands out more than it is given,
    and what it hands out is what the balances of the listed queues gain.
    A queue is left as it is or, if throttled, raised to at most 1 ns, given
    the new deadline, and unthrottled exactly when its balance has become
    positive.  When runtime is left over, no listed queue is throttled any
    more. *)
Theorem X18_distribute_runtime_conserves l remaining expires :
  0 <= remaining < 2 ^ 62 ->
  Forall (fun c => throttled c = true ->
                   - 2 ^ 62 <= runtime_remaining (balance c) <= 0) l ->
  let l' := fst (distribute_cfs_runtime l remaining expires) in
  let given := snd (distribute_cfs_runtime l remaining expires) in
  0 <= given <= remaining /\
  total_balance l' = total_balance l + given /\
  Forall2 (fun c c' =>
     c' = c \/
     (throttled c = true /\
      runtime_remaining (balance c) <= runtime_remaining (balance c') <= 1 /\
      throttled c' = negb (0 <? runtime_remaining (balance c')) /\
      rq_runtime_expires (balance c') = expires)) l l' /\
  (given < remaining -> Forall (fun c' => throttled c' = false) l').
Proof.
  intros Hr Hl. cbv zeta. unfold distribute_cfs_runtime. cbv zeta.
  pose proof (distribute_walk_spec expires l remaining Hr Hl) as Hw.
  cbv zeta in Hw.
  destruct (distribute_walk l remaining expires) as [l' rem'].
  cbn [fst snd] in *. destruct Hw as (H1 & H2 & H3 & H4).
  assert (P : 2 ^ 62 < 2 ^ 64) by reflexivity.
  rewrite (u64_small (remaining - rem')) by (unfold is_u64; lia).
  split; [lia |]. split; [exact H2 |]. split; [exact H3 |].
  intros Hlt. apply H4. lia.
Qed.

(** Witness of X18: 5 ms for three listed queues that are 2 ms, 0 ms (not
    throttled) and 1 ms in deficit. *)
Lemma X18_distribute_runtime_conserves_witness :
  let l := [ mk_listed true (mk_rq_runtime (-2000000) 0);
             mk_listed false (mk_rq_runtime 0 0);
             mk_listed true (mk_rq_runtime (-1000000) 0) ] in
  let l' := fst (distribute_cfs_runtime l 5000000 100000000) in
  let given := snd (distribute_cfs_runtime l 5000000 100000000) in
  0 <= given <= 5000000 /\
  total_balance l' = total_balance l + given /\
  Forall2 (fun c c' =>
     c' = c \/
     (throttled c = true /\
      runtime_remaining (balance c) <= runtime_remaining (balance c') <= 1 /\
      throttled c' = negb (0 <? runtime_remaining (balance c')) /\
      rq_runtime_expires (balance c') = 100000000)) l l' /\
  (given < 5000000 -> Forall (fun c' => throttled c' = false) l').
Proof.
  intros l.
  apply (X18_distribute_runtime_conserves l 5000000 100000000).
  - lia.
  - repeat constructor; cbn; intros; lia.
Defined.

(** ** The tunables across calls of the handler *)

Import HmpTunables.

Lemma set_get_same data t : set data (get data t) t = t.
Proof. destruct data, t; reflexivity. Qed.

Lemma as_stored_idem data v :
  as_stored data (as_stored data v) = as_stored data v.
Proof.
  unfold as_stored.
  destruct (tunable_eqb data upmigrate_min_nice);
    [apply s32_idem | apply u32_idem].
Qed.

(** A write of the 32 bits the variable holds already stores the value it
    holds. *)
Lemma same_bits_stored data v t :
  as_stored data (get data t) = get data t ->
  as_unsigned (get data t) = as_unsigned (as_stored data v) ->
  as_stored data v = get data t.
Proof.
  intros Ht E. rewrite as_unsigned_stored in E. unfold as_unsigned in E.
  rewrite <- (as_stored_unsigned data v), <- E, as_stored_unsigned.
  exact Ht.
Qed.

Lemma well_typed_set data v t :
  well_typed t -> well_typed (set data (as_stored data v) t).
Proof.
  intros Hty d. pose proof (Hty d) as Hd.
  pose proof (as_stored_idem data v) as Hi.
  destruct t, data, d; cbn -[as_stored] in *; assumption.
Qed.

Lemma set_hmp_defaults_keeps st :
  tunables (set_hmp_defaults st) = tunables st /\
  sched_enable_hmp (set_hmp_defaults st) = sched_enable_hmp st.
Proof.
  unfold set_hmp_defaults. destruct (update_up_down_migrate st).
  split; reflexivity.
Qed.

Lemma tunables_valid_set data v t :
  tunables_valid t ->
  match data with
  | min_runtime | grp_task_active_windows => True
  | grp_upmigrate_pct | grp_downmigrate_pct =>
      sysctl_sched_grp_downmigrate_pct (set data (as_stored data v) t)
      <= sysctl_sched_grp_upmigrate_pct (set data (as_stored data v) t)
  | upmigrate_min_nice => -20 <= s32 v <= 19
  | _ =>
      sysctl_sched_downmigrate_pct (set data (as_stored data v) t)
      <= sysctl_sched_upmigrate_pct (set data (as_stored data v) t) /\
      u32 v <= 100
  end ->
  tunables_valid (set data (as_stored data v) t).
Proof.
  intros (Hty & Hrest) Hok. split.
  - apply well_typed_set. exact Hty.
  - clear Hty. unfold as_stored in *.
    destruct t, data; cbn -[u32 s32] in *; lia.
Qed.

(** X19.  The handler of the HMP tunables keeps them valid: if, before a
    call, the task and the group downmigrate percentages do not exceed
    their upmigrate percentages, the min-nice value lies in [-20, 19], the
    six task percentages are at most 100 and every variable holds a value
    of its type, then the same holds after the call, whatever is read or
    written, whatever [proc_dointvec_minmax] does, and with HMP placement
    on or off.  The call does not switch HMP placement, and a call that
    returns an error leaves the whole state as it was. *)
Theorem X19_handler_keeps_tunables_valid st data write proc :
  tunables_valid (tunables st) ->
  let r := sched_hmp_proc_update_handler st data write proc in
  tunables_valid (tunables (snd r)) /\
  sched_enable_hmp (snd r) = sched_enable_hmp st /\
  (fst r <> 0 -> snd r = st).
Proof.
  intros Hv. pose proof Hv as (Hty & _). cbv zeta.
  unfold sched_hmp_proc_update_handler.
  destruct (sched_enable_hmp st) eqn:Hen; cbn [negb];
    [| cbn [fst snd]; split; [exact Hv | split; auto]].
  destruct proc as [ret | [v |]].
  - cbn [fst snd]. split; [exact Hv | split; auto].
  - destruct write; cbn [negb];
      [| cbn [fst snd]; split; [exact Hv | split; auto]].
    cbv zeta. rewrite tunables_set_tunables.
    rewrite (as_stored_old data _ (Hty data)).
    rewrite set_set_get, set_tunables_twice, set_tunables_same.
    set (t1 := set data (as_stored data v) (tunables st)) in *.
    assert (Hg : get data t1 = as_stored data v) by apply get_set.
    destruct (Z.eqb_spec (as_unsigned (get data (tunables st)))
                (as_unsigned (get data t1))) as [E | E].
    + rewrite Hg in E.
      pose proof (same_bits_stored data v (tunables st) (Hty data) E) as Hs.
      assert (Ht1 : t1 = tunables st)
        by (unfold t1; rewrite Hs; apply set_get_same).
      rewrite Ht1, set_tunables_same. cbn [fst snd].
      split; [exact Hv | split; auto].
    + clear E.
      assert (Hok : forall st', tunables st' = t1 ->
                sched_enable_hmp st' = true ->
                tunables_valid t1 ->
                tunables_valid (tunables (snd (0, st'))) /\
                sched_enable_hmp (snd (0, st')) = true /\
                (fst (0, st') <> 0 -> snd (0, st') = st)).
      { intros st' Ht' He' Hv'. cbn [fst snd]. rewrite Ht'.
        split; [exact Hv' | split; [exact He' |]].
        intros C. exfalso. apply C. reflexivity. }
      assert (Hno : tunables_valid (tunables (snd (- EINVAL, st))) /\
                sched_enable_hmp (snd (- EINVAL, st)) = true /\
                (fst (- EINVAL, st) <> 0 -> snd (- EINVAL, st) = st)).
      { cbn [fst snd]. split; [exact Hv | split; auto]. }
      pose proof (tunables_valid_set data v (tunables st) Hv) as Hset.
      fold t1 in Hset.
      destruct data; cbn [tunable_eqb orb andb] in *;
        rewrite ?Hg; unfold as_stored, as_unsigned; cbn [tunable_eqb];
        rewrite ?s32_u32, ?u32_idem, ?s32_idem;
        repeat match goal with
        | |- context [?a <? ?b] => destruct (Z.ltb_spec a b)
        end; cbn [orb]; try exact Hno;
        apply Hok;
        rewrite ?(proj1 (set_hmp_defaults_keeps _)),
          ?(proj2 (set_hmp_defaults_keeps _));
        try reflexivity; try exact Hen;
        apply Hset; try exact I; try lia.
  - destruct write; cbn [negb];
      [| cbn [fst snd]; split; [exact Hv | split; auto]].
    cbv zeta. rewrite Z.eqb_refl. cbn [fst snd].
    split; [exact Hv | split; auto].
Qed.

(** Witness of X19: 95 written to the upmigrate percentage of the boot
    state. *)
Lemma X19_handler_keeps_tunables_valid_witness :
  let r := sched_hmp_proc_update_handler boot_state upmigrate_pct true
             (ProcDone (Some 95)) in
  tunables_valid (tunables boot_state) /\
  tunables_valid (tunables (snd r)) /\
  sched_enable_hmp (snd r) = sched_enable_hmp boot_state /\
  (fst r <> 0 -> snd r = boot_state).
Proof.
  assert (Hv : tunables_valid (tunables boot_state)).
  { split.
    - intros data. destruct data; vm_compute; reflexivity.
    - vm_compute. repeat split; discriminate. }
  split; [exact Hv |].
  exact (X19_handler_keeps_tunables_valid boot_state upmigrate_pct true
           (ProcDone (Some 95)) Hv).
Defined.

(** ** The boost count *)

Lemma s32_small x : - 2 ^ 31 <= x < 2 ^ 31 -> s32 x = x.
Proof.
  intros H. unfold s32. cbv zeta.
  destruct (Z.ltb_spec x 0).
  - replace (x mod 2 ^ 32) with (x + 2 ^ 32)
      by (apply Z.mod_unique with (-1); lia).
    destruct (Z.ltb_spec (x + 2 ^ 32) (2 ^ 31)); lia.
  - rewrite Z.mod_small by lia.
    destruct (Z.ltb_spec x (2 ^ 31)); lia.
Qed.

(** One call on a count that is not negative and below the largest
    [int]. *)
Lemma sched_set_boost_step c enable :
  0 <= c < 2 ^ 31 - 1 ->
  sched_set_boost true c enable
  = if enable =? 1 then (0, c + 1, c =? 0)
    else if (enable =? 0) && (1 <=? c) then (0, c - 1, false)
    else (- EINVAL, c, false).
Proof.
  intros Hc. unfold sched_set_boost. cbn [negb].
  assert (E31 : 2 ^ 31 = 2147483648) by reflexivity.
  destruct (Z.eqb_spec enable 1) as [E1 | E1].
  - rewrite s32_small by lia.
    destruct (Z.eqb_spec c 0), (Z.eqb_spec (c + 1) 0);
      cbn [andb negb]; try reflexivity; lia.
  - destruct (Z.eqb_spec enable 0) as [E0 | E0]; cbn [andb].
    + destruct (Z.leb_spec 1 c).
      * rewrite s32_small by lia.
        destruct (Z.eqb_spec c 0), (Z.eqb_spec (c - 1) 0);
          cbn [andb negb]; try reflexivity; lia.
      * destruct (Z.eqb_spec c 0); reflexivity.
    + destruct (Z.eqb_spec c 0); reflexivity.
Qed.

Lemma boost_calls_run : forall calls c,
  0 <= c -> c + Z.of_nat (length calls) < 2 ^ 31 - 1 ->
  boost_calls c calls
    = c + boost_successes c calls 1 - boost_successes c calls 0 /\
  boost_successes c calls 1 = Z.of_nat (length (filter (Z.eqb 1) calls)) /\
  0 <= boost_calls c calls <= c + Z.of_nat (length calls).
Proof.
  induction calls as [| e rest IH]; intros c Hc Hlen.
  - cbn. lia.
  - cbn [boost_calls boost_successes length filter] in *. cbv zeta.
    rewrite Nat2Z.inj_succ in *.
    rewrite (sched_set_boost_step c e) by lia.
    rewrite (Z.eqb_sym 1 e).
    destruct (Z.eqb_spec e 1) as [E1 | E1].
    + subst e. cbn [fst snd Z.eqb andb length].
      destruct (IH (c + 1)) as (I1 & I2 & I3); [lia | lia |].
      rewrite Nat2Z.inj_succ. lia.
    + destruct (Z.eqb_spec e 0) as [E0 | E0]; cbn [andb].
      * subst e. destruct (Z.leb_spec 1 c); cbn [fst snd Z.eqb andb Z.opp].
        -- destruct (IH (c - 1)) as (I1 & I2 & I3); [lia | lia |]. lia.
        -- change (- EINVAL =? 0) with false. cbn [andb].
           destruct (IH c) as (I1 & I2 & I3); [lia | lia |]. lia.
      * cbn [fst snd]. change (- EINVAL =? 0) with false. cbn [andb].
        destruct (IH c) as (I1 & I2 & I3); [lia | lia |]. lia.
Qed.

(** X20.  [sched_set_boost] keeps a balanced count.  With HMP placement on,
    after any run of calls from a count that is not negative (and that many
    calls below the largest [int]), the count is the count before, plus the
    calls with argument 1, minus the calls with argument 0 that returned 0,
    and it is not negative; every call with argument 1 returns 0.  On the
    count so reached a call returns 0 or -EINVAL; it returns -EINVAL
    exactly for an argument other than 0 and 1 and for the argument 0 on a
    count of 0, and then the count stays; and the CPUs are kicked exactly
    when the argument 1 meets a count of 0.  With HMP placement off every
    call returns -EINVAL and changes nothing. *)
Theorem X20_boost_count_balanced (c : Z) (calls : list Z) :
  0 <= c -> c + Z.of_nat (length calls) < 2 ^ 31 - 1 ->
  let c' := boost_calls c calls in
  c' = c + boost_successes c calls 1 - boost_successes c calls 0 /\
  boost_successes c calls 1 = Z.of_nat (length (filter (Z.eqb 1) calls)) /\
  0 <= c' /\
  (forall enable,
     let '(ret, n, kick) := sched_set_boost true c' enable in
     (ret = 0 \/ ret = - EINVAL) /\
     (ret = - EINVAL <->
      (enable <> 0 /\ enable <> 1) \/ (enable = 0 /\ c' = 0)) /\
     (ret = - EINVAL -> n = c') /\
     (ret = 0 -> enable = 1 -> n = c' + 1) /\
     (ret = 0 -> enable = 0 -> n = c' - 1) /\
     (kick = true <-> enable = 1 /\ c' = 0)) /\
  (forall enable, sched_set_boost false c' enable = (- EINVAL, c', false)).
Proof.
  intros Hc Hlen. cbv zeta.
  destruct (boost_calls_run calls c Hc Hlen) as (R1 & R2 & R3).
  split; [exact R1 | split; [exact R2 | split; [lia |]]].
  set (c' := boost_calls c calls) in *. clearbody c'.
  assert (HE : - EINVAL = -22) by reflexivity.
  split; [| intros enable; reflexivity].
  intros enable. rewrite (sched_set_boost_step c' enable) by lia.
  destruct (Z.eqb_spec enable 1) as [E1 | E1];
    [| destruct (Z.eqb_spec enable 0) as [E0 | E0];
       destruct (Z.leb_spec 1 c'); cbn [andb]];
    destruct (Z.eqb_spec c' 0); rewrite ?HE;
    repeat split; intros; try lia; try discriminate; auto.
Qed.

(** Witness of X20: boost switched on twice and off three times, from a
    count of 0; the third switching off is refused. *)
Lemma X20_boost_count_balanced_witness :
  let calls := [1; 1; 0; 0; 0] in
  (0 <= 0 /\ 0 + Z.of_nat (length calls) < 2 ^ 31 - 1) /\
  boost_calls 0 calls
    = 0 + boost_successes 0 calls 1 - boost_successes 0 calls 0 /\
  boost_successes 0 calls 0 = 2 /\
  0 <= boost_calls 0 calls.
Proof.
  cbv zeta.
  assert (H1 : 0 <= 0) by lia.
  assert (H2 : 0 + Z.of_nat (length [1; 1; 0; 0; 0]) < 2 ^ 31 - 1)
    by (vm_compute; reflexivity).
  destruct (X20_boost_count_balanced 0 [1; 1; 0; 0; 0] H1 H2)
    as (R1 & _ & R3 & _).
  split; [split; [exact H1 | exact H2] |].
  split; [exact R1 |]. split; [reflexivity | exact R3].
Defined.


(** ** The migration thresholds *)

Lemma scale_threshold_mono f a b :
  0 <= f -> 0 <= a <= b -> b / 1000 * f < 2 ^ 32 ->
  0 <= u32 (Z.shiftr (u32 (a / 1000 * f)) 10 * 1000)
    <= u32 (Z.shiftr (u32 (b / 1000 * f)) 10 * 1000).
Proof.
  intros Hf Hab Hb.
  assert (Ha1 : 0 <= a / 1000) by (apply Z.div_pos; lia).
  assert (Hab1 : a / 1000 <= b / 1000) by (apply Z.div_le_mono; lia).
  assert (Hpa : 0 <= a / 1000 * f) by nia.
  assert (Hpab : a / 1000 * f <= b / 1000 * f) by nia.
  rewrite (u32_small (a / 1000 * f)) by (unfold is_u32; lia).
  rewrite (u32_small (b / 1000 * f)) by (unfold is_u32; lia).
  rewrite !Z.shiftr_div_pow2 by lia.
  change (2 ^ 10) with 1024.
  assert (Hqa : 0 <= a / 1000 * f / 1024) by (apply Z.div_pos; lia).
  assert (Hqab : a / 1000 * f / 1024 <= b / 1000 * f / 1024)
    by (apply Z.div_le_mono; lia).
  pose proof (Z.mul_div_le (b / 1000 * f) 1024 ltac:(lia)) as Hmb.
  rewrite (u32_small (a / 1000 * f / 1024 * 1000)) by (unfold is_u32; lia).
  rewrite (u32_small (b / 1000 * f / 1024 * 1000)) by (unfold is_u32; lia).
  lia.
Qed.

Lemma pct_to_real_range st a b :
  0 <= a <= b -> b <= 100 -> 0 <= max_task_load st < 2 ^ 32 ->
  0 <= pct_to_real st a <= pct_to_real st b /\
  pct_to_real st b <= max_task_load st.
Proof.
  intros Hab Hb Hm. unfold pct_to_real.
  assert (E32 : 2 ^ 32 = 4294967296) by reflexivity.
  assert (E64 : 2 ^ 64 = 18446744073709551616) by reflexivity.
  rewrite (u64_small (a * max_task_load st)) by (unfold is_u64; nia).
  rewrite (u64_small (b * max_task_load st)) by (unfold is_u64; nia).
  split; [split |].
  - apply Z.div_pos; nia.
  - apply Z.div_le_mono; nia.
  - apply Z.div_le_upper_bound; nia.
Qed.

(** X21.  [set_hmp_defaults] does not invert the migration thresholds.  If
    the downmigrate percentage does not exceed the upmigrate percentage and
    that is at most 100 (what the handler enforces), the maximal task load
    does not exceed the window (as with window-based load tracking), and
    scaling by [up_down_migrate_scale_factor] stays within 32 bits, then
    after [set_hmp_defaults] the threshold [sched_downmigrate] is at most
    [sched_upmigrate], which is at most the window; the gap between them
    is at least the gap between the two percentages of the maximal task
    load whenever [sched_upmigrate] leaves room for it; and with the
    neutral scale factor 1024 the thresholds are these percentages. *)
Theorem X21_migration_thresholds_not_inverted st :
  0 <= sysctl_sched_downmigrate_pct (tunables st)
    <= sysctl_sched_upmigrate_pct (tunables st) ->
  sysctl_sched_upmigrate_pct (tunables st) <= 100 ->
  0 <= max_task_load st <= sched_ravg_window st ->
  sched_ravg_window st < 2 ^ 32 ->
  0 <= up_down_migrate_scale_factor st ->
  max_task_load st / 1000 * up_down_migrate_scale_factor st < 2 ^ 32 ->
  let v := values (set_hmp_defaults st) in
  let up := pct_to_real st (sysctl_sched_upmigrate_pct (tunables st)) in
  let down := pct_to_real st (sysctl_sched_downmigrate_pct (tunables st)) in
  0 <= sched_downmigrate v <= sched_upmigrate v /\
  sched_upmigrate v <= sched_ravg_window st /\
  (up - down <= sched_upmigrate v ->
   sched_downmigrate v <= sched_upmigrate v - (up - down)) /\
  (up_down_migrate_scale_factor st = 1024 ->
   sched_upmigrate v = up /\ sched_downmigrate v = down).
Proof.
  intros Hpct H100 Hm Hw Hf Hov. cbv zeta.
  destruct (pct_to_real_range st _ _ Hpct H100 ltac:(lia)) as ((HD & HDU) & HU).
  set (U := pct_to_real st (sysctl_sched_upmigrate_pct (tunables st))) in *.
  set (D := pct_to_real st (sysctl_sched_downmigrate_pct (tunables st))) in *.
  assert (Ev : sched_upmigrate (values (set_hmp_defaults st))
               = fst (update_up_down_migrate st) /\
               sched_downmigrate (values (set_hmp_defaults st))
               = snd (update_up_down_migrate st)).
  { unfold set_hmp_defaults. destruct (update_up_down_migrate st).
    split; reflexivity. }
  destruct Ev as (-> & ->).
  unfold update_up_down_migrate. cbv zeta. fold U D.
  rewrite (u32_small U), (u32_small D) by (unfold is_u32; lia).
  destruct (Z.eqb_spec (up_down_migrate_scale_factor st) 1024) as [E | E];
    cbn [fst snd].
  { repeat split; try lia. }
  set (f := up_down_migrate_scale_factor st) in *.
  assert (HUf : U / 1000 * f < 2 ^ 32).
  { assert (U / 1000 <= max_task_load st / 1000)
      by (apply Z.div_le_mono; lia).
    assert (0 <= U / 1000) by (apply Z.div_pos; lia). nia. }
  pose proof (scale_threshold_mono f D U Hf (conj HD HDU) HUf) as Hsc.
  set (u4 := u32 (Z.shiftr (u32 (U / 1000 * f)) 10 * 1000)) in *.
  set (d4 := u32 (Z.shiftr (u32 (D / 1000 * f)) 10 * 1000)) in *.
  clearbody u4 d4.
  rewrite (u32_small (U - D)) by (unfold is_u32; lia).
  set (up' := Z.min u4 (sched_ravg_window st)).
  assert (Hup : 0 <= up' <= sched_ravg_window st) by (unfold up'; lia).
  assert (E32 : 2 ^ 32 = 4294967296) by reflexivity.
  destruct (Z.le_gt_cases (U - D) up') as [Hroom | Hnone].
  - rewrite (u32_small (up' - (U - D))) by (unfold is_u32; lia).
    repeat split; try lia.
  - assert (Hwrap : u32 (up' - (U - D)) = up' - (U - D) + 2 ^ 32).
    { unfold u32. symmetry. apply Z.mod_unique with (-1); lia. }
    rewrite Hwrap.
    assert (Hu4 : up' = u4) by (unfold up'; lia).
    repeat split; try lia.
Qed.

(** Witness of X21: the boot state with the scale factor doubled. *)
Lemma X21_migration_thresholds_not_inverted_witness :
  let st := mk_hmp true false 10000000 2048 boot_tunables
              (values boot_state) O in
  let v := values (set_hmp_defaults st) in
  0 <= sched_downmigrate v <= sched_upmigrate v /\
  sched_upmigrate v <= 10000000 /\
  sched_upmigrate v = 10000000 /\ sched_downmigrate v = 8000000.
Proof.
  cbv zeta.
  set (st := mk_hmp true false 10000000 2048 boot_tunables
               (values boot_state) O).
  assert (G1 : 0 <= sysctl_sched_downmigrate_pct (tunables st)
                 <= sysctl_sched_upmigrate_pct (tunables st))
    by (vm_compute; split; discriminate).
  assert (G2 : sysctl_sched_upmigrate_pct (tunables st) <= 100)
    by (vm_compute; discriminate).
  assert (G3 : 0 <= max_task_load st <= sched_ravg_window st)
    by (vm_compute; split; discriminate).
  assert (G4 : sched_ravg_window st < 2 ^ 32) by (vm_compute; reflexivity).
  assert (G5 : 0 <= up_down_migrate_scale_factor st)
    by (vm_compute; discriminate).
  assert (G6 : max_task_load st / 1000 * up_down_migrate_scale_factor st
               < 2 ^ 32) by (vm_compute; reflexivity).
  destruct (X21_migration_thresholds_not_inverted st G1 G2 G3 G4 G5 G6)
    as (H1 & H2 & _).
  split; [exact H1 |]. split; [exact H2 |].
  split; vm_compute; reflexivity.
Defined.
(** ** Placement and the CPUs a task may run on *)

Import Hmp.

Lemma fold_left_invariant {A B : Type} (f : A -> B -> A) (P : A -> Prop) :
  forall l a,
    P a -> (forall a b, In b l -> P a -> P (f a b)) -> P (fold_left f l a).
Proof.
  induction l as [| b l IH]; intros a Ha Hstep; [exact Ha |].
  cbn [fold_left]. apply IH.
  - apply Hstep; [left; reflexivity | exact Ha].
  - intros a' b' Hb. apply Hstep. right. exact Hb.
Qed.

Lemma table_walk_filled freq : forall costs,
  costs <> [] -> exists c, table_walk costs freq = Some c.
Proof.
  induction costs as [| [f pw] rest IH]; intros Hne; [contradiction |].
  cbn [table_walk]. destruct rest as [| e rest'].
  - exists pw. reflexivity.
  - destruct (freq <=? f); [exists pw; reflexivity |].
    apply IH. discriminate.
Qed.

Lemma power_cost_filled s tload cpu :
  tables_filled s -> exists c, power_cost s tload cpu = Some c.
Proof.
  intros Hf. unfold power_cost. cbv zeta.
  destruct (negb (sysctl_sched_enable_power_aware s)) eqn:Epa;
    [eexists; reflexivity |].
  unfold power_cost_at_freq. rewrite Epa.
  destruct (ptable (cpu_rq s cpu)) as [costs |] eqn:Et;
    [| eexists; reflexivity].
  assert (Hne : costs <> []) by (intros ->; exact (Hf cpu Et)).
  match goal with
  | |- context [table_walk costs ?f] =>
      destruct (table_walk_filled f costs Hne) as (c & ->)
  end.
  eexists; reflexivity.
Qed.

Section Affinity.

Variables (s : system) (p : task).

Let allowed := cpumask_and (cpus_allowed p) (cpu_active_mask s).

Lemma allowed_within c :
  Z.testbit allowed c = true <-> within_affinity s p c.
Proof.
  unfold allowed, within_affinity, cpumask_and, cpumask_test_cpu.
  rewrite Z.land_spec, andb_true_iff. tauto.
Qed.

Lemma andnot_subset a b c :
  Z.testbit (cpumask_andnot a b) c = true -> Z.testbit a c = true.
Proof.
  unfold cpumask_andnot. rewrite Z.ldiff_spec, andb_true_iff. tauto.
Qed.

Lemma and_subset a b c :
  Z.testbit (cpumask_and a b) c = true -> Z.testbit a c = true.
Proof.
  unfold cpumask_and. rewrite Z.land_spec, andb_true_iff. tauto.
Qed.

Lemma clear_subset i a c :
  Z.testbit (cpumask_clear_cpu i a) c = true -> Z.testbit a c = true.
Proof. unfold cpumask_clear_cpu. rewrite Z.clearbit_iff. tauto. Qed.

(** *** The scans of [best_small_task_cpu] *)

Lemma small_scan_step_allowed sync i st :
  small_scan_allowed s p st ->
  Z.testbit (search_cpu st) i = true ->
  match small_scan_step s p sync i st with
  | inl r => within_affinity s p r
  | inr st' =>
      small_scan_allowed s p st' /\
      (forall c, Z.testbit (search_cpu st') c = true ->
                 Z.testbit (search_cpu st) c = true) /\
      (well_formed s -> Z.testbit (search_cpu st') i = false)
  end.
Proof.
  unfold small_scan_allowed. fold allowed. intros (Ia & Ib & Ic & Id) Hi.
  assert (Hw : within_affinity s p i) by (apply allowed_within, Ia, Hi).
  assert (Hu : unset_or_allowed s p i) by (right; exact Hw).
  assert (Hact : Z.testbit (cpu_active_mask s) i = true) by apply Hw.
  assert (Hclr : forall c,
            Z.testbit (cpumask_clear_cpu i (search_cpu st)) c = true ->
            Z.testbit allowed c = true)
    by (intros c Hc; apply Ia, (clear_subset i), Hc).
  assert (Hgone : Z.testbit (cpumask_clear_cpu i (search_cpu st)) i = false)
    by apply Z.clearbit_eq.
  unfold small_scan_step. cbv zeta.
  repeat match goal with
  | |- context [if ?b then _ else _] => destruct b eqn:?
  end;
  try exact Hw;
  unfold small_scan_allowed; fold allowed;
  cbn [search_cpu fb_search_cpu best_busy_cpu min_cstate_cpu];
  (split; [split; [| split; [| split]] | split]);
  try assumption;
  try (intros c Hc; apply (clear_subset i), Hc);
  try (intros _; exact Hgone).
  - intros c Hc. apply Ia, (andnot_subset _ _ _ Hc).
  - intros c Hc. apply Ia, (and_subset _ _ _ Hc).
  - intros c Hc. apply (andnot_subset _ _ _ Hc).
  - intros (_ & _ & Wself & _). unfold cpumask_andnot.
    rewrite Z.ldiff_spec, (Wself i Hact). apply andb_false_r.
Qed.

Lemma small_scan_loop_allowed sync : forall fuel i st,
  small_scan_allowed s p st ->
  Z.testbit (search_cpu st) i = true ->
  match small_scan_loop fuel s p sync i st with
  | Some (inl r) => within_affinity s p r
  | Some (inr st') => small_scan_allowed s p st'
  | None =>
      ~ (well_formed s /\ (cpumask_weight s (search_cpu st) <= fuel)%nat)
  end.
Proof.
  induction fuel as [| fuel IH]; intros i st Hinv Hi.
  - cbn [small_scan_loop]. intros (wf & Hw).
    assert (Hr : In i (cpus s)).
    { apply in_cpus. apply (allowed_range s p wf). apply (proj1 Hinv). exact Hi. }
    unfold cpumask_weight in Hw.
    assert (Hin : In i (filter (fun c => Z.testbit (search_cpu st) c)
                          (cpus s)))
      by (apply filter_In; split; assumption).
    destruct (filter (fun c => Z.testbit (search_cpu st) c) (cpus s));
      [destruct Hin | cbn [length] in Hw; lia].
  - cbn [small_scan_loop].
    pose proof (small_scan_step_allowed sync i st Hinv Hi) as Hstep.
    destruct (small_scan_step s p sync i st) as [r | st']; [exact Hstep |].
    destruct Hstep as (Hinv' & Hsub & Hgone).
    pose proof (first_from_spec (nr_cpu_ids s) 0 (search_cpu st')) as Hf.
    cbv zeta in Hf. fold (cpumask_first s (search_cpu st')) in Hf.
    destruct Hf as (Hrange & Hset & Hclear).
    destruct (Z.ltb_spec (cpumask_first s (search_cpu st'))
                (Z.of_nat (nr_cpu_ids s))) as [Hlt | Hge]; [| exact Hinv'].
    assert (Hi' : Z.testbit (search_cpu st')
                    (cpumask_first s (search_cpu st')) = true)
      by (apply Hset; lia).
    specialize (IH _ st' Hinv' Hi').
    destruct (small_scan_loop fuel s p sync
                (cpumask_first s (search_cpu st')) st') as [[r | st''] |];
      try exact IH.
    intros (wf & Hw). apply IH. split; [exact wf |].
    assert (Hr : In i (cpus s)).
    { apply in_cpus. apply (allowed_range s p wf). apply (proj1 Hinv). exact Hi. }
    pose proof (filter_weight_lt
                  (fun c => Z.testbit (search_cpu st) c)
                  (fun c => Z.testbit (search_cpu st') c)
                  (cpus s) i (fun c _ => Hsub c) Hr Hi (Hgone wf)) as Hlt'.
    unfold cpumask_weight in *. lia.
Qed.

Lemma busy_scan_allowed sync mask best :
  (forall c, Z.testbit mask c = true -> Z.testbit allowed c = true) ->
  unset_or_allowed s p (fst best) ->
  unset_or_allowed s p (fst (busy_scan s p sync mask best)).
Proof.
  intros Hsub Hbest. unfold busy_scan.
  apply (fold_left_invariant _ (fun acc => unset_or_allowed s p (fst acc)));
    [exact Hbest |].
  intros [b l] i _ Hacc. cbv zeta.
  unfold cpumask_test_cpu.
  destruct (Z.testbit mask i) eqn:Em; cbn [negb]; [| exact Hacc].
  repeat match goal with
  | |- context [if ?b then _ else _] => destruct b
  end; try exact Hacc.
  right. apply allowed_within, Hsub, Em.
Qed.

Lemma fallback_scan_allowed mask :
  (forall c, Z.testbit mask c = true -> Z.testbit allowed c = true) ->
  match fallback_scan s p mask with
  | Some r => unset_or_allowed s p r
  | None => ~ tables_filled s
  end.
Proof.
  intros Hsub. unfold fallback_scan.
  set (P := fun acc : option (Z * Z) =>
              match acc with
              | Some (c, _) => unset_or_allowed s p c
              | None => ~ tables_filled s
              end).
  match goal with
  | |- match option_map fst ?f with _ => _ end => assert (H : P f)
  end.
  { apply (fold_left_invariant _ P); [left; reflexivity |].
    intros [[c m] |] i _ Hacc; [| exact Hacc]. cbv zeta.
    unfold cpumask_test_cpu.
    destruct (Z.testbit mask i) eqn:Em; cbn [negb]; [| exact Hacc].
    destruct (power_cost s (scale_load_to_cpu s (task_load p) i) i)
      as [c0 |] eqn:Ec.
    - destruct (_ || _); [| exact Hacc].
      right. apply allowed_within, Hsub, Em.
    - intros Hf.
      destruct (power_cost_filled s
                  (scale_load_to_cpu s (task_load p) i) i Hf) as (c0 & E).
      rewrite E in Ec. discriminate. }
  destruct (fold_left _ _ _) as [[c m] |]; exact H.
Qed.

Lemma best_small_task_cpu_allowed sync :
  match best_small_task_cpu s p sync with
  | Some r => unset_or_allowed s p r
  | None => ~ (well_formed s /\ tables_filled s)
  end.
Proof.
  unfold best_small_task_cpu. cbv zeta. fold allowed.
  assert (Hstart : match
            (if negb (cpumask_test_cpu (task_cpu p) allowed) then
               if cpumask_empty allowed then None
               else
                 if Z.of_nat (nr_cpu_ids s) <=? cpumask_first s allowed
                 then None else Some (cpumask_first s allowed)
             else Some (task_cpu p)) with
          | Some i => Z.testbit allowed i = true
          | None => True
          end).
  { unfold cpumask_test_cpu.
    destruct (Z.testbit allowed (task_cpu p)) eqn:Et; cbn [negb];
      [exact Et |].
    destruct (cpumask_empty allowed); [exact I |].
    pose proof (first_from_spec (nr_cpu_ids s) 0 allowed) as Hf.
    cbv zeta in Hf. fold (cpumask_first s allowed) in Hf.
    destruct Hf as (Hrange & Hset & Hclear).
    destruct (Z.leb_spec (Z.of_nat (nr_cpu_ids s))
                (cpumask_first s allowed)); [exact I |].
    apply Hset. lia. }
  match goal with
  | H : match ?start with _ => _ end |- _ =>
      destruct start as [i |]; [| left; reflexivity]
  end.
  set (st0 := mk_scan allowed CPU_MASK_NONE (-1) INT_MAX (-1) ULLONG_MAX).
  assert (Hinv0 : small_scan_allowed s p st0).
  { unfold small_scan_allowed, st0.
    cbn [search_cpu fb_search_cpu best_busy_cpu min_cstate_cpu].
    repeat split; try (left; reflexivity); try (intros c Hc; exact Hc).
    intros c Hc. unfold CPU_MASK_NONE in Hc. rewrite Z.bits_0 in Hc.
    discriminate. }
  pose proof (small_scan_loop_allowed sync (S (nr_cpu_ids s)) i st0 Hinv0
                Hstart) as Hloop.
  destruct (small_scan_loop (S (nr_cpu_ids s)) s p sync i st0)
    as [[r | st] |].
  - right. exact Hloop.
  - destruct Hloop as (Ia & Ib & Ic & Id). fold allowed in Ia, Ib.
    destruct (negb (best_busy_cpu st =? -1)); [exact Ic |].
    destruct (negb (min_cstate_cpu st =? -1)); [exact Id |].
    destruct (negb (sysctl_sched_restrict_tasks_spread s)) eqn:Esp;
      cbn [andb].
    + pose proof (busy_scan_allowed sync
                    (cpumask_andnot allowed (fb_search_cpu st))
                    (best_busy_cpu st, min_load st)
                    (fun c Hc => andnot_subset _ _ _ Hc) Ic) as Hb.
      destruct (busy_scan s p sync _ _) as [busy l]. cbn [fst] in Hb.
      destruct (negb (busy =? -1)); [exact Hb |].
      pose proof (fallback_scan_allowed (fb_search_cpu st) Ib) as Hfb.
      destruct (fallback_scan s p (fb_search_cpu st)); [exact Hfb |].
      intros (_ & Hf). exact (Hfb Hf).
    + pose proof (fallback_scan_allowed (fb_search_cpu st) Ib) as Hfb.
      destruct (fallback_scan s p (fb_search_cpu st)); [exact Hfb |].
      intros (_ & Hf). exact (Hfb Hf).
  - intros (wf & _). apply Hloop. split; [exact wf |].
    pose proof (cpumask_weight_bound s (search_cpu st0)). lia.
Qed.

(** *** The search of [select_best_cpu] *)

Lemma fallback_idle_scan_allowed sync mask acc :
  (forall c, Z.testbit mask c = true -> Z.testbit allowed c = true) ->
  unset_or_allowed s p (fst acc) ->
  unset_or_allowed s p (fst (fallback_idle_scan s p sync mask acc)).
Proof.
  intros Hsub Hacc. unfold fallback_idle_scan.
  apply (fold_left_invariant _ (fun acc => unset_or_allowed s p (fst acc)));
    [exact Hacc |].
  intros [b l] j _ Hb. cbv zeta. unfold cpumask_test_cpu.
  destruct (Z.testbit mask j) eqn:Em; cbn [negb]; [| exact Hb].
  destruct (_ && _); [| exact Hb].
  right. apply allowed_within, Hsub, Em.
Qed.

Lemma skip_cpu_filled cpu tload reason :
  tables_filled s -> skip_cpu s p cpu tload reason <> None.
Proof.
  intros Hf. unfold skip_cpu.
  destruct (reason =? 0); [discriminate |].
  destruct (reserved (cpu_rq s cpu)); [discriminate |].
  destruct (reason =? EA_MIGRATION); [| discriminate].
  destruct (power_cost_filled s tload cpu Hf) as (a & ->).
  destruct (power_cost_filled s tload (task_cpu p) Hf) as (b & ->).
  discriminate.
Qed.

Lemma search_step_allowed reason sync pref over i st :
  search_allowed s p st ->
  Z.testbit (search_cpus st) i = true ->
  match search_step s p reason sync pref over i st with
  | Some st' => search_allowed s p st'
  | None => ~ tables_filled s
  end.
Proof.
  unfold search_allowed. fold allowed. intros (Ia & Ib & Ic & Id) Hi.
  assert (Hinv : search_allowed s p st)
    by (unfold search_allowed; fold allowed; auto).
  assert (Hu : unset_or_allowed s p i)
    by (right; apply allowed_within, Ia, Hi).
  assert (Hm : unset_or_allowed s p (-1)) by (left; reflexivity).
  assert (Hwo : forall c,
            Z.testbit (cpumask_andnot (search_cpus st)
                         (freq_domain_cpumask (cpu_rq s i))) c = true ->
            Z.testbit allowed c = true)
    by (intros c Hc; apply Ia, (andnot_subset _ _ _ Hc)).
  unfold search_step. cbv zeta.
  destruct (skip_freq_domain s (task_cpu p) i reason pref).
  { unfold search_allowed. fold allowed.
    cbn [search_cpus best_cpu fallback_idle_cpu g_min_cstate_cpu]. auto. }
  pose proof (skip_cpu_filled i (scale_load_to_cpu s (task_load p) i)
                reason) as Hskip.
  destruct (skip_cpu s p i (scale_load_to_cpu s (task_load p) i) reason)
    as [[|] |]; [exact Hinv | | intros Hf; exact (Hskip Hf eq_refl)].
  clear Hskip.
  destruct (_ || negb _).
  { pose proof (fallback_idle_scan_allowed sync
                  (cpumask_and (search_cpus st)
                     (freq_domain_cpumask (cpu_rq s i)))
                  (fallback_idle_cpu st, min_fallback_load st)
                  (fun c Hc => Ia c (and_subset _ _ _ Hc)) Ic) as Hfb.
    destruct (fallback_idle_scan s p sync _ _) as [fb fb_load].
    cbn [fst] in Hfb. unfold search_allowed. fold allowed.
    cbn [search_cpus best_cpu fallback_idle_cpu g_min_cstate_cpu]. auto. }
  destruct (negb (eligible_cpu s _ _ i sync)).
  { unfold search_allowed. fold allowed.
    cbn [search_cpus best_cpu fallback_idle_cpu g_min_cstate_cpu]. auto. }
  destruct (power_cost s (scale_load_to_cpu s (task_load p) i) i)
    as [c |] eqn:Ec.
  2: { intros Hf.
       destruct (power_cost_filled s
                   (scale_load_to_cpu s (task_load p) i) i Hf) as (c & E).
       rewrite E in Ec. discriminate. }
  cbn [search_cpus best_cpu fallback_idle_cpu min_fallback_load
       g_min_cstate_cpu g_min_cstate min_cost min_idle_cost min_busy_cost
       g_min_load g_prefer_idle].
  repeat match goal with
  | |- context [if ?b then _ else _] => destruct b
  end;
  cbn [search_cpus best_cpu fallback_idle_cpu min_fallback_load
       g_min_cstate_cpu g_min_cstate min_cost min_idle_cost min_busy_cost
       g_min_load g_prefer_idle];
  repeat match goal with
  | |- context [if ?b then _ else _] => destruct b
  end;
  unfold search_allowed; fold allowed;
  cbn [search_cpus best_cpu fallback_idle_cpu g_min_cstate_cpu]; auto.
Qed.

Lemma search_loop_allowed reason sync pref over st :
  search_allowed s p st ->
  match search_loop s p reason sync pref over st with
  | Some st' => search_allowed s p st'
  | None => ~ tables_filled s
  end.
Proof.
  intros Hinv. unfold search_loop.
  apply (fold_left_invariant _
           (fun acc : option search =>
              match acc with
              | Some st' => search_allowed s p st'
              | None => ~ tables_filled s
              end)); [exact Hinv |].
  intros [st' |] i _ Hacc; [| exact Hacc].
  unfold cpumask_test_cpu.
  destruct (Z.testbit (search_cpus st') i) eqn:Ei; [| exact Hacc].
  apply search_step_allowed; assumption.
Qed.

Lemma select_packing_target_allowed best :
  match select_packing_target s p best with
  | Some r => r = best \/ within_affinity s p r
  | None => ~ tables_filled s
  end.
Proof.
  unfold select_packing_target. cbv zeta.
  destruct (_ <=? _); [left; reflexivity |].
  destruct (_ <=? _); [left; reflexivity |].
  set (P := fun acc : option (Z * Z) =>
              match acc with
              | Some (c, _) => c = best \/ within_affinity s p c
              | None => ~ tables_filled s
              end).
  match goal with
  | |- match option_map fst ?f with _ => _ end => assert (H : P f)
  end.
  { apply (fold_left_invariant _ P); [left; reflexivity |].
    intros [[c m] |] i _ Hacc; [| exact Hacc].
    unfold cpumask_test_cpu.
    match goal with
    | |- context [Z.testbit ?mask i] => destruct (Z.testbit mask i) eqn:Em
    end; cbn [negb]; [| exact Hacc].
    destruct (power_cost s (scale_load_to_cpu s (task_load p) i) i)
      as [c0 |] eqn:Ec.
    - cbv zeta. destruct (_ && _); [| exact Hacc].
      right. apply allowed_within. apply (and_subset _ _ _ Em).
    - intros Hf.
      destruct (power_cost_filled s
                  (scale_load_to_cpu s (task_load p) i) i Hf) as (c0 & E).
      rewrite E in Ec. discriminate. }
  destruct (fold_left _ _ _) as [[c m] |]; exact H.
Qed.

End Affinity.

Lemma set_cpu_within s p c :
  unset_or_allowed s p c -> (c <? 0) = false -> within_affinity s p c.
Proof.
  intros [-> | H] Hc; [discriminate Hc | exact H].
Qed.

(** X22.  [select_best_cpu] does not leave the CPUs the task may run on:
    whatever the system, the task, the migration reason and the sync flag,
    a CPU it returns is the CPU the task is on ([task_cpu]), or a CPU that
    is both allowed for the task and active.  And it does return a CPU when
    every active CPU belongs to its own frequency domain (with the other
    conditions of [well_formed]) and no CPU has an empty power table. *)
Theorem X22_select_best_cpu_within_affinity s p reason sync :
  (forall c, select_best_cpu s p reason sync = Some c ->
     c = task_cpu p \/ within_affinity s p c) /\
  (well_formed s -> tables_filled s ->
   exists c, select_best_cpu s p reason sync = Some c).
Proof.
  assert (H : match select_best_cpu s p reason sync with
              | Some c => c = task_cpu p \/ within_affinity s p c
              | None => ~ (well_formed s /\ tables_filled s)
              end).
  { unfold select_best_cpu. cbv zeta.
    match goal with
    | |- match (match ?F with _ => _ end) with _ => _ end =>
        set (found := F)
    end.
    assert (Hfound : match found with
                     | Some (b, f) =>
                         unset_or_allowed s p b /\ unset_or_allowed s p f
                     | None => ~ (well_formed s /\ tables_filled s)
                     end).
    { subst found.
      match goal with
      | |- match (if ?c then _ else _) with _ => _ end => destruct c
      end.
      - match goal with
        | |- context [best_small_task_cpu s p ?sy] =>
            pose proof (best_small_task_cpu_allowed s p sy) as Hs;
            destruct (best_small_task_cpu s p sy)
        end; [| exact Hs].
        split; [exact Hs | left; reflexivity].
      - match goal with
        | |- match (if ?c then _ else _) with _ => _ end =>
            destruct c eqn:Esync
        end.
        + apply andb_true_iff in Esync. destruct Esync as (_ & Hin).
          split; [| left; reflexivity].
          right. apply allowed_within. exact Hin.
        + match goal with
          | |- context [search_loop s p reason ?sy ?pref ?over ?st0] =>
              assert (Hinv0 : search_allowed s p st0);
              [| pose proof (search_loop_allowed s p reason sy pref over
                               st0 Hinv0) as Hl;
                 destruct (search_loop s p reason sy pref over st0)
                   as [st |]]
          end.
          * unfold search_allowed.
            cbn [search_cpus best_cpu fallback_idle_cpu g_min_cstate_cpu].
            repeat split; try (left; reflexivity).
            intros c Hc. exact Hc.
          * destruct Hl as (_ & Hb & Hf & Hc).
            split; [| exact Hf].
            match goal with
            | |- context [if ?c then _ else _] => destruct c
            end; assumption.
          * intros (_ & Hf). exact (Hl Hf). }
    clearbody found. destruct found as [[b f] |]; [| exact Hfound].
    destruct Hfound as (Hb & Hf).
    match goal with
    | |- context [select_packing_target s p ?best] =>
        set (best_cpu' := best);
        assert (Hbest : best_cpu' = task_cpu p
                        \/ within_affinity s p best_cpu')
    end.
    { subst best_cpu'.
      destruct (b <? 0) eqn:Eb;
        [| right; apply (set_cpu_within s p b Hb Eb)].
      destruct (f <? 0) eqn:Ef;
        [left; reflexivity | right; apply (set_cpu_within s p f Hf Ef)]. }
    clearbody best_cpu'.
    destruct (_ && _); [| exact Hbest].
    pose proof (select_packing_target_allowed s p best_cpu') as Hp.
    destruct (select_packing_target s p best_cpu') as [r |].
    - destruct Hp as [-> | Hp]; [exact Hbest | right; exact Hp].
    - intros (_ & Hfl). exact (Hp Hfl). }
  split.
  - intros c E. rewrite E in H. exact H.
  - intros wf Hf. destruct (select_best_cpu s p reason sync) as [c |].
    + exists c. reflexivity.
    + exfalso. apply H. split; assumption.
Qed.

(** Witness of X22: the small task that last ran on the busy CPU 1 of
    [mostly_idle_and_busy], which has no power tables. *)
Lemma X22_select_best_cpu_within_affinity_witness :
  let s := mostly_idle_and_busy in
  let p := small_task_on 1 in
  (well_formed s /\ tables_filled s) /\
  exists c, select_best_cpu s p 0 false = Some c.
Proof.
  cbv zeta.
  assert (Hf : tables_filled mostly_idle_and_busy).
  { intros c. cbn. destruct (c =? 0); discriminate. }
  split; [split; [exact mostly_idle_and_busy_well_formed | exact Hf] |].
  exact (proj2 (X22_select_best_cpu_within_affinity mostly_idle_and_busy
                  (small_task_on 1) 0 false)
           mostly_idle_and_busy_well_formed Hf).
Defined.

(** ** The slices of a queue *)

Import Weight Tunables Cfs.




